(** * The WKB decoder and geometry introspection of the geo extension

    A shallow embedding of [src/geo/liblwgeom/lwin_wkb.cpp] (the recursive
    WKB parser) and of the introspection helpers of
    [src/geo/liblwgeom/lwgeom.cpp], with the properties of the decoder
    stated and proved over it.

    Conventions.
    - A byte buffer is a [list byte]; a pointer into it is an offset ([Z]).
    - [uint32_t] values are [Z] in [0, 2^32); a [double] is its IEEE-754
      binary64 bit pattern, a [Z] in [0, 2^64).
    - The parse state [wkb_parse_state] is threaded through a state monad
      whose outcomes distinguish a normal return, an [lwerror] that does not
      return, a read outside the buffer, and exhaustion of the recursion
      budget of the model.
    - Distances, in [ST_distance] of
      [src/geo/postgis/lwgeom_functions_basic.cpp], are binary64 numbers of
      the kernel ([PrimFloat.float]). *)

From Stdlib Require Import ZArith List Bool Lia.
From Stdlib Require Import Strings.Byte.
From Stdlib Require Floats.
Import ListNotations.
Local Open Scope Z_scope.

Set Implicit Arguments.

(* ================================================================== *)
(** ** Bytes and host memory                                            *)
(* ================================================================== *)

Definition byte_to_Z (b : byte) : Z := Z.of_N (Byte.to_N b).

Definition byte_of_Z (z : Z) : byte :=
  match Byte.of_N (Z.to_N (z mod 256)) with
  | Some b => b
  | None => x00
  end.

(** The value of a little-endian byte string. *)
Fixpoint le_value (mem : list byte) : Z :=
  match mem with
  | [] => 0
  | b :: rest => byte_to_Z b + 256 * le_value rest
  end.

(** The [n] low-order bytes of [v], least significant first. *)
Fixpoint le_bytes (n : nat) (v : Z) : list byte :=
  match n with
  | O => []
  | S k => byte_of_Z v :: le_bytes k (v / 256)
  end.

(** [list] update by index; out of range it leaves the list alone (the
    code only writes inside its stack objects). *)
Fixpoint upd {A} (i : nat) (x : A) (l : list A) : list A :=
  match l, i with
  | [], _ => []
  | _ :: t, O => x :: t
  | h :: t, S j => h :: upd j x t
  end.

(** The in-place byte reversal loop shared by [integer_from_wkb_state] and
    [double_from_wkb_state]:
    [for (j = 0; j < SIZE / 2; j++) { tmp = p[j]; p[j] = p[SIZE - j - 1];
    p[SIZE - j - 1] = tmp; }].  [iters] counts the iterations left. *)
Fixpoint swap_loop (iters : nat) (j : nat) (size : nat) (p : list byte)
  : list byte :=
  match iters with
  | O => p
  | S k =>
      let tmp := nth j p x00 in
      let p1 := upd j (nth (size - j - 1) p x00) p in
      let p2 := upd (size - j - 1) tmp p1 in
      swap_loop k (S j) size p2
  end.

Definition swap_in_place (size : nat) (p : list byte) : list byte :=
  swap_loop (Nat.div size 2) 0 size p.

(* ================================================================== *)
(** ** Constants of the wire format                                     *)
(* ================================================================== *)

(** Modelled from the spec: the sizes of the WKB fields ("Read 1
    endian-indicator byte", "a 4-byte type code", "8-byte doubles"); the
    macros [WKB_BYTE_SIZE], [WKB_INT_SIZE] and [WKB_DOUBLE_SIZE] are declared
    outside [src/]. *)
Definition WKB_BYTE_SIZE : Z := 1.
Definition WKB_INT_SIZE : Z := 4.
Definition WKB_DOUBLE_SIZE : Z := 8.

(** Modelled from the spec: the extended-type flag bits of the external
    interface ("0x80000000=hasZ, 0x40000000=hasM, 0x20000000=hasSRID"); the
    macros are declared outside [src/]. *)
Definition WKBZOFFSET : Z := 0x80000000.
Definition WKBMOFFSET : Z := 0x40000000.
Definition WKBSRIDFLAG : Z := 0x20000000.

(** Modelled from the spec: the enumeration table of WKB type numbers
    ("Point=1, LineString=2, ..., Curve=13, Surface=14, PolyhedralSurface=15,
    TIN=16, Triangle=17"); the macros are declared outside [src/]. *)
Definition WKB_POINT_TYPE : Z := 1.
Definition WKB_LINESTRING_TYPE : Z := 2.
Definition WKB_POLYGON_TYPE : Z := 3.
Definition WKB_MULTIPOINT_TYPE : Z := 4.
Definition WKB_MULTILINESTRING_TYPE : Z := 5.
Definition WKB_MULTIPOLYGON_TYPE : Z := 6.
Definition WKB_GEOMETRYCOLLECTION_TYPE : Z := 7.
Definition WKB_CIRCULARSTRING_TYPE : Z := 8.
Definition WKB_COMPOUNDCURVE_TYPE : Z := 9.
Definition WKB_CURVEPOLYGON_TYPE : Z := 10.
Definition WKB_MULTICURVE_TYPE : Z := 11.
Definition WKB_MULTISURFACE_TYPE : Z := 12.
Definition WKB_CURVE_TYPE : Z := 13.
Definition WKB_SURFACE_TYPE : Z := 14.
Definition WKB_POLYHEDRALSURFACE_TYPE : Z := 15.
Definition WKB_TIN_TYPE : Z := 16.
Definition WKB_TRIANGLE_TYPE : Z := 17.

(** [#define LW_PARSER_MAX_DEPTH 200] *)
Definition LW_PARSER_MAX_DEPTH : Z := 200.

Definition UINT_MAX : Z := 4294967295.

(** [static uint32_t maxpoints = UINT_MAX / WKB_DOUBLE_SIZE / 4;] *)
Definition maxpoints : Z := UINT_MAX / WKB_DOUBLE_SIZE / 4.

(** Arithmetic in [uint32_t] and [uint8_t]. *)
Definition uint32 (z : Z) : Z := z mod 4294967296.
Definition uint8 (z : Z) : Z := z mod 256.

(** The implicit conversion of a [uint32_t] to the [int32_t] parameter of
    [clamp_srid]. *)
Definition int32_of_uint32 (z : Z) : Z :=
  if z >=? 2147483648 then z - 4294967296 else z.

(* ================================================================== *)
(** ** The geometry object model                                        *)
(* ================================================================== *)

(** The geometry kinds.  [LWTYPE_NONE] is the [0] that [lwgeom_from_wkb]
    stores in [s.lwtype] before any type number has been decoded. *)
Inductive lwtype_t : Type :=
| LWTYPE_NONE
| POINTTYPE
| LINETYPE
| POLYGONTYPE
| MULTIPOINTTYPE
| MULTILINETYPE
| MULTIPOLYGONTYPE
| COLLECTIONTYPE
| CIRCSTRINGTYPE
| COMPOUNDTYPE
| CURVEPOLYTYPE
| MULTICURVETYPE
| MULTISURFACETYPE
| POLYHEDRALSURFACETYPE
| TRIANGLETYPE
| TINTYPE.

Definition lwtype_eqb (a b : lwtype_t) : bool :=
  match a, b with
  | LWTYPE_NONE, LWTYPE_NONE | POINTTYPE, POINTTYPE | LINETYPE, LINETYPE
  | POLYGONTYPE, POLYGONTYPE | MULTIPOINTTYPE, MULTIPOINTTYPE
  | MULTILINETYPE, MULTILINETYPE | MULTIPOLYGONTYPE, MULTIPOLYGONTYPE
  | COLLECTIONTYPE, COLLECTIONTYPE | CIRCSTRINGTYPE, CIRCSTRINGTYPE
  | COMPOUNDTYPE, COMPOUNDTYPE | CURVEPOLYTYPE, CURVEPOLYTYPE
  | MULTICURVETYPE, MULTICURVETYPE | MULTISURFACETYPE, MULTISURFACETYPE
  | POLYHEDRALSURFACETYPE, POLYHEDRALSURFACETYPE
  | TRIANGLETYPE, TRIANGLETYPE | TINTYPE, TINTYPE => true
  | _, _ => false
  end.

(** A [double], as its 64-bit pattern. *)
Definition double := Z.

(** [std::isnan] on a bit pattern: all exponent bits set and a non-zero
    fraction. *)
Definition isnan (d : double) : bool :=
  (Z.land d 0x7FF0000000000000 =? 0x7FF0000000000000)
  && negb (Z.land d 0x000FFFFFFFFFFFFF =? 0).

(** A point array: dimensionality flags, the number of points and the
    coordinates, [npoints * ndims] doubles in storage order. *)
Record POINTARRAY : Type := mkPOINTARRAY {
  pa_has_z : bool;
  pa_has_m : bool;
  npoints : Z;
  serialized_pointlist : list double
}.

(** The geometry tree.  Lines, circular strings and triangles carry one
    point array; a polygon carries its rings; a curve polygon carries ring
    geometries; every other collection kind is an [LWCOLLECTION] tagged with
    its kind. *)
#[local] Unset Elimination Schemes.
Inductive LWGEOM : Type :=
| LWPOINT (srid : Z) (hasz hasm : bool) (point : POINTARRAY)
| LWLINE (srid : Z) (hasz hasm : bool) (points : POINTARRAY)
| LWCIRCSTRING (srid : Z) (hasz hasm : bool) (points : POINTARRAY)
| LWTRIANGLE (srid : Z) (hasz hasm : bool) (points : POINTARRAY)
| LWPOLY (srid : Z) (hasz hasm : bool) (rings : list POINTARRAY)
| LWCURVEPOLY (srid : Z) (hasz hasm : bool) (rings : list LWGEOM)
| LWCOLLECTION (type : lwtype_t) (srid : Z) (hasz hasm : bool)
               (geoms : list LWGEOM).
#[local] Set Elimination Schemes.

(** [geom->type] *)
Definition lwgeom_type (g : LWGEOM) : lwtype_t :=
  match g with
  | LWPOINT _ _ _ _ => POINTTYPE
  | LWLINE _ _ _ _ => LINETYPE
  | LWCIRCSTRING _ _ _ _ => CIRCSTRINGTYPE
  | LWTRIANGLE _ _ _ _ => TRIANGLETYPE
  | LWPOLY _ _ _ _ => POLYGONTYPE
  | LWCURVEPOLY _ _ _ _ => CURVEPOLYTYPE
  | LWCOLLECTION t _ _ _ _ => t
  end.

(** [geom->srid] *)
Definition lwgeom_srid (g : LWGEOM) : Z :=
  match g with
  | LWPOINT s _ _ _ | LWLINE s _ _ _ | LWCIRCSTRING s _ _ _
  | LWTRIANGLE s _ _ _ | LWPOLY s _ _ _ | LWCURVEPOLY s _ _ _
  | LWCOLLECTION _ s _ _ _ => s
  end.

(* ================================================================== *)
(** ** What the decoder takes from the rest of liblwgeom                *)
(* ================================================================== *)

(** The parts of liblwgeom that the decoder uses and that are declared
    outside [src/]: the byte order of the host, the values of the check
    bits, the unknown-SRID sentinel, [clamp_srid], which children a container
    accepts, and whether the installed error handler lets [lwerror] return to
    its caller. *)
Class liblwgeom : Type := {
  IS_BIG_ENDIAN : bool;
  lwerror_returns : bool;
  SRID_UNKNOWN : Z;
  clamp_srid : Z -> Z;
  LW_PARSER_CHECK_MINPOINTS : Z;
  LW_PARSER_CHECK_ODD : Z;
  LW_PARSER_CHECK_CLOSURE : Z;
  LW_PARSER_CHECK_ZCLOSURE : Z;
  (** [lwcollection_add_lwgeom] accepts a child of this kind in a collection
      of that kind *)
  lwcollection_allows_subtype : lwtype_t -> lwtype_t -> bool;
  (** [lwcurvepoly_add_ring] accepts a ring of this kind *)
  lwcurvepoly_allows_ring : lwtype_t -> bool
}.

(** The messages handed to [lwerror]. *)
Inductive lwerror_msg : Type :=
| WKB_structure_does_not_match_expected_size
| Unknown_WKB_type
| Invalid_endian_flag_value
| must_have_at_least_two_points
| must_have_at_least_four_points_in_each_ring
| must_have_closed_rings
| Unable_to_add_ring_to_polygon
| Triangle_has_wrong_number_of_rings
| must_have_at_least_four_points
| Unable_to_add_geometry_to_curvepoly
| Unable_to_add_geometry_to_collection
| Geometry_has_too_many_chained_collections
| Unsupported_geometry_type.

(* ================================================================== *)
(** ** The parse state                                                  *)
(* ================================================================== *)

(** Bookkeeping of the call stack, which C keeps implicitly: how many
    activations of [lwgeom_from_wkb_state] are live, how many of them were
    entered from the ring loop of a curve polygon, and the highest values
    reached.  No field of it is ever read by the decoder. *)
Record call_stack : Type := mkCallStack {
  frames : nat;
  ring_frames : nat;
  peak_frames : nat;
  peak_counted : nat
}.

(** [wkb_parse_state], with [pos] an offset from [wkb]. *)
Record wkb_parse_state : Type := mkState {
  wkb : list byte;
  srid : Z;
  wkb_size : Z;
  swap_bytes : bool;
  check : Z;
  lwtype : lwtype_t;
  has_z : bool;
  has_m : bool;
  has_srid : bool;
  error : bool;
  depth : Z;
  pos : Z;
  stack : call_stack
}.

Definition set_srid (v : Z) (s : wkb_parse_state) : wkb_parse_state :=
  mkState (wkb s) v (wkb_size s) (swap_bytes s) (check s) (lwtype s)
          (has_z s) (has_m s) (has_srid s) (error s) (depth s) (pos s)
          (stack s).
Definition set_swap_bytes (v : bool) (s : wkb_parse_state) :=
  mkState (wkb s) (srid s) (wkb_size s) v (check s) (lwtype s)
          (has_z s) (has_m s) (has_srid s) (error s) (depth s) (pos s)
          (stack s).
Definition set_check (v : Z) (s : wkb_parse_state) :=
  mkState (wkb s) (srid s) (wkb_size s) (swap_bytes s) v (lwtype s)
          (has_z s) (has_m s) (has_srid s) (error s) (depth s) (pos s)
          (stack s).
Definition set_lwtype (v : lwtype_t) (s : wkb_parse_state) :=
  mkState (wkb s) (srid s) (wkb_size s) (swap_bytes s) (check s) v
          (has_z s) (has_m s) (has_srid s) (error s) (depth s) (pos s)
          (stack s).
Definition set_has_z (v : bool) (s : wkb_parse_state) :=
  mkState (wkb s) (srid s) (wkb_size s) (swap_bytes s) (check s) (lwtype s)
          v (has_m s) (has_srid s) (error s) (depth s) (pos s) (stack s).
Definition set_has_m (v : bool) (s : wkb_parse_state) :=
  mkState (wkb s) (srid s) (wkb_size s) (swap_bytes s) (check s) (lwtype s)
          (has_z s) v (has_srid s) (error s) (depth s) (pos s) (stack s).
Definition set_has_srid (v : bool) (s : wkb_parse_state) :=
  mkState (wkb s) (srid s) (wkb_size s) (swap_bytes s) (check s) (lwtype s)
          (has_z s) (has_m s) v (error s) (depth s) (pos s) (stack s).
Definition set_error (v : bool) (s : wkb_parse_state) :=
  mkState (wkb s) (srid s) (wkb_size s) (swap_bytes s) (check s) (lwtype s)
          (has_z s) (has_m s) (has_srid s) v (depth s) (pos s) (stack s).
Definition set_depth (v : Z) (s : wkb_parse_state) :=
  mkState (wkb s) (srid s) (wkb_size s) (swap_bytes s) (check s) (lwtype s)
          (has_z s) (has_m s) (has_srid s) (error s) v (pos s) (stack s).
Definition set_pos (v : Z) (s : wkb_parse_state) :=
  mkState (wkb s) (srid s) (wkb_size s) (swap_bytes s) (check s) (lwtype s)
          (has_z s) (has_m s) (has_srid s) (error s) (depth s) v (stack s).
Definition set_stack (v : call_stack) (s : wkb_parse_state) :=
  mkState (wkb s) (srid s) (wkb_size s) (swap_bytes s) (check s) (lwtype s)
          (has_z s) (has_m s) (has_srid s) (error s) (depth s) (pos s) v.

(* ================================================================== *)
(** ** The monad of the parsing functions                               *)
(* ================================================================== *)

(** What a parsing function can do: return [a] in state [s]; call an
    [lwerror] that does not come back; read outside the buffer ([Fault], the
    undefined behaviour that the bounds checks exist to prevent); or need
    more nested activations than the model was given ([Fuel]). *)
Inductive outcome (A : Type) : Type :=
| Ret (a : A) (s : wkb_parse_state)
| Raise (e : lwerror_msg) (s : wkb_parse_state)
| Fault (s : wkb_parse_state)
| Fuel.
Arguments Raise {A} e s.
Arguments Fault {A} s.
Arguments Fuel {A}.

Definition M (A : Type) : Type := wkb_parse_state -> outcome A.

Definition ret {A} (a : A) : M A := fun s => Ret a s.

Definition bind {A B} (m : M A) (f : A -> M B) : M B :=
  fun s =>
    match m s with
    | Ret a s' => f a s'
    | Raise e s' => Raise e s'
    | Fault s' => Fault s'
    | Fuel => Fuel
    end.

Declare Scope wkb_scope.
Delimit Scope wkb_scope with wkb.
Notation "x <- m ;; k" := (bind m (fun x => k))
  (at level 61, m at next level, right associativity) : wkb_scope.
Notation "m ;; k" := (bind m (fun _ => k))
  (at level 61, right associativity) : wkb_scope.
Local Open Scope wkb_scope.

(** Read a field of the state. *)
Definition gets {A} (f : wkb_parse_state -> A) : M A := fun s => Ret (f s) s.

(** Assign to a field of the state. *)
Definition modify (f : wkb_parse_state -> wkb_parse_state) : M unit :=
  fun s => Ret tt (f s).

Definition when (c : bool) (m : M unit) : M unit :=
  if c then m else ret tt.

Definition out_of_fuel {A} : M A := fun _ => Fuel.

(** The state an outcome ends in, when it has one. *)
Definition final_state {A} (o : outcome A) : option wkb_parse_state :=
  match o with
  | Ret _ s | Raise _ s | Fault s => Some s
  | Fuel => None
  end.

(** The geometry an outcome hands to the caller: [None] is the NULL pointer
    and every outcome but a normal return hands over nothing. *)
Definition returned {A} (o : outcome (option A)) : option A :=
  match o with
  | Ret r _ => r
  | _ => None
  end.

(* ================================================================== *)
(** ** Construction helpers of liblwgeom                                *)
(* ================================================================== *)

(** Modelled from the spec: the constructors of the object model
    ([ptarray_construct], [lwpoint_construct], [lwline_construct_empty] and
    the like, defined outside [src/]) build the variant of the data model
    they are named after from the SRID, the dimension flags and the payload
    they are given; an empty geometry has a point array of zero points, no
    ring or no child. *)
Definition ptarray_construct (hasz hasm : bool) (n : Z) (dlist : list double)
  : POINTARRAY := mkPOINTARRAY hasz hasm n dlist.

Definition lwpoint_construct_empty (srid : Z) (hasz hasm : bool) : LWGEOM :=
  LWPOINT srid hasz hasm (ptarray_construct hasz hasm 0 []).
Definition lwpoint_construct (srid : Z) (pa : POINTARRAY) : LWGEOM :=
  LWPOINT srid (pa_has_z pa) (pa_has_m pa) pa.

Definition lwline_construct_empty (srid : Z) (hasz hasm : bool) : LWGEOM :=
  LWLINE srid hasz hasm (ptarray_construct hasz hasm 0 []).
Definition lwline_construct (srid : Z) (pa : POINTARRAY) : LWGEOM :=
  LWLINE srid (pa_has_z pa) (pa_has_m pa) pa.

Definition lwcircstring_construct_empty (srid : Z) (hasz hasm : bool)
  : LWGEOM := LWCIRCSTRING srid hasz hasm (ptarray_construct hasz hasm 0 []).
Definition lwcircstring_construct (srid : Z) (pa : POINTARRAY) : LWGEOM :=
  LWCIRCSTRING srid (pa_has_z pa) (pa_has_m pa) pa.

Definition lwtriangle_construct_empty (srid : Z) (hasz hasm : bool)
  : LWGEOM := LWTRIANGLE srid hasz hasm (ptarray_construct hasz hasm 0 []).
Definition lwtriangle_construct (srid : Z) (pa : POINTARRAY) : LWGEOM :=
  LWTRIANGLE srid (pa_has_z pa) (pa_has_m pa) pa.

Definition lwpoly_construct_empty (srid : Z) (hasz hasm : bool) : LWGEOM :=
  LWPOLY srid hasz hasm [].
Definition lwcurvepoly_construct_empty (srid : Z) (hasz hasm : bool)
  : LWGEOM := LWCURVEPOLY srid hasz hasm [].
Definition lwcollection_construct_empty (type : lwtype_t) (srid : Z)
  (hasz hasm : bool) : LWGEOM := LWCOLLECTION type srid hasz hasm [].

(** Modelled from the spec: [lwpoly_add_ring] (defined outside [src/])
    appends the ring, "first ring becomes the shell, remainder holes";
    [None] is [LW_FAILURE]. *)
Definition lwpoly_add_ring (poly : LWGEOM) (pa : POINTARRAY) : option LWGEOM :=
  match poly with
  | LWPOLY srid hasz hasm rings => Some (LWPOLY srid hasz hasm (rings ++ [pa]))
  | _ => None
  end.

(** The coordinates of point [i] of a point array. *)
Definition ptarray_ndims (pa : POINTARRAY) : Z :=
  2 + Z.b2z (pa_has_z pa) + Z.b2z (pa_has_m pa).
Definition getPoint (pa : POINTARRAY) (i : Z) : list double :=
  firstn (Z.to_nat (ptarray_ndims pa))
         (skipn (Z.to_nat (i * ptarray_ndims pa)) (serialized_pointlist pa)).

(** Modelled from the spec: [ptarray_is_closed_2d] and [ptarray_is_closed_z]
    (defined outside [src/]): "first and last tuple (X,Y only) must compare
    bit-for-bit equal", and on Z too for the Z-closure check. *)
Definition doubles_eqb (a b : list double) : bool :=
  (Nat.eqb (length a) (length b))
  && forallb (fun xy => fst xy =? snd xy) (combine a b).
Definition ptarray_is_closed_2d (pa : POINTARRAY) : bool :=
  (0 <? npoints pa)
  && doubles_eqb (firstn 2 (getPoint pa 0))
                 (firstn 2 (getPoint pa (npoints pa - 1))).
Definition ptarray_is_closed_z (pa : POINTARRAY) : bool :=
  if pa_has_z pa
  then (0 <? npoints pa)
       && doubles_eqb (firstn 3 (getPoint pa 0))
                      (firstn 3 (getPoint pa (npoints pa - 1)))
  else ptarray_is_closed_2d pa.

(* ================================================================== *)
(** ** Geometry introspection                                           *)
(* ================================================================== *)

Section ForallChildren.
Variable f : LWGEOM -> bool.
(** [for (i = 0; i < ngeoms; i++)] over the children, all of them passing. *)
Fixpoint all_geoms (l : list LWGEOM) : bool :=
  match l with
  | [] => true
  | g :: rest => f g && all_geoms rest
  end.
End ForallChildren.

Section SumChildren.
Variable f : LWGEOM -> Z.
Fixpoint sum_geoms (l : list LWGEOM) : Z :=
  match l with
  | [] => 0
  | g :: rest => f g + sum_geoms rest
  end.
End SumChildren.

(** Modelled from the spec: [lwgeom_is_empty] (defined outside [src/]):
    "an empty geometry (zero vertices / zero children, recursively)". *)
Fixpoint lwgeom_is_empty (g : LWGEOM) : bool :=
  match g with
  | LWPOINT _ _ _ pa | LWLINE _ _ _ pa | LWCIRCSTRING _ _ _ pa
  | LWTRIANGLE _ _ _ pa => npoints pa <? 1
  | LWPOLY _ _ _ rings => forallb (fun pa => npoints pa <? 1) rings
  | LWCURVEPOLY _ _ _ rings => all_geoms lwgeom_is_empty rings
  | LWCOLLECTION _ _ _ _ geoms => all_geoms lwgeom_is_empty geoms
  end.

(** Modelled from the spec: the per-kind vertex counters
    [lwline_count_vertices] and [lwpoly_count_vertices] (defined outside
    [src/]), "pure structural recursion": the points of the point array, and
    of all rings. *)
Definition lwline_count_vertices (pa : POINTARRAY) : Z := npoints pa.
Definition lwpoly_count_vertices (rings : list POINTARRAY) : Z :=
  fold_right (fun pa acc => npoints pa + acc) 0 rings.

(** The kinds under the collection [case] labels of
    [lwgeom_count_vertices]. *)
Definition counts_as_collection (t : lwtype_t) : bool :=
  match t with
  | COMPOUNDTYPE | CURVEPOLYTYPE | MULTICURVETYPE | MULTISURFACETYPE
  | MULTIPOINTTYPE | MULTILINETYPE | MULTIPOLYGONTYPE
  | POLYHEDRALSURFACETYPE | TINTYPE | COLLECTIONTYPE => true
  | _ => false
  end.

(** [lwgeom_count_vertices], for a non-NULL geometry;
    [lwcollection_count_vertices] (defined outside [src/]) is modelled from
    the spec as the sum over the children. *)
Fixpoint lwgeom_count_vertices (geom : LWGEOM) : Z :=
  (* Empty? Zero. *)
  if lwgeom_is_empty geom then 0
  else
    uint32
      match geom with
      | LWPOINT _ _ _ _ => 1
      | LWLINE _ _ _ pa | LWCIRCSTRING _ _ _ pa | LWTRIANGLE _ _ _ pa =>
          lwline_count_vertices pa
      | LWPOLY _ _ _ rings => lwpoly_count_vertices rings
      | LWCURVEPOLY _ _ _ rings => sum_geoms lwgeom_count_vertices rings
      | LWCOLLECTION t _ _ _ geoms =>
          if counts_as_collection t
          then sum_geoms lwgeom_count_vertices geoms
          else 0
      end.

(** [lwgeom_needs_bbox] *)
Definition lwgeom_needs_bbox (geom : LWGEOM) : bool :=
  if lwtype_eqb (lwgeom_type geom) POINTTYPE then false
  else if lwtype_eqb (lwgeom_type geom) LINETYPE then
    if lwgeom_count_vertices geom <=? 2 then false else true
  else true.

(* ================================================================== *)
(** ** The decoder                                                      *)
(* ================================================================== *)

Section Decoder.

Context {E : liblwgeom}.

(** [lwerror(...)]: hands the message to the installed handler, which
    either never comes back or returns to the caller. *)
Definition lwerror (e : lwerror_msg) : M unit :=
  fun s => if lwerror_returns then Ret tt s else Raise e s.

(** [s->check & FLAG] *)
Definition check_requested (chk flag : Z) : bool :=
  negb (Z.land chk flag =? 0).

(** The [n] bytes at [s->pos]; outside the buffer the read is undefined. *)
Definition peek (n : Z) : M (list byte) :=
  fun s =>
    if (0 <=? pos s) && (pos s + n <=? Z.of_nat (length (wkb s)))
    then Ret (firstn (Z.to_nat n) (skipn (Z.to_nat (pos s)) (wkb s))) s
    else Fault s.

(** [s->pos += n] *)
Definition advance (n : Z) : M unit :=
  modify (fun s => set_pos (pos s + n) s).

(** The number that the host reads from an object holding these bytes. *)
Definition host_value (mem : list byte) : Z :=
  if IS_BIG_ENDIAN then le_value (rev mem) else le_value mem.

(** [count] consecutive doubles of a block of host memory. *)
Fixpoint host_doubles (count : nat) (mem : list byte) : list double :=
  match count with
  | O => []
  | S k => host_value (firstn 8 mem) :: host_doubles k (skipn 8 mem)
  end.

(** Modelled from the spec: [ptarray_construct_copy_data] (defined outside
    [src/]), the point-array fast path that copies "the entire coordinate
    block in one operation rather than per-double". *)
Definition ptarray_construct_copy_data (hasz hasm : bool) (n : Z)
  (ndims : Z) (ptlist : list byte) : POINTARRAY :=
  mkPOINTARRAY hasz hasm n (host_doubles (Z.to_nat (n * ndims)) ptlist).

(** *** Call-stack bookkeeping *)

Inductive call_site : Type := FromCaller | FromCollection | FromRing.

Definition ring_site (c : call_site) : nat :=
  match c with FromRing => 1%nat | _ => 0%nat end.

Definition enter (c : call_site) (k : call_stack) : call_stack :=
  let f := S (frames k) in
  let r := (ring_frames k + ring_site c)%nat in
  mkCallStack f r (Nat.max (peak_frames k) f)
              (Nat.max (peak_counted k) (f - r)%nat).

Definition leave (c : call_site) (k : call_stack) : call_stack :=
  mkCallStack (Nat.pred (frames k)) (ring_frames k - ring_site c)%nat
              (peak_frames k) (peak_counted k).

(** A call of [lwgeom_from_wkb_state] from call site [c]. *)
Definition call {A} (c : call_site) (m : M A) : M A :=
  modify (fun s => set_stack (enter c (stack s)) s) ;;
  r <- m ;;
  modify (fun s => set_stack (leave c (stack s)) s) ;;
  ret r.

(** *** Bounds check and type decoding *)

(** [wkb_parse_state_check] *)
Definition wkb_parse_state_check (next : Z) : M unit :=
  p <- gets pos ;;
  sz <- gets wkb_size ;;
  when (p + next >? sz)
       (lwerror WKB_structure_does_not_match_expected_size ;;
        modify (set_error true)).

(** The [switch (wkb_simple_type)] of [lwtype_from_wkb_state]. *)
Definition lwtype_of_simple_type (t : Z) : option lwtype_t :=
  if t =? WKB_POINT_TYPE then Some POINTTYPE
  else if t =? WKB_LINESTRING_TYPE then Some LINETYPE
  else if t =? WKB_POLYGON_TYPE then Some POLYGONTYPE
  else if t =? WKB_CIRCULARSTRING_TYPE then Some CIRCSTRINGTYPE
  else if t =? WKB_MULTIPOINT_TYPE then Some MULTIPOINTTYPE
  else if t =? WKB_MULTILINESTRING_TYPE then Some MULTILINETYPE
  else if t =? WKB_MULTIPOLYGON_TYPE then Some MULTIPOLYGONTYPE
  else if t =? WKB_TRIANGLE_TYPE then Some TRIANGLETYPE
  else if t =? WKB_GEOMETRYCOLLECTION_TYPE then Some COLLECTIONTYPE
  else if t =? WKB_COMPOUNDCURVE_TYPE then Some COMPOUNDTYPE
  else if t =? WKB_CURVEPOLYGON_TYPE then Some CURVEPOLYTYPE
  else if t =? WKB_MULTICURVE_TYPE then Some MULTICURVETYPE
  else if t =? WKB_MULTISURFACE_TYPE then Some MULTISURFACETYPE
  else if t =? WKB_POLYHEDRALSURFACE_TYPE then Some POLYHEDRALSURFACETYPE
  else if t =? WKB_TIN_TYPE then Some TINTYPE
  else if t =? WKB_CURVE_TYPE then Some CURVEPOLYTYPE
  else if t =? WKB_SURFACE_TYPE then Some MULTICURVETYPE
  else None.

(** The first step of [lwtype_from_wkb_state]: clear the three flags and,
    for an extended type number, set them from the high bits. *)
Definition extended_flags (wkb_type : Z) : M unit :=
  modify (set_has_z false) ;;
  modify (set_has_m false) ;;
  modify (set_has_srid false) ;;
  (* If any of the higher bits are set, this is probably an extended type. *)
  when (negb (Z.land wkb_type 0xF0000000 =? 0))
       (when (negb (Z.land wkb_type WKBZOFFSET =? 0))
             (modify (set_has_z true)) ;;
        when (negb (Z.land wkb_type WKBMOFFSET =? 0))
             (modify (set_has_m true)) ;;
        when (negb (Z.land wkb_type WKBSRIDFLAG =? 0))
             (modify (set_has_srid true))).

(** [lwtype_from_wkb_state] *)
Definition lwtype_from_wkb_state (wkb_type : Z) : M unit :=
  extended_flags wkb_type ;;
  (* Mask off the flags *)
  let wkb_type := Z.land wkb_type 0x0FFFFFFF in
  (* Catch strange Oracle WKB type numbers *)
  if wkb_type >=? 4000 then lwerror Unknown_WKB_type
  else
    (* Strip out just the type number from the ISO number *)
    let wkb_simple_type := wkb_type mod 1000 in
    (* Extract the Z/M information from ISO style numbers *)
    (if (wkb_type >=? 3000) && (wkb_type <? 4000)
     then modify (set_has_z true) ;; modify (set_has_m true)
     else if (wkb_type >=? 2000) && (wkb_type <? 3000)
     then modify (set_has_m true)
     else if (wkb_type >=? 1000) && (wkb_type <? 2000)
     then modify (set_has_z true)
     else ret tt) ;;
    match lwtype_of_simple_type wkb_simple_type with
    | Some t => modify (set_lwtype t)
    | None => lwerror Unknown_WKB_type
    end.

(** *** Scalars *)

(** [byte_from_wkb_state] *)
Definition byte_from_wkb_state : M Z :=
  wkb_parse_state_check WKB_BYTE_SIZE ;;
  err <- gets error ;;
  if err then ret 0
  else
    mem <- peek WKB_BYTE_SIZE ;;
    advance WKB_BYTE_SIZE ;;
    ret (le_value mem).

(** [integer_from_wkb_state] *)
Definition integer_from_wkb_state : M Z :=
  wkb_parse_state_check WKB_INT_SIZE ;;
  err <- gets error ;;
  if err then ret 0
  else
    i <- peek WKB_INT_SIZE ;;
    swap <- gets swap_bytes ;;
    let i := if swap then swap_in_place (Z.to_nat WKB_INT_SIZE) i else i in
    advance WKB_INT_SIZE ;;
    ret (host_value i).

(** [double_from_wkb_state]: no bounds check of its own. *)
Definition double_from_wkb_state : M double :=
  d <- peek WKB_DOUBLE_SIZE ;;
  swap <- gets swap_bytes ;;
  let d := if swap then swap_in_place (Z.to_nat WKB_DOUBLE_SIZE) d else d in
  advance WKB_DOUBLE_SIZE ;;
  ret (host_value d).

(** [for (i = 0; i < count; i++) dlist[i] = double_from_wkb_state(s);] *)
Fixpoint doubles_from_wkb_state (count : nat) : M (list double) :=
  match count with
  | O => ret []
  | S k =>
      d <- double_from_wkb_state ;;
      rest <- doubles_from_wkb_state k ;;
      ret (d :: rest)
  end.

(** [ndims], counted from [s->has_z] and [s->has_m]. *)
Definition count_ndims (hz hm : bool) : Z := 2 + Z.b2z hz + Z.b2z hm.

(** *** Point arrays and the simple kinds *)

(** [ptarray_from_wkb_state] *)
Definition ptarray_from_wkb_state : M (option POINTARRAY) :=
  (* Calculate the size of this point array. *)
  npoints <- integer_from_wkb_state ;;
  err <- gets error ;;
  if err then ret None
  else if npoints >? maxpoints then modify (set_error true) ;; ret None
  else
    hz <- gets has_z ;;
    hm <- gets has_m ;;
    let ndims := count_ndims hz hm in
    let pa_size := uint32 (uint32 (npoints * ndims) * WKB_DOUBLE_SIZE) in
    (* Empty! *)
    if npoints =? 0 then ret (Some (ptarray_construct hz hm npoints []))
    else
      (* Does the data we want to read exist? *)
      wkb_parse_state_check pa_size ;;
      err <- gets error ;;
      if err then ret None
      else
        swap <- gets swap_bytes ;;
        (* If we're in a native endianness, we can just copy the data *)
        if negb swap then
          ptlist <- peek pa_size ;;
          advance pa_size ;;
          ret (Some (ptarray_construct_copy_data hz hm npoints ndims ptlist))
        (* Otherwise we have to read each double, separately. *)
        else
          dlist <- doubles_from_wkb_state
                     (Z.to_nat (uint32 (npoints * ndims))) ;;
          ret (Some (ptarray_construct hz hm npoints dlist)).

(** [getPoint2d_cp(pa, 0)] *)
Definition getPoint2d_x (pa : POINTARRAY) : double :=
  nth 0 (serialized_pointlist pa) 0.
Definition getPoint2d_y (pa : POINTARRAY) : double :=
  nth 1 (serialized_pointlist pa) 0.

(** [lwpoint_from_wkb_state] *)
Definition lwpoint_from_wkb_state : M (option LWGEOM) :=
  let npoints := 1 in
  (* Count the dimensions. *)
  hz <- gets has_z ;;
  hm <- gets has_m ;;
  let ndims := count_ndims hz hm in
  let pa_size := ndims * WKB_DOUBLE_SIZE in
  (* Does the data we want to read exist? *)
  wkb_parse_state_check pa_size ;;
  err <- gets error ;;
  if err then ret None
  else
    swap <- gets swap_bytes ;;
    pa <- (if negb swap then
             ptlist <- peek pa_size ;;
             advance pa_size ;;
             ret (ptarray_construct_copy_data hz hm npoints ndims ptlist)
           else
             dlist <- doubles_from_wkb_state (Z.to_nat ndims) ;;
             ret (ptarray_construct hz hm npoints dlist)) ;;
    (* Check for POINT(NaN NaN) ==> POINT EMPTY *)
    srid <- gets srid ;;
    if isnan (getPoint2d_x pa) && isnan (getPoint2d_y pa)
    then ret (Some (lwpoint_construct_empty srid hz hm))
    else ret (Some (lwpoint_construct srid pa)).

(** [lwline_from_wkb_state] *)
Definition lwline_from_wkb_state : M (option LWGEOM) :=
  pa <- ptarray_from_wkb_state ;;
  err <- gets error ;;
  if err then ret None
  else
    srid <- gets srid ;;
    hz <- gets has_z ;;
    hm <- gets has_m ;;
    chk <- gets check ;;
    match pa with
    | None => ret (Some (lwline_construct_empty srid hz hm))
    | Some pa =>
        if npoints pa =? 0
        then ret (Some (lwline_construct_empty srid hz hm))
        else if check_requested chk LW_PARSER_CHECK_MINPOINTS
                && (npoints pa <? 2)
        then lwerror must_have_at_least_two_points ;; ret None
        else ret (Some (lwline_construct srid pa))
    end.

(** [lwcircstring_from_wkb_state] *)
Definition lwcircstring_from_wkb_state : M (option LWGEOM) :=
  pa <- ptarray_from_wkb_state ;;
  err <- gets error ;;
  if err then ret None
  else
    srid <- gets srid ;;
    hz <- gets has_z ;;
    hm <- gets has_m ;;
    chk <- gets check ;;
    match pa with
    | None => ret (Some (lwcircstring_construct_empty srid hz hm))
    | Some pa =>
        if npoints pa =? 0
        then ret (Some (lwcircstring_construct_empty srid hz hm))
        else if check_requested chk LW_PARSER_CHECK_MINPOINTS
                && (npoints pa <? 3)
        then ret None
        else if check_requested chk LW_PARSER_CHECK_ODD
                && (npoints pa mod 2 =? 0)
        then ret None
        else ret (Some (lwcircstring_construct srid pa))
    end.

(** The ring loop of [lwpoly_from_wkb_state]; [n] rings are still to be
    read into [poly]. *)
Fixpoint lwpoly_rings_from_wkb_state (n : nat) (poly : LWGEOM)
  : M (option LWGEOM) :=
  match n with
  | O => ret (Some poly)
  | S k =>
      pa <- ptarray_from_wkb_state ;;
      match pa with
      | None => ret None
      | Some pa =>
          chk <- gets check ;;
          (* Check for at least four points. *)
          if check_requested chk LW_PARSER_CHECK_MINPOINTS
             && (npoints pa <? 4)
          then lwerror must_have_at_least_four_points_in_each_ring ;;
               ret None
          (* Check that first and last points are the same. *)
          else if check_requested chk LW_PARSER_CHECK_CLOSURE
                  && negb (ptarray_is_closed_2d pa)
          then lwerror must_have_closed_rings ;; ret None
          else
            (* Add ring to polygon *)
            match lwpoly_add_ring poly pa with
            | None => lwerror Unable_to_add_ring_to_polygon ;; ret None
            | Some poly' => lwpoly_rings_from_wkb_state k poly'
            end
      end
  end.

(** [lwpoly_from_wkb_state] *)
Definition lwpoly_from_wkb_state : M (option LWGEOM) :=
  nrings <- integer_from_wkb_state ;;
  err <- gets error ;;
  if err then ret None
  else
    srid <- gets srid ;;
    hz <- gets has_z ;;
    hm <- gets has_m ;;
    let poly := lwpoly_construct_empty srid hz hm in
    (* Empty polygon? *)
    if nrings =? 0 then ret (Some poly)
    else lwpoly_rings_from_wkb_state (Z.to_nat nrings) poly.

(** [lwtriangle_from_wkb_state] *)
Definition lwtriangle_from_wkb_state : M (option LWGEOM) :=
  nrings <- integer_from_wkb_state ;;
  err <- gets error ;;
  if err then ret None
  else
    srid0 <- gets srid ;;
    hz0 <- gets has_z ;;
    hm0 <- gets has_m ;;
    (* Empty triangle? *)
    if nrings =? 0 then ret (Some (lwtriangle_construct_empty srid0 hz0 hm0))
    (* Should be only one ring. *)
    else if negb (nrings =? 1)
    then lwerror Triangle_has_wrong_number_of_rings ;; ret None
    else
      (* There's only one ring, we hope? *)
      pa <- ptarray_from_wkb_state ;;
      srid <- gets srid ;;
      hz <- gets has_z ;;
      hm <- gets has_m ;;
      chk <- gets check ;;
      match pa with
      (* If there's no points, return an empty triangle. *)
      | None => ret (Some (lwtriangle_construct_empty srid hz hm))
      | Some pa =>
          (* Check for at least four points. *)
          if check_requested chk LW_PARSER_CHECK_MINPOINTS
             && (npoints pa <? 4)
          then lwerror must_have_at_least_four_points ;; ret None
          else if check_requested chk LW_PARSER_CHECK_ZCLOSURE
                  && negb (ptarray_is_closed_z pa)
          then lwerror must_have_closed_rings ;; ret None
          else ret (Some (lwtriangle_construct srid pa))
      end.

(** *** Containers *)

(** Modelled from the spec: [lwcurvepoly_add_ring] and
    [lwcollection_add_lwgeom] (defined outside [src/]) append the child to
    the container; a NULL child is never attached ("failure to attach a
    parsed child to its parent container" is an error), and which kinds of
    child a container takes is the environment's
    [lwcurvepoly_allows_ring] and [lwcollection_allows_subtype].  [None] is
    the failure value. *)
Definition lwcurvepoly_add_ring (cp : LWGEOM) (ring : option LWGEOM)
  : option LWGEOM :=
  match cp, ring with
  | LWCURVEPOLY srid hasz hasm rings, Some r =>
      if lwcurvepoly_allows_ring (lwgeom_type r)
      then Some (LWCURVEPOLY srid hasz hasm (rings ++ [r]))
      else None
  | _, _ => None
  end.

Definition lwcollection_add_lwgeom (col : LWGEOM) (geom : option LWGEOM)
  : option LWGEOM :=
  match col, geom with
  | LWCOLLECTION type srid hasz hasm geoms, Some g =>
      if lwcollection_allows_subtype type (lwgeom_type g)
      then Some (LWCOLLECTION type srid hasz hasm (geoms ++ [g]))
      else None
  | _, _ => None
  end.

Section Recursion.

(** The recursive call [lwgeom_from_wkb_state(s)]. *)
Variable rec : M (option LWGEOM).

(** The ring loop of [lwcurvepoly_from_wkb_state]. *)
Fixpoint lwcurvepoly_rings_from_wkb_state (n : nat) (cp : LWGEOM)
  : M (option LWGEOM) :=
  match n with
  | O => ret (Some cp)
  | S k =>
      geom <- call FromRing rec ;;
      match lwcurvepoly_add_ring cp geom with
      | None => lwerror Unable_to_add_geometry_to_curvepoly ;; ret None
      | Some cp' => lwcurvepoly_rings_from_wkb_state k cp'
      end
  end.

(** [lwcurvepoly_from_wkb_state] *)
Definition lwcurvepoly_from_wkb_state : M (option LWGEOM) :=
  ngeoms <- integer_from_wkb_state ;;
  err <- gets error ;;
  if err then ret None
  else
    srid <- gets srid ;;
    hz <- gets has_z ;;
    hm <- gets has_m ;;
    let cp := lwcurvepoly_construct_empty srid hz hm in
    (* Empty collection? *)
    if ngeoms =? 0 then ret (Some cp)
    else lwcurvepoly_rings_from_wkb_state (Z.to_nat ngeoms) cp.

(** The child loop of [lwcollection_from_wkb_state]. *)
Fixpoint lwcollection_geoms_from_wkb_state (n : nat) (col : LWGEOM)
  : M (option LWGEOM) :=
  match n with
  | O => ret (Some col)
  | S k =>
      geom <- call FromCollection rec ;;
      match lwcollection_add_lwgeom col geom with
      | None => lwerror Unable_to_add_geometry_to_collection ;; ret None
      | Some col' => lwcollection_geoms_from_wkb_state k col'
      end
  end.

(** [lwcollection_from_wkb_state] *)
Definition lwcollection_from_wkb_state : M (option LWGEOM) :=
  ngeoms <- integer_from_wkb_state ;;
  err <- gets error ;;
  if err then ret None
  else
    ty <- gets lwtype ;;
    srid <- gets srid ;;
    hz <- gets has_z ;;
    hm <- gets has_m ;;
    let col := lwcollection_construct_empty ty srid hz hm in
    (* Empty collection? *)
    if ngeoms =? 0 then ret (Some col)
    else
      (* Be strict in polyhedral surface closures *)
      when (lwtype_eqb ty POLYHEDRALSURFACETYPE)
           (modify (fun s =>
              set_check (Z.lor (check s) LW_PARSER_CHECK_ZCLOSURE) s)) ;;
      modify (fun s => set_depth (uint8 (depth s + 1)) s) ;;
      d <- gets depth ;;
      if d >=? LW_PARSER_MAX_DEPTH
      then lwerror Geometry_has_too_many_chained_collections ;; ret None
      else
        r <- lwcollection_geoms_from_wkb_state (Z.to_nat ngeoms) col ;;
        match r with
        | None => ret None
        | Some col' =>
            modify (fun s => set_depth (uint8 (depth s - 1)) s) ;;
            ret (Some col')
        end.

(** The [switch (s->lwtype)] of [lwgeom_from_wkb_state]. *)
Definition lwgeom_dispatch : M (option LWGEOM) :=
  ty <- gets lwtype ;;
  match ty with
  | POINTTYPE => lwpoint_from_wkb_state
  | LINETYPE => lwline_from_wkb_state
  | POLYGONTYPE => lwpoly_from_wkb_state
  | CIRCSTRINGTYPE => lwcircstring_from_wkb_state
  | TRIANGLETYPE => lwtriangle_from_wkb_state
  | CURVEPOLYTYPE => lwcurvepoly_from_wkb_state
  | MULTIPOINTTYPE | MULTILINETYPE | MULTIPOLYGONTYPE | COMPOUNDTYPE
  | MULTICURVETYPE | MULTISURFACETYPE | POLYHEDRALSURFACETYPE
  | TINTYPE | COLLECTIONTYPE => lwcollection_from_wkb_state
  (* Unknown type! *)
  | LWTYPE_NONE => lwerror Unsupported_geometry_type ;; ret None
  end.

(** The body of [lwgeom_from_wkb_state]. *)
Definition lwgeom_from_wkb_state_body : M (option LWGEOM) :=
  (* Fail when handed incorrect starting byte *)
  wkb_little_endian <- byte_from_wkb_state ;;
  err <- gets error ;;
  if err then ret None
  else if negb (wkb_little_endian =? 1) && negb (wkb_little_endian =? 0)
  then lwerror Invalid_endian_flag_value ;; ret None
  else
    (* Check the endianness of our input *)
    modify (set_swap_bytes false) ;;
    (* Machine arch is big endian, request is for little *)
    (if IS_BIG_ENDIAN && negb (wkb_little_endian =? 0)
     then modify (set_swap_bytes true)
     (* Machine arch is little endian, request is for big *)
     else if negb IS_BIG_ENDIAN && (wkb_little_endian =? 0)
     then modify (set_swap_bytes true)
     else ret tt) ;;
    (* Read the type number *)
    wkb_type <- integer_from_wkb_state ;;
    err <- gets error ;;
    if err then ret None
    else
      lwtype_from_wkb_state wkb_type ;;
      (* Read the SRID, if necessary *)
      hs <- gets has_srid ;;
      if hs then
        v <- integer_from_wkb_state ;;
        modify (set_srid (clamp_srid (int32_of_uint32 v))) ;;
        err <- gets error ;;
        (* Do the right thing *)
        if err then ret None else lwgeom_dispatch
      else lwgeom_dispatch.

End Recursion.

(** [lwgeom_from_wkb_state].  [fuel] bounds the number of nested
    activations: each activation hands its callees one unit less, and
    siblings share the budget. *)
Fixpoint lwgeom_from_wkb_state (fuel : nat) : M (option LWGEOM) :=
  match fuel with
  | O => out_of_fuel
  | S fuel' => lwgeom_from_wkb_state_body (lwgeom_from_wkb_state fuel')
  end.

(** The state that [lwgeom_from_wkb] initialises. *)
Definition initial_state (wkb : list byte) (wkb_size : Z) (check : Z)
  : wkb_parse_state :=
  mkState wkb SRID_UNKNOWN wkb_size false check LWTYPE_NONE false false false
          false 1 0 (mkCallStack 0 0 0 0).

(** [lwgeom_from_wkb], for a non-NULL [wkb], with a bound on the nesting of
    activations. *)
Definition lwgeom_from_wkb_fuel (fuel : nat) (wkb : list byte) (wkb_size : Z)
  (check : Z) : outcome (option LWGEOM) :=
  let s := initial_state wkb wkb_size check in
  if wkb_size =? 0 then Ret None s
  else call FromCaller (lwgeom_from_wkb_state fuel) s.

(** [lwgeom_from_wkb].  An activation consumes at least one byte before it
    calls itself, so [wkb_size + 1] nested activations are always enough
    ([lwgeom_from_wkb_state_fuel_enough] below). *)
Definition lwgeom_from_wkb (wkb : list byte) (wkb_size : Z) (check : Z)
  : outcome (option LWGEOM) :=
  lwgeom_from_wkb_fuel (S (Z.to_nat wkb_size)) wkb wkb_size check.

End Decoder.

(* ================================================================== *)
(** ** A concrete environment                                           *)
(* ================================================================== *)

(** The values that upstream liblwgeom gives to the declarations the decoder
    takes from its environment; used to run the decoder on concrete
    buffers.  The byte order of the host and the behaviour of the error
    handler stay parameters. *)
Module Upstream.

Definition SRID_MAXIMUM : Z := 999999.
Definition SRID_USER_MAXIMUM : Z := 998999.

Definition clamp_srid (srid : Z) : Z :=
  if srid <=? 0 then 0
  else if srid >? SRID_MAXIMUM
  then SRID_USER_MAXIMUM + 1 + srid mod (SRID_MAXIMUM - SRID_USER_MAXIMUM - 1)
  else srid.

Definition lwcollection_allows_subtype (collectiontype subtype : lwtype_t)
  : bool :=
  match collectiontype, subtype with
  | COLLECTIONTYPE, _ => true
  | MULTIPOINTTYPE, POINTTYPE => true
  | MULTILINETYPE, LINETYPE => true
  | MULTIPOLYGONTYPE, POLYGONTYPE => true
  | COMPOUNDTYPE, (LINETYPE | CIRCSTRINGTYPE) => true
  | MULTICURVETYPE, (CIRCSTRINGTYPE | LINETYPE | COMPOUNDTYPE) => true
  | MULTISURFACETYPE, (POLYGONTYPE | CURVEPOLYTYPE) => true
  | POLYHEDRALSURFACETYPE, POLYGONTYPE => true
  | TINTYPE, TRIANGLETYPE => true
  | _, _ => false
  end.

Definition lwcurvepoly_allows_ring (t : lwtype_t) : bool :=
  match t with
  | LINETYPE | CIRCSTRINGTYPE | COMPOUNDTYPE => true
  | _ => false
  end.

Definition env (big_endian handler_returns : bool) : liblwgeom :=
  Build_liblwgeom
    big_endian handler_returns
    0 (* SRID_UNKNOWN *)
    clamp_srid
    1 (* LW_PARSER_CHECK_MINPOINTS *)
    2 (* LW_PARSER_CHECK_ODD *)
    4 (* LW_PARSER_CHECK_CLOSURE *)
    8 (* LW_PARSER_CHECK_ZCLOSURE *)
    lwcollection_allows_subtype
    lwcurvepoly_allows_ring.

End Upstream.

(* ================================================================== *)
(** ** Writing WKB                                                      *)
(* ================================================================== *)

(** The byte order a WKB value declares in its first byte. *)
Inductive endian : Type :=
| XDR  (* big endian, indicator byte 0 *)
| NDR. (* little endian, indicator byte 1 *)

(** Modelled from the spec: the WKB wire format of the external interface
    ("byte endianness (0=BE,1=LE)", "uint32 type code", "All multi-byte
    fields are in the declared endianness; doubles are raw IEEE-754 bit
    patterns, byte-order-swapped identically to integers"); the writer of
    the repository is outside [src/]. *)
Definition wkb_endian (e : endian) : list byte :=
  match e with XDR => [x00] | NDR => [x01] end.

Definition wkb_field (e : endian) (n : nat) (v : Z) : list byte :=
  match e with
  | NDR => le_bytes n v
  | XDR => rev (le_bytes n v)
  end.

Definition wkb_uint32 (e : endian) (v : Z) : list byte := wkb_field e 4 v.
Definition wkb_double (e : endian) (d : double) : list byte := wkb_field e 8 d.
Definition wkb_doubles (e : endian) (ds : list double) : list byte :=
  concat (map (wkb_double e) ds).

(* ================================================================== *)
(** ** Predicates of the proofs                                         *)
(* ================================================================== *)

(** [m1] is [m2] run with a smaller budget: wherever [m1] does not run out,
    the two agree. *)
Definition fuel_le {A} (m1 m2 : M A) : Prop :=
  forall s, m1 s = Fuel \/ m1 s = m2 s.

(** Two parse states over buffers of which the first is declared shorter
    and agrees with the second on all of its declared bytes; everything else
    in the states is equal. *)
Record prefix_rel (s1 s2 : wkb_parse_state) : Prop := mkPrefixRel {
  pr_srid : srid s1 = srid s2;
  pr_swap_bytes : swap_bytes s1 = swap_bytes s2;
  pr_check : check s1 = check s2;
  pr_lwtype : lwtype s1 = lwtype s2;
  pr_has_z : has_z s1 = has_z s2;
  pr_has_m : has_m s1 = has_m s2;
  pr_has_srid : has_srid s1 = has_srid s2;
  pr_error : error s1 = error s2;
  pr_depth : depth s1 = depth s2;
  pr_pos : pos s1 = pos s2;
  pr_stack : stack s1 = stack s2;
  pr_size : wkb_size s1 <= wkb_size s2;
  pr_length1 : wkb_size s1 <= Z.of_nat (length (wkb s1));
  pr_length2 : wkb_size s2 <= Z.of_nat (length (wkb s2));
  pr_pos_lo : 0 <= pos s1;
  pr_pos_hi : pos s1 <= wkb_size s1;
  pr_bytes : firstn (Z.to_nat (wkb_size s1)) (wkb s1)
             = firstn (Z.to_nat (wkb_size s1)) (wkb s2)
}.

(** [n] more bytes are inside the declared size. *)
Definition room (n : Z) (s : wkb_parse_state) : Prop :=
  pos s + n <= wkb_size s.

(** The outcome on the shorter buffer against the outcome on the longer:
    either the shorter one ran into its end, or the two did the same. *)
Definition osim {A} (Post : A -> wkb_parse_state -> wkb_parse_state -> Prop)
  (o1 o2 : outcome A) : Prop :=
  (exists s, o1 = Raise WKB_structure_does_not_match_expected_size s) \/
  match o1, o2 with
  | Ret a s1, Ret b s2 => a = b /\ Post a s1 s2
  | Raise e1 _, Raise e2 _ => e1 = e2
  | Fuel, Fuel => True
  | _, _ => False
  end.

Definition Sim {A} (Pre : wkb_parse_state -> wkb_parse_state -> Prop)
  (m1 m2 : M A)
  (Post : A -> wkb_parse_state -> wkb_parse_state -> Prop) : Prop :=
  forall s1 s2, Pre s1 s2 -> osim Post (m1 s1) (m2 s2).

(** The common case: [prefix_rel] before and after. *)
Definition Simr {A} (m1 m2 : M A) : Prop :=
  Sim prefix_rel m1 m2 (fun _ => prefix_rel).

(** A Hoare triple over the monad: from a state in [Pre], a return leaves the
    value and state in [Post], an error or a fault leaves the state in [Exc],
    and running out of budget is allowed only if [U] holds. *)
Definition triple {A} (U : Prop) (Pre : wkb_parse_state -> Prop) (m : M A)
  (Post : A -> wkb_parse_state -> Prop) (Exc : wkb_parse_state -> Prop)
  : Prop :=
  forall s, Pre s ->
    match m s with
    | Ret a s' => Post a s'
    | Raise _ s' => Exc s'
    | Fault s' => Exc s'
    | Fuel => U
    end.

(** [m] keeps the invariant [I]. *)
Definition keeps {A} (U : Prop) (I : wkb_parse_state -> Prop)
  (Exc : wkb_parse_state -> Prop) (m : M A) : Prop :=
  triple U I m (fun _ => I) Exc.

(** The invariant of the termination argument: the declared size is [n],
    the position is at least [lo], and [P] holds. *)
Definition progress (n lo : Z) (P : Prop) (s : wkb_parse_state) : Prop :=
  wkb_size s = n /\ lo <= pos s /\ P.

(** A valid WKB buffer of [N] bytes: the decoder, told that the buffer has
    its [N] bytes, returns a geometry and has consumed all [N] of them. *)
Definition valid_wkb {E : liblwgeom} (wkb : list byte) (check : Z) : Prop :=
  match lwgeom_from_wkb wkb (Z.of_nat (length wkb)) check with
  | Ret (Some _) s => pos s = Z.of_nat (length wkb)
  | _ => False
  end.

(** [s] differs from [s0] in the position and the error flag at most: what
    the readers of scalars, point arrays and the simple kinds may change. *)
Definition frame (s0 s : wkb_parse_state) : Prop :=
  set_pos 0 (set_error false s) = set_pos 0 (set_error false s0).

(** The rings in front of the ring loop of a polygon: [n] point arrays read
    one after the other ([None] when one of them cannot be read). *)
Fixpoint ptarrays_from_wkb_state {E : liblwgeom} (n : nat)
  : M (option (list POINTARRAY)) :=
  match n with
  | O => ret (Some [])
  | S k =>
      pa <- ptarray_from_wkb_state ;;
      match pa with
      | None => ret None
      | Some pa =>
          rest <- ptarrays_from_wkb_state k ;;
          ret (option_map (cons pa) rest)
      end
  end.

(** The byte swap that an activation selects for a value declared in byte
    order [e]: the declared order differs from the host's. *)
Definition swap_for {E : liblwgeom} (e : endian) : bool :=
  match e with
  | XDR => negb IS_BIG_ENDIAN
  | NDR => IS_BIG_ENDIAN
  end.

(** The bytes in front of the position are [l], and the declared size is
    the size of the buffer. *)
Definition view (s : wkb_parse_state) (l : list byte) : Prop :=
  0 <= pos s <= Z.of_nat (length (wkb s)) /\
  skipn (Z.to_nat (pos s)) (wkb s) = l /\
  wkb_size s = Z.of_nat (length (wkb s)).

(** A well-formed [uint32_t] and a well-formed [double]. *)
Definition is_uint32 (v : Z) : Prop := 0 <= v < 4294967296.
Definition is_double (d : double) : Prop := 0 <= d < 18446744073709551616.

(** Modelled from the spec: the type number of each kind in the
    enumeration table, and the extended type code that carries the Z, M and
    SRID flags in its high bits. *)
Definition wkb_type_number (t : lwtype_t) : Z :=
  match t with
  | LWTYPE_NONE => 0
  | POINTTYPE => WKB_POINT_TYPE
  | LINETYPE => WKB_LINESTRING_TYPE
  | POLYGONTYPE => WKB_POLYGON_TYPE
  | MULTIPOINTTYPE => WKB_MULTIPOINT_TYPE
  | MULTILINETYPE => WKB_MULTILINESTRING_TYPE
  | MULTIPOLYGONTYPE => WKB_MULTIPOLYGON_TYPE
  | COLLECTIONTYPE => WKB_GEOMETRYCOLLECTION_TYPE
  | CIRCSTRINGTYPE => WKB_CIRCULARSTRING_TYPE
  | COMPOUNDTYPE => WKB_COMPOUNDCURVE_TYPE
  | CURVEPOLYTYPE => WKB_CURVEPOLYGON_TYPE
  | MULTICURVETYPE => WKB_MULTICURVE_TYPE
  | MULTISURFACETYPE => WKB_MULTISURFACE_TYPE
  | POLYHEDRALSURFACETYPE => WKB_POLYHEDRALSURFACE_TYPE
  | TRIANGLETYPE => WKB_TRIANGLE_TYPE
  | TINTYPE => WKB_TIN_TYPE
  end.

Definition wkb_type_code (t : lwtype_t) (hasz hasm hassrid : bool) : Z :=
  wkb_type_number t
  + (if hasz then WKBZOFFSET else 0)
  + (if hasm then WKBMOFFSET else 0)
  + (if hassrid then WKBSRIDFLAG else 0).

(** The front of every WKB geometry: endian byte, type code, and the SRID
    when the code says so. *)
Definition wkb_header (e : endian) (t : lwtype_t) (srid : Z)
  (hasz hasm hassrid : bool) : list byte :=
  wkb_endian e ++ wkb_uint32 e (wkb_type_code t hasz hasm hassrid)
  ++ (if hassrid then wkb_uint32 e (uint32 srid) else []).

(** A point array on the wire: the count, then the coordinates. *)
Definition wkb_ptarray (e : endian) (pa : POINTARRAY) : list byte :=
  wkb_uint32 e (npoints pa) ++ wkb_doubles e (serialized_pointlist pa).

(** A quiet NaN, the coordinate of the canonical empty point. *)
Definition wkb_nan : double := 0x7FF8000000000000.

(** Modelled from the spec: the WKB encoding of a geometry in byte order
    [e] (the writer of the repository is outside [src/]).  The SRID goes
    with the outermost geometry only ([hassrid]); an empty point is the
    all-NaN tuple; an empty triangle has no ring. *)
Fixpoint lwgeom_to_wkb (e : endian) (hassrid : bool) (g : LWGEOM)
  : list byte :=
  match g with
  | LWPOINT srid hz hm pa =>
      wkb_header e POINTTYPE srid hz hm hassrid
      ++ wkb_doubles e
           (if npoints pa =? 0
            then repeat wkb_nan (Z.to_nat (count_ndims hz hm))
            else serialized_pointlist pa)
  | LWLINE srid hz hm pa =>
      wkb_header e LINETYPE srid hz hm hassrid ++ wkb_ptarray e pa
  | LWCIRCSTRING srid hz hm pa =>
      wkb_header e CIRCSTRINGTYPE srid hz hm hassrid ++ wkb_ptarray e pa
  | LWTRIANGLE srid hz hm pa =>
      wkb_header e TRIANGLETYPE srid hz hm hassrid
      ++ (if npoints pa =? 0 then wkb_uint32 e 0
          else wkb_uint32 e 1 ++ wkb_ptarray e pa)
  | LWPOLY srid hz hm rings =>
      wkb_header e POLYGONTYPE srid hz hm hassrid
      ++ wkb_uint32 e (Z.of_nat (length rings))
      ++ concat (map (wkb_ptarray e) rings)
  | LWCURVEPOLY srid hz hm rings =>
      wkb_header e CURVEPOLYTYPE srid hz hm hassrid
      ++ wkb_uint32 e (Z.of_nat (length rings))
      ++ concat (map (lwgeom_to_wkb e false) rings)
  | LWCOLLECTION t srid hz hm geoms =>
      wkb_header e t srid hz hm hassrid
      ++ wkb_uint32 e (Z.of_nat (length geoms))
      ++ concat (map (lwgeom_to_wkb e false) geoms)
  end.

(** Decidable well-formedness of what is written. *)
Definition is_doubleb (d : double) : bool :=
  (0 <=? d) && (d <? 18446744073709551616).

Definition wf_ptarray (hz hm : bool) (pa : POINTARRAY) : bool :=
  (0 <=? npoints pa) && (npoints pa <? 4294967296)
  && Nat.eqb (length (serialized_pointlist pa))
             (Z.to_nat (npoints pa * count_ndims hz hm))
  && forallb is_doubleb (serialized_pointlist pa).

(** The kinds that [lwgeom_from_wkb_state] hands to
    [lwcollection_from_wkb_state]. *)
Definition is_collection_kind (t : lwtype_t) : bool :=
  match t with
  | MULTIPOINTTYPE | MULTILINETYPE | MULTIPOLYGONTYPE | COMPOUNDTYPE
  | MULTICURVETYPE | MULTISURFACETYPE | POLYHEDRALSURFACETYPE
  | TINTYPE | COLLECTIONTYPE => true
  | _ => false
  end.

(** A logical geometry: every point array has the number of coordinates
    that its count and the dimension flags of its geometry call for;
    a point is empty or has one point; point, ring and child counts fit
    [uint32_t]; a collection is tagged with a collection kind.  These are
    the geometries that the format can express. *)
Fixpoint wf_geom (g : LWGEOM) : bool :=
  match g with
  | LWPOINT _ hz hm pa =>
      (npoints pa =? 0) || ((npoints pa =? 1) && wf_ptarray hz hm pa)
  | LWLINE _ hz hm pa | LWCIRCSTRING _ hz hm pa | LWTRIANGLE _ hz hm pa =>
      wf_ptarray hz hm pa
  | LWPOLY _ hz hm rings =>
      (Z.of_nat (length rings) <? 4294967296)
      && forallb (wf_ptarray hz hm) rings
  | LWCURVEPOLY _ _ _ rings =>
      (Z.of_nat (length rings) <? 4294967296) && all_geoms wf_geom rings
  | LWCOLLECTION t _ _ _ geoms =>
      is_collection_kind t
      && (Z.of_nat (length geoms) <? 4294967296)
      && all_geoms wf_geom geoms
  end.

(** The state in which [lwgeom_from_wkb_state] reaches its [switch] after
    the header of a geometry of kind [t] written in byte order [e];
    [sr] is the SRID field of the header, when it has one. *)
Definition header_state {E : liblwgeom} (e : endian) (t : lwtype_t)
  (sr : option Z) (hz hm : bool) (s : wkb_parse_state) : wkb_parse_state :=
  mkState (wkb s)
          (match sr with
           | Some v => clamp_srid (int32_of_uint32 v)
           | None => srid s
           end)
          (wkb_size s) (swap_for e) (check s) t hz hm
          (match sr with Some _ => true | None => false end)
          (error s) (depth s)
          (match sr with
           | Some _ => pos s + 1 + 4 + 4
           | None => pos s + 1 + 4
           end)
          (stack s).

(** [n] levels of nested single-child collections around the point
    [POINT(0 0)] (the double 0.0 is the bit pattern 0). *)
Fixpoint nested_collections (srid : Z) (n : nat) : LWGEOM :=
  match n with
  | O => LWPOINT srid false false (mkPOINTARRAY false false 1 [0; 0])
  | S k => LWCOLLECTION COLLECTIONTYPE srid false false
             [nested_collections srid k]
  end.

(** [n] levels of nested single-ring curve polygons around the same point;
    used to exhibit recursion through curve-polygon rings. *)
Fixpoint nested_curvepolys (srid : Z) (n : nat) : LWGEOM :=
  match n with
  | O => LWPOINT srid false false (mkPOINTARRAY false false 1 [0; 0])
  | S k => LWCURVEPOLY srid false false [nested_curvepolys srid k]
  end.

(** How a decode that hits the depth limit ends: with the "too many
    chained collections" error when the handler does not return, and with
    NULL when it does. *)
Definition fails_chained {E : liblwgeom} (o : outcome (option LWGEOM))
  : Prop :=
  if lwerror_returns
  then exists s, o = Ret None s
  else exists s, o = Raise Geometry_has_too_many_chained_collections s.

(** The invariant of the depth counter: [f] activations are live, [r] of
    them entered from a ring loop, the counter stands at [d], and the
    activations entered from elsewhere never numbered more than 199. *)
Definition peak_ok (s : wkb_parse_state) : Prop :=
  (peak_counted (stack s) <= 199)%nat.

Definition stack_inv (f r : nat) (d : Z) (s : wkb_parse_state) : Prop :=
  frames (stack s) = f /\ ring_frames (stack s) = r /\ depth s = d /\
  peak_ok s.

(** What an activation leaves behind: the invariant it started from when it
    hands back a geometry, and at least the bound when it hands back NULL. *)
Definition returns_in (f r : nat) (d : Z) (res : option LWGEOM)
  (s : wkb_parse_state) : Prop :=
  match res with
  | Some _ => stack_inv f r d s
  | None => peak_ok s
  end.

(** The specification of the recursive call, for the activations it can be
    entered in: the counter equals the number of live activations that were
    not entered from a ring loop, and is below the limit. *)
Definition counts_frames (rec : M (option LWGEOM)) : Prop :=
  forall (f r : nat) (d : Z),
    (r <= f)%nat -> Z.of_nat (f - r) = d -> 1 <= d <= 199 ->
    triple True (stack_inv f r d) rec (returns_in f r d) peak_ok.

(** Two parse states that agree on everything the decoder keeps besides the
    buffer: the buffer, its declared size, the position and the byte swap
    are left out. *)
Record blind_rel (s1 s2 : wkb_parse_state) : Prop := mkBlindRel {
  br_srid : srid s1 = srid s2;
  br_check : check s1 = check s2;
  br_lwtype : lwtype s1 = lwtype s2;
  br_has_z : has_z s1 = has_z s2;
  br_has_m : has_m s1 = has_m s2;
  br_has_srid : has_srid s1 = has_srid s2;
  br_error : error s1 = error s2;
  br_depth : depth s1 = depth s2;
  br_stack : stack s1 = stack s2
}.

(** Two parse states at the same point of two encodings: they agree as
    above, no error is pending, and the bytes in front of them are [l1]
    and [l2]. *)
Definition alike (l1 l2 : list byte) (s1 s2 : wkb_parse_state) : Prop :=
  blind_rel s1 s2 /\ error s1 = false /\ view s1 l1 /\ view s2 l2 /\
  length l1 = length l2.

(** Two parse states with the error flag up: they agree as above and have
    the same number of bytes left. *)
Definition failing (s1 s2 : wkb_parse_state) : Prop :=
  blind_rel s1 s2 /\ error s1 = true /\
  wkb_size s1 - pos s1 = wkb_size s2 - pos s2.

(** The same inside a geometry of dimensions [hz], [hm] whose header
    declared byte order [e1] in the one buffer and [e2] in the other. *)
Definition reading {E : liblwgeom} (e1 e2 : endian) (hz hm : bool)
  (l1 l2 : list byte) (s1 s2 : wkb_parse_state) : Prop :=
  alike l1 l2 s1 s2 /\
  swap_bytes s1 = swap_for e1 /\ swap_bytes s2 = swap_for e2 /\
  has_z s1 = hz /\ has_m s1 = hm.

(** Two outcomes that are the same to the caller: the same value, the same
    error, or both out of budget. *)
Definition same_outcome {A}
  (Post : A -> wkb_parse_state -> wkb_parse_state -> Prop)
  (o1 o2 : outcome A) : Prop :=
  match o1, o2 with
  | Ret a s1, Ret b s2 => a = b /\ Post a s1 s2
  | Raise e1 _, Raise e2 _ => e1 = e2
  | Fuel, Fuel => True
  | _, _ => False
  end.

(** [m] does the same from any two states related by [Pre]. *)
Definition agree {A}
  (Pre : wkb_parse_state -> wkb_parse_state -> Prop) (m : M A)
  (Post : A -> wkb_parse_state -> wkb_parse_state -> Prop) : Prop :=
  forall s1 s2, Pre s1 s2 -> same_outcome Post (m s1) (m s2).

(** After a geometry: past its bytes when there is one, or with the error
    flag up (a triangle whose point array was refused comes back empty);
    anywhere when the answer is NULL. *)
Definition alike_after (l1 l2 : list byte) (a : option LWGEOM)
  (s1 s2 : wkb_parse_state) : Prop :=
  match a with
  | Some _ => alike l1 l2 s1 s2 \/ failing s1 s2
  | None => True
  end.

(** The specification of the recursive call in the comparison of two byte
    orders: a well-formed geometry written in order [e1] and in order [e2]
    is decoded alike. *)
Definition decodes_alike {E : liblwgeom} (e1 e2 : endian)
  (rec : M (option LWGEOM)) : Prop :=
  forall (g : LWGEOM) (hs : bool) (l1 l2 : list byte),
    wf_geom g = true ->
    agree (alike (lwgeom_to_wkb e1 hs g ++ l1) (lwgeom_to_wkb e2 hs g ++ l2))
          rec (alike_after l1 l2).

(** The recursive call with the error flag up: NULL, with the flag still
    up. *)
Definition fails_alike (rec : M (option LWGEOM)) : Prop :=
  agree failing rec (fun a s1 s2 => a = None /\ failing s1 s2).

(** Inputs for concrete runs: a little-endian host whose error handler
    does not return, the point [SRID=4326;POINT(0 0)] and a two-point
    line. *)
Definition host : liblwgeom := Upstream.env false false.

Definition point_0_0 : LWGEOM :=
  LWPOINT 4326 false false (mkPOINTARRAY false false 1 [0; 0]).

Definition line_2 : LWGEOM :=
  LWLINE 0 false false
         (mkPOINTARRAY false false 2
            [0; 0; 0x3FF0000000000000; 0x4000000000000000]).

(* ================================================================== *)
(** ** The minimum distance query                                       *)
(* ================================================================== *)

Module Measures.

(** The number that a [double] is: one sign bit, eleven bits of exponent
    and fifty-two bits of mantissa. *)
Definition double_value (d : double) : PrimFloat.float :=
  let s := Z.testbit d 63 in
  let e := Z.land (Z.shiftr d 52) 0x7FF in
  let m := Z.land d 0xFFFFFFFFFFFFF in
  FloatOps.SF2Prim
    (if e =? 0x7FF
     then (if m =? 0 then SpecFloat.S754_infinity s else SpecFloat.S754_nan)
     else if e =? 0
          then (if m =? 0 then SpecFloat.S754_zero s
                else SpecFloat.S754_finite s (Z.to_pos m) (-1074))
          else SpecFloat.S754_finite s (Z.to_pos (m + 2 ^ 52)) (e - 1075)).

(** [FLT_MAX] of [<float.h>], [(2^24 - 1) * 2^104], as the [double] that
    [mindist < FLT_MAX] compares with. *)
Definition FLT_MAX : PrimFloat.float := double_value 0x47EFFFFFE0000000.

(** [#define DIST_MAX -1], [#define DIST_MIN 1] *)
Definition DIST_MAX : Z := -1.
Definition DIST_MIN : Z := 1.

(** [POINT2D] *)
Record POINT2D : Type := mkPOINT2D {
  x : PrimFloat.float;
  y : PrimFloat.float
}.

(** [DISTPTS], the structure used in distance calculations. *)
Record DISTPTS : Type := mkDISTPTS {
  distance : PrimFloat.float; (* the distance between p1 and p2 *)
  p1 : POINT2D;
  p2 : POINT2D;
  mode : Z;                   (* DIST_MAX or DIST_MIN *)
  twisted : Z;
  tolerance : PrimFloat.float
}.

(** What a measurement entry point hands to its caller: the error of
    [gserialized_error_if_srid_mismatch], the NULL of [PG_ERROR_NULL], or a
    number. *)
Inductive answer : Type :=
| SRID_mismatch
| PG_NULL
| PG_value (d : PrimFloat.float).

Section DistanceEngine.

(** Modelled from the spec: the dispatch of the Distance Dispatch Engine
    over two non-empty geometries ([lw_dist2d_recursive] and the primitives
    under it, which are declared in [measures.hpp] and defined outside
    [src/]).  It "decomposes compound/collection geometries recursively down
    to primitive-pair calls"; what the model keeps of it is the smallest
    distance that it sees between the two geometries, with the pair of
    points at that distance. *)
Variable lw_dist2d_seen :
  LWGEOM -> LWGEOM -> PrimFloat.float * (POINT2D * POINT2D).

(** Modelled from the spec: [lw_dist2d_distpts_init], "current best
    distance (initialized to [the sentinel] for minimum-seeking, 0 for
    maximum-seeking)".  The sentinel of the minimum is the [FLT_MAX] that
    its callers [ST_distance] and [LWGEOM_dwithin] expect back for empty
    operands. *)
Definition lw_dist2d_distpts_init (mode : Z) : DISTPTS :=
  mkDISTPTS (if mode =? DIST_MIN then FLT_MAX else PrimFloat.zero)
            (mkPOINT2D PrimFloat.zero PrimFloat.zero)
            (mkPOINT2D PrimFloat.zero PrimFloat.zero)
            mode 0 PrimFloat.zero.

(** Modelled from the spec: [lw_dist2d_comp].  "An operand that is empty
    (zero vertices, recursively) yields no distance defined - propagated to
    callers as a non-success without modifying the accumulator";
    "mode = MIN keeps the smallest distance seen", "mode = MAX keeps the
    largest", and "equality ties keep whichever witness was found first". *)
Definition lw_dist2d_comp (lw1 lw2 : LWGEOM) (dl : DISTPTS)
  : bool * DISTPTS :=
  if lwgeom_is_empty lw1 || lwgeom_is_empty lw2 then (false, dl)
  else
    let '(d, (q1, q2)) := lw_dist2d_seen lw1 lw2 in
    let better :=
      if mode dl =? DIST_MIN then PrimFloat.ltb d (distance dl)
      else PrimFloat.ltb (distance dl) d in
    (true,
     if better
     then mkDISTPTS d q1 q2 (mode dl) (twisted dl) (tolerance dl)
     else dl).

(** Modelled from the spec: [lwgeom_mindistance2d], the top-level call
    that owns the accumulator and "reads accumulator.distance afterward". *)
Definition lwgeom_mindistance2d (lw1 lw2 : LWGEOM) : PrimFloat.float :=
  distance (snd (lw_dist2d_comp lw1 lw2 (lw_dist2d_distpts_init DIST_MIN))).

(** [ST_distance], on the two geometries that [lwgeom_from_gserialized]
    hands it.  Modelled from the spec: [gserialized_error_if_srid_mismatch]
    ("mismatched spatial reference identifiers between two operands" is an
    error of every binary measurement entry point) and [PG_ERROR_NULL]
    ("callers translate this into a null/absent result"). *)
Definition ST_distance (geom1 geom2 : LWGEOM) : answer :=
  let lwgeom1 := geom1 in
  let lwgeom2 := geom2 in
  if negb (lwgeom_srid geom1 =? lwgeom_srid geom2) then SRID_mismatch
  else
    let mindist := lwgeom_mindistance2d lwgeom1 lwgeom2 in
    (* if called with empty geometries the ingoing mindistance is
       untouched, and makes us return NULL *)
    if PrimFloat.ltb mindist FLT_MAX then PG_value mindist
    else PG_NULL.

End DistanceEngine.

(** The first vertex of a geometry of a simple kind, as a [POINT2D]. *)
Definition getPoint2d (g : LWGEOM) : POINT2D :=
  match g with
  | LWPOINT _ _ _ pa | LWLINE _ _ _ pa | LWCIRCSTRING _ _ _ pa
  | LWTRIANGLE _ _ _ pa =>
      mkPOINT2D (double_value (nth 0 (serialized_pointlist pa) 0))
                (double_value (nth 1 (serialized_pointlist pa) 0))
  | _ => mkPOINT2D PrimFloat.zero PrimFloat.zero
  end.

(** Modelled from the spec: the point-to-point primitive, the Euclidean
    distance of two coordinate pairs in double arithmetic ("Point(0,0) vs
    Point(3,4): min distance 5.0 exactly"). *)
Definition distance2d_pt_pt (a b : POINT2D) : PrimFloat.float :=
  let hside := PrimFloat.sub (x b) (x a) in
  let vside := PrimFloat.sub (y b) (y a) in
  PrimFloat.sqrt (PrimFloat.add (PrimFloat.mul hside hside)
                                (PrimFloat.mul vside vside)).

(** The engine on two Points ([lw_dist2d_point_point]); the concrete
    queries below are between Points. *)
Definition lw_dist2d_point_point (g1 g2 : LWGEOM)
  : PrimFloat.float * (POINT2D * POINT2D) :=
  (distance2d_pt_pt (getPoint2d g1) (getPoint2d g2),
   (getPoint2d g1, getPoint2d g2)).

(** [POINT(x y)] from the bit patterns of its coordinates. *)
Definition point (srid : Z) (px py : double) : LWGEOM :=
  LWPOINT srid false false (mkPOINTARRAY false false 1 [px; py]).

End Measures.

(** The triangle [TRIANGLE((0 0,1 0,0 1,0 0))]. *)
Definition triangle_unit : LWGEOM :=
  LWTRIANGLE 0 false false
    (mkPOINTARRAY false false 4
       [0; 0; 0x3FF0000000000000; 0; 0; 0x3FF0000000000000; 0; 0]).

(* ================================================================== *)
(** ** Hex strings                                                      *)
(* ================================================================== *)

Module Hex.

(** [static uint8_t hex2char[256]], the character->number map, in rows of
    sixteen.  Anything > 15 is invalid. *)
Definition hex2char : list Z :=
  [
   20; 20; 20; 20; 20; 20; 20; 20; 20; 20; 20; 20; 20; 20; 20; 20;
   20; 20; 20; 20; 20; 20; 20; 20; 20; 20; 20; 20; 20; 20; 20; 20;
   20; 20; 20; 20; 20; 20; 20; 20; 20; 20; 20; 20; 20; 20; 20; 20;
    0;  1;  2;  3;  4;  5;  6;  7;  8;  9; 20; 20; 20; 20; 20; 20;
   20; 10; 11; 12; 13; 14; 15; 20; 20; 20; 20; 20; 20; 20; 20; 20;
   20; 20; 20; 20; 20; 20; 20; 20; 20; 20; 20; 20; 20; 20; 20; 20;
   20; 10; 11; 12; 13; 14; 15; 20; 20; 20; 20; 20; 20; 20; 20; 20;
   20; 20; 20; 20; 20; 20; 20; 20; 20; 20; 20; 20; 20; 20; 20; 20;
   20; 20; 20; 20; 20; 20; 20; 20; 20; 20; 20; 20; 20; 20; 20; 20;
   20; 20; 20; 20; 20; 20; 20; 20; 20; 20; 20; 20; 20; 20; 20; 20;
   20; 20; 20; 20; 20; 20; 20; 20; 20; 20; 20; 20; 20; 20; 20; 20;
   20; 20; 20; 20; 20; 20; 20; 20; 20; 20; 20; 20; 20; 20; 20; 20;
   20; 20; 20; 20; 20; 20; 20; 20; 20; 20; 20; 20; 20; 20; 20; 20;
   20; 20; 20; 20; 20; 20; 20; 20; 20; 20; 20; 20; 20; 20; 20; 20;
   20; 20; 20; 20; 20; 20; 20; 20; 20; 20; 20; 20; 20; 20; 20; 20;
   20; 20; 20; 20; 20; 20; 20; 20; 20; 20; 20; 20; 20; 20; 20; 20
  ].

(** The messages that [bytes_from_hexbytes] hands to [lwerror]. *)
Inductive hex_error : Type :=
| Invalid_hex_string_length (hexsize : Z)
| Unable_to_allocate_memory_buffer
| Invalid_hex_character (c : byte).

(** What a call of [bytes_from_hexbytes] comes to: [return buf]; an
    [lwerror] followed, should the handler return, by [return nullptr]; a
    read outside [hexbuf] or outside [hex2char], which C leaves undefined;
    or a loop that is still running when the budget of the model is used
    up. *)
Inductive hex_outcome : Type :=
| Bytes (buf : list byte)
| Error (e : hex_error)
| OutOfBounds
| Diverges.

Section BytesFromHexbytes.

(** Whether [char] is a signed type is the compiler's choice, and
    [lwalloc] is defined outside [src/]: [lwalloc_succeeds n] says that
    [lwalloc(n)] does not return NULL. *)
Variable char_is_signed : bool.
Variable lwalloc_succeeds : Z -> bool.

(** [(int)hexbuf[k]] *)
Definition char_at (hexbuf : list byte) (k : Z) : option Z :=
  if k <? 0 then None
  else
    match nth_error hexbuf (Z.to_nat k) with
    | Some b =>
        let v := byte_to_Z b in
        Some (if char_is_signed && (128 <=? v) then v - 256 else v)
    | None => None
    end.

(** [hex2char[c]] *)
Definition hex2char_at (c : Z) : option Z :=
  if (0 <=? c) && (c <? 256) then nth_error hex2char (Z.to_nat c)
  else None.

(** [for (i = 0; i < hexsize / 2; i++)], with [i] a [uint32_t]; [fuel]
    bounds the iterations. *)
Fixpoint hex_loop (fuel : nat) (hexbuf : list byte) (hexsize : Z) (i : Z)
  (buf : list byte) : hex_outcome :=
  match fuel with
  | O => Diverges
  | S fuel' =>
      if i <? hexsize / 2 then
        match char_at hexbuf (uint32 (2 * i)),
              char_at hexbuf (uint32 (2 * i + 1)) with
        | Some c1, Some c2 =>
            match hex2char_at c1, hex2char_at c2 with
            | Some h1, Some h2 =>
                if h1 >? 15
                then Error (Invalid_hex_character
                              (nth (Z.to_nat (uint32 (2 * i))) hexbuf x00))
                else if h2 >? 15
                then Error (Invalid_hex_character
                              (nth (Z.to_nat (uint32 (2 * i + 1)))
                                   hexbuf x00))
                else
                  (* First character is high bits, second is low bits *)
                  hex_loop fuel' hexbuf hexsize (uint32 (i + 1))
                    (upd (Z.to_nat i)
                         (byte_of_Z (Z.lor (Z.shiftl (Z.land h1 0x0F) 4)
                                           (Z.land h2 0x0F)))
                         buf)
            | _, _ => OutOfBounds
            end
        | _, _ => OutOfBounds
        end
      else Bytes buf
  end.

(** [bytes_from_hexbytes].  The buffer that [lwalloc] hands out is not
    initialised; the model starts it with zeros.  While [hexsize / 2] is
    below [2^32] the counter does not wrap and [hexsize / 2 + 1] rounds of
    the loop are enough. *)
Definition bytes_from_hexbytes (hexbuf : list byte) (hexsize : Z)
  : hex_outcome :=
  if negb (hexsize mod 2 =? 0)
  then Error (Invalid_hex_string_length hexsize)
  else if negb (lwalloc_succeeds (hexsize / 2))
  then Error Unable_to_allocate_memory_buffer
  else hex_loop (S (Z.to_nat (hexsize / 2))) hexbuf hexsize 0
                (repeat x00 (Z.to_nat (hexsize / 2))).

End BytesFromHexbytes.

(** Hexadecimal notation: the digit of a value from 0 to 15, in upper or in
    lower case, and a byte as two digits, high bits first. *)
Definition hex_digit (upper : bool) (v : Z) : byte :=
  if v <? 10 then byte_of_Z (48 + v)
  else byte_of_Z ((if upper then 55 else 87) + v).

Definition hex_of_byte (b : byte) (upper : bool * bool) : list byte :=
  [hex_digit (fst upper) (byte_to_Z b / 16);
   hex_digit (snd upper) (byte_to_Z b mod 16)].

Fixpoint hex_of_bytes (l : list (byte * (bool * bool))) : list byte :=
  match l with
  | [] => []
  | (b, upper) :: rest => hex_of_byte b upper ++ hex_of_bytes rest
  end.

End Hex.

(* ================================================================== *)
(** ** Predicates of the memory-safety proof                            *)
(* ================================================================== *)

(** The position is inside the declared size, and the declared size is
    inside the buffer that the caller handed over. *)
Definition in_bounds (s : wkb_parse_state) : Prop :=
  0 <= pos s <= wkb_size s /\ wkb_size s <= Z.of_nat (length (wkb s)).

(** [m], started in [Pre], reads nothing outside the buffer; when it
    returns the value and state are in [Post]; it leaves through [lwerror]
    only if the installed handler does not return.  Nothing is said here of
    the budget. *)
Definition guarded {E : liblwgeom} {A} (Pre : wkb_parse_state -> Prop)
  (m : M A) (Post : A -> wkb_parse_state -> Prop) : Prop :=
  forall s, Pre s ->
    match m s with
    | Ret a s' => Post a s'
    | Raise _ _ => lwerror_returns = false
    | Fault _ => False
    | Fuel => True
    end.

(** [m] reads inside the buffer and keeps the position inside it. *)
Definition bounded {E : liblwgeom} {A} (m : M A) : Prop :=
  guarded in_bounds m (fun _ => in_bounds).

(* ================================================================== *)
(** ** More of [lwgeom.cpp]: collections, SRID, dimension               *)
(* ================================================================== *)

(** [lwtype_is_collection]: the geometry may contain sub-geometries. *)
Definition lwtype_is_collection (type : lwtype_t) : bool :=
  match type with
  | MULTIPOINTTYPE | MULTILINETYPE | MULTIPOLYGONTYPE | COLLECTIONTYPE
  | CURVEPOLYTYPE | COMPOUNDTYPE | MULTICURVETYPE | MULTISURFACETYPE
  | POLYHEDRALSURFACETYPE | TINTYPE => true
  | _ => false
  end.

(** [lwgeom_is_collection], for a non-NULL geometry. *)
Definition lwgeom_is_collection (geom : LWGEOM) : bool :=
  lwtype_is_collection (lwgeom_type geom).

(** [lwtype_get_collectiontype]: given a kind, what homogeneous collection
    can hold it? *)
Definition lwtype_get_collectiontype (type : lwtype_t) : lwtype_t :=
  match type with
  | POINTTYPE => MULTIPOINTTYPE
  | LINETYPE => MULTILINETYPE
  | POLYGONTYPE => MULTIPOLYGONTYPE
  | CIRCSTRINGTYPE => MULTICURVETYPE
  | COMPOUNDTYPE => MULTICURVETYPE
  | CURVEPOLYTYPE => MULTISURFACETYPE
  | TRIANGLETYPE => TINTYPE
  | _ => COLLECTIONTYPE
  end.

(** [lwgeom_set_srid]: the SRID of the geometry is set and, when
    [lwgeom_is_collection] holds, "all the children are set to the same
    SRID value".  The children are those that the cast of
    [lwgeom_as_lwcollection] finds: the [geoms] of a collection and the
    [rings] of a curve polygon; the rings of a polygon are point arrays and
    carry no SRID.  The update in place is the returned geometry. *)
Fixpoint lwgeom_set_srid (geom : LWGEOM) (srid : Z) : LWGEOM :=
  match geom with
  | LWPOINT _ hz hm pa => LWPOINT srid hz hm pa
  | LWLINE _ hz hm pa => LWLINE srid hz hm pa
  | LWCIRCSTRING _ hz hm pa => LWCIRCSTRING srid hz hm pa
  | LWTRIANGLE _ hz hm pa => LWTRIANGLE srid hz hm pa
  | LWPOLY _ hz hm rings => LWPOLY srid hz hm rings
  | LWCURVEPOLY _ hz hm rings =>
      LWCURVEPOLY srid hz hm (map (fun g => lwgeom_set_srid g srid) rings)
  | LWCOLLECTION t _ hz hm geoms =>
      LWCOLLECTION t srid hz hm
        (if lwtype_is_collection t
         then map (fun g => lwgeom_set_srid g srid) geoms
         else geoms)
  end.

(** [lwgeom_get_srid]; [None] is the NULL geometry. *)
Definition lwgeom_get_srid {E : liblwgeom} (geom : option LWGEOM) : Z :=
  match geom with
  | None => SRID_UNKNOWN
  | Some g => lwgeom_srid g
  end.

(** [lwgeom_has_srid] *)
Definition lwgeom_has_srid {E : liblwgeom} (geom : LWGEOM) : bool :=
  negb (lwgeom_srid geom =? SRID_UNKNOWN).

Section MaxDimension.
Variable dimension : LWGEOM -> Z.
(** The [for] loop of the [COLLECTIONTYPE] case of [lwgeom_dimension]:
    [maxdim = (dim > maxdim ? dim : maxdim)] over the children. *)
Fixpoint max_dimension (geoms : list LWGEOM) (maxdim : Z) : Z :=
  match geoms with
  | [] => maxdim
  | g :: rest =>
      let dim := dimension g in
      max_dimension rest (if dim >? maxdim then dim else maxdim)
  end.
End MaxDimension.

Section Dimension.

(** [lwpsurface_is_closed] is defined outside [src/]. *)
Variable lwpsurface_is_closed : LWGEOM -> bool.

(** [lwgeom_dimension], for a non-NULL geometry (NULL gives -1): "returns 0
    for points, 1 for lines, 2 for polygons, 3 for volume, and the max
    dimension of a collection". *)
Fixpoint lwgeom_dimension (geom : LWGEOM) : Z :=
  match lwgeom_type geom with
  | POINTTYPE | MULTIPOINTTYPE => 0
  | CIRCSTRINGTYPE | LINETYPE | COMPOUNDTYPE | MULTICURVETYPE
  | MULTILINETYPE => 1
  | TRIANGLETYPE | POLYGONTYPE | CURVEPOLYTYPE | MULTISURFACETYPE
  | MULTIPOLYGONTYPE | TINTYPE => 2
  | POLYHEDRALSURFACETYPE =>
      (* A closed polyhedral surface contains a volume. *)
      if lwpsurface_is_closed geom then 3 else 2
  | COLLECTIONTYPE =>
      match geom with
      | LWCOLLECTION _ _ _ _ geoms => max_dimension lwgeom_dimension geoms 0
      | _ => 0
      end
  | LWTYPE_NONE => -1
  end.

End Dimension.

(** Every collection of the tree is tagged with a kind that
    [lwtype_is_collection] knows: no [LWCOLLECTION] struct carries the type
    of a simple geometry. *)
Fixpoint collections_tagged (g : LWGEOM) : bool :=
  match g with
  | LWCURVEPOLY _ _ _ rings => all_geoms collections_tagged rings
  | LWCOLLECTION t _ _ _ geoms =>
      lwtype_is_collection t && all_geoms collections_tagged geoms
  | _ => true
  end.

(** The SRID of every geometry of the tree is [srid]. *)
Fixpoint srid_throughout (srid : Z) (g : LWGEOM) : bool :=
  (lwgeom_srid g =? srid)
  && match g with
     | LWCURVEPOLY _ _ _ rings => all_geoms (srid_throughout srid) rings
     | LWCOLLECTION _ _ _ _ geoms => all_geoms (srid_throughout srid) geoms
     | _ => true
     end.

(* ================================================================== *)
(** ** Dimension flags, and what a decoded geometry is built from       *)
(* ================================================================== *)

(** [lwgeom_has_z]: [FLAGS_GET_Z(geom->flags)], for a non-NULL geometry,
    and the M flag, which [FLAGS_GET_M] reads the same way. *)
Definition lwgeom_has_z (geom : LWGEOM) : bool :=
  match geom with
  | LWPOINT _ hz _ _ | LWLINE _ hz _ _ | LWCIRCSTRING _ hz _ _
  | LWTRIANGLE _ hz _ _ | LWPOLY _ hz _ _ | LWCURVEPOLY _ hz _ _
  | LWCOLLECTION _ _ hz _ _ => hz
  end.

Definition lwgeom_has_m (geom : LWGEOM) : bool :=
  match geom with
  | LWPOINT _ _ hm _ | LWLINE _ _ hm _ | LWCIRCSTRING _ _ hm _
  | LWTRIANGLE _ _ hm _ | LWPOLY _ _ hm _ | LWCURVEPOLY _ _ hm _
  | LWCOLLECTION _ _ _ hm _ => hm
  end.

(** [g] is a well-formed geometry of kind [t] with SRID [sr] and
    dimension flags [hz] and [hm]. *)
Definition built_as (t : lwtype_t) (sr : Z) (hz hm : bool) (g : LWGEOM)
  : Prop :=
  lwgeom_type g = t /\ lwgeom_srid g = sr /\
  lwgeom_has_z g = hz /\ lwgeom_has_m g = hm /\
  wf_geom g = true.

(** ... with the SRID and the dimension flags of the parse state [s0]. *)
Definition built (s0 : wkb_parse_state) (t : lwtype_t) (g : LWGEOM) : Prop :=
  built_as t (srid s0) (has_z s0) (has_m s0) g.

(** [pa] is a well-formed point array with the dimension flags of [s0]. *)
Definition built_ptarray (s0 : wkb_parse_state) (pa : POINTARRAY) : Prop :=
  pa_has_z pa = has_z s0 /\ pa_has_m pa = has_m s0 /\
  wf_ptarray (has_z s0) (has_m s0) pa = true.

(* ================================================================== *)
(** ** Geometries that the decoder reads back                           *)
(* ================================================================== *)

(** A point array as the decoder builds it: the flags of its geometry, no
    more than [maxpoints] points, and as many coordinates as the count and
    the flags call for. *)
Definition canonical_ptarray (hz hm : bool) (pa : POINTARRAY) : bool :=
  Bool.eqb (pa_has_z pa) hz && Bool.eqb (pa_has_m pa) hm
  && (npoints pa <=? maxpoints) && wf_ptarray hz hm pa.

(** A geometry as the decoder builds it.  A point holds one point or none,
    and the one point is not the NaN pair that stands for the empty point; a
    triangle is closed, which the [ZCLOSURE] check asks for once a
    polyhedral surface has been read; a collection is tagged with the kind
    of a collection. *)
Fixpoint canonical (g : LWGEOM) : bool :=
  match g with
  | LWPOINT _ hz hm pa =>
      canonical_ptarray hz hm pa
      && ((npoints pa =? 0)
          || ((npoints pa =? 1)
              && negb (isnan (getPoint2d_x pa) && isnan (getPoint2d_y pa))))
  | LWLINE _ hz hm pa | LWCIRCSTRING _ hz hm pa =>
      canonical_ptarray hz hm pa
  | LWTRIANGLE _ hz hm pa =>
      canonical_ptarray hz hm pa
      && ((npoints pa =? 0) || ptarray_is_closed_z pa)
  | LWPOLY _ hz hm rings =>
      (Z.of_nat (length rings) <? 4294967296)
      && forallb (canonical_ptarray hz hm) rings
  | LWCURVEPOLY _ _ _ rings =>
      (Z.of_nat (length rings) <? 4294967296) && all_geoms canonical rings
  | LWCOLLECTION t _ _ _ geoms =>
      is_collection_kind t
      && (Z.of_nat (length geoms) <? 4294967296)
      && all_geoms canonical geoms
  end.

(** Each container of the tree takes each of its children:
    [lwcurvepoly_add_ring] and [lwcollection_add_lwgeom] succeed. *)
Fixpoint accepted {E : liblwgeom} (g : LWGEOM) : bool :=
  match g with
  | LWCURVEPOLY _ _ _ rings =>
      all_geoms (fun r => lwcurvepoly_allows_ring (lwgeom_type r)
                          && accepted r) rings
  | LWCOLLECTION t _ _ _ geoms =>
      all_geoms (fun c => lwcollection_allows_subtype t (lwgeom_type c)
                          && accepted c) geoms
  | _ => true
  end.

(** The collections of the tree, entered at depth [d], stay under
    [LW_PARSER_MAX_DEPTH]: a collection with members takes one level, the
    rings of a curve polygon none. *)
Fixpoint fits_depth (d : Z) (g : LWGEOM) : bool :=
  match g with
  | LWCURVEPOLY _ _ _ rings => all_geoms (fits_depth d) rings
  | LWCOLLECTION _ _ _ _ geoms =>
      match geoms with
      | [] => true
      | _ => (d + 1 <? LW_PARSER_MAX_DEPTH)
             && all_geoms (fits_depth (d + 1)) geoms
      end
  | _ => true
  end.

(** The number of nested activations of [lwgeom_from_wkb_state] that the
    tree takes. *)
Fixpoint activations (g : LWGEOM) : nat :=
  match g with
  | LWCURVEPOLY _ _ _ rings =>
      S (fold_right (fun r acc => Nat.max (activations r) acc) 0%nat rings)
  | LWCOLLECTION _ _ _ _ geoms =>
      S (fold_right (fun c acc => Nat.max (activations c) acc) 0%nat geoms)
  | _ => 1%nat
  end.

(** None of the checks of lines, circular strings and rings is requested
    by [chk], with the [ZCLOSURE] bit or without it. *)
Definition quiet {E : liblwgeom} (chk : Z) : Prop :=
  forall c, c = chk \/ c = Z.lor chk LW_PARSER_CHECK_ZCLOSURE ->
            check_requested c LW_PARSER_CHECK_MINPOINTS = false /\
            check_requested c LW_PARSER_CHECK_ODD = false /\
            check_requested c LW_PARSER_CHECK_CLOSURE = false.

(* ================================================================== *)
(** * Properties                                                        *)
(* ================================================================== *)

(* ================================================================== *)
(** ** Introspection: [lwgeom_needs_bbox]                               *)
(* ================================================================== *)

Lemma lwtype_eqb_eq (a b : lwtype_t) : lwtype_eqb a b = true <-> a = b.
Proof.
  split.
  - destruct a, b; simpl; intros H; try reflexivity; discriminate H.
  - intros ->. destruct b; reflexivity.
Qed.

(** C9, as stated, fails: an empty Line is neither a Point nor a 2-vertex
    Line, and [lwgeom_needs_bbox] still answers false for it. *)
Lemma needs_bbox_empty_line :
  let g := lwline_construct_empty 0 false false in
  lwgeom_type g = LINETYPE /\
  lwgeom_count_vertices g = 0 /\
  lwgeom_count_vertices g <> 2 /\
  lwgeom_needs_bbox g = false.
Proof. cbv. repeat split; discriminate. Qed.

(** C9, amended: [lwgeom_needs_bbox] answers false exactly for a Point and
    for a Line of at most two vertices; for every other geometry it answers
    true. *)
Theorem lwgeom_needs_bbox_spec (g : LWGEOM) :
  lwgeom_needs_bbox g = false <->
  lwgeom_type g = POINTTYPE \/
  (lwgeom_type g = LINETYPE /\ lwgeom_count_vertices g <= 2).
Proof.
  unfold lwgeom_needs_bbox.
  destruct (lwtype_eqb (lwgeom_type g) POINTTYPE) eqn:Hp.
  - apply lwtype_eqb_eq in Hp. tauto.
  - assert (Hnp : lwgeom_type g <> POINTTYPE).
    { intros H. apply lwtype_eqb_eq in H. congruence. }
    destruct (lwtype_eqb (lwgeom_type g) LINETYPE) eqn:Hl.
    + apply lwtype_eqb_eq in Hl.
      destruct (lwgeom_count_vertices g <=? 2) eqn:Hc.
      * apply Z.leb_le in Hc. tauto.
      * apply Z.leb_gt in Hc. split; [discriminate|].
        intros [H|[_ H]]; [contradiction | lia].
    + assert (Hnl : lwgeom_type g <> LINETYPE).
      { intros H. apply lwtype_eqb_eq in H. congruence. }
      split; [discriminate|]. intros [H|[H _]]; contradiction.
Qed.

(* ================================================================== *)
(** ** The type-number decoder                                          *)
(* ================================================================== *)

Section TypeDecoder.

Context {E : liblwgeom}.

(** The flag-extraction prefix of [lwtype_from_wkb_state] always returns. *)
Lemma extended_flags_returns (wkb_type : Z) (s : wkb_parse_state) :
  exists s', extended_flags wkb_type s = Ret tt s'.
Proof.
  unfold extended_flags, bind, modify, when, ret.
  destruct (negb (Z.land wkb_type 0xF0000000 =? 0));
    destruct (negb (Z.land wkb_type WKBZOFFSET =? 0));
    destruct (negb (Z.land wkb_type WKBMOFFSET =? 0));
    destruct (negb (Z.land wkb_type WKBSRIDFLAG =? 0));
    eexists; reflexivity.
Qed.

Lemma lwtype_of_simple_type_none (t : Z) :
  lwtype_of_simple_type t = None <-> ~ (1 <= t <= 17).
Proof.
  unfold lwtype_of_simple_type, WKB_POINT_TYPE, WKB_LINESTRING_TYPE,
    WKB_POLYGON_TYPE, WKB_CIRCULARSTRING_TYPE, WKB_MULTIPOINT_TYPE,
    WKB_MULTILINESTRING_TYPE, WKB_MULTIPOLYGON_TYPE, WKB_TRIANGLE_TYPE,
    WKB_GEOMETRYCOLLECTION_TYPE, WKB_COMPOUNDCURVE_TYPE,
    WKB_CURVEPOLYGON_TYPE, WKB_MULTICURVE_TYPE, WKB_MULTISURFACE_TYPE,
    WKB_POLYHEDRALSURFACE_TYPE, WKB_TIN_TYPE, WKB_CURVE_TYPE,
    WKB_SURFACE_TYPE.
  repeat match goal with
         | |- context [ ?a =? ?b ] =>
             let H := fresh "H" in
             destruct (Z.eqb_spec a b) as [H|H];
             [ subst; split; [ discriminate | intros HH; exfalso; lia ] | ]
         end.
  split; [ intros _; lia | reflexivity ].
Qed.

(** What the ISO-range step and the [switch] do once the type number has
    an entry in the table. *)
Lemma lwtype_from_wkb_state_known (wkb_type : Z) (s : wkb_parse_state)
  (t : lwtype_t) :
  Z.land wkb_type 0x0FFFFFFF < 4000 ->
  lwtype_of_simple_type (Z.land wkb_type 0x0FFFFFFF mod 1000) = Some t ->
  exists s', lwtype_from_wkb_state wkb_type s = Ret tt s' /\ lwtype s' = t.
Proof.
  intros Hlt Ht. unfold lwtype_from_wkb_state.
  destruct (extended_flags_returns wkb_type s) as [s1 H1].
  unfold bind at 1. rewrite H1. cbv zeta.
  destruct (Z.geb_spec (Z.land wkb_type 0x0FFFFFFF) 4000) as [Hge|_];
    [lia|].
  rewrite Ht. unfold bind, modify, ret.
  destruct ((Z.land wkb_type 0x0FFFFFFF >=? 3000)
            && (Z.land wkb_type 0x0FFFFFFF <? 4000));
    [ eexists; split; reflexivity | ].
  destruct ((Z.land wkb_type 0x0FFFFFFF >=? 2000)
            && (Z.land wkb_type 0x0FFFFFFF <? 3000));
    [ eexists; split; reflexivity | ].
  destruct ((Z.land wkb_type 0x0FFFFFFF >=? 1000)
            && (Z.land wkb_type 0x0FFFFFFF <? 2000));
    eexists; split; reflexivity.
Qed.

(** C5: the type-number decoder maps low-3-digit value 13 (Curve) to the
    CurvePolygon kind and 14 (Surface) to the MultiCurve kind, and a masked
    type number of 4000 or more, or one whose low three digits have no entry
    in the table (1 to 17), ends the parse with the "unknown type" error. *)
Theorem lwtype_from_wkb_state_mapping (wkb_type : Z) (s : wkb_parse_state) :
  lwerror_returns = false ->
  let masked := Z.land wkb_type 0x0FFFFFFF in
  (masked < 4000 -> masked mod 1000 = 13 ->
   exists s', lwtype_from_wkb_state wkb_type s = Ret tt s'
              /\ lwtype s' = CURVEPOLYTYPE) /\
  (masked < 4000 -> masked mod 1000 = 14 ->
   exists s', lwtype_from_wkb_state wkb_type s = Ret tt s'
              /\ lwtype s' = MULTICURVETYPE) /\
  (4000 <= masked ->
   exists s', lwtype_from_wkb_state wkb_type s = Raise Unknown_WKB_type s') /\
  (masked < 4000 -> ~ (1 <= masked mod 1000 <= 17) ->
   exists s', lwtype_from_wkb_state wkb_type s = Raise Unknown_WKB_type s').
Proof.
  intros Hfatal masked. subst masked.
  repeat split.
  - intros Hlt H13. apply lwtype_from_wkb_state_known; [assumption|].
    rewrite H13. reflexivity.
  - intros Hlt H14. apply lwtype_from_wkb_state_known; [assumption|].
    rewrite H14. reflexivity.
  - intros Hge. unfold lwtype_from_wkb_state.
    destruct (extended_flags_returns wkb_type s) as [s1 H1].
    unfold bind at 1. rewrite H1. cbv zeta.
    destruct (Z.geb_spec (Z.land wkb_type 0x0FFFFFFF) 4000) as [_|Hlt];
      [|lia].
    unfold lwerror. rewrite Hfatal. eexists; reflexivity.
  - intros Hlt Hnone. apply lwtype_of_simple_type_none in Hnone.
    unfold lwtype_from_wkb_state.
    destruct (extended_flags_returns wkb_type s) as [s1 H1].
    unfold bind at 1. rewrite H1. cbv zeta.
    destruct (Z.geb_spec (Z.land wkb_type 0x0FFFFFFF) 4000) as [Hge|_];
      [lia|].
    rewrite Hnone. unfold bind, modify, ret, lwerror. rewrite Hfatal.
    destruct ((Z.land wkb_type 0x0FFFFFFF >=? 3000)
              && (Z.land wkb_type 0x0FFFFFFF <? 4000));
      [ eexists; reflexivity | ].
    destruct ((Z.land wkb_type 0x0FFFFFFF >=? 2000)
              && (Z.land wkb_type 0x0FFFFFFF <? 3000));
      [ eexists; reflexivity | ].
    destruct ((Z.land wkb_type 0x0FFFFFFF >=? 1000)
              && (Z.land wkb_type 0x0FFFFFFF <? 2000));
      eexists; reflexivity.
Qed.

End TypeDecoder.

(* ================================================================== *)
(** ** The recursion budget                                             *)
(* ================================================================== *)

Lemma fuel_le_refl {A} (m : M A) : fuel_le m m.
Proof. intros s. right. reflexivity. Qed.

Lemma fuel_le_bind {A B} (m1 m2 : M A) (f1 f2 : A -> M B) :
  fuel_le m1 m2 -> (forall a, fuel_le (f1 a) (f2 a)) ->
  fuel_le (bind m1 f1) (bind m2 f2).
Proof.
  intros Hm Hf s. unfold bind.
  destruct (Hm s) as [H|H].
  - left. rewrite H. reflexivity.
  - rewrite <- H. destruct (m1 s); auto. apply Hf.
Qed.

Ltac fuel_le_step :=
  first
    [ assumption
    | apply fuel_le_refl
    | apply fuel_le_bind; [ | intros ? ]
    | match goal with
      | |- fuel_le (if ?c then _ else _) (if ?c then _ else _) => destruct c
      | |- fuel_le (match ?x with _ => _ end) (match ?x with _ => _ end) =>
          destruct x
      | |- fuel_le (when ?c _) (when ?c _) => destruct c; simpl
      end ].

Section FuelMonotone.

Context {E : liblwgeom}.

Lemma fuel_le_call {A} (c : call_site) (m1 m2 : M A) :
  fuel_le m1 m2 -> fuel_le (call c m1) (call c m2).
Proof. intros H. unfold call. repeat fuel_le_step. Qed.

Lemma fuel_le_curvepoly_rings (rec1 rec2 : M (option LWGEOM)) :
  fuel_le rec1 rec2 ->
  forall n cp,
    fuel_le (lwcurvepoly_rings_from_wkb_state rec1 n cp)
            (lwcurvepoly_rings_from_wkb_state rec2 n cp).
Proof.
  intros H. induction n as [|n IH]; intros cp; simpl.
  - apply fuel_le_refl.
  - apply fuel_le_bind; [ apply fuel_le_call; assumption | intros geom ].
    destruct (lwcurvepoly_add_ring cp geom); [ apply IH | apply fuel_le_refl ].
Qed.

Lemma fuel_le_collection_geoms (rec1 rec2 : M (option LWGEOM)) :
  fuel_le rec1 rec2 ->
  forall n col,
    fuel_le (lwcollection_geoms_from_wkb_state rec1 n col)
            (lwcollection_geoms_from_wkb_state rec2 n col).
Proof.
  intros H. induction n as [|n IH]; intros col; simpl.
  - apply fuel_le_refl.
  - apply fuel_le_bind; [ apply fuel_le_call; assumption | intros geom ].
    destruct (lwcollection_add_lwgeom col geom);
      [ apply IH | apply fuel_le_refl ].
Qed.

Lemma fuel_le_body (rec1 rec2 : M (option LWGEOM)) :
  fuel_le rec1 rec2 ->
  fuel_le (lwgeom_from_wkb_state_body rec1) (lwgeom_from_wkb_state_body rec2).
Proof.
  intros H.
  assert (Hcp : fuel_le (lwcurvepoly_from_wkb_state rec1)
                        (lwcurvepoly_from_wkb_state rec2)).
  { unfold lwcurvepoly_from_wkb_state.
    repeat first [ apply fuel_le_curvepoly_rings; assumption
                 | fuel_le_step ]. }
  assert (Hco : fuel_le (lwcollection_from_wkb_state rec1)
                        (lwcollection_from_wkb_state rec2)).
  { unfold lwcollection_from_wkb_state.
    repeat first [ apply fuel_le_collection_geoms; assumption
                 | fuel_le_step ]. }
  unfold lwgeom_from_wkb_state_body, lwgeom_dispatch.
  repeat fuel_le_step.
Qed.

Lemma fuel_le_succ (fuel : nat) :
  fuel_le (lwgeom_from_wkb_state fuel) (lwgeom_from_wkb_state (S fuel)).
Proof.
  induction fuel as [|fuel IH].
  - intros s. left. reflexivity.
  - change (fuel_le (lwgeom_from_wkb_state_body (lwgeom_from_wkb_state fuel))
              (lwgeom_from_wkb_state_body (lwgeom_from_wkb_state (S fuel)))).
    apply fuel_le_body. exact IH.
Qed.

(** A larger budget never changes an outcome that a smaller one reached. *)
Lemma lwgeom_from_wkb_state_fuel_mono (f1 f2 : nat) (s : wkb_parse_state) :
  (f1 <= f2)%nat ->
  lwgeom_from_wkb_state f1 s <> Fuel ->
  lwgeom_from_wkb_state f2 s = lwgeom_from_wkb_state f1 s.
Proof.
  intros Hle. induction Hle as [|f2 Hle IH]; intros Hnf; [reflexivity|].
  specialize (IH Hnf).
  destruct (fuel_le_succ f2 s) as [H|H]; [ congruence | ].
  congruence.
Qed.

End FuelMonotone.

(* ================================================================== *)
(** ** Decoding a buffer and decoding a longer one                      *)
(* ================================================================== *)

Lemma firstn_skipn_agree {A} (w1 w2 : list A) (k p n : nat) :
  firstn k w1 = firstn k w2 -> (p + n <= k)%nat ->
  firstn n (skipn p w1) = firstn n (skipn p w2).
Proof.
  intros H Hle.
  rewrite !firstn_skipn_comm.
  replace (firstn (p + n) w1) with (firstn (p + n) (firstn k w1))
    by (rewrite firstn_firstn; f_equal; lia).
  replace (firstn (p + n) w2) with (firstn (p + n) (firstn k w2))
    by (rewrite firstn_firstn; f_equal; lia).
  rewrite H. reflexivity.
Qed.

Lemma Sim_ret {A} (Pre : wkb_parse_state -> wkb_parse_state -> Prop)
  (Post : A -> wkb_parse_state -> wkb_parse_state -> Prop) (a : A) :
  (forall s1 s2, Pre s1 s2 -> Post a s1 s2) -> Sim Pre (ret a) (ret a) Post.
Proof. intros H s1 s2 Hp. right. simpl. auto. Qed.

Lemma Sim_bind {A B} Pre (Mid : A -> _ -> _ -> Prop) (Post : B -> _ -> _ -> Prop)
  (m1 m2 : M A) (f1 f2 : A -> M B) :
  Sim Pre m1 m2 Mid -> (forall a, Sim (Mid a) (f1 a) (f2 a) Post) ->
  Sim Pre (bind m1 f1) (bind m2 f2) Post.
Proof.
  intros Hm Hf s1 s2 Hp. specialize (Hm s1 s2 Hp). unfold bind.
  destruct Hm as [[s Hs]|Hm].
  - left. exists s. rewrite Hs. reflexivity.
  - destruct (m1 s1) as [a s1'|e1 s1'|s1'|], (m2 s2) as [b s2'|e2 s2'|s2'|];
      try contradiction.
    + destruct Hm as [<- Hmid]. apply Hf. exact Hmid.
    + right. exact Hm.
    + right. exact I.
Qed.

Lemma Sim_conseq {A} (Pre Pre' : _ -> _ -> Prop)
  (Post Post' : A -> _ -> _ -> Prop) (m1 m2 : M A) :
  Sim Pre' m1 m2 Post' ->
  (forall s1 s2, Pre s1 s2 -> Pre' s1 s2) ->
  (forall a s1 s2, Post' a s1 s2 -> Post a s1 s2) ->
  Sim Pre m1 m2 Post.
Proof.
  intros H Hpre Hpost s1 s2 Hp. specialize (H s1 s2 (Hpre _ _ Hp)).
  destruct H as [H|H]; [left; exact H|right].
  destruct (m1 s1), (m2 s2); try exact H.
  destruct H as [-> H]. split; auto.
Qed.

Lemma Simr_ret {A} (a : A) : Simr (ret a) (ret a).
Proof. apply Sim_ret. auto. Qed.

Lemma Simr_bind {A B} (m1 m2 : M A) (f1 f2 : A -> M B) :
  Simr m1 m2 -> (forall a, Simr (f1 a) (f2 a)) ->
  Simr (bind m1 f1) (bind m2 f2).
Proof. intros Hm Hf. eapply Sim_bind; [exact Hm|exact Hf]. Qed.

Lemma Simr_gets {A} (f : wkb_parse_state -> A) :
  (forall s1 s2, prefix_rel s1 s2 -> f s1 = f s2) ->
  Simr (gets f) (gets f).
Proof. intros H s1 s2 Hr. right. simpl. split; auto. Qed.

Lemma Simr_modify (f : wkb_parse_state -> wkb_parse_state) :
  (forall s1 s2, prefix_rel s1 s2 -> prefix_rel (f s1) (f s2)) ->
  Simr (modify f) (modify f).
Proof. intros H s1 s2 Hr. right. simpl. split; auto. Qed.

Ltac prefix_rel_fields :=
  match goal with
  | H : prefix_rel _ _ |- _ => destruct H
  end;
  first [ assumption
        | constructor; simpl; first [ assumption | congruence ] ].

Lemma Simr_when (c : bool) (m1 m2 : M unit) :
  Simr m1 m2 -> Simr (when c m1) (when c m2).
Proof. intros H. destruct c; simpl; [exact H|apply Simr_ret]. Qed.

Create HintDb sim.

Ltac sim_leaf :=
  solve [ assumption
        | apply Simr_ret
        | apply Simr_gets; intros ? ? ?; prefix_rel_fields
        | apply Simr_modify; intros ? ? ?; prefix_rel_fields
        | apply Simr_when; sim_leaf
        | auto with sim ].

Ltac sim_step :=
  first
    [ sim_leaf
    | apply Simr_bind; [ sim_leaf | intros ? ]
    | match goal with
      | |- Simr (if ?c then _ else _) (if ?c then _ else _) => destruct c
      | |- Simr (match ?x with _ => _ end) (match ?x with _ => _ end) =>
          destruct x
      | |- Simr (when ?c _) (when ?c _) => destruct c; simpl
      end ].

Ltac sim_auto :=
  repeat first
    [ sim_leaf
    | apply Simr_bind; [ | intros ? ]
    | match goal with
      | |- Simr (if ?c then _ else _) (if ?c then _ else _) => destruct c
      | |- Simr (match ?x with _ => _ end) (match ?x with _ => _ end) =>
          destruct x
      | |- Simr (when ?c _) (when ?c _) => destruct c; simpl
      end ].

Tactic Notation "sim_bind" "as" ident(x) :=
  apply Simr_bind; [ sim_leaf | intros x ].

Section PrefixSimulation.

Context {E : liblwgeom}.

(** The error handler does not return, as the spec has it ("all fatal"). *)
Hypothesis lwerror_fatal : lwerror_returns = false.

Lemma Sim_lwerror Pre (Post : unit -> _ -> _ -> Prop) (e : lwerror_msg) :
  Sim Pre (lwerror e) (lwerror e) Post.
Proof.
  intros s1 s2 _. unfold lwerror. rewrite lwerror_fatal. right. reflexivity.
Qed.

Lemma Simr_lwerror_then {A} (e : lwerror_msg) (k1 k2 : M A) :
  Simr (lwerror e ;; k1) (lwerror e ;; k2).
Proof.
  intros s1 s2 _. unfold bind, lwerror. rewrite lwerror_fatal.
  right. reflexivity.
Qed.

Lemma Sim_check (n : Z) :
  Sim prefix_rel (wkb_parse_state_check n) (wkb_parse_state_check n)
      (fun _ s1 s2 => prefix_rel s1 s2 /\ room n s1).
Proof.
  intros s1 s2 Hr.
  unfold wkb_parse_state_check, bind, gets, when, lwerror, ret, room.
  rewrite lwerror_fatal.
  destruct (Z.gtb_spec (pos s1 + n) (wkb_size s1)) as [H1|H1].
  - left. eexists. reflexivity.
  - right. destruct Hr.
    destruct (Z.gtb_spec (pos s2 + n) (wkb_size s2)) as [H2|H2]; [lia|].
    simpl. repeat split; try assumption.
Qed.

Lemma Sim_peek Pre (n : Z) :
  (forall s1 s2, Pre s1 s2 -> prefix_rel s1 s2 /\ room n s1) ->
  0 <= n ->
  Sim Pre (peek n) (peek n) (fun _ => Pre).
Proof.
  intros Hpre Hn s1 s2 Hp. right. unfold peek.
  destruct (Hpre _ _ Hp) as [Hr Hroom]. unfold room in Hroom. destruct Hr.
  assert (H1 : (0 <=? pos s1) && (pos s1 + n <=? Z.of_nat (length (wkb s1)))
               = true).
  { apply andb_true_intro. split; apply Z.leb_le; lia. }
  assert (H2 : (0 <=? pos s2) && (pos s2 + n <=? Z.of_nat (length (wkb s2)))
               = true).
  { apply andb_true_intro. split; apply Z.leb_le; lia. }
  rewrite H1, H2. split; [|assumption].
  rewrite <- pr_pos0.
  apply firstn_skipn_agree with (k := Z.to_nat (wkb_size s1));
    [assumption|lia].
Qed.

Lemma Sim_gets {A} Pre (f : wkb_parse_state -> A) :
  (forall s1 s2, Pre s1 s2 -> f s1 = f s2) ->
  Sim Pre (gets f) (gets f) (fun _ => Pre).
Proof. intros H s1 s2 Hp. right. simpl. split; auto. Qed.

Lemma Sim_advance (n m : Z) :
  0 <= n -> 0 <= m ->
  Sim (fun s1 s2 => prefix_rel s1 s2 /\ room (n + m) s1)
      (advance n) (advance n)
      (fun _ s1 s2 => prefix_rel s1 s2 /\ room m s1).
Proof.
  intros Hn Hm s1 s2 [Hr Hroom]. right. unfold advance, modify, room in *.
  split; [reflexivity|]. simpl.
  split; [|lia].
  destruct Hr. constructor; simpl; try assumption; try congruence; lia.
Qed.

Lemma Sim_drop_room {A} (m1 m2 : M A) (n : Z) :
  0 <= n ->
  Sim (fun s1 s2 => prefix_rel s1 s2 /\ room (n + 0) s1) m1 m2
      (fun _ s1 s2 => prefix_rel s1 s2 /\ room 0 s1) ->
  Sim (fun s1 s2 => prefix_rel s1 s2 /\ room n s1) m1 m2
      (fun _ => prefix_rel).
Proof.
  intros Hn H. eapply Sim_conseq; [exact H| |].
  - intros s1 s2 [Hr Hroom]. split; [assumption|].
    unfold room in *. lia.
  - intros a s1 s2 [Hr _]. exact Hr.
Qed.

Lemma Simr_byte : Simr byte_from_wkb_state byte_from_wkb_state.
Proof.
  unfold byte_from_wkb_state.
  eapply Sim_bind; [apply Sim_check|intros ?].
  eapply Sim_bind; [apply Sim_gets; intros s1 s2 [Hr _]; apply Hr|].
  intros err. destruct err.
  - apply Sim_ret. tauto.
  - eapply Sim_bind; [apply Sim_peek; [tauto|discriminate]|intros mem].
    apply Sim_drop_room; [discriminate|].
    eapply Sim_bind; [apply Sim_advance; [discriminate|lia]|intros ?].
    apply Sim_ret. tauto.
Qed.

Lemma Simr_integer : Simr integer_from_wkb_state integer_from_wkb_state.
Proof.
  unfold integer_from_wkb_state.
  eapply Sim_bind; [apply Sim_check|intros ?].
  eapply Sim_bind; [apply Sim_gets; intros s1 s2 [Hr _]; apply Hr|].
  intros err. destruct err.
  - apply Sim_ret. tauto.
  - eapply Sim_bind; [apply Sim_peek; [tauto|discriminate]|intros mem].
    eapply Sim_bind; [apply Sim_gets; intros s1 s2 [Hr _]; apply Hr|].
    intros swap.
    apply Sim_drop_room; [discriminate|].
    eapply Sim_bind; [apply Sim_advance; [discriminate|lia]|intros ?].
    apply Sim_ret. tauto.
Qed.

Lemma Sim_double (m : Z) :
  0 <= m ->
  Sim (fun s1 s2 => prefix_rel s1 s2 /\ room (WKB_DOUBLE_SIZE + m) s1)
      double_from_wkb_state double_from_wkb_state
      (fun _ s1 s2 => prefix_rel s1 s2 /\ room m s1).
Proof.
  intros Hm. unfold double_from_wkb_state.
  eapply Sim_bind.
  { apply Sim_peek; [|discriminate].
    intros s1 s2 [Hr Hroom]. split; [assumption|].
    unfold room in *. lia. }
  intros mem.
  eapply Sim_bind; [apply Sim_gets; intros s1 s2 [Hr _]; apply Hr|].
  intros swap.
  eapply Sim_bind; [apply Sim_advance; [discriminate|lia]|intros ?].
  apply Sim_ret. tauto.
Qed.

Lemma Sim_doubles (count : nat) (m : Z) :
  0 <= m ->
  Sim (fun s1 s2 => prefix_rel s1 s2
                    /\ room (WKB_DOUBLE_SIZE * Z.of_nat count + m) s1)
      (doubles_from_wkb_state count) (doubles_from_wkb_state count)
      (fun _ s1 s2 => prefix_rel s1 s2 /\ room m s1).
Proof.
  intros Hm. revert m Hm. induction count as [|count IH]; intros m Hm.
  - simpl doubles_from_wkb_state. apply Sim_ret.
    intros s1 s2 [Hr Hroom]. split; [assumption|].
    unfold room in *. simpl in Hroom. lia.
  - simpl doubles_from_wkb_state.
    eapply Sim_bind.
    { eapply Sim_conseq;
        [ apply (@Sim_double (WKB_DOUBLE_SIZE * Z.of_nat count + m));
          unfold WKB_DOUBLE_SIZE; lia
        | | intros a s1 s2 H; exact H ].
      intros s1 s2 [Hr Hroom]. split; [assumption|].
      unfold room, WKB_DOUBLE_SIZE in *. lia. }
    intros d.
    eapply Sim_bind; [apply IH; assumption|intros rest].
    apply Sim_ret. tauto.
Qed.

Lemma Sim_pure {A} (Pre : _ -> _ -> Prop) (P : Prop) (m1 m2 : M A) Post :
  (P -> Sim Pre m1 m2 Post) ->
  Sim (fun s1 s2 => Pre s1 s2 /\ P) m1 m2 Post.
Proof. intros H s1 s2 [Hp HP]. apply H; assumption. Qed.

Lemma byte_to_Z_range (b : byte) : 0 <= byte_to_Z b < 256.
Proof.
  unfold byte_to_Z. pose proof (Byte.to_N_bounded b). lia.
Qed.

Lemma le_value_nonneg (mem : list byte) : 0 <= le_value mem.
Proof.
  induction mem as [|b mem IH]; cbn [le_value]; [lia|].
  pose proof (byte_to_Z_range b). lia.
Qed.

Lemma host_value_nonneg (mem : list byte) : 0 <= host_value mem.
Proof. unfold host_value. destruct IS_BIG_ENDIAN; apply le_value_nonneg. Qed.

Lemma Sim_integer_nonneg :
  Sim prefix_rel integer_from_wkb_state integer_from_wkb_state
      (fun v s1 s2 => prefix_rel s1 s2 /\ 0 <= v).
Proof.
  unfold integer_from_wkb_state.
  eapply Sim_bind; [apply Sim_check|intros ?].
  eapply Sim_bind; [apply Sim_gets; intros s1 s2 [Hr _]; apply Hr|].
  intros err. destruct err.
  - apply Sim_ret. intros s1 s2 [Hr _]. split; [assumption|lia].
  - eapply Sim_bind; [apply Sim_peek; [tauto|discriminate]|intros mem].
    eapply Sim_bind; [apply Sim_gets; intros s1 s2 [Hr _]; apply Hr|].
    intros swap.
    apply Sim_conseq with
      (Pre' := fun s1 s2 => prefix_rel s1 s2 /\ room (WKB_INT_SIZE + 0) s1)
      (Post' := fun v s1 s2 => (prefix_rel s1 s2 /\ room 0 s1) /\ 0 <= v).
    + eapply Sim_bind; [apply Sim_advance; [discriminate|lia]|intros ?].
      apply Sim_ret. intros s1 s2 H. split; [exact H|].
      apply host_value_nonneg.
    + intros s1 s2 [Hr Hroom]. split; [assumption|].
      unfold room in *. lia.
    + intros v s1 s2 [[Hr _] Hv]. split; assumption.
Qed.

Lemma count_ndims_range (hz hm : bool) : 2 <= count_ndims hz hm <= 4.
Proof. unfold count_ndims. destruct hz, hm; simpl; lia. Qed.

(** Below [maxpoints] the size computation does not wrap. *)
Lemma pa_size_exact (n : Z) (hz hm : bool) :
  0 <= n <= maxpoints ->
  uint32 (n * count_ndims hz hm) = n * count_ndims hz hm /\
  uint32 (uint32 (n * count_ndims hz hm) * WKB_DOUBLE_SIZE)
  = WKB_DOUBLE_SIZE * (n * count_ndims hz hm).
Proof.
  intros Hn. pose proof (count_ndims_range hz hm) as Hd.
  assert (Hmax : maxpoints = 134217727) by reflexivity.
  unfold uint32, WKB_DOUBLE_SIZE.
  assert (H1 : (n * count_ndims hz hm) mod 4294967296
               = n * count_ndims hz hm).
  { apply Z.mod_small. nia. }
  rewrite H1. split; [reflexivity|].
  rewrite Z.mod_small by nia. lia.
Qed.

Lemma Simr_ptarray : Simr ptarray_from_wkb_state ptarray_from_wkb_state.
Proof.
  unfold ptarray_from_wkb_state.
  eapply Sim_bind; [apply Sim_integer_nonneg|intros npoints].
  apply Sim_pure. intros Hnn.
  sim_bind as err. destruct err; [sim_leaf|].
  destruct (Z.gtb_spec npoints maxpoints) as [Hgt|Hle].
  { repeat sim_step. }
  sim_bind as hz. sim_bind as hm. cbv zeta.
  destruct (npoints =? 0); [sim_step|].
  destruct (pa_size_exact hz hm (conj Hnn Hle)) as [Hc Hs].
  rewrite Hs, Hc.
  eapply Sim_bind; [apply Sim_check|intros ?].
  eapply Sim_bind; [apply Sim_gets; intros s1 s2 [Hr _]; apply Hr|].
  intros err. destruct err; [apply Sim_ret; tauto|].
  eapply Sim_bind; [apply Sim_gets; intros s1 s2 [Hr _]; apply Hr|].
  intros swap. pose proof (count_ndims_range hz hm) as Hd.
  destruct swap; simpl negb; cbv iota.
  - eapply Sim_bind.
    { eapply Sim_conseq;
        [ apply (@Sim_doubles (Z.to_nat (npoints * count_ndims hz hm)) 0);
          lia | | ].
      - intros s1 s2 [Hr Hroom]. split; [assumption|].
        unfold room in *. rewrite Z2Nat.id by nia. lia.
      - intros a2 s1 s2 [Hr _]. exact Hr. }
    intros dlist. sim_step.
  - eapply Sim_bind;
      [apply Sim_peek; [tauto|unfold WKB_DOUBLE_SIZE; nia]|intros ptlist].
    apply Sim_drop_room; [unfold WKB_DOUBLE_SIZE; nia|].
    eapply Sim_bind;
      [apply Sim_advance; [unfold WKB_DOUBLE_SIZE; nia|lia]|intros ?].
    apply Sim_ret. tauto.
Qed.

Lemma Simr_lwpoint : Simr lwpoint_from_wkb_state lwpoint_from_wkb_state.
Proof.
  unfold lwpoint_from_wkb_state. cbv zeta.
  sim_bind as hz. sim_bind as hm.
  pose proof (count_ndims_range hz hm) as Hd.
  eapply Sim_bind; [apply Sim_check|intros ?].
  eapply Sim_bind; [apply Sim_gets; intros s1 s2 [Hr _]; apply Hr|].
  intros err. destruct err; [apply Sim_ret; tauto|].
  eapply Sim_bind; [apply Sim_gets; intros s1 s2 [Hr _]; apply Hr|].
  intros swap.
  eapply Sim_bind with (Mid := fun _ => prefix_rel).
  { destruct swap; simpl negb; cbv iota.
    - eapply Sim_bind.
      { eapply Sim_conseq;
          [ apply (@Sim_doubles (Z.to_nat (count_ndims hz hm)) 0); lia | | ].
        - intros s1 s2 [Hr Hroom]. split; [assumption|].
          unfold room in *. rewrite Z2Nat.id by lia. lia.
        - intros a2 s1 s2 [Hr _]. exact Hr. }
      intros dlist. sim_step.
    - eapply Sim_bind;
        [apply Sim_peek; [tauto|unfold WKB_DOUBLE_SIZE; lia]|intros ptlist].
      apply Sim_drop_room; [unfold WKB_DOUBLE_SIZE; lia|].
      eapply Sim_bind;
        [apply Sim_advance; [unfold WKB_DOUBLE_SIZE; lia|lia]|intros ?].
      apply Sim_ret. tauto. }
  intros pa. repeat sim_step.
Qed.

#[local] Hint Resolve Simr_byte Simr_integer Simr_ptarray Simr_lwpoint
  Simr_lwerror_then : sim.

Lemma Simr_lwerror (e : lwerror_msg) : Simr (lwerror e) (lwerror e).
Proof. apply Sim_lwerror. Qed.

#[local] Hint Resolve Simr_lwerror : sim.

Lemma Simr_lwline : Simr lwline_from_wkb_state lwline_from_wkb_state.
Proof. unfold lwline_from_wkb_state. repeat sim_step. Qed.

Lemma Simr_lwcircstring :
  Simr lwcircstring_from_wkb_state lwcircstring_from_wkb_state.
Proof. unfold lwcircstring_from_wkb_state. repeat sim_step. Qed.

Lemma Simr_lwpoly_rings (n : nat) (poly : LWGEOM) :
  Simr (lwpoly_rings_from_wkb_state n poly)
       (lwpoly_rings_from_wkb_state n poly).
Proof.
  revert poly. induction n as [|n IH]; intros poly; simpl.
  - sim_leaf.
  - sim_bind as pa. destruct pa as [pa|]; [|sim_leaf].
    sim_bind as chk.
    repeat first [ apply IH | sim_step ].
Qed.

#[local] Hint Resolve Simr_lwpoly_rings : sim.

Lemma Simr_lwpoly : Simr lwpoly_from_wkb_state lwpoly_from_wkb_state.
Proof. unfold lwpoly_from_wkb_state. repeat sim_step. Qed.

Lemma Simr_lwtriangle :
  Simr lwtriangle_from_wkb_state lwtriangle_from_wkb_state.
Proof. unfold lwtriangle_from_wkb_state. repeat sim_step. Qed.

#[local] Hint Resolve Simr_lwline Simr_lwcircstring Simr_lwpoly
  Simr_lwtriangle : sim.

Lemma Simr_lwtype_from_wkb_state (wkb_type : Z) :
  Simr (lwtype_from_wkb_state wkb_type) (lwtype_from_wkb_state wkb_type).
Proof. unfold lwtype_from_wkb_state, extended_flags. sim_auto. Qed.

Lemma Simr_call {A} (c : call_site) (m1 m2 : M A) :
  Simr m1 m2 -> Simr (call c m1) (call c m2).
Proof. intros H. unfold call. repeat sim_step. Qed.

Section SimRecursion.

Variables rec1 rec2 : M (option LWGEOM).
Hypothesis Simr_rec : Simr rec1 rec2.

Lemma Simr_lwcurvepoly_rings (n : nat) (cp : LWGEOM) :
  Simr (lwcurvepoly_rings_from_wkb_state rec1 n cp)
       (lwcurvepoly_rings_from_wkb_state rec2 n cp).
Proof.
  revert cp. induction n as [|n IH]; intros cp; simpl.
  - sim_leaf.
  - apply Simr_bind; [apply Simr_call; exact Simr_rec|intros geom].
    destruct (lwcurvepoly_add_ring cp geom); [apply IH|sim_leaf].
Qed.

Lemma Simr_lwcollection_geoms (n : nat) (col : LWGEOM) :
  Simr (lwcollection_geoms_from_wkb_state rec1 n col)
       (lwcollection_geoms_from_wkb_state rec2 n col).
Proof.
  revert col. induction n as [|n IH]; intros col; simpl.
  - sim_leaf.
  - apply Simr_bind; [apply Simr_call; exact Simr_rec|intros geom].
    destruct (lwcollection_add_lwgeom col geom); [apply IH|sim_leaf].
Qed.

Lemma Simr_lwcurvepoly :
  Simr (lwcurvepoly_from_wkb_state rec1) (lwcurvepoly_from_wkb_state rec2).
Proof.
  unfold lwcurvepoly_from_wkb_state.
  repeat first [ apply Simr_lwcurvepoly_rings | sim_step ].
Qed.

Lemma Simr_lwcollection :
  Simr (lwcollection_from_wkb_state rec1) (lwcollection_from_wkb_state rec2).
Proof.
  unfold lwcollection_from_wkb_state.
  repeat first [ sim_step
               | apply Simr_bind;
                 [ apply Simr_lwcollection_geoms | intros ? ] ].
Qed.

Lemma Simr_body :
  Simr (lwgeom_from_wkb_state_body rec1) (lwgeom_from_wkb_state_body rec2).
Proof.
  pose proof Simr_lwcurvepoly. pose proof Simr_lwcollection.
  pose proof Simr_lwtype_from_wkb_state.
  unfold lwgeom_from_wkb_state_body, lwgeom_dispatch.
  sim_auto.
Qed.

End SimRecursion.

Lemma Simr_lwgeom_from_wkb_state (fuel : nat) :
  Simr (lwgeom_from_wkb_state fuel) (lwgeom_from_wkb_state fuel).
Proof.
  induction fuel as [|fuel IH].
  - intros s1 s2 _. right. exact I.
  - simpl. apply Simr_body. exact IH.
Qed.

End PrefixSimulation.

(* ================================================================== *)
(** ** Hoare triples                                                    *)
(* ================================================================== *)

Lemma triple_ret {A} U (Pre : _ -> Prop) (Post : A -> _ -> Prop) Exc (a : A) :
  (forall s, Pre s -> Post a s) -> triple U Pre (ret a) Post Exc.
Proof. intros H s Hp. simpl. auto. Qed.

Lemma triple_bind {A B} U Pre (Mid : A -> _ -> Prop) (Post : B -> _ -> Prop)
  Exc (m : M A) (f : A -> M B) :
  triple U Pre m Mid Exc -> (forall a, triple U (Mid a) (f a) Post Exc) ->
  triple U Pre (bind m f) Post Exc.
Proof.
  intros Hm Hf s Hp. specialize (Hm s Hp). unfold bind.
  destruct (m s) as [a s'| | |]; try exact Hm. apply Hf. exact Hm.
Qed.

Lemma triple_conseq {A} U (Pre Pre' : _ -> Prop) (Post Post' : A -> _ -> Prop)
  (Exc Exc' : _ -> Prop) (m : M A) :
  triple U Pre' m Post' Exc' ->
  (forall s, Pre s -> Pre' s) ->
  (forall a s, Post' a s -> Post a s) ->
  (forall s, Exc' s -> Exc s) ->
  triple U Pre m Post Exc.
Proof.
  intros H Hpre Hpost Hexc s Hp. specialize (H s (Hpre _ Hp)).
  destruct (m s); auto.
Qed.

Lemma triple_gets {A} U (Pre : _ -> Prop) Exc (f : wkb_parse_state -> A) :
  triple U Pre (gets f) (fun a s => Pre s /\ a = f s) Exc.
Proof. intros s Hp. simpl. auto. Qed.

Lemma triple_modify U (Pre : _ -> Prop) (Post : unit -> _ -> Prop) Exc
  (f : wkb_parse_state -> wkb_parse_state) :
  (forall s, Pre s -> Post tt (f s)) -> triple U Pre (modify f) Post Exc.
Proof. intros H s Hp. simpl. auto. Qed.

Lemma triple_pure {A} U (Pre : _ -> Prop) (P : Prop) (m : M A) Post Exc :
  (P -> triple U Pre m Post Exc) ->
  triple U (fun s => Pre s /\ P) m Post Exc.
Proof. intros H s [Hp HP]. apply H; assumption. Qed.

Lemma keeps_ret {A} U I Exc (a : A) : keeps U I Exc (ret a).
Proof. apply triple_ret. auto. Qed.

Lemma keeps_bind {A B} U I Exc (m : M A) (f : A -> M B) :
  keeps U I Exc m -> (forall a, keeps U I Exc (f a)) ->
  keeps U I Exc (bind m f).
Proof. intros Hm Hf. eapply triple_bind; [exact Hm|exact Hf]. Qed.

Lemma keeps_gets {A} U I Exc (f : wkb_parse_state -> A) :
  keeps U I Exc (gets f).
Proof. intros s Hp. simpl. exact Hp. Qed.

Lemma keeps_modify U (I : _ -> Prop) Exc
  (f : wkb_parse_state -> wkb_parse_state) :
  (forall s, I s -> I (f s)) -> keeps U I Exc (modify f).
Proof. intros H. apply triple_modify. exact H. Qed.

Lemma keeps_when U I Exc (c : bool) (m : M unit) :
  keeps U I Exc m -> keeps U I Exc (when c m).
Proof. intros H. destruct c; simpl; [exact H|apply keeps_ret]. Qed.

Section KeepsDecoder.

Context {E : liblwgeom}.

Lemma keeps_lwerror U (I Exc : _ -> Prop) (e : lwerror_msg) :
  (forall s, I s -> Exc s) -> keeps U I Exc (lwerror e).
Proof.
  intros H s Hp. unfold lwerror. destruct lwerror_returns; simpl; auto.
Qed.

Lemma keeps_peek U (I Exc : _ -> Prop) (n : Z) :
  (forall s, I s -> Exc s) -> keeps U I Exc (peek n).
Proof.
  intros H s Hp. unfold peek.
  destruct ((0 <=? pos s) && (pos s + n <=? Z.of_nat (length (wkb s))));
    simpl; auto.
Qed.

End KeepsDecoder.

Create HintDb keeps.

(** [side] proves that a state update preserves the invariant, and that
    the invariant implies the exceptional postcondition. *)
Ltac keeps_leaf side :=
  solve [ assumption
        | apply keeps_ret
        | apply keeps_gets
        | apply keeps_modify; intros ? ?; side
        | apply keeps_lwerror; intros ? ?; side
        | apply keeps_peek; intros ? ?; side
        | apply keeps_when; keeps_leaf side
        | auto with keeps ].

Ltac keeps_auto side :=
  repeat first
    [ keeps_leaf side
    | apply keeps_bind; [ | intros ? ]
    | match goal with
      | |- keeps _ _ _ (if ?c then _ else _) => destruct c
      | |- keeps _ _ _ (match ?x with _ => _ end) => destruct x
      | |- keeps _ _ _ (when ?c _) => destruct c; simpl
      end ].

(* ================================================================== *)
(** ** The decoder always has budget enough                             *)
(* ================================================================== *)

Ltac progress_side :=
  unfold progress, WKB_BYTE_SIZE, WKB_INT_SIZE, WKB_DOUBLE_SIZE in *;
  simpl; intuition (try lia).

Section Termination.

Context {E : liblwgeom}.

Variable n : Z.

(** Budget is never exhausted; nothing is asked of errors and faults. *)
#[local] Abbreviation total lo P m :=
  (keeps False (progress n lo P) (fun _ => True) m).

Lemma uint32_nonneg (z : Z) : 0 <= uint32 z.
Proof. unfold uint32. apply Z.mod_pos_bound. lia. Qed.

Lemma total_advance lo P (k : Z) : 0 <= k -> total lo P (advance k).
Proof. intros Hk. unfold advance. keeps_auto progress_side. Qed.

Lemma total_check lo P (k : Z) : total lo P (wkb_parse_state_check k).
Proof. unfold wkb_parse_state_check. keeps_auto progress_side. Qed.

#[local] Hint Resolve total_check : keeps.
#[local] Hint Extern 1 (keeps _ _ _ (advance _)) =>
  apply total_advance;
  first [ lia | discriminate | apply uint32_nonneg ] : keeps.

Lemma total_byte lo P : total lo P byte_from_wkb_state.
Proof. unfold byte_from_wkb_state. keeps_auto progress_side. Qed.

Lemma total_integer lo P : total lo P integer_from_wkb_state.
Proof. unfold integer_from_wkb_state. keeps_auto progress_side. Qed.

Lemma total_double lo P : total lo P double_from_wkb_state.
Proof. unfold double_from_wkb_state. keeps_auto progress_side. Qed.

#[local] Hint Resolve total_byte total_integer total_double : keeps.

Lemma total_doubles lo P (count : nat) :
  total lo P (doubles_from_wkb_state count).
Proof.
  induction count as [|count IH]; simpl; keeps_auto progress_side.
Qed.

#[local] Hint Resolve total_doubles : keeps.

Lemma total_ptarray lo P : total lo P ptarray_from_wkb_state.
Proof. unfold ptarray_from_wkb_state. keeps_auto progress_side. Qed.

Lemma total_lwpoint lo P : total lo P lwpoint_from_wkb_state.
Proof.
  unfold lwpoint_from_wkb_state. cbv zeta.
  apply keeps_bind; [keeps_leaf progress_side|intros hz].
  apply keeps_bind; [keeps_leaf progress_side|intros hm].
  pose proof (count_ndims_range hz hm).
  keeps_auto progress_side.
Qed.

#[local] Hint Resolve total_ptarray total_lwpoint : keeps.

Lemma total_lwline lo P : total lo P lwline_from_wkb_state.
Proof. unfold lwline_from_wkb_state. keeps_auto progress_side. Qed.

Lemma total_lwcircstring lo P : total lo P lwcircstring_from_wkb_state.
Proof. unfold lwcircstring_from_wkb_state. keeps_auto progress_side. Qed.

Lemma total_lwpoly_rings lo P (k : nat) (poly : LWGEOM) :
  total lo P (lwpoly_rings_from_wkb_state k poly).
Proof.
  revert poly. induction k as [|k IH]; intros poly; simpl;
    keeps_auto progress_side.
Qed.

#[local] Hint Resolve total_lwpoly_rings : keeps.

Lemma total_lwpoly lo P : total lo P lwpoly_from_wkb_state.
Proof. unfold lwpoly_from_wkb_state. keeps_auto progress_side. Qed.

Lemma total_lwtriangle lo P : total lo P lwtriangle_from_wkb_state.
Proof. unfold lwtriangle_from_wkb_state. keeps_auto progress_side. Qed.

Lemma total_lwtype lo P (t : Z) : total lo P (lwtype_from_wkb_state t).
Proof.
  unfold lwtype_from_wkb_state, extended_flags. keeps_auto progress_side.
Qed.

#[local] Hint Resolve total_lwline total_lwcircstring total_lwpoly
  total_lwtriangle total_lwtype : keeps.

Lemma total_call {A} lo P (c : call_site) (m : M A) :
  total lo P m -> total lo P (call c m).
Proof. intros H. unfold call. keeps_auto progress_side. Qed.

Section TotalRecursion.

Variable rec : M (option LWGEOM).
Variable lo : Z.
Variable P : Prop.
Hypothesis total_rec : total lo P rec.

Lemma total_lwcurvepoly_rings (k : nat) (cp : LWGEOM) :
  total lo P (lwcurvepoly_rings_from_wkb_state rec k cp).
Proof.
  pose proof (total_call FromRing total_rec).
  revert cp. induction k as [|k IH]; intros cp; simpl;
    keeps_auto progress_side.
Qed.

Lemma total_lwcollection_geoms (k : nat) (col : LWGEOM) :
  total lo P (lwcollection_geoms_from_wkb_state rec k col).
Proof.
  pose proof (total_call FromCollection total_rec).
  revert col. induction k as [|k IH]; intros col; simpl;
    keeps_auto progress_side.
Qed.

Lemma total_lwcurvepoly : total lo P (lwcurvepoly_from_wkb_state rec).
Proof.
  pose proof total_lwcurvepoly_rings.
  unfold lwcurvepoly_from_wkb_state. keeps_auto progress_side.
Qed.

Lemma total_lwcollection : total lo P (lwcollection_from_wkb_state rec).
Proof.
  pose proof total_lwcollection_geoms.
  unfold lwcollection_from_wkb_state. keeps_auto progress_side.
Qed.

End TotalRecursion.

(** Reading the first byte of an activation moves the position, unless the
    error flag is up afterwards. *)
Lemma byte_from_wkb_state_progress lo :
  triple False (progress n lo True) byte_from_wkb_state
         (fun _ s => progress n lo True s /\
                     (error s = true
                      \/ progress n (lo + 1) (lo + 1 <= n) s))
         (fun _ => True).
Proof.
  intros s (Hn & Hlo & _).
  unfold byte_from_wkb_state, wkb_parse_state_check, bind, gets, when,
    lwerror, modify, ret, peek, advance.
  destruct (Z.gtb_spec (pos s + WKB_BYTE_SIZE) (wkb_size s)) as [Hgt|Hle].
  - destruct lwerror_returns; simpl; [|exact I].
    unfold progress. simpl. auto.
  - destruct (error s) eqn:He; simpl.
    { unfold progress. auto. }
    destruct ((0 <=? pos s)
              && (pos s + WKB_BYTE_SIZE <=? Z.of_nat (length (wkb s))));
      simpl; [|exact I].
    unfold progress, WKB_BYTE_SIZE in *. simpl. split; [|right]; lia.
Qed.

Lemma total_body (rec : M (option LWGEOM)) lo :
  total (lo + 1) (lo + 1 <= n) rec ->
  total lo True (lwgeom_from_wkb_state_body rec).
Proof.
  intros Hrec.
  pose proof (total_lwcurvepoly Hrec) as Hcp.
  pose proof (total_lwcollection Hrec) as Hco.
  unfold lwgeom_from_wkb_state_body, lwgeom_dispatch.
  eapply triple_bind; [apply byte_from_wkb_state_progress|].
  intros e.
  eapply triple_bind; [apply triple_gets|]. intros err.
  destruct err.
  { apply triple_ret. intros s [[H _] _]. exact H. }
  apply triple_conseq with
    (Pre' := progress n (lo + 1) (lo + 1 <= n))
    (Post' := fun _ : option LWGEOM => progress n (lo + 1) (lo + 1 <= n))
    (Exc' := fun _ : wkb_parse_state => True).
  - match goal with
    | |- triple ?U ?Pre ?m _ ?Exc => change (keeps U Pre Exc m)
    end.
    keeps_auto progress_side.
  - intros s [[_ [H|H]] He]; [congruence|exact H].
  - intros a s H. unfold progress in *. intuition lia.
  - auto.
Qed.

End Termination.

Section Totality.

Context {E : liblwgeom}.

Lemma total_lwgeom_from_wkb_state (fuel : nat) :
  forall n lo,
    (1 <= fuel)%nat -> n - lo <= Z.of_nat fuel - 1 ->
    keeps False (progress n lo True) (fun _ => True)
          (lwgeom_from_wkb_state fuel).
Proof.
  induction fuel as [|fuel IH]; intros n lo Hf Hlo; [lia|].
  simpl. apply total_body.
  destruct (Z_le_gt_dec (lo + 1) n) as [Hle|Hgt].
  - eapply triple_conseq; [apply (IH n (lo + 1)); lia| | |auto].
    + intros s (H1 & H2 & _). unfold progress. auto.
    + intros a s (H1 & H2 & _). unfold progress. auto.
  - intros s (_ & _ & H). lia.
Qed.

(** One unit of budget per byte in front of the position, and one more, is
    enough. *)
Lemma lwgeom_from_wkb_state_fuel_enough (fuel : nat) (s : wkb_parse_state) :
  (1 <= fuel)%nat -> wkb_size s - pos s <= Z.of_nat fuel - 1 ->
  match lwgeom_from_wkb_state fuel s with
  | Ret _ s' => wkb_size s' = wkb_size s
  | Fuel => False
  | _ => True
  end.
Proof.
  intros Hf Hs.
  pose proof (@total_lwgeom_from_wkb_state fuel (wkb_size s) (pos s) Hf Hs s)
    as H.
  assert (Hp : progress (wkb_size s) (pos s) True s).
  { unfold progress. repeat split; lia. }
  specialize (H Hp).
  destruct (lwgeom_from_wkb_state fuel s); try exact H.
  destruct H as [H _]. exact H.
Qed.

Lemma fuel_le_lwgeom_from_wkb_state (f1 f2 : nat) :
  (f1 <= f2)%nat ->
  fuel_le (lwgeom_from_wkb_state f1) (lwgeom_from_wkb_state f2).
Proof.
  intros Hle s.
  destruct (lwgeom_from_wkb_state f1 s) eqn:H1; try (left; reflexivity);
    right; symmetry; rewrite <- H1;
    apply lwgeom_from_wkb_state_fuel_mono; try assumption; congruence.
Qed.

(** [lwgeom_from_wkb] never runs out of budget, and leaves the declared size
    alone. *)
Lemma lwgeom_from_wkb_total (buf : list byte) (size : Z) (chk : Z) :
  match lwgeom_from_wkb buf size chk with
  | Ret _ s' => wkb_size s' = size
  | Fuel => False
  | _ => True
  end.
Proof.
  unfold lwgeom_from_wkb, lwgeom_from_wkb_fuel.
  destruct (size =? 0) eqn:Hz; [reflexivity|].
  unfold call, bind, modify, ret.
  set (s0 := set_stack (enter FromCaller (stack (initial_state buf size chk)))
                       (initial_state buf size chk)).
  assert (Hf : (1 <= S (Z.to_nat size))%nat) by lia.
  assert (Hs : wkb_size s0 - pos s0 <= Z.of_nat (S (Z.to_nat size)) - 1).
  { change (wkb_size s0) with size. change (pos s0) with 0. lia. }
  pose proof (lwgeom_from_wkb_state_fuel_enough s0 Hf Hs) as H.
  destruct (lwgeom_from_wkb_state (S (Z.to_nat size)) s0);
    try exact H; exact I.
Qed.

(** More budget than [lwgeom_from_wkb] takes changes nothing. *)
Lemma lwgeom_from_wkb_fuel_more (fuel : nat) (wkb : list byte)
  (wkb_size : Z) (check : Z) :
  (S (Z.to_nat wkb_size) <= fuel)%nat ->
  lwgeom_from_wkb_fuel fuel wkb wkb_size check
  = lwgeom_from_wkb wkb wkb_size check.
Proof.
  intros Hle. pose proof (lwgeom_from_wkb_total wkb wkb_size check) as Ht.
  unfold lwgeom_from_wkb, lwgeom_from_wkb_fuel in *.
  destruct (wkb_size =? 0); [reflexivity|].
  destruct (fuel_le_call FromCaller
              (fuel_le_lwgeom_from_wkb_state Hle)
              (initial_state wkb wkb_size check)) as [H|H].
  - rewrite H in Ht. contradiction.
  - symmetry. exact H.
Qed.

End Totality.

(* ================================================================== *)
(** ** Truncated buffers and trailing bytes                             *)
(* ================================================================== *)

Section Truncation.

Context {E : liblwgeom}.

Lemma prefix_rel_initial (buf : list byte) (k size chk : Z) :
  0 <= k <= size -> size <= Z.of_nat (length buf) ->
  prefix_rel (initial_state (firstn (Z.to_nat k) buf) k chk)
             (initial_state buf size chk).
Proof.
  intros Hk Hs. constructor; simpl; try reflexivity; try lia.
  - rewrite length_firstn. lia.
  - rewrite firstn_firstn. f_equal. lia.
Qed.

(** Decoding the first [k] bytes against decoding the whole buffer. *)
Lemma lwgeom_from_wkb_prefix (buf : list byte) (k size chk : Z) :
  lwerror_returns = false ->
  0 < k <= size -> size <= Z.of_nat (length buf) ->
  osim (fun _ => prefix_rel)
       (lwgeom_from_wkb (firstn (Z.to_nat k) buf) k chk)
       (lwgeom_from_wkb buf size chk).
Proof.
  intros Hfatal Hk Hs.
  rewrite <- (@lwgeom_from_wkb_fuel_more _ (S (Z.to_nat size))
                (firstn (Z.to_nat k) buf) k chk) by lia.
  unfold lwgeom_from_wkb, lwgeom_from_wkb_fuel.
  destruct (Z.eqb_spec k 0) as [?|_]; [lia|].
  destruct (Z.eqb_spec size 0) as [?|_]; [lia|].
  apply (Simr_call FromCaller
           (Simr_lwgeom_from_wkb_state Hfatal (S (Z.to_nat size)))).
  apply prefix_rel_initial; lia.
Qed.

(** C1: take a valid WKB buffer of [N] bytes (the decoder accepts it and
    consumes all of it) and cut it to [k < N] bytes.  Decoding the cut
    buffer with length [k] returns no geometry; for [k > 0] it stops with
    the "structure does not match expected size" error; and it never reads
    outside the [k] bytes. *)
Theorem lwgeom_from_wkb_truncated (buf : list byte) (chk : Z) (k : Z) :
  lwerror_returns = false ->
  valid_wkb buf chk ->
  0 <= k < Z.of_nat (length buf) ->
  let o := lwgeom_from_wkb (firstn (Z.to_nat k) buf) k chk in
  returned o = None /\
  (forall s, o <> Fault s) /\
  o <> Fuel /\
  (0 < k ->
   exists s, o = Raise WKB_structure_does_not_match_expected_size s).
Proof.
  intros Hfatal Hvalid Hk o.
  destruct (Z.eq_dec k 0) as [->|Hk0].
  { subst o. unfold lwgeom_from_wkb, lwgeom_from_wkb_fuel. simpl.
    repeat split; try discriminate; intros; lia. }
  assert (Hraise : exists s,
             o = Raise WKB_structure_does_not_match_expected_size s).
  { pose proof (@lwgeom_from_wkb_prefix buf k (Z.of_nat (length buf)) chk
                  Hfatal) as Hsim.
    specialize (Hsim ltac:(lia) ltac:(lia)).
    pose proof (lwgeom_from_wkb_total (firstn (Z.to_nat k) buf) k chk) as Ht.
    unfold valid_wkb in Hvalid. fold o in Hsim, Ht.
    destruct Hsim as [Hs|Hs]; [exact Hs|].
    destruct (lwgeom_from_wkb buf (Z.of_nat (length buf)) chk)
      as [[g|] s2| | |]; try contradiction.
    destruct o as [a s1| | |]; try contradiction.
    destruct Hs as [_ Hr]. destruct Hr. lia. }
  destruct Hraise as [s Hs]. rewrite Hs.
  repeat split; try discriminate. intros _. exists s. reflexivity.
Qed.

(** C10: when the first [k] bytes of a buffer are a valid WKB value, the
    decoder, told any length between [k] and the size of the buffer, returns
    the geometry it returns for those [k] bytes alone, having read no
    further: the bytes behind the value are ignored. *)
Theorem lwgeom_from_wkb_trailing_bytes (buf : list byte) (size chk : Z)
  (k : Z) :
  lwerror_returns = false ->
  0 <= k <= size -> size <= Z.of_nat (length buf) ->
  valid_wkb (firstn (Z.to_nat k) buf) chk ->
  exists g s,
    lwgeom_from_wkb buf size chk = Ret (Some g) s /\
    pos s = k /\
    returned (lwgeom_from_wkb (firstn (Z.to_nat k) buf) k chk) = Some g.
Proof.
  intros Hfatal Hk Hs Hvalid.
  unfold valid_wkb in Hvalid.
  assert (Hlen : Z.of_nat (length (firstn (Z.to_nat k) buf)) = k).
  { rewrite length_firstn. lia. }
  rewrite Hlen in Hvalid.
  destruct (Z.eq_dec k 0) as [->|Hk0].
  { unfold lwgeom_from_wkb, lwgeom_from_wkb_fuel in Hvalid.
    simpl in Hvalid. contradiction. }
  pose proof (@lwgeom_from_wkb_prefix buf k size chk Hfatal) as Hsim.
  specialize (Hsim ltac:(lia) ltac:(lia)).
  destruct (lwgeom_from_wkb (firstn (Z.to_nat k) buf) k chk)
    as [[g|] s1| | |]; try contradiction.
  destruct Hsim as [[s Hsim]|Hsim]; [discriminate|].
  destruct (lwgeom_from_wkb buf size chk) as [b s2| | |]; try contradiction.
  destruct Hsim as [<- Hr].
  exists g, s2. repeat split. destruct Hr. congruence.
Qed.

End Truncation.

(* ================================================================== *)
(** ** What the readers leave alone                                     *)
(* ================================================================== *)

Lemma frame_refl (s : wkb_parse_state) : frame s s.
Proof. reflexivity. Qed.

Lemma frame_fields (s0 s : wkb_parse_state) :
  frame s0 s ->
  wkb s = wkb s0 /\ srid s = srid s0 /\ wkb_size s = wkb_size s0 /\
  swap_bytes s = swap_bytes s0 /\ check s = check s0 /\
  lwtype s = lwtype s0 /\ has_z s = has_z s0 /\ has_m s = has_m s0 /\
  has_srid s = has_srid s0 /\ depth s = depth s0 /\ stack s = stack s0.
Proof.
  unfold frame, set_pos, set_error. simpl. intros H.
  injection H as H1 H2 H3 H4 H5 H6 H7 H8 H9 H10 H11.
  repeat split; assumption.
Qed.

Ltac frame_side :=
  unfold frame in *; simpl in *; first [ assumption | exact I ].

Section Frame.

Context {E : liblwgeom}.

Variable s0 : wkb_parse_state.

#[local] Abbreviation framed m := (keeps True (frame s0) (frame s0) m).

Lemma framed_check (k : Z) : framed (wkb_parse_state_check k).
Proof. unfold wkb_parse_state_check. keeps_auto frame_side. Qed.

Lemma framed_advance (k : Z) : framed (advance k).
Proof. unfold advance. keeps_auto frame_side. Qed.

#[local] Hint Resolve framed_check framed_advance : keeps.

Lemma framed_byte : framed byte_from_wkb_state.
Proof. unfold byte_from_wkb_state. keeps_auto frame_side. Qed.

Lemma framed_integer : framed integer_from_wkb_state.
Proof. unfold integer_from_wkb_state. keeps_auto frame_side. Qed.

Lemma framed_double : framed double_from_wkb_state.
Proof. unfold double_from_wkb_state. keeps_auto frame_side. Qed.

#[local] Hint Resolve framed_byte framed_integer framed_double : keeps.

Lemma framed_doubles (count : nat) : framed (doubles_from_wkb_state count).
Proof. induction count as [|count IH]; simpl; keeps_auto frame_side. Qed.

#[local] Hint Resolve framed_doubles : keeps.

Lemma framed_ptarray : framed ptarray_from_wkb_state.
Proof. unfold ptarray_from_wkb_state. keeps_auto frame_side. Qed.

Lemma framed_lwpoint : framed lwpoint_from_wkb_state.
Proof. unfold lwpoint_from_wkb_state. keeps_auto frame_side. Qed.

#[local] Hint Resolve framed_ptarray framed_lwpoint : keeps.

Lemma framed_lwline : framed lwline_from_wkb_state.
Proof. unfold lwline_from_wkb_state. keeps_auto frame_side. Qed.

Lemma framed_lwcircstring : framed lwcircstring_from_wkb_state.
Proof. unfold lwcircstring_from_wkb_state. keeps_auto frame_side. Qed.

Lemma framed_lwpoly_rings (k : nat) (poly : LWGEOM) :
  framed (lwpoly_rings_from_wkb_state k poly).
Proof.
  revert poly. induction k as [|k IH]; intros poly; simpl;
    keeps_auto frame_side.
Qed.

#[local] Hint Resolve framed_lwpoly_rings : keeps.

Lemma framed_lwpoly : framed lwpoly_from_wkb_state.
Proof. unfold lwpoly_from_wkb_state. keeps_auto frame_side. Qed.

Lemma framed_lwtriangle : framed lwtriangle_from_wkb_state.
Proof. unfold lwtriangle_from_wkb_state. keeps_auto frame_side. Qed.

End Frame.

(** The state after a return of a framed reader. *)
Lemma framed_ret {E : liblwgeom} {A} (m : M A) (s : wkb_parse_state)
  (a : A) (s' : wkb_parse_state) :
  (forall s0, keeps True (frame s0) (frame s0) m) ->
  m s = Ret a s' -> frame s s'.
Proof.
  intros H Hm. specialize (H s s (frame_refl s)). rewrite Hm in H. exact H.
Qed.

(* ================================================================== *)
(** ** The MINPOINTS check                                              *)
(* ================================================================== *)

Section MinPoints.

Context {E : liblwgeom}.

Lemma error_free_doubles (count : nat) :
  keeps True (fun s => error s = false) (fun _ => True)
        (doubles_from_wkb_state count).
Proof.
  induction count as [|count IH]; simpl.
  - apply keeps_ret.
  - unfold double_from_wkb_state, advance.
    keeps_auto ltac:(simpl; first [assumption | exact I]).
Qed.

(** A point array is only handed back with the error flag down. *)
Lemma ptarray_from_wkb_state_some (s : wkb_parse_state) (pa : POINTARRAY)
  (s1 : wkb_parse_state) :
  ptarray_from_wkb_state s = Ret (Some pa) s1 -> error s1 = false.
Proof.
  assert (H : triple True (fun _ => True) ptarray_from_wkb_state
                (fun r s => r = None \/ error s = false) (fun _ => True)).
  { unfold ptarray_from_wkb_state.
    eapply triple_bind with (Mid := fun _ _ => True).
    { intros s' _. destruct (integer_from_wkb_state s'); exact I. }
    intros np.
    eapply triple_bind; [apply triple_gets|]. intros err.
    destruct err; [apply triple_ret; auto|].
    destruct (np >? maxpoints).
    { eapply triple_bind with (Mid := fun _ _ => True);
        [apply triple_modify; auto|intros ?].
      apply triple_ret. auto. }
    eapply triple_bind; [apply triple_gets|]. intros hz.
    eapply triple_bind; [apply triple_gets|]. intros hm.
    cbv zeta.
    destruct (np =? 0).
    { apply triple_ret. intros s' [[[_ He] _] _]. right. congruence. }
    eapply triple_bind with (Mid := fun _ _ => True).
    { intros s' _. destruct (wkb_parse_state_check _ s'); exact I. }
    intros ?.
    eapply triple_bind; [apply triple_gets|]. intros err.
    destruct err; [apply triple_ret; auto|].
    eapply triple_conseq with
      (Pre' := fun s => error s = false)
      (Post' := fun (r : option POINTARRAY) s => error s = false)
      (Exc' := fun _ => True); auto.
    - match goal with
      | |- triple ?U ?Pre ?m _ ?Exc => change (keeps U Pre Exc m)
      end.
      pose proof error_free_doubles.
      unfold advance.
      keeps_auto ltac:(simpl; first [assumption | exact I]).
    - intros s' [_ He]. congruence. }
  intros Hs. specialize (H s I). rewrite Hs in H.
  destruct H as [H|H]; [discriminate|exact H].
Qed.

Lemma ptarray_from_wkb_state_check (s : wkb_parse_state)
  (r : option POINTARRAY) (s1 : wkb_parse_state) :
  ptarray_from_wkb_state s = Ret r s1 -> check s1 = check s.
Proof.
  intros H. apply (framed_ret _ framed_ptarray) in H.
  apply frame_fields in H. tauto.
Qed.

Lemma lwline_minpoints (s : wkb_parse_state) (pa : POINTARRAY)
  (s1 : wkb_parse_state) :
  check_requested (check s) LW_PARSER_CHECK_MINPOINTS = true ->
  ptarray_from_wkb_state s = Ret (Some pa) s1 ->
  npoints pa <> 0 ->
  (exists g s', lwline_from_wkb_state s = Ret (Some g) s')
  <-> 2 <= npoints pa.
Proof.
  intros Hmin Hpt Hne.
  pose proof (ptarray_from_wkb_state_some _ Hpt) as He.
  pose proof (ptarray_from_wkb_state_check _ Hpt) as Hc.
  unfold lwline_from_wkb_state, bind, gets, ret. rewrite Hpt, He, Hc, Hmin.
  destruct (Z.eqb_spec (npoints pa) 0) as [?|_]; [contradiction|].
  destruct (Z.ltb_spec (npoints pa) 2) as [Hlt|Hge]; simpl andb; cbv beta iota.
  - unfold lwerror. split; [|lia].
    intros (g & s' & H). destruct lwerror_returns; discriminate H.
  - split; [intros _; exact Hge|]. intros _.
    eexists; eexists; reflexivity.
Qed.

Lemma lwcircstring_minpoints (s : wkb_parse_state) (pa : POINTARRAY)
  (s1 : wkb_parse_state) :
  check_requested (check s) LW_PARSER_CHECK_MINPOINTS = true ->
  check_requested (check s) LW_PARSER_CHECK_ODD = false ->
  ptarray_from_wkb_state s = Ret (Some pa) s1 ->
  npoints pa <> 0 ->
  (exists g s', lwcircstring_from_wkb_state s = Ret (Some g) s')
  <-> 3 <= npoints pa.
Proof.
  intros Hmin Hodd Hpt Hne.
  pose proof (ptarray_from_wkb_state_some _ Hpt) as He.
  pose proof (ptarray_from_wkb_state_check _ Hpt) as Hc.
  unfold lwcircstring_from_wkb_state, bind, gets, ret.
  rewrite Hpt, He, Hc, Hmin, Hodd.
  destruct (Z.eqb_spec (npoints pa) 0) as [?|_]; [contradiction|].
  destruct (Z.ltb_spec (npoints pa) 3) as [Hlt|Hge]; simpl andb; cbv beta iota.
  - split; [|lia]. intros (g & s' & H). discriminate H.
  - split; [intros _; exact Hge|]. intros _.
    eexists; eexists; reflexivity.
Qed.

Lemma lwpoly_rings_minpoints (n : nat) :
  forall (s : wkb_parse_state) srid hz hm rings pas s1,
    check_requested (check s) LW_PARSER_CHECK_MINPOINTS = true ->
    check_requested (check s) LW_PARSER_CHECK_CLOSURE = false ->
    ptarrays_from_wkb_state n s = Ret (Some pas) s1 ->
    (exists g s',
        lwpoly_rings_from_wkb_state n (LWPOLY srid hz hm rings) s
        = Ret (Some g) s')
    <-> Forall (fun pa => 4 <= npoints pa) pas.
Proof.
  induction n as [|n IH]; intros s srid hz hm rings pas s1 Hmin Hclo Hrd.
  - simpl in Hrd. injection Hrd as <- _. simpl. split; [constructor|].
    intros _. unfold ret. eexists; eexists; reflexivity.
  - simpl in Hrd. unfold bind in Hrd.
    destruct (ptarray_from_wkb_state s) as [[pa|] sa| | |] eqn:Hpt;
      try discriminate Hrd.
    destruct (ptarrays_from_wkb_state n sa) as [[rest|] sb| | |] eqn:Hrest;
      try discriminate Hrd.
    injection Hrd as <- _.
    pose proof (ptarray_from_wkb_state_check _ Hpt) as Hc.
    cbn [lwpoly_rings_from_wkb_state]. unfold bind, gets. rewrite Hpt, Hc.
    rewrite Hmin, Hclo.
    destruct (Z.ltb_spec (npoints pa) 4) as [Hlt|Hge]; simpl andb; cbv beta iota.
    + unfold lwerror, ret. split.
      * intros (g & s' & H). destruct lwerror_returns; discriminate H.
      * intros H. inversion H; subst. lia.
    + cbn [lwpoly_add_ring].
      rewrite (IH sa srid hz hm (rings ++ [pa]) rest sb);
        try congruence.
      split; [intros H; constructor; assumption|].
      intros H. inversion H; assumption.
Qed.

Lemma lwpoly_minpoints (s : wkb_parse_state) (nrings : Z)
  (s0 : wkb_parse_state) (pas : list POINTARRAY) (s1 : wkb_parse_state) :
  check_requested (check s) LW_PARSER_CHECK_MINPOINTS = true ->
  check_requested (check s) LW_PARSER_CHECK_CLOSURE = false ->
  integer_from_wkb_state s = Ret nrings s0 -> error s0 = false ->
  ptarrays_from_wkb_state (Z.to_nat nrings) s0 = Ret (Some pas) s1 ->
  (exists g s', lwpoly_from_wkb_state s = Ret (Some g) s')
  <-> Forall (fun pa => 4 <= npoints pa) pas.
Proof.
  intros Hmin Hclo Hint He Hrd.
  assert (Hc : check s0 = check s).
  { apply (framed_ret _ framed_integer) in Hint.
    apply frame_fields in Hint. tauto. }
  unfold lwpoly_from_wkb_state, bind, gets. rewrite Hint, He.
  destruct (Z.eqb_spec nrings 0) as [Hz|Hnz].
  - subst nrings. simpl in Hrd. injection Hrd as <- _.
    split; [constructor|]. intros _. unfold ret.
    eexists; eexists; reflexivity.
  - apply lwpoly_rings_minpoints with (s1 := s1); congruence.
Qed.

(** C6, amended: with the MINPOINTS check requested, a non-empty Line is
    accepted iff its point array has at least 2 points, a non-empty
    CircularString (its ODD check aside) iff its point array has at least 3
    points, and a Polygon (its CLOSURE check aside) iff every ring has at
    least 4 points. *)
Theorem minpoints_check (s : wkb_parse_state) :
  check_requested (check s) LW_PARSER_CHECK_MINPOINTS = true ->
  (forall pa s1,
      ptarray_from_wkb_state s = Ret (Some pa) s1 -> npoints pa <> 0 ->
      ((exists g s', lwline_from_wkb_state s = Ret (Some g) s')
       <-> 2 <= npoints pa)) /\
  (forall pa s1,
      check_requested (check s) LW_PARSER_CHECK_ODD = false ->
      ptarray_from_wkb_state s = Ret (Some pa) s1 -> npoints pa <> 0 ->
      ((exists g s', lwcircstring_from_wkb_state s = Ret (Some g) s')
       <-> 3 <= npoints pa)) /\
  (forall nrings s0 pas s1,
      check_requested (check s) LW_PARSER_CHECK_CLOSURE = false ->
      integer_from_wkb_state s = Ret nrings s0 -> error s0 = false ->
      ptarrays_from_wkb_state (Z.to_nat nrings) s0 = Ret (Some pas) s1 ->
      ((exists g s', lwpoly_from_wkb_state s = Ret (Some g) s')
       <-> Forall (fun pa => 4 <= npoints pa) pas)).
Proof.
  intros Hmin. repeat split.
  - apply (lwline_minpoints _ Hmin H H0).
  - apply (lwline_minpoints _ Hmin H H0).
  - apply (lwcircstring_minpoints _ Hmin H H0 H1).
  - apply (lwcircstring_minpoints _ Hmin H H0 H1).
  - apply (lwpoly_minpoints _ Hmin H H0 H1 H2).
  - apply (lwpoly_minpoints _ Hmin H H0 H1 H2).
Qed.

End MinPoints.

(** C6, as stated, fails for a CircularString: with the MINPOINTS check
    requested, a circular string of two points is read in full (its point
    array has 2 points, which is at least 2) and is still rejected. *)
Lemma circstring_two_points_rejected :
  let E := Upstream.env false false in
  let buf := wkb_endian NDR ++ wkb_uint32 NDR WKB_CIRCULARSTRING_TYPE
             ++ wkb_uint32 NDR 2 ++ wkb_doubles NDR [1; 2; 3; 4] in
  let s := set_lwtype CIRCSTRINGTYPE
             (set_pos 5 (@initial_state E buf 41 1)) in
  check_requested (check s) (@LW_PARSER_CHECK_MINPOINTS E) = true /\
  (exists pa s1, @ptarray_from_wkb_state E s = Ret (Some pa) s1
                 /\ npoints pa = 2 /\ 2 <= npoints pa) /\
  (exists s1, @lwcircstring_from_wkb_state E s = Ret None s1) /\
  returned (@lwgeom_from_wkb E buf 41 1) = None.
Proof.
  cbv zeta. repeat split.
  - eexists. eexists. split; [vm_compute; reflexivity|].
    split; [reflexivity|discriminate].
  - eexists. vm_compute. reflexivity.
Qed.

(* ================================================================== *)
(** ** Reading what the writer wrote                                    *)
(* ================================================================== *)

Lemma byte_to_of_Z (z : Z) : byte_to_Z (byte_of_Z z) = z mod 256.
Proof.
  unfold byte_to_Z, byte_of_Z.
  assert (Hr : 0 <= z mod 256 < 256) by (apply Z.mod_pos_bound; lia).
  destruct (Byte.of_N (Z.to_N (z mod 256))) as [b|] eqn:Hb.
  - apply Byte.to_of_N in Hb. rewrite Hb. lia.
  - apply Byte.of_N_None_iff in Hb. lia.
Qed.

Lemma length_le_bytes (n : nat) (v : Z) : length (le_bytes n v) = n.
Proof. revert v. induction n as [|n IH]; intros v; simpl; auto. Qed.

Lemma le_value_le_bytes (n : nat) (v : Z) :
  le_value (le_bytes n v) = v mod 256 ^ Z.of_nat n.
Proof.
  revert v. induction n as [|n IH]; intros v.
  - simpl. rewrite Z.mod_1_r. reflexivity.
  - cbn [le_bytes le_value]. rewrite byte_to_of_Z, IH.
    rewrite Nat2Z.inj_succ, Z.pow_succ_r by lia.
    rewrite (Z.mul_comm 256), Z.rem_mul_r by lia. lia.
Qed.

Lemma swap_in_place_4 (p : list byte) :
  length p = 4%nat -> swap_in_place 4 p = rev p.
Proof.
  intros H.
  destruct p as [|a [|b [|c [|d [|x p]]]]]; try discriminate H.
  reflexivity.
Qed.

Lemma swap_in_place_8 (p : list byte) :
  length p = 8%nat -> swap_in_place 8 p = rev p.
Proof.
  intros H.
  destruct p as [|a [|b [|c [|d [|e [|f [|g [|h [|x p]]]]]]]]];
    try discriminate H.
  reflexivity.
Qed.

Lemma length_wkb_field (e : endian) (n : nat) (v : Z) :
  length (wkb_field e n v) = n.
Proof.
  destruct e; simpl; [rewrite length_rev|]; apply length_le_bytes.
Qed.

Lemma length_wkb_doubles (e : endian) (ds : list double) :
  length (wkb_doubles e ds) = (8 * length ds)%nat.
Proof.
  unfold wkb_doubles. induction ds as [|d ds IH]; simpl; [reflexivity|].
  rewrite length_app, IH. unfold wkb_double. rewrite length_wkb_field. lia.
Qed.

Section Reading.

Context {E : liblwgeom}.

(** What the host reads from a field after the swap the activation
    selected for the field's byte order. *)
Lemma host_value_field_4 (e : endian) (v : Z) :
  is_uint32 v ->
  host_value (if swap_for e then swap_in_place 4 (wkb_field e 4 v)
              else wkb_field e 4 v) = v.
Proof.
  intros Hv. unfold host_value, swap_for, wkb_field, is_uint32 in *.
  assert (Hl : le_value (le_bytes 4 v) = v).
  { rewrite le_value_le_bytes. apply Z.mod_small. simpl. lia. }
  destruct e, IS_BIG_ENDIAN; simpl negb; cbv iota;
    rewrite ?swap_in_place_4
      by (rewrite ?length_rev; apply length_le_bytes);
    rewrite ?rev_involutive; exact Hl.
Qed.

Lemma host_value_field_8 (e : endian) (v : Z) :
  is_double v ->
  host_value (if swap_for e then swap_in_place 8 (wkb_field e 8 v)
              else wkb_field e 8 v) = v.
Proof.
  intros Hv. unfold host_value, swap_for, wkb_field, is_double in *.
  assert (Hl : le_value (le_bytes 8 v) = v).
  { rewrite le_value_le_bytes. apply Z.mod_small. simpl. lia. }
  destruct e, IS_BIG_ENDIAN; simpl negb; cbv iota;
    rewrite ?swap_in_place_8
      by (rewrite ?length_rev; apply length_le_bytes);
    rewrite ?rev_involutive; exact Hl.
Qed.

Lemma view_room (s : wkb_parse_state) (bs rest : list byte) :
  view s (bs ++ rest) -> pos s + Z.of_nat (length bs) <= wkb_size s.
Proof.
  intros ([Hlo Hhi] & Hsk & Hsz).
  assert (Hl : length (skipn (Z.to_nat (pos s)) (wkb s))
               = (length bs + length rest)%nat).
  { rewrite Hsk. apply length_app. }
  rewrite length_skipn in Hl. lia.
Qed.

Lemma view_advance (s : wkb_parse_state) (bs rest : list byte) :
  view s (bs ++ rest) ->
  view (set_pos (pos s + Z.of_nat (length bs)) s) rest.
Proof.
  intros Hv. pose proof (view_room _ _ Hv) as Hr.
  destruct Hv as ([Hlo Hhi] & Hsk & Hsz).
  unfold view. simpl. repeat split; try lia.
  replace (Z.to_nat (pos s + Z.of_nat (length bs)))
    with (length bs + Z.to_nat (pos s))%nat by lia.
  rewrite <- skipn_skipn, Hsk, skipn_app, skipn_all, Nat.sub_diag.
  reflexivity.
Qed.

Lemma peek_view (s : wkb_parse_state) (bs rest : list byte) (n : Z) :
  view s (bs ++ rest) -> n = Z.of_nat (length bs) ->
  peek n s = Ret bs s.
Proof.
  intros Hv ->. pose proof (view_room _ _ Hv) as Hr.
  destruct Hv as ([Hlo Hhi] & Hsk & Hsz). unfold peek.
  replace ((0 <=? pos s)
           && (pos s + Z.of_nat (length bs) <=? Z.of_nat (length (wkb s))))
    with true
    by (symmetry; apply andb_true_intro; split; apply Z.leb_le; lia).
  rewrite Hsk, Nat2Z.id, firstn_app, firstn_all, Nat.sub_diag.
  simpl. rewrite app_nil_r. reflexivity.
Qed.

Lemma check_view (s : wkb_parse_state) (bs rest : list byte) (n : Z) :
  view s (bs ++ rest) -> n = Z.of_nat (length bs) ->
  wkb_parse_state_check n s = Ret tt s.
Proof.
  intros Hv ->. pose proof (view_room _ _ Hv) as Hr.
  unfold wkb_parse_state_check, bind, gets, when.
  destruct (Z.gtb_spec (pos s + Z.of_nat (length bs)) (wkb_size s));
    [lia|reflexivity].
Qed.

Lemma byte_from_wkb_state_view (s : wkb_parse_state) (e : endian)
  (rest : list byte) :
  view s (wkb_endian e ++ rest) -> error s = false ->
  byte_from_wkb_state s
  = Ret (match e with XDR => 0 | NDR => 1 end) (set_pos (pos s + 1) s).
Proof.
  intros Hv He. unfold byte_from_wkb_state, bind.
  rewrite (check_view _ _ Hv) by (destruct e; reflexivity).
  unfold gets. rewrite He.
  rewrite (peek_view _ _ Hv) by (destruct e; reflexivity).
  destruct e; reflexivity.
Qed.

Lemma integer_from_wkb_state_view (s : wkb_parse_state) (e : endian)
  (v : Z) (rest : list byte) :
  view s (wkb_uint32 e v ++ rest) -> error s = false ->
  swap_bytes s = swap_for e -> is_uint32 v ->
  integer_from_wkb_state s = Ret v (set_pos (pos s + 4) s).
Proof.
  intros Hv He Hsw Hr. unfold integer_from_wkb_state, bind.
  assert (Hlen : WKB_INT_SIZE = Z.of_nat (length (wkb_uint32 e v))).
  { unfold wkb_uint32. rewrite length_wkb_field. reflexivity. }
  rewrite (check_view _ _ Hv Hlen).
  unfold gets. rewrite He.
  rewrite (peek_view _ _ Hv Hlen). rewrite Hsw.
  unfold advance, modify, ret.
  change (Z.to_nat WKB_INT_SIZE) with 4%nat.
  unfold wkb_uint32. rewrite (host_value_field_4 e Hr). reflexivity.
Qed.

Lemma double_from_wkb_state_view (s : wkb_parse_state) (e : endian)
  (d : double) (rest : list byte) :
  view s (wkb_double e d ++ rest) ->
  swap_bytes s = swap_for e -> is_double d ->
  double_from_wkb_state s = Ret d (set_pos (pos s + 8) s).
Proof.
  intros Hv Hsw Hr. unfold double_from_wkb_state, bind.
  assert (Hlen : WKB_DOUBLE_SIZE = Z.of_nat (length (wkb_double e d))).
  { unfold wkb_double. rewrite length_wkb_field. reflexivity. }
  rewrite (peek_view _ _ Hv Hlen). unfold gets. rewrite Hsw.
  unfold advance, modify, ret.
  change (Z.to_nat WKB_DOUBLE_SIZE) with 8%nat.
  unfold wkb_double. rewrite (host_value_field_8 e Hr). reflexivity.
Qed.

Lemma set_pos_set_pos (a b : Z) (s : wkb_parse_state) :
  set_pos a (set_pos b s) = set_pos a s.
Proof. reflexivity. Qed.

Lemma doubles_from_wkb_state_view (e : endian) (ds : list double) :
  forall (s : wkb_parse_state) (rest : list byte),
    view s (wkb_doubles e ds ++ rest) ->
    swap_bytes s = swap_for e -> Forall is_double ds ->
    doubles_from_wkb_state (length ds) s
    = Ret ds (set_pos (pos s + 8 * Z.of_nat (length ds)) s).
Proof.
  induction ds as [|d ds IH]; intros s rest Hv Hsw Hds.
  - simpl. unfold ret. f_equal. destruct s; unfold set_pos; simpl.
    f_equal. lia.
  - inversion Hds as [|? ? Hd Hds']; subst.
    unfold wkb_doubles in Hv. cbn [map concat] in Hv.
    rewrite <- app_assoc in Hv.
    cbn [length doubles_from_wkb_state]. unfold bind at 1.
    rewrite (double_from_wkb_state_view _ _ Hv Hsw Hd).
    pose proof (view_advance _ _ Hv) as Hv'.
    unfold wkb_double in Hv' at 1. rewrite length_wkb_field in Hv'.
    change (Z.of_nat 8) with 8 in Hv'.
    unfold bind. rewrite (IH _ rest Hv' Hsw Hds').
    unfold ret. f_equal. rewrite set_pos_set_pos. cbn [pos set_pos].
    f_equal. lia.
Qed.

Lemma host_doubles_view (e : endian) (ds : list double) (rest : list byte) :
  swap_for e = false -> Forall is_double ds ->
  host_doubles (length ds) (wkb_doubles e ds ++ rest) = ds.
Proof.
  intros Hsw. induction ds as [|d ds IH]; intros Hds; [reflexivity|].
  inversion Hds as [|? ? Hd Hds']; subst.
  unfold wkb_doubles. cbn [map concat length host_doubles].
  rewrite <- app_assoc.
  assert (Hl : length (wkb_double e d) = 8%nat)
    by apply length_wkb_field.
  rewrite firstn_app, skipn_app, Hl, Nat.sub_diag.
  replace (firstn 8 (wkb_double e d)) with (wkb_double e d)
    by (rewrite <- Hl; symmetry; apply firstn_all).
  replace (skipn 8 (wkb_double e d)) with (@nil byte)
    by (rewrite <- Hl; symmetry; apply skipn_all).
  cbn [firstn skipn app]. rewrite app_nil_r.
  f_equal; [|apply IH; assumption].
  pose proof (host_value_field_8 e Hd) as H. rewrite Hsw in H. exact H.
Qed.

Lemma ptarray_from_wkb_state_view (s : wkb_parse_state) (e : endian)
  (n : Z) (ds : list double) (rest : list byte) :
  view s (wkb_uint32 e n ++ wkb_doubles e ds ++ rest) ->
  error s = false -> swap_bytes s = swap_for e ->
  0 <= n <= maxpoints ->
  length ds = Z.to_nat (n * count_ndims (has_z s) (has_m s)) ->
  Forall is_double ds ->
  ptarray_from_wkb_state s
  = Ret (Some (mkPOINTARRAY (has_z s) (has_m s) n ds))
        (set_pos (pos s + 4 + 8 * Z.of_nat (length ds)) s).
Proof.
  intros Hv He Hsw Hn Hlen Hds.
  assert (Hu : is_uint32 n).
  { unfold is_uint32. assert (maxpoints = 134217727) by reflexivity. lia. }
  pose proof (count_ndims_range (has_z s) (has_m s)) as Hd.
  unfold ptarray_from_wkb_state, bind at 1.
  rewrite (integer_from_wkb_state_view _ _ Hv He Hsw Hu).
  pose proof (view_advance _ _ Hv) as Hv1.
  unfold wkb_uint32 in Hv1 at 1. rewrite length_wkb_field in Hv1.
  change (Z.of_nat 4) with 4 in Hv1.
  set (s1 := set_pos (pos s + 4) s) in *.
  unfold bind at 1, gets at 1. change (error s1) with (error s). rewrite He.
  destruct (Z.gtb_spec n maxpoints) as [?|_]; [lia|].
  unfold bind at 1, gets at 1. unfold bind at 1, gets at 1.
  change (has_z s1) with (has_z s). change (has_m s1) with (has_m s).
  cbv zeta.
  destruct (pa_size_exact (has_z s) (has_m s) Hn) as [Hc Hs].
  rewrite Hs, Hc.
  destruct (Z.eqb_spec n 0) as [Hz|Hnz].
  - subst n. rewrite Z.mul_0_l in Hlen. simpl in Hlen.
    destruct ds; [|discriminate Hlen]. unfold ret, ptarray_construct.
    f_equal. subst s1. destruct s; unfold set_pos; simpl. f_equal. lia.
  - assert (Hsz : WKB_DOUBLE_SIZE * (n * count_ndims (has_z s) (has_m s))
                  = Z.of_nat (length (wkb_doubles e ds))).
    { rewrite length_wkb_doubles. unfold WKB_DOUBLE_SIZE. lia. }
    unfold bind at 1. rewrite (check_view _ _ Hv1 Hsz).
    unfold bind at 1, gets at 1. change (error s1) with (error s).
    rewrite He.
    unfold bind at 1, gets at 1. change (swap_bytes s1) with (swap_bytes s).
    rewrite Hsw.
    assert (Hsw1 : swap_bytes s1 = swap_for e) by exact Hsw.
    destruct (swap_for e) eqn:Hsf; cbn [negb]; cbv beta iota.
    + unfold bind. rewrite <- Hlen.
      rewrite (@doubles_from_wkb_state_view e ds s1 rest Hv1)
        by (try rewrite Hsf; assumption).
      reflexivity.
    + unfold bind at 1. rewrite (peek_view _ _ Hv1 Hsz).
      unfold bind, advance, modify, ret, ptarray_construct_copy_data.
      rewrite <- Hlen.
      pose proof (@host_doubles_view e ds [] Hsf Hds) as Hh.
      rewrite app_nil_r in Hh. rewrite Hh. cbn [pos set_pos].
      rewrite Hsz, length_wkb_doubles. f_equal. subst s1.
      rewrite set_pos_set_pos. cbn [pos set_pos]. f_equal. lia.
Qed.

Lemma lwpoint_from_wkb_state_view (s : wkb_parse_state) (e : endian)
  (ds : list double) (rest : list byte) :
  view s (wkb_doubles e ds ++ rest) ->
  error s = false -> swap_bytes s = swap_for e ->
  length ds = Z.to_nat (count_ndims (has_z s) (has_m s)) ->
  Forall is_double ds ->
  lwpoint_from_wkb_state s
  = Ret (Some (if isnan (nth 0 ds 0) && isnan (nth 1 ds 0)
               then lwpoint_construct_empty (srid s) (has_z s) (has_m s)
               else lwpoint_construct (srid s)
                      (mkPOINTARRAY (has_z s) (has_m s) 1 ds)))
        (set_pos (pos s + 8 * Z.of_nat (length ds)) s).
Proof.
  intros Hv He Hsw Hlen Hds.
  pose proof (count_ndims_range (has_z s) (has_m s)) as Hd.
  unfold lwpoint_from_wkb_state. cbv zeta.
  unfold bind at 1, gets at 1. unfold bind at 1, gets at 1.
  assert (Hsz : count_ndims (has_z s) (has_m s) * WKB_DOUBLE_SIZE
                = Z.of_nat (length (wkb_doubles e ds))).
  { rewrite length_wkb_doubles. unfold WKB_DOUBLE_SIZE. lia. }
  unfold bind at 1. rewrite (check_view _ _ Hv Hsz).
  unfold bind at 1, gets at 1. rewrite He.
  unfold bind at 1, gets at 1. rewrite Hsw.
  destruct (swap_for e) eqn:Hsf; cbn [negb]; cbv beta iota.
  - unfold bind at 1. unfold bind at 1. rewrite <- Hlen.
    rewrite (@doubles_from_wkb_state_view e ds s rest Hv)
      by (try rewrite Hsf; assumption).
    unfold ret at 1. unfold bind, gets, ret, ptarray_construct,
      getPoint2d_x, getPoint2d_y. cbn [serialized_pointlist srid set_pos].
    destruct (isnan (nth 0 ds 0) && isnan (nth 1 ds 0)); reflexivity.
  - unfold bind at 1. unfold bind at 1. rewrite (peek_view _ _ Hv Hsz).
    unfold bind at 1, advance, modify, ret at 1.
    unfold ptarray_construct_copy_data. rewrite Z.mul_1_l, <- Hlen.
    pose proof (@host_doubles_view e ds [] Hsf Hds) as Hh.
    rewrite app_nil_r in Hh. rewrite Hh.
    unfold bind, gets, ret, getPoint2d_x, getPoint2d_y.
    cbn [serialized_pointlist srid set_pos].
    rewrite Hsz, length_wkb_doubles.
    replace (Z.of_nat (8 * length ds)) with (8 * Z.of_nat (length ds))
      by lia.
    destruct (isnan (nth 0 ds 0) && isnan (nth 1 ds 0)); reflexivity.
Qed.

End Reading.

Section Header.

Context {E : liblwgeom}.

Lemma is_uint32_type_code (t : lwtype_t) (hz hm hs : bool) :
  is_uint32 (wkb_type_code t hz hm hs).
Proof. destruct t, hz, hm, hs; cbv; split; congruence. Qed.

Lemma lwtype_from_wkb_state_code (t : lwtype_t) (hz hm hs : bool)
  (s : wkb_parse_state) :
  t <> LWTYPE_NONE ->
  lwtype_from_wkb_state (wkb_type_code t hz hm hs) s
  = Ret tt (mkState (wkb s) (srid s) (wkb_size s) (swap_bytes s) (check s)
                    t hz hm hs (error s) (depth s) (pos s) (stack s)).
Proof.
  intros Ht. destruct t; try contradiction; destruct hz, hm, hs; reflexivity.
Qed.

Lemma uint32_range (z : Z) : is_uint32 (uint32 z).
Proof. unfold is_uint32, uint32. apply Z.mod_pos_bound. lia. Qed.

(** After the header the [switch] runs in [header_state], with the body of
    the geometry in front of the position. *)
Lemma lwgeom_from_wkb_state_body_header (rec : M (option LWGEOM))
  (s : wkb_parse_state) (e : endian) (t : lwtype_t) (sr : Z)
  (hz hm hs : bool) (rest : list byte) :
  view s (wkb_header e t sr hz hm hs ++ rest) ->
  error s = false -> t <> LWTYPE_NONE ->
  let s' := header_state e t (if hs then Some (uint32 sr) else None)
                         hz hm s in
  lwgeom_from_wkb_state_body rec s = lwgeom_dispatch rec s' /\
  view s' rest.
Proof.
  intros Hv He Ht. unfold wkb_header in Hv. rewrite <- !app_assoc in Hv.
  pose proof (view_advance _ _ Hv) as Hv1.
  replace (Z.of_nat (length (wkb_endian e))) with 1 in Hv1
    by (destruct e; reflexivity).
  set (s1 := set_swap_bytes (swap_for e) (set_pos (pos s + 1) s)).
  assert (Hv1' : view s1 (wkb_uint32 e (wkb_type_code t hz hm hs)
                          ++ (if hs then wkb_uint32 e (uint32 sr) else [])
                          ++ rest)) by exact Hv1.
  pose proof (view_advance _ _ Hv1') as Hv2.
  unfold wkb_uint32 in Hv2 at 1. rewrite length_wkb_field in Hv2.
  change (Z.of_nat 4) with 4 in Hv2.
  assert (Hint : integer_from_wkb_state s1
                 = Ret (wkb_type_code t hz hm hs)
                       (set_pos (pos s1 + 4) s1)).
  { apply (integer_from_wkb_state_view _ _ Hv1');
      [exact He|reflexivity|apply is_uint32_type_code]. }
  assert (Hbody1 :
    lwgeom_from_wkb_state_body rec s
    = (hs' <- gets has_srid ;;
       if hs' then
         v <- integer_from_wkb_state ;;
         modify (set_srid (clamp_srid (int32_of_uint32 v))) ;;
         err <- gets error ;;
         if err then ret None else lwgeom_dispatch rec
       else lwgeom_dispatch rec)
        (mkState (wkb s) (srid s) (wkb_size s) (swap_for e) (check s)
                 t hz hm hs (error s) (depth s) (pos s + 1 + 4) (stack s))).
  { unfold lwgeom_from_wkb_state_body. unfold bind at 1.
    rewrite (byte_from_wkb_state_view _ _ Hv He).
    unfold bind at 1, gets at 1. cbn [error set_pos]. rewrite He.
    replace (negb (match e with XDR => 0 | NDR => 1 end =? 1)
             && negb (match e with XDR => 0 | NDR => 1 end =? 0))
      with false by (destruct e; reflexivity).
    unfold bind at 1, modify at 1. unfold bind at 1.
    replace ((if IS_BIG_ENDIAN
                 && negb (match e with XDR => 0 | NDR => 1 end =? 0)
              then modify (set_swap_bytes true)
              else if negb IS_BIG_ENDIAN
                      && (match e with XDR => 0 | NDR => 1 end =? 0)
              then modify (set_swap_bytes true)
              else ret tt)
               (set_swap_bytes false (set_pos (pos s + 1) s)))
      with (Ret tt s1 : outcome unit)
      by (subst s1; unfold swap_for; destruct e, IS_BIG_ENDIAN;
          reflexivity).
    unfold bind at 1. rewrite Hint.
    unfold bind at 1, gets at 1. cbn [error set_pos]. subst s1.
    cbn [error set_swap_bytes set_pos]. rewrite He.
    unfold bind at 1. rewrite (lwtype_from_wkb_state_code hz hm hs _ Ht).
    unfold set_pos, set_swap_bytes.
    cbn [wkb srid wkb_size swap_bytes check lwtype has_z has_m has_srid
         error depth pos stack].
    rewrite ?He. reflexivity. }
  destruct hs.
  - cbv zeta. rewrite Hbody1.
    unfold bind at 1, gets at 1. cbn [has_srid].
    assert (Hv2' : view (mkState (wkb s) (srid s) (wkb_size s) (swap_for e)
                                 (check s) t hz hm true (error s) (depth s)
                                 (pos s + 1 + 4) (stack s))
                        (wkb_uint32 e (uint32 sr) ++ rest)) by exact Hv2.
    unfold bind at 1.
    rewrite (integer_from_wkb_state_view _ _ Hv2');
      [|exact He|reflexivity|apply uint32_range].
    pose proof (view_advance _ _ Hv2') as Hv3.
    unfold wkb_uint32 in Hv3 at 1. rewrite length_wkb_field in Hv3.
    change (Z.of_nat 4) with 4 in Hv3.
    unfold bind at 1, modify at 1. unfold bind at 1, gets at 1.
    cbn [error set_srid set_pos]. rewrite He.
    split; [|exact Hv3].
    unfold header_state, set_srid, set_pos.
    cbn [wkb srid wkb_size swap_bytes check lwtype has_z has_m has_srid
         error depth pos stack].
    rewrite ?He. reflexivity.
  - cbv zeta. rewrite Hbody1. rewrite app_nil_l in Hv2.
    split; [reflexivity|exact Hv2].
Qed.

End Header.

(* ================================================================== *)
(** ** The empty point                                                  *)
(* ================================================================== *)

Section EmptyPoint.

Context {E : liblwgeom}.

Lemma view_initial (buf : list byte) (chk : Z) (k : call_stack) :
  view (set_stack k (initial_state buf (Z.of_nat (length buf)) chk)) buf.
Proof. unfold view. simpl. repeat split; lia. Qed.

(** The outermost activation on a buffer that starts with a header. *)
Lemma lwgeom_from_wkb_header (e : endian) (t : lwtype_t) (sr : Z)
  (hz hm hs : bool) (rest : list byte) (chk : Z) :
  t <> LWTYPE_NONE ->
  let buf := wkb_header e t sr hz hm hs ++ rest in
  let n := Z.to_nat (Z.of_nat (length buf)) in
  let s := header_state e t (if hs then Some (uint32 sr) else None) hz hm
             (set_stack (enter FromCaller (mkCallStack 0 0 0 0))
                (initial_state buf (Z.of_nat (length buf)) chk)) in
  lwgeom_from_wkb buf (Z.of_nat (length buf)) chk
  = (r <- lwgeom_dispatch (lwgeom_from_wkb_state n) ;;
     modify (fun s => set_stack (leave FromCaller (stack s)) s) ;;
     ret r) s
  /\ view s rest.
Proof.
  intros Ht buf n s.
  assert (Hlen : Z.of_nat (length buf) <> 0).
  { subst buf. unfold wkb_header. rewrite !length_app.
    destruct e; simpl; lia. }
  pose proof (view_initial buf chk (enter FromCaller (mkCallStack 0 0 0 0)))
    as Hv.
  destruct (@lwgeom_from_wkb_state_body_header _ (lwgeom_from_wkb_state n)
              _ e t sr hz hm hs rest Hv eq_refl Ht) as [Hb Hv'].
  split; [|exact Hv'].
  unfold lwgeom_from_wkb, lwgeom_from_wkb_fuel.
  destruct (Z.eqb_spec (Z.of_nat (length buf)) 0) as [?|_]; [contradiction|].
  unfold call. unfold bind at 1, modify at 1.
  cbn [lwgeom_from_wkb_state]. unfold bind at 1.
  change (stack (initial_state buf (Z.of_nat (length buf)) chk))
    with (mkCallStack 0 0 0 0).
  fold n. rewrite Hb. reflexivity.
Qed.

(** C7: a WKB Point whose X and Y are both NaN decodes to the canonical
    empty point, which reports [lwgeom_is_empty], whatever byte order it was
    written in and whatever the byte order of the host; with X or Y not NaN
    the point is returned with the coordinates as they were written. *)
Theorem nan_point_is_empty (e : endian) (hz hm : bool) (x y : double)
  (zs : list double) (chk : Z) :
  is_double x -> is_double y -> Forall is_double zs ->
  length zs = (Nat.b2n hz + Nat.b2n hm)%nat ->
  let buf := wkb_header e POINTTYPE 0 hz hm false
             ++ wkb_doubles e (x :: y :: zs) in
  exists g,
    returned (lwgeom_from_wkb buf (Z.of_nat (length buf)) chk) = Some g /\
    lwgeom_type g = POINTTYPE /\
    lwgeom_is_empty g = isnan x && isnan y /\
    (isnan x && isnan y = true ->
     g = lwpoint_construct_empty SRID_UNKNOWN hz hm) /\
    (isnan x && isnan y = false ->
     g = LWPOINT SRID_UNKNOWN hz hm (mkPOINTARRAY hz hm 1 (x :: y :: zs))).
Proof.
  intros Hx Hy Hzs Hlen buf.
  assert (Hpt : POINTTYPE <> LWTYPE_NONE) by discriminate.
  destruct (@lwgeom_from_wkb_header e POINTTYPE 0 hz hm false
              (wkb_doubles e (x :: y :: zs)) chk Hpt) as [Hrun Hv].
  fold buf in Hrun, Hv. rewrite Hrun. clear Hrun.
  rewrite <- (app_nil_r (wkb_doubles e (x :: y :: zs))) in Hv.
  match type of Hv with view ?s0 _ => set (s := s0) in * end.
  assert (Hp : lwpoint_from_wkb_state s
               = Ret (Some (if isnan x && isnan y
                            then lwpoint_construct_empty SRID_UNKNOWN hz hm
                            else lwpoint_construct SRID_UNKNOWN
                                   (mkPOINTARRAY hz hm 1 (x :: y :: zs))))
                     (set_pos (pos s + 8 * Z.of_nat (length (x :: y :: zs)))
                              s)).
  { apply (lwpoint_from_wkb_state_view _ _ Hv); try reflexivity.
    - change (has_z s) with hz. change (has_m s) with hm.
      unfold count_ndims. cbn [length]. rewrite Hlen.
      destruct hz, hm; reflexivity.
    - constructor; [assumption|constructor; assumption]. }
  unfold bind at 1, lwgeom_dispatch, bind at 1, gets at 1.
  change (lwtype s) with POINTTYPE. cbv iota. rewrite Hp.
  unfold bind, modify, ret. cbn [returned].
  eexists. split; [reflexivity|].
  destruct (isnan x && isnan y) eqn:Hnan.
  - repeat split; try reflexivity. discriminate.
  - repeat split; try reflexivity. discriminate.
Qed.

End EmptyPoint.

(* ================================================================== *)
(** ** Nested collections and the depth limit                           *)
(* ================================================================== *)

Section NestedCollections.

Context {E : liblwgeom}.

Variable e : endian.

Lemma lwgeom_to_wkb_nested_point (sr : Z) :
  lwgeom_to_wkb e false (nested_collections sr 0)
  = wkb_header e POINTTYPE sr false false false ++ wkb_doubles e [0; 0].
Proof. reflexivity. Qed.

Lemma lwgeom_to_wkb_nested_succ (sr : Z) (n : nat) :
  lwgeom_to_wkb e false (nested_collections sr (S n))
  = wkb_header e COLLECTIONTYPE sr false false false
    ++ wkb_uint32 e 1 ++ lwgeom_to_wkb e false (nested_collections sr n).
Proof.
  cbn [nested_collections lwgeom_to_wkb map concat length].
  rewrite app_nil_r. reflexivity.
Qed.

(** Shallow enough, the nested collections decode to themselves. *)
Lemma lwgeom_from_wkb_state_nested (sr : Z) (n : nat) :
  lwcollection_allows_subtype COLLECTIONTYPE COLLECTIONTYPE = true ->
  lwcollection_allows_subtype COLLECTIONTYPE POINTTYPE = true ->
  forall (fuel : nat) (s : wkb_parse_state) (rest : list byte),
    (n < fuel)%nat ->
    view s (lwgeom_to_wkb e false (nested_collections sr n) ++ rest) ->
    error s = false -> 1 <= depth s -> depth s + Z.of_nat n <= 199 ->
    exists s',
      lwgeom_from_wkb_state fuel s
      = Ret (Some (nested_collections (srid s) n)) s' /\
      view s' rest /\ error s' = false /\ depth s' = depth s /\
      srid s' = srid s.
Proof.
  intros Hcc Hcp. induction n as [|n IH];
    intros fuel s rest Hfuel Hv He Hd1 Hd2;
    (destruct fuel as [|fuel]; [lia|]); cbn [lwgeom_from_wkb_state].
  - rewrite lwgeom_to_wkb_nested_point, <- app_assoc in Hv.
    destruct (@lwgeom_from_wkb_state_body_header _
                (lwgeom_from_wkb_state fuel) _ e POINTTYPE sr false false
                false _ Hv He ltac:(discriminate)) as [Hb Hv'].
    cbv zeta in Hb, Hv'. rewrite Hb. clear Hb.
    match type of Hv' with view ?s0 _ => set (sh := s0) in * end.
    unfold lwgeom_dispatch, bind at 1, gets at 1.
    change (lwtype sh) with POINTTYPE. cbv iota.
    rewrite (lwpoint_from_wkb_state_view _ _ Hv');
      [|exact He|reflexivity|reflexivity
       |repeat constructor; cbv; congruence].
    eexists. split; [reflexivity|].
    pose proof (view_advance _ _ Hv') as Hv2.
    rewrite length_wkb_doubles in Hv2.
    split; [exact Hv2|]. repeat split; first [exact He | reflexivity].
  - rewrite lwgeom_to_wkb_nested_succ, <- !app_assoc in Hv.
    destruct (@lwgeom_from_wkb_state_body_header _
                (lwgeom_from_wkb_state fuel) _ e COLLECTIONTYPE sr false
                false false _ Hv He ltac:(discriminate)) as [Hb Hv'].
    cbv zeta in Hb, Hv'. rewrite Hb. clear Hb.
    match type of Hv' with view ?s0 _ => set (sh := s0) in * end.
    unfold lwgeom_dispatch, bind at 1, gets at 1.
    change (lwtype sh) with COLLECTIONTYPE. cbv iota.
    unfold lwcollection_from_wkb_state, bind at 1.
    rewrite (integer_from_wkb_state_view _ _ Hv');
      [|exact He|reflexivity|cbv; split; congruence].
    pose proof (view_advance _ _ Hv') as Hv2.
    unfold wkb_uint32 in Hv2 at 1. rewrite length_wkb_field in Hv2.
    change (Z.of_nat 4) with 4 in Hv2.
    match type of Hv2 with view ?s0 _ => set (s2 := s0) in * end.
    unfold bind at 1, gets at 1. change (error s2) with (error s).
    rewrite He.
    do 4 (unfold bind at 1, gets at 1).
    change (lwtype s2) with COLLECTIONTYPE.
    change (srid s2) with (srid s).
    change (has_z s2) with false. change (has_m s2) with false.
    change (1 =? 0) with false. cbv iota.
    unfold bind at 1, when, lwtype_eqb, ret at 1.
    unfold bind at 1, modify at 1.
    unfold bind at 1, gets at 1. cbn [depth set_depth].
    change (depth s2) with (depth s).
    assert (Hu : uint8 (depth s + 1) = depth s + 1).
    { unfold uint8. apply Z.mod_small. lia. }
    rewrite Hu.
    destruct (Z.geb_spec (depth s + 1) LW_PARSER_MAX_DEPTH) as [Hge|Hlt].
    { unfold LW_PARSER_MAX_DEPTH in Hge. lia. }
    set (s3 := set_depth (depth s + 1) s2).
    assert (Hv3 : view s3 (lwgeom_to_wkb e false (nested_collections sr n)
                           ++ rest)) by exact Hv2.
    change (Z.to_nat 1) with 1%nat.
    cbn [lwcollection_geoms_from_wkb_state].
    unfold bind at 1. unfold bind at 1.
    unfold call, bind at 1, modify at 1. unfold bind at 1.
    set (s4 := set_stack (enter FromCollection (stack s3)) s3).
    assert (Hv4 : view s4 (lwgeom_to_wkb e false (nested_collections sr n)
                           ++ rest)) by exact Hv3.
    destruct (IH fuel s4 rest ltac:(lia) Hv4 He
                ltac:(change (depth s4) with (depth s + 1); lia)
                ltac:(change (depth s4) with (depth s + 1); lia))
      as (s5 & Hrun & Hv5 & He5 & Hd5 & Hs5).
    rewrite Hrun. unfold bind at 1, modify at 1. unfold ret at 1.
    change (srid s4) with (srid s).
    unfold lwcollection_construct_empty.
    cbn [lwcollection_add_lwgeom].
    replace (lwgeom_type (nested_collections (srid s) n))
      with (match n with O => POINTTYPE | S _ => COLLECTIONTYPE end)
      by (destruct n; reflexivity).
    replace (lwcollection_allows_subtype COLLECTIONTYPE
               match n with O => POINTTYPE | S _ => COLLECTIONTYPE end)
      with true by (destruct n; congruence).
    cbn [app]. unfold ret at 1. unfold bind at 1, modify at 1. unfold ret.
    eexists. split; [reflexivity|].
    split; [exact Hv5|].
    cbn [error depth srid set_depth set_stack].
    repeat split; try assumption.
    change (depth s4) with (depth s + 1) in Hd5. rewrite Hd5.
    unfold uint8. rewrite Z.mod_small by lia. lia.
Qed.

(** Too deep, the decode stops at the depth limit. *)
Lemma lwgeom_from_wkb_state_nested_deep (sr : Z) (n : nat) :
  forall (fuel : nat) (s : wkb_parse_state) (rest : list byte),
    (n < fuel)%nat ->
    view s (lwgeom_to_wkb e false (nested_collections sr n) ++ rest) ->
    error s = false -> 1 <= depth s <= 199 ->
    200 <= depth s + Z.of_nat n -> (1 <= n)%nat ->
    fails_chained (lwgeom_from_wkb_state fuel s).
Proof.
  induction n as [|n IH]; intros fuel s rest Hfuel Hv He Hd1 Hd2 Hn; [lia|].
  destruct fuel as [|fuel]; [lia|]. cbn [lwgeom_from_wkb_state].
  rewrite lwgeom_to_wkb_nested_succ, <- !app_assoc in Hv.
  destruct (@lwgeom_from_wkb_state_body_header _
              (lwgeom_from_wkb_state fuel) _ e COLLECTIONTYPE sr false
              false false _ Hv He ltac:(discriminate)) as [Hb Hv'].
  cbv zeta in Hb, Hv'. rewrite Hb. clear Hb.
  match type of Hv' with view ?s0 _ => set (sh := s0) in * end.
  unfold lwgeom_dispatch, bind at 1, gets at 1.
  change (lwtype sh) with COLLECTIONTYPE. cbv iota.
  unfold lwcollection_from_wkb_state, bind at 1.
  rewrite (integer_from_wkb_state_view _ _ Hv');
    [|exact He|reflexivity|cbv; split; congruence].
  pose proof (view_advance _ _ Hv') as Hv2.
  unfold wkb_uint32 in Hv2 at 1. rewrite length_wkb_field in Hv2.
  change (Z.of_nat 4) with 4 in Hv2.
  match type of Hv2 with view ?s0 _ => set (s2 := s0) in * end.
  unfold bind at 1, gets at 1. change (error s2) with (error s).
  rewrite He.
  do 4 (unfold bind at 1, gets at 1).
  change (lwtype s2) with COLLECTIONTYPE.
  change (1 =? 0) with false. cbv iota.
  unfold bind at 1, when, lwtype_eqb, ret at 1.
  unfold bind at 1, modify at 1.
  unfold bind at 1, gets at 1. cbn [depth set_depth].
  change (depth s2) with (depth s).
  assert (Hu : uint8 (depth s + 1) = depth s + 1).
  { unfold uint8. apply Z.mod_small. lia. }
  rewrite Hu.
  destruct (Z.geb_spec (depth s + 1) LW_PARSER_MAX_DEPTH) as [Hge|Hlt].
  { unfold fails_chained, bind, lwerror, ret.
    destruct lwerror_returns; eexists; reflexivity. }
  unfold LW_PARSER_MAX_DEPTH in Hlt.
  set (s3 := set_depth (depth s + 1) s2).
  change (Z.to_nat 1) with 1%nat.
  cbn [lwcollection_geoms_from_wkb_state].
  unfold bind at 1. unfold bind at 1.
  unfold call, bind at 1, modify at 1. unfold bind at 1.
  set (s4 := set_stack (enter FromCollection (stack s3)) s3).
  assert (Hv4 : view s4 (lwgeom_to_wkb e false (nested_collections sr n)
                         ++ rest)) by exact Hv2.
  pose proof (IH fuel s4 rest ltac:(lia) Hv4 He
                ltac:(change (depth s4) with (depth s + 1); lia)
                ltac:(change (depth s4) with (depth s + 1); lia)
                ltac:(lia)) as Hin.
  unfold fails_chained in Hin.
  destruct lwerror_returns eqn:Hret; destruct Hin as [s5 Hin]; rewrite Hin.
  - unfold bind at 1, modify at 1. unfold ret at 1.
    unfold lwcollection_construct_empty. cbn [lwcollection_add_lwgeom].
    unfold fails_chained, bind, lwerror, ret. rewrite Hret.
    eexists. reflexivity.
  - unfold fails_chained. rewrite Hret. eexists. reflexivity.
Qed.

Lemma length_wkb_header (t : lwtype_t) (sr : Z) (hz hm : bool) :
  length (wkb_header e t sr hz hm false) = 5%nat.
Proof.
  unfold wkb_header, wkb_uint32. rewrite !length_app, length_wkb_field.
  destruct e; reflexivity.
Qed.

Lemma length_nested_collections (sr : Z) (n : nat) :
  length (lwgeom_to_wkb e false (nested_collections sr n))
  = (9 * n + 21)%nat.
Proof.
  induction n as [|n IH].
  - rewrite lwgeom_to_wkb_nested_point, length_app, length_wkb_header,
      length_wkb_doubles. reflexivity.
  - rewrite lwgeom_to_wkb_nested_succ, !length_app, length_wkb_header, IH.
    unfold wkb_uint32. rewrite length_wkb_field. lia.
Qed.

(** C3, amended: the WKB of [n] levels of nested single-child collections
    decodes, to the nested collections themselves, for every [n] up to 198;
    from 199 levels on, and so for 201, the decode stops with the "too many
    chained collections" error (with NULL, should the error handler
    return). *)
Theorem nested_collections_depth_limit (n : nat) (chk : Z) :
  let g := nested_collections SRID_UNKNOWN n in
  let buf := lwgeom_to_wkb e false g in
  let o := lwgeom_from_wkb buf (Z.of_nat (length buf)) chk in
  ((n <= 198)%nat ->
   lwcollection_allows_subtype COLLECTIONTYPE COLLECTIONTYPE = true ->
   lwcollection_allows_subtype COLLECTIONTYPE POINTTYPE = true ->
   returned o = Some g) /\
  ((199 <= n)%nat -> fails_chained o /\ returned o = None).
Proof.
  intros g buf o.
  assert (Hlen : length buf = (9 * n + 21)%nat)
    by apply length_nested_collections.
  assert (Hnz : (Z.of_nat (length buf) =? 0) = false)
    by (apply Z.eqb_neq; lia).
  set (s0 := set_stack (enter FromCaller (mkCallStack 0 0 0 0))
               (initial_state buf (Z.of_nat (length buf)) chk)).
  assert (Hv : view s0 (lwgeom_to_wkb e false
                          (nested_collections SRID_UNKNOWN n) ++ [])).
  { rewrite app_nil_r. apply view_initial. }
  assert (He : error s0 = false) by reflexivity.
  assert (Hd : depth s0 = 1) by reflexivity.
  assert (Hf : (n < S (Z.to_nat (Z.of_nat (length buf))))%nat) by lia.
  assert (Ho : o = (r <- lwgeom_from_wkb_state
                          (S (Z.to_nat (Z.of_nat (length buf)))) ;;
                    modify (fun s => set_stack (leave FromCaller (stack s)) s)
                    ;; ret r) s0).
  { subst o. unfold lwgeom_from_wkb, lwgeom_from_wkb_fuel. rewrite Hnz.
    reflexivity. }
  split.
  - intros Hn Hcc Hcp.
    destruct (@lwgeom_from_wkb_state_nested SRID_UNKNOWN n Hcc Hcp
                _ s0 [] Hf Hv He ltac:(lia) ltac:(lia))
      as (s' & Hrun & _).
    rewrite Ho. unfold bind at 1. rewrite Hrun. reflexivity.
  - intros Hn.
    pose proof (@lwgeom_from_wkb_state_nested_deep SRID_UNKNOWN n
                  _ s0 [] Hf Hv He ltac:(lia) ltac:(lia) ltac:(lia)) as Hfl.
    unfold fails_chained in *.
    destruct lwerror_returns; destruct Hfl as [s' Hfl].
    + assert (Ho2 : o = Ret None (set_stack (leave FromCaller (stack s')) s'))
        by (rewrite Ho; unfold bind at 1; rewrite Hfl; reflexivity).
      rewrite Ho2. split; [eexists|]; reflexivity.
    + assert (Ho2 : o = Raise Geometry_has_too_many_chained_collections s')
        by (rewrite Ho; unfold bind at 1; rewrite Hfl; reflexivity).
      rewrite Ho2. split; [eexists|]; reflexivity.
Qed.

End NestedCollections.

(** C3, as stated, fails: 199 levels of nested single-child collections do
    not decode; the decoder stops with the "too many chained collections"
    error. *)
Lemma nested_collections_199_rejected :
  let E := Upstream.env false false in
  let buf := lwgeom_to_wkb NDR false (nested_collections 0 199) in
  returned (@lwgeom_from_wkb E buf (Z.of_nat (length buf)) 0) = None /\
  exists s, @lwgeom_from_wkb E buf (Z.of_nat (length buf)) 0
            = Raise Geometry_has_too_many_chained_collections s.
Proof.
  cbv zeta. split; [vm_compute; reflexivity|].
  eexists. vm_compute. reflexivity.
Qed.

(* ================================================================== *)
(** ** The depth counter and the call stack                             *)
(* ================================================================== *)

(** A framed reader keeps every property of the depth counter and the call
    stack. *)
Lemma framed_stack {A} (m : M A) (Q : wkb_parse_state -> Prop) :
  (forall s s', depth s' = depth s -> stack s' = stack s -> Q s -> Q s') ->
  (forall s0, keeps True (frame s0) (frame s0) m) ->
  keeps True Q Q m.
Proof.
  intros HQ Hm s Hs. specialize (Hm s s (frame_refl s)).
  destruct (m s) as [a s'|e s'|s'|]; try exact I;
    apply frame_fields in Hm; apply (HQ s); tauto.
Qed.

Lemma stack_inv_frame (f r : nat) (d : Z) (s s' : wkb_parse_state) :
  depth s' = depth s -> stack s' = stack s ->
  stack_inv f r d s -> stack_inv f r d s'.
Proof.
  unfold stack_inv, peak_ok. intros -> ->. tauto.
Qed.

Ltac stack_side :=
  unfold stack_inv, peak_ok in *; simpl in *;
  first [ assumption | tauto ].

Lemma stack_inv_enter (c : call_site) (f r : nat) (d : Z)
  (s : wkb_parse_state) :
  stack_inv f r d s -> (S f - (r + ring_site c) <= 199)%nat ->
  stack_inv (S f) (r + ring_site c) d (set_stack (enter c (stack s)) s).
Proof.
  intros (Hf & Hr & Hde & Hp) Hb. unfold stack_inv, peak_ok, enter in *.
  destruct s as [? ? ? ? ? ? ? ? ? ? ? ? k].
  cbn [stack set_stack depth frames ring_frames peak_counted] in *.
  subst. repeat split. apply Nat.max_lub; assumption.
Qed.

Lemma stack_inv_leave (c : call_site) (f r : nat) (d : Z)
  (s : wkb_parse_state) :
  stack_inv (S f) r d s ->
  stack_inv f (r - ring_site c) d (set_stack (leave c (stack s)) s).
Proof.
  intros (Hf & Hr & Hde & Hp). unfold stack_inv, peak_ok, leave in *.
  destruct s as [? ? ? ? ? ? ? ? ? ? ? ? k].
  cbn [stack set_stack depth frames ring_frames peak_counted] in *.
  rewrite Hf. subst. repeat split. assumption.
Qed.

Section DepthCounter.

Context {E : liblwgeom}.

Section Readers.

Variables (f r : nat) (d : Z).

#[local] Abbreviation steady m :=
  (keeps True (stack_inv f r d) peak_ok m).

Lemma steady_framed {A} (m : M A) :
  (forall s0, keeps True (frame s0) (frame s0) m) -> steady m.
Proof.
  intros H.
  eapply triple_conseq;
    [ apply (@framed_stack A m (stack_inv f r d)
               (@stack_inv_frame f r d) H) | auto | auto | ].
  intros s Hs. apply Hs.
Qed.

Lemma steady_integer : steady integer_from_wkb_state.
Proof. apply steady_framed, framed_integer. Qed.

Lemma steady_byte : steady byte_from_wkb_state.
Proof. apply steady_framed, framed_byte. Qed.

Lemma steady_lwtype (t : Z) : steady (lwtype_from_wkb_state t).
Proof.
  unfold lwtype_from_wkb_state, extended_flags. keeps_auto stack_side.
Qed.

(** A reader that keeps the invariant leaves it behind whatever it hands
    back. *)
Lemma steady_returns (m : M (option LWGEOM)) :
  steady m -> triple True (stack_inv f r d) m (returns_in f r d) peak_ok.
Proof.
  intros H. eapply triple_conseq; [exact H|auto| |auto].
  intros [g|] s Hs; [exact Hs|apply Hs].
Qed.

End Readers.

Section Calls.

Variable rec : M (option LWGEOM).
Hypothesis rec_counts : counts_frames rec.

(** A call from a ring loop: the counter is not touched, and neither is
    the number of counted activations. *)
Lemma call_from_ring (f r : nat) (d : Z) :
  (r <= f)%nat -> Z.of_nat (f - r) = d -> 1 <= d <= 199 ->
  triple True (stack_inv f r d) (call FromRing rec) (returns_in f r d)
         peak_ok.
Proof.
  intros Hrf Hd Hd1. unfold call.
  eapply triple_bind with (Mid := fun _ => stack_inv (S f) (S r) d).
  { apply triple_modify. intros s Hs.
    apply (stack_inv_enter FromRing) in Hs; [|cbn [ring_site]; lia].
    replace (S r) with (r + ring_site FromRing)%nat by (cbn [ring_site]; lia).
    exact Hs. }
  intros _.
  eapply triple_bind;
    [ apply (rec_counts (f := S f) (r := S r) (d := d)); lia | ].
  intros res.
  eapply triple_bind with (Mid := fun _ => returns_in f r d res).
  { apply triple_modify. intros s Hs. destruct res as [g|].
    - apply (stack_inv_leave FromRing) in Hs.
      replace (S r - ring_site FromRing)%nat with r in Hs
        by (cbn [ring_site]; lia).
      exact Hs.
    - exact Hs. }
  intros _. apply triple_ret. auto.
Qed.

(** A call from the child loop of a collection, which has raised the
    counter by one beforehand. *)
Lemma call_from_collection (f r : nat) (d : Z) :
  (r <= f)%nat -> Z.of_nat (f - r) + 1 = d -> 1 <= d <= 199 ->
  triple True (stack_inv f r d) (call FromCollection rec)
         (returns_in f r d) peak_ok.
Proof.
  intros Hrf Hd Hd1. unfold call.
  eapply triple_bind with (Mid := fun _ => stack_inv (S f) r d).
  { apply triple_modify. intros s Hs.
    apply (stack_inv_enter FromCollection) in Hs; [|cbn [ring_site]; lia].
    replace r with (r + ring_site FromCollection)%nat at 1
      by (cbn [ring_site]; lia).
    exact Hs. }
  intros _.
  eapply triple_bind;
    [ apply (rec_counts (f := S f) (r := r) (d := d)); lia | ].
  intros res.
  eapply triple_bind with (Mid := fun _ => returns_in f r d res).
  { apply triple_modify. intros s Hs. destruct res as [g|].
    - apply (stack_inv_leave FromCollection) in Hs.
      replace (r - ring_site FromCollection)%nat with r in Hs
        by (cbn [ring_site]; lia).
      exact Hs.
    - exact Hs. }
  intros _. apply triple_ret. auto.
Qed.

Lemma returns_in_peak (f r : nat) (d : Z) (res : option LWGEOM)
  (s : wkb_parse_state) : returns_in f r d res s -> peak_ok s.
Proof. destruct res; [intros H; apply H|auto]. Qed.

(** [lwerror(...); return NULL;] *)
Lemma lwerror_null (f r : nat) (d : Z) (P : wkb_parse_state -> Prop)
  (e : lwerror_msg) :
  (forall s, P s -> peak_ok s) ->
  triple True P (lwerror e ;; ret None) (returns_in f r d) peak_ok.
Proof.
  intros HP s Hs. unfold bind, lwerror, ret.
  destruct lwerror_returns; simpl; auto.
Qed.

Lemma counts_lwcurvepoly_rings (f r : nat) (d : Z) :
  (r <= f)%nat -> Z.of_nat (f - r) = d -> 1 <= d <= 199 ->
  forall (n : nat) (cp : LWGEOM),
    triple True (stack_inv f r d)
           (lwcurvepoly_rings_from_wkb_state rec n cp)
           (returns_in f r d) peak_ok.
Proof.
  intros Hrf Hd Hd1. induction n as [|n IH]; intros cp; simpl.
  - apply triple_ret. auto.
  - eapply triple_bind; [apply call_from_ring; assumption|].
    intros geom. destruct geom as [g|].
    + destruct (lwcurvepoly_add_ring cp (Some g)); [apply IH|].
      apply lwerror_null. intros s Hs. apply Hs.
    + replace (lwcurvepoly_add_ring cp None) with (@None LWGEOM)
        by (destruct cp; reflexivity).
      apply lwerror_null. auto.
Qed.

Lemma counts_lwcollection_geoms (f r : nat) (d : Z) :
  (r <= f)%nat -> Z.of_nat (f - r) + 1 = d -> 1 <= d <= 199 ->
  forall (n : nat) (col : LWGEOM),
    triple True (stack_inv f r d)
           (lwcollection_geoms_from_wkb_state rec n col)
           (returns_in f r d) peak_ok.
Proof.
  intros Hrf Hd Hd1. induction n as [|n IH]; intros col; simpl.
  - apply triple_ret. auto.
  - eapply triple_bind; [apply call_from_collection; assumption|].
    intros geom. destruct geom as [g|].
    + destruct (lwcollection_add_lwgeom col (Some g)); [apply IH|].
      apply lwerror_null. intros s Hs. apply Hs.
    + replace (lwcollection_add_lwgeom col None) with (@None LWGEOM)
        by (destruct col; reflexivity).
      apply lwerror_null. auto.
Qed.

Lemma counts_lwcurvepoly (f r : nat) (d : Z) :
  (r <= f)%nat -> Z.of_nat (f - r) = d -> 1 <= d <= 199 ->
  triple True (stack_inv f r d) (lwcurvepoly_from_wkb_state rec)
         (returns_in f r d) peak_ok.
Proof.
  intros Hrf Hd Hd1. unfold lwcurvepoly_from_wkb_state.
  eapply triple_bind; [apply steady_integer|]. intros ngeoms.
  eapply triple_bind; [apply keeps_gets|]. intros err.
  destruct err; [apply triple_ret; intros s Hs; apply Hs|].
  eapply triple_bind; [apply keeps_gets|]. intros sr.
  eapply triple_bind; [apply keeps_gets|]. intros hz.
  eapply triple_bind; [apply keeps_gets|]. intros hm.
  destruct (ngeoms =? 0); [apply triple_ret; auto|].
  apply counts_lwcurvepoly_rings; assumption.
Qed.

Lemma counts_lwcollection (f r : nat) (d : Z) :
  (r <= f)%nat -> Z.of_nat (f - r) = d -> 1 <= d <= 199 ->
  triple True (stack_inv f r d) (lwcollection_from_wkb_state rec)
         (returns_in f r d) peak_ok.
Proof.
  intros Hrf Hd Hd1. unfold lwcollection_from_wkb_state.
  eapply triple_bind; [apply steady_integer|]. intros ngeoms.
  eapply triple_bind; [apply keeps_gets|]. intros err.
  destruct err; [apply triple_ret; intros s Hs; apply Hs|].
  eapply triple_bind; [apply keeps_gets|]. intros ty.
  eapply triple_bind; [apply keeps_gets|]. intros sr.
  eapply triple_bind; [apply keeps_gets|]. intros hz.
  eapply triple_bind; [apply keeps_gets|]. intros hm.
  destruct (ngeoms =? 0); [apply triple_ret; auto|].
  eapply triple_bind with (Mid := fun _ => stack_inv f r d).
  { apply keeps_when. apply keeps_modify. intros s Hs. exact Hs. }
  intros _.
  eapply triple_bind with (Mid := fun _ => stack_inv f r (d + 1)).
  { apply triple_modify. intros s (Hf & Hr & Hde & Hp).
    unfold stack_inv, peak_ok, uint8 in *. simpl. rewrite Hde.
    rewrite Z.mod_small by lia. auto. }
  intros _.
  eapply triple_bind; [apply triple_gets|]. intros dd.
  apply triple_conseq with
    (Pre' := fun s => stack_inv f r (d + 1) s /\ dd = d + 1)
    (Post' := returns_in f r d) (Exc' := peak_ok); auto.
  2: { intros s [Hs Hdd]. split; [exact Hs|].
       destruct Hs as (_ & _ & Hde & _). congruence. }
  apply triple_pure. intros ->.
  destruct (Z.geb_spec (d + 1) LW_PARSER_MAX_DEPTH) as [Hge|Hlt].
  { apply lwerror_null. intros s Hs. apply Hs. }
  unfold LW_PARSER_MAX_DEPTH in Hlt.
  eapply triple_bind;
    [ apply (@counts_lwcollection_geoms f r (d + 1)); lia | ].
  intros res. destruct res as [col'|]; [|apply triple_ret; auto].
  eapply triple_bind with (Mid := fun _ => stack_inv f r d).
  { apply triple_modify. intros s (Hf & Hr & Hde & Hp).
    unfold stack_inv, peak_ok, uint8 in *. simpl. rewrite Hde.
    replace (d + 1 - 1) with d by lia.
    rewrite Z.mod_small by lia. auto. }
  intros _. apply triple_ret. auto.
Qed.

Lemma counts_body : counts_frames (lwgeom_from_wkb_state_body rec).
Proof.
  intros f r d Hrf Hd Hd1.
  pose proof (@counts_lwcurvepoly f r d Hrf Hd Hd1) as Hcp.
  pose proof (@counts_lwcollection f r d Hrf Hd Hd1) as Hco.
  assert (Hdisp : triple True (stack_inv f r d) (lwgeom_dispatch rec)
                         (returns_in f r d) peak_ok).
  { unfold lwgeom_dispatch.
    eapply triple_bind; [apply keeps_gets|]. intros ty.
    destruct ty;
      first [ exact Hco | exact Hcp
            | apply lwerror_null; intros s Hs; apply Hs
            | apply steady_returns, steady_framed;
              first [ apply framed_lwpoint | apply framed_lwline
                    | apply framed_lwpoly | apply framed_lwcircstring
                    | apply framed_lwtriangle ] ]. }
  unfold lwgeom_from_wkb_state_body.
  eapply triple_bind; [apply steady_byte|]. intros en.
  eapply triple_bind; [apply keeps_gets|]. intros err.
  destruct err; [apply triple_ret; intros s Hs; apply Hs|].
  destruct (negb (en =? 1) && negb (en =? 0)).
  { apply lwerror_null. intros s Hs. apply Hs. }
  eapply triple_bind with (Mid := fun _ => stack_inv f r d).
  { apply keeps_modify. intros s Hs. exact Hs. }
  intros _.
  eapply triple_bind with (Mid := fun _ => stack_inv f r d).
  { destruct (IS_BIG_ENDIAN && negb (en =? 0));
      [apply keeps_modify; intros s Hs; exact Hs|].
    destruct (negb IS_BIG_ENDIAN && (en =? 0));
      [apply keeps_modify; intros s Hs; exact Hs|].
    apply triple_ret. auto. }
  intros _.
  eapply triple_bind; [apply steady_integer|]. intros wkb_type.
  eapply triple_bind; [apply keeps_gets|]. intros err.
  destruct err; [apply triple_ret; intros s Hs; apply Hs|].
  eapply triple_bind; [apply steady_lwtype|]. intros ?.
  eapply triple_bind; [apply keeps_gets|]. intros hs.
  destruct hs; [|exact Hdisp].
  eapply triple_bind; [apply steady_integer|]. intros v.
  eapply triple_bind with (Mid := fun _ => stack_inv f r d).
  { apply keeps_modify. intros s Hs. exact Hs. }
  intros _.
  eapply triple_bind; [apply keeps_gets|]. intros err.
  destruct err; [apply triple_ret; intros s Hs; apply Hs|].
  exact Hdisp.
Qed.

End Calls.

Lemma counts_lwgeom_from_wkb_state (fuel : nat) :
  counts_frames (lwgeom_from_wkb_state fuel).
Proof.
  induction fuel as [|fuel IH].
  - intros f r d _ _ _ s _. exact I.
  - simpl. apply counts_body. exact IH.
Qed.

(** The depth counter caps the nesting of the calls it counts.  In every
    decode, of every buffer, the activations of [lwgeom_from_wkb_state] that
    are live at any one time and were entered from [lwgeom_from_wkb] or from
    the child loop of a collection never number more than 199, so none of
    them is entered at depth 200.  The calls entered from the ring loop of a
    curve polygon are not counted. *)
Theorem collection_depth_capped (buf : list byte) (size chk : Z) :
  exists s,
    final_state (lwgeom_from_wkb buf size chk) = Some s /\
    (peak_counted (stack s) <= 199)%nat.
Proof.
  pose proof (lwgeom_from_wkb_total buf size chk) as Ht.
  unfold lwgeom_from_wkb, lwgeom_from_wkb_fuel in *.
  destruct (size =? 0).
  { eexists. split; [reflexivity|]. simpl. lia. }
  assert (H : triple True (stack_inv 0 0 1)
                (call FromCaller
                   (lwgeom_from_wkb_state (S (Z.to_nat size))))
                (fun _ => peak_ok) peak_ok).
  { unfold call.
    eapply triple_bind with (Mid := fun _ => stack_inv 1 0 1).
    { apply triple_modify. intros s Hs.
      apply (stack_inv_enter FromCaller) in Hs; [|cbn [ring_site]; lia].
      exact Hs. }
    intros _.
    eapply triple_bind;
      [ apply (@counts_lwgeom_from_wkb_state (S (Z.to_nat size)) 1%nat
                 0%nat 1); lia | ].
    intros res.
    eapply triple_bind with (Mid := fun _ => peak_ok).
    { apply triple_modify. intros s Hs.
      apply returns_in_peak in Hs. exact Hs. }
    intros _. apply triple_ret. auto. }
  specialize (H (initial_state buf size chk)).
  assert (Hinit : stack_inv 0 0 1 (initial_state buf size chk)).
  { unfold stack_inv, peak_ok. simpl. repeat split; lia. }
  specialize (H Hinit).
  destruct (call FromCaller (lwgeom_from_wkb_state (S (Z.to_nat size)))
              (initial_state buf size chk)) as [a s|e s|s|];
    try contradiction; eexists; (split; [reflexivity|exact H]).
Qed.

End DepthCounter.

(** C2 fails on the code: the recursion through the rings of curve polygons
    is not capped.  [lwcurvepoly_from_wkb_state] calls
    [lwgeom_from_wkb_state] for each ring without the [depth] bookkeeping of
    its sibling [lwcollection_from_wkb_state], so decoding 200 nested
    single-ring curve polygons enters [lwgeom_from_wkb_state] 201 deep, with
    the depth counter still at 1; the parse ends only when the innermost
    ring is refused as a ring. *)
Lemma curvepoly_rings_not_capped :
  let E := Upstream.env false false in
  let buf := lwgeom_to_wkb NDR false (nested_curvepolys 0 200) in
  exists s,
    @lwgeom_from_wkb E buf (Z.of_nat (length buf)) 0
    = Raise Unable_to_add_geometry_to_curvepoly s /\
    peak_frames (stack s) = 201%nat /\
    (200 <= peak_frames (stack s))%nat /\
    depth s = 1.
Proof.
  cbv zeta. eexists. split; [vm_compute; reflexivity|].
  cbn [stack peak_frames depth].
  split; [reflexivity|]. split; [lia|reflexivity].
Qed.

(* ================================================================== *)
(** ** The declared byte order does not show in the result              *)
(* ================================================================== *)

Lemma agree_ret {A} (Pre : _ -> _ -> Prop) (Post : A -> _ -> _ -> Prop)
  (a : A) :
  (forall s1 s2, Pre s1 s2 -> Post a s1 s2) -> agree Pre (ret a) Post.
Proof. intros H s1 s2 Hp. simpl. auto. Qed.

Lemma agree_bind {A B} Pre (Mid : A -> _ -> _ -> Prop)
  (Post : B -> _ -> _ -> Prop) (m : M A) (k : A -> M B) :
  agree Pre m Mid -> (forall a, agree (Mid a) (k a) Post) ->
  agree Pre (bind m k) Post.
Proof.
  intros Hm Hk s1 s2 Hp. specialize (Hm s1 s2 Hp). unfold bind.
  destruct (m s1) as [a t1|e1 t1|t1|], (m s2) as [b t2|e2 t2|t2|];
    simpl in *; try contradiction; try assumption.
  destruct Hm as [<- Hmid]. apply Hk. exact Hmid.
Qed.

Lemma agree_conseq {A} (Pre Pre' : _ -> _ -> Prop)
  (Post Post' : A -> _ -> _ -> Prop) (m : M A) :
  agree Pre' m Post' ->
  (forall s1 s2, Pre s1 s2 -> Pre' s1 s2) ->
  (forall a s1 s2, Post' a s1 s2 -> Post a s1 s2) ->
  agree Pre m Post.
Proof.
  intros H Hpre Hpost s1 s2 Hp. specialize (H s1 s2 (Hpre _ _ Hp)).
  destruct (m s1) as [a t1|e1 t1|t1|], (m s2) as [b t2|e2 t2|t2|];
    simpl in *; try contradiction; try assumption.
  destruct H as [<- H]. auto.
Qed.

Lemma agree_gets {A} (Pre : _ -> _ -> Prop) (f : wkb_parse_state -> A) :
  (forall s1 s2, Pre s1 s2 -> f s1 = f s2) ->
  agree Pre (gets f) (fun _ => Pre).
Proof. intros H s1 s2 Hp. simpl. auto. Qed.

Lemma agree_modify (Pre : _ -> _ -> Prop) (Post : unit -> _ -> _ -> Prop)
  (f : wkb_parse_state -> wkb_parse_state) :
  (forall s1 s2, Pre s1 s2 -> Post tt (f s1) (f s2)) ->
  agree Pre (modify f) Post.
Proof. intros H s1 s2 Hp. simpl. auto. Qed.

Lemma agree_pure {A} (P : Prop) (Pre : _ -> _ -> Prop) (m : M A) Post :
  (P -> agree Pre m Post) ->
  agree (fun s1 s2 => P /\ Pre s1 s2) m Post.
Proof. intros H s1 s2 [HP Hp]. apply H; assumption. Qed.

Lemma agree_lwerror {E : liblwgeom} (Pre : _ -> _ -> Prop)
  (e : lwerror_msg) : agree Pre (lwerror e) (fun _ => Pre).
Proof.
  intros s1 s2 Hp. unfold lwerror. destruct lwerror_returns; simpl; auto.
Qed.

(** [lwerror(...); return NULL;] from any two states. *)
Lemma agree_lwerror_null {E : liblwgeom} (Pre : _ -> _ -> Prop)
  (l1 l2 : list byte) (e : lwerror_msg) :
  agree Pre (lwerror e ;; ret None) (alike_after l1 l2).
Proof.
  intros s1 s2 Hp. unfold bind, lwerror, ret.
  destruct lwerror_returns; simpl; auto.
Qed.

Lemma agree_or {A} (P P' : _ -> _ -> Prop) (m : M A)
  (Post : A -> _ -> _ -> Prop) :
  agree P m Post -> agree P' m Post ->
  agree (fun s1 s2 => P s1 s2 \/ P' s1 s2) m Post.
Proof. intros H H' s1 s2 [Hp|Hp]; auto. Qed.

(** Reading a field of [blind_rel] gives the same on both sides. *)
Ltac blind_side :=
  let H := fresh in
  intros ? ? H; unfold reading, alike, failing in H; decompose [and] H;
  match goal with
  | B : blind_rel _ _ |- _ => destruct B; solve [assumption | congruence]
  end.

Lemma wf_ptarray_spec (hz hm : bool) (pa : POINTARRAY) :
  wf_ptarray hz hm pa = true ->
  is_uint32 (npoints pa) /\
  length (serialized_pointlist pa)
  = Z.to_nat (npoints pa * count_ndims hz hm) /\
  Forall is_double (serialized_pointlist pa).
Proof.
  unfold wf_ptarray. intros H.
  apply andb_true_iff in H. destruct H as [H Hd].
  apply andb_true_iff in H. destruct H as [H Hl].
  apply andb_true_iff in H. destruct H as [H0 H1].
  apply Z.leb_le in H0. apply Z.ltb_lt in H1. apply Nat.eqb_eq in Hl.
  split; [split; assumption|]. split; [assumption|].
  apply Forall_forall. intros d Hin.
  rewrite forallb_forall in Hd. specialize (Hd d Hin).
  unfold is_doubleb in Hd. apply andb_true_iff in Hd.
  destruct Hd as [Ha Hb]. apply Z.leb_le in Ha. apply Z.ltb_lt in Hb.
  split; assumption.
Qed.

Lemma blind_rel_refl_fields (s1 s2 t1 t2 : wkb_parse_state) :
  blind_rel s1 s2 ->
  srid t1 = srid s1 -> check t1 = check s1 -> lwtype t1 = lwtype s1 ->
  has_z t1 = has_z s1 -> has_m t1 = has_m s1 ->
  has_srid t1 = has_srid s1 -> error t1 = error s1 ->
  depth t1 = depth s1 -> stack t1 = stack s1 ->
  srid t2 = srid s2 -> check t2 = check s2 -> lwtype t2 = lwtype s2 ->
  has_z t2 = has_z s2 -> has_m t2 = has_m s2 ->
  has_srid t2 = has_srid s2 -> error t2 = error s2 ->
  depth t2 = depth s2 -> stack t2 = stack s2 ->
  blind_rel t1 t2.
Proof. intros []; intros; constructor; congruence. Qed.

Lemma blind_rel_set_pos (a b : Z) (s1 s2 : wkb_parse_state) :
  blind_rel s1 s2 -> blind_rel (set_pos a s1) (set_pos b s2).
Proof.
  intros H. eapply blind_rel_refl_fields; [exact H | reflexivity ..].
Qed.

Lemma view_remaining (s : wkb_parse_state) (l : list byte) :
  view s l -> wkb_size s - pos s = Z.of_nat (length l).
Proof.
  intros (Hp & Hl & Hs). rewrite <- Hl, length_skipn, Hs. lia.
Qed.

Lemma alike_remaining (l1 l2 : list byte) (s1 s2 : wkb_parse_state) :
  alike l1 l2 s1 s2 -> wkb_size s1 - pos s1 = wkb_size s2 - pos s2.
Proof.
  intros (_ & _ & V1 & V2 & Hl).
  rewrite (view_remaining V1), (view_remaining V2), Hl. reflexivity.
Qed.

(** The lengths of the encodings do not depend on the byte order. *)
Lemma length_wkb_header_any (e : endian) (t : lwtype_t) (sr : Z)
  (hz hm hs : bool) :
  length (wkb_header e t sr hz hm hs)
  = (5 + if hs then 4 else 0)%nat.
Proof.
  unfold wkb_header, wkb_uint32. rewrite !length_app, length_wkb_field.
  destruct hs; [rewrite length_wkb_field|]; destruct e; simpl; lia.
Qed.

Lemma length_wkb_ptarray (e : endian) (pa : POINTARRAY) :
  length (wkb_ptarray e pa)
  = (4 + 8 * length (serialized_pointlist pa))%nat.
Proof.
  unfold wkb_ptarray, wkb_uint32.
  rewrite length_app, length_wkb_field, length_wkb_doubles. reflexivity.
Qed.

Lemma length_wkb_ptarrays (e1 e2 : endian) (rings : list POINTARRAY) :
  length (concat (map (wkb_ptarray e1) rings))
  = length (concat (map (wkb_ptarray e2) rings)).
Proof.
  induction rings as [|pa rings IH]; simpl; [reflexivity|].
  rewrite !length_app, !length_wkb_ptarray, IH. reflexivity.
Qed.

Lemma length_lwgeom_to_wkb (e1 e2 : endian) :
  forall (g : LWGEOM) (hs : bool),
    length (lwgeom_to_wkb e1 hs g) = length (lwgeom_to_wkb e2 hs g).
Proof.
  fix IH 1. intros g hs.
  destruct g as [sr hz hm pa|sr hz hm pa|sr hz hm pa|sr hz hm pa
                 |sr hz hm rings|sr hz hm rings|t sr hz hm geoms];
    cbn [lwgeom_to_wkb]; rewrite !length_app, !length_wkb_header_any.
  - rewrite !length_wkb_doubles. reflexivity.
  - rewrite !length_wkb_ptarray. reflexivity.
  - rewrite !length_wkb_ptarray. reflexivity.
  - destruct (npoints pa =? 0); unfold wkb_uint32;
      rewrite ?length_app, !length_wkb_field, ?length_wkb_ptarray;
      reflexivity.
  - unfold wkb_uint32. rewrite !length_wkb_field.
    rewrite (length_wkb_ptarrays e1 e2). reflexivity.
  - unfold wkb_uint32. rewrite !length_wkb_field.
    do 2 f_equal.
    induction rings as [|r rings IHr]; simpl; [reflexivity|].
    rewrite !length_app, (IH r false), IHr. reflexivity.
  - unfold wkb_uint32. rewrite !length_wkb_field.
    do 2 f_equal.
    induction geoms as [|r geoms IHr]; simpl; [reflexivity|].
    rewrite !length_app, (IH r false), IHr. reflexivity.
Qed.

(** The steps of a parsing function that never look at the buffer. *)
Ltac agree_auto :=
  repeat first
    [ apply agree_lwerror_null
    | apply agree_ret; intros ? ? ?;
      first [ exact I
            | match goal with H : reading _ _ _ _ _ _ _ _ |- _ =>
                left; exact (proj1 H) end
            | match goal with H : failing _ _ |- _ => right; exact H end
            | assumption ]
    | eapply agree_bind; [ apply agree_gets; blind_side | intros ? ]
    | match goal with
      | |- agree _ (if ?c then _ else _) _ => destruct c
      | |- agree _ (match ?x with _ => _ end) _ => destruct x
      end ].

Section ByteOrder.

Context {E : liblwgeom}.
Variables e1 e2 : endian.

Lemma reading_advance (hz hm : bool) (bs1 bs2 l1 l2 : list byte)
  (p1 p2 : Z) (s1 s2 : wkb_parse_state) :
  reading e1 e2 hz hm (bs1 ++ l1) (bs2 ++ l2) s1 s2 ->
  length bs1 = length bs2 ->
  p1 = pos s1 + Z.of_nat (length bs1) ->
  p2 = pos s2 + Z.of_nat (length bs2) ->
  reading e1 e2 hz hm l1 l2 (set_pos p1 s1) (set_pos p2 s2).
Proof.
  intros ((Hb & He & V1 & V2 & Hl) & Hs1 & Hs2 & Hz & Hm) Hbs -> ->.
  refine (conj (conj _ (conj _ (conj _ (conj _ _))))
               (conj _ (conj _ (conj _ _))));
    try assumption.
  - apply blind_rel_set_pos, Hb.
  - apply (view_advance _ _ V1).
  - apply (view_advance _ _ V2).
  - rewrite !length_app in Hl. lia.
Qed.

Lemma reading_error2 (hz hm : bool) (l1 l2 : list byte)
  (s1 s2 : wkb_parse_state) :
  reading e1 e2 hz hm l1 l2 s1 s2 -> error s2 = false /\ has_z s2 = hz /\
                                      has_m s2 = hm.
Proof.
  intros ((Hb & He & V1 & V2 & Hl) & Hs1 & Hs2 & Hz & Hm). destruct Hb.
  repeat split; congruence.
Qed.

Lemma reading_alike (hz hm : bool) (l1 l2 : list byte)
  (s1 s2 : wkb_parse_state) :
  reading e1 e2 hz hm l1 l2 s1 s2 -> alike l1 l2 s1 s2.
Proof. intros H. apply H. Qed.

Lemma agree_integer (hz hm : bool) (v : Z) (l1 l2 : list byte) :
  is_uint32 v ->
  agree (reading e1 e2 hz hm (wkb_uint32 e1 v ++ l1) (wkb_uint32 e2 v ++ l2))
        integer_from_wkb_state
        (fun a s1 s2 => a = v /\ reading e1 e2 hz hm l1 l2 s1 s2).
Proof.
  intros Hv s1 s2 H. pose proof (reading_error2 H) as (He2 & _ & _).
  pose proof H as ((Hb & He & V1 & V2 & Hl) & Hs1 & Hs2 & Hz & Hm).
  rewrite (@integer_from_wkb_state_view _ s1 e1 v l1 V1 He Hs1 Hv).
  rewrite (@integer_from_wkb_state_view _ s2 e2 v l2 V2 He2 Hs2 Hv).
  cbn [same_outcome]. split; [reflexivity|]. split; [reflexivity|].
  eapply reading_advance; [exact H | ..];
    unfold wkb_uint32; rewrite ?length_wkb_field; reflexivity.
Qed.

(** A count above [maxpoints] is refused without an error message: the
    error flag goes up and the answer is NULL. *)
Lemma ptarray_from_wkb_state_refused (s : wkb_parse_state) (e : endian)
  (n : Z) (rest : list byte) :
  view s (wkb_uint32 e n ++ rest) ->
  error s = false -> swap_bytes s = swap_for e ->
  is_uint32 n -> maxpoints < n ->
  ptarray_from_wkb_state s
  = Ret None (set_error true (set_pos (pos s + 4) s)).
Proof.
  intros Hv He Hsw Hu Hn.
  unfold ptarray_from_wkb_state, bind at 1.
  rewrite (integer_from_wkb_state_view _ _ Hv He Hsw Hu).
  set (s1 := set_pos (pos s + 4) s) in *.
  unfold bind at 1, gets at 1. change (error s1) with (error s). rewrite He.
  destruct (Z.gtb_spec n maxpoints) as [_|?]; [|lia].
  reflexivity.
Qed.

Lemma agree_ptarray (hz hm : bool) (pa : POINTARRAY) (l1 l2 : list byte) :
  wf_ptarray hz hm pa = true ->
  agree (reading e1 e2 hz hm (wkb_ptarray e1 pa ++ l1)
                 (wkb_ptarray e2 pa ++ l2))
        ptarray_from_wkb_state
        (fun a s1 s2 =>
           (a = Some (mkPOINTARRAY hz hm (npoints pa)
                                   (serialized_pointlist pa)) /\
            reading e1 e2 hz hm l1 l2 s1 s2) \/
           (a = None /\ failing s1 s2)).
Proof.
  intros Hwf s1 s2 H. apply wf_ptarray_spec in Hwf.
  destruct Hwf as (Hu & Hl & Hd).
  pose proof (reading_error2 H) as (He2 & Hz2 & Hm2).
  pose proof H as ((Hb & He & V1 & V2 & Hlen) & Hs1 & Hs2 & Hz & Hm).
  pose proof (alike_remaining (proj1 H)) as Hrem.
  unfold wkb_ptarray in V1, V2. rewrite <- app_assoc in V1, V2.
  destruct (Z_le_gt_dec (npoints pa) maxpoints) as [Hle|Hgt].
  - assert (Hn : 0 <= npoints pa <= maxpoints)
      by (unfold is_uint32 in Hu; lia).
    rewrite (@ptarray_from_wkb_state_view _ s1 e1 (npoints pa)
               (serialized_pointlist pa) l1 V1 He Hs1 Hn);
      [ | rewrite Hz, Hm; exact Hl | exact Hd ].
    rewrite (@ptarray_from_wkb_state_view _ s2 e2 (npoints pa)
               (serialized_pointlist pa) l2 V2 He2 Hs2 Hn);
      [ | rewrite Hz2, Hm2; exact Hl | exact Hd ].
    cbn [same_outcome]. rewrite Hz, Hm, Hz2, Hm2.
    split; [reflexivity|]. left. split; [reflexivity|].
    eapply reading_advance; [exact H | ..];
      rewrite ?length_wkb_ptarray; lia.
  - rewrite (@ptarray_from_wkb_state_refused s1 e1 (npoints pa) _ V1 He Hs1
               Hu ltac:(lia)).
    rewrite (@ptarray_from_wkb_state_refused s2 e2 (npoints pa) _ V2 He2
               Hs2 Hu ltac:(lia)).
    cbn [same_outcome]. split; [reflexivity|]. right.
    split; [reflexivity|]. unfold failing. simpl.
    split; [|split; [reflexivity|lia]].
    destruct Hb. constructor; simpl; congruence.
Qed.

(** What follows a point array in the simple kinds. *)
Ltac after_ptarray :=
  intros ?; apply agree_or; apply agree_pure; intros ->; agree_auto.

Lemma agree_lwline (hz hm : bool) (pa : POINTARRAY) (l1 l2 : list byte) :
  wf_ptarray hz hm pa = true ->
  agree (reading e1 e2 hz hm (wkb_ptarray e1 pa ++ l1)
                 (wkb_ptarray e2 pa ++ l2))
        lwline_from_wkb_state (alike_after l1 l2).
Proof.
  intros Hwf. unfold lwline_from_wkb_state.
  eapply agree_bind; [apply agree_ptarray, Hwf|]. after_ptarray.
Qed.

Lemma agree_lwcircstring (hz hm : bool) (pa : POINTARRAY)
  (l1 l2 : list byte) :
  wf_ptarray hz hm pa = true ->
  agree (reading e1 e2 hz hm (wkb_ptarray e1 pa ++ l1)
                 (wkb_ptarray e2 pa ++ l2))
        lwcircstring_from_wkb_state (alike_after l1 l2).
Proof.
  intros Hwf. unfold lwcircstring_from_wkb_state.
  eapply agree_bind; [apply agree_ptarray, Hwf|]. after_ptarray.
Qed.

Lemma agree_lwpoint (hz hm : bool) (ds : list double) (l1 l2 : list byte) :
  length ds = Z.to_nat (count_ndims hz hm) -> Forall is_double ds ->
  agree (reading e1 e2 hz hm (wkb_doubles e1 ds ++ l1)
                 (wkb_doubles e2 ds ++ l2))
        lwpoint_from_wkb_state (alike_after l1 l2).
Proof.
  intros Hl Hd s1 s2 H.
  pose proof (reading_error2 H) as (He2 & Hz2 & Hm2).
  pose proof H as ((Hb & He & V1 & V2 & Hlen) & Hs1 & Hs2 & Hz & Hm).
  rewrite (@lwpoint_from_wkb_state_view _ s1 e1 ds l1 V1 He Hs1);
    [ | rewrite Hz, Hm; exact Hl | exact Hd ].
  rewrite (@lwpoint_from_wkb_state_view _ s2 e2 ds l2 V2 He2 Hs2);
    [ | rewrite Hz2, Hm2; exact Hl | exact Hd ].
  cbn [same_outcome]. rewrite Hz, Hm, Hz2, Hm2.
  rewrite <- (br_srid Hb). split; [reflexivity|].
  cbn [alike_after]. left. apply (@reading_alike hz hm).
  eapply reading_advance; [exact H | ..];
    rewrite ?length_wkb_doubles; lia.
Qed.

Lemma agree_lwpoly_rings (hz hm : bool) (l1 l2 : list byte) :
  forall (rings : list POINTARRAY) (poly : LWGEOM),
    forallb (wf_ptarray hz hm) rings = true ->
    agree (reading e1 e2 hz hm
             (concat (map (wkb_ptarray e1) rings) ++ l1)
             (concat (map (wkb_ptarray e2) rings) ++ l2))
          (lwpoly_rings_from_wkb_state (length rings) poly)
          (alike_after l1 l2).
Proof.
  induction rings as [|pa rings IH]; intros poly Hwf.
  - simpl. agree_auto.
  - apply andb_true_iff in Hwf. destruct Hwf as [Hpa Hwf].
    cbn [map concat length lwpoly_rings_from_wkb_state].
    rewrite <- !app_assoc.
    eapply agree_bind; [apply agree_ptarray, Hpa|]. intros a.
    apply agree_or; apply agree_pure; intros ->; [|agree_auto].
    eapply agree_bind; [apply agree_gets; blind_side|]. intros chk.
    destruct (check_requested chk LW_PARSER_CHECK_MINPOINTS && _);
      [apply agree_lwerror_null|].
    destruct (check_requested chk LW_PARSER_CHECK_CLOSURE && _);
      [apply agree_lwerror_null|].
    destruct (lwpoly_add_ring poly _) as [poly'|];
      [|apply agree_lwerror_null].
    apply IH, Hwf.
Qed.

Lemma agree_lwpoly (hz hm : bool) (rings : list POINTARRAY)
  (l1 l2 : list byte) :
  Z.of_nat (length rings) < 4294967296 ->
  forallb (wf_ptarray hz hm) rings = true ->
  agree (reading e1 e2 hz hm
           (wkb_uint32 e1 (Z.of_nat (length rings))
            ++ concat (map (wkb_ptarray e1) rings) ++ l1)
           (wkb_uint32 e2 (Z.of_nat (length rings))
            ++ concat (map (wkb_ptarray e2) rings) ++ l2))
        lwpoly_from_wkb_state (alike_after l1 l2).
Proof.
  intros Hn Hwf. unfold lwpoly_from_wkb_state.
  eapply agree_bind; [apply agree_integer; unfold is_uint32; lia|].
  intros a. apply agree_pure. intros ->.
  eapply agree_bind; [apply agree_gets; blind_side|]. intros err.
  destruct err; [agree_auto|].
  eapply agree_bind; [apply agree_gets; blind_side|]. intros sr.
  eapply agree_bind; [apply agree_gets; blind_side|]. intros hz'.
  eapply agree_bind; [apply agree_gets; blind_side|]. intros hm'.
  destruct rings as [|pa rings].
  - simpl. agree_auto.
  - replace (Z.of_nat (length (pa :: rings)) =? 0) with false
      by (symmetry; apply Z.eqb_neq; simpl length; lia).
    rewrite Nat2Z.id. apply agree_lwpoly_rings, Hwf.
Qed.

Lemma agree_lwtriangle (hz hm : bool) (pa : POINTARRAY)
  (l1 l2 : list byte) :
  wf_ptarray hz hm pa = true ->
  agree (reading e1 e2 hz hm
           ((if npoints pa =? 0 then wkb_uint32 e1 0
             else wkb_uint32 e1 1 ++ wkb_ptarray e1 pa) ++ l1)
           ((if npoints pa =? 0 then wkb_uint32 e2 0
             else wkb_uint32 e2 1 ++ wkb_ptarray e2 pa) ++ l2))
        lwtriangle_from_wkb_state (alike_after l1 l2).
Proof.
  intros Hwf. unfold lwtriangle_from_wkb_state.
  destruct (npoints pa =? 0).
  - eapply agree_bind; [apply agree_integer; unfold is_uint32; lia|].
    intros a. apply agree_pure. intros ->.
    eapply agree_bind; [apply agree_gets; blind_side|]. intros err.
    destruct err; [agree_auto|].
    eapply agree_bind; [apply agree_gets; blind_side|]. intros sr.
    eapply agree_bind; [apply agree_gets; blind_side|]. intros hz'.
    eapply agree_bind; [apply agree_gets; blind_side|]. intros hm'.
    simpl. agree_auto.
  - rewrite <- !app_assoc.
    eapply agree_bind; [apply agree_integer; unfold is_uint32; lia|].
    intros a. apply agree_pure. intros ->.
    eapply agree_bind; [apply agree_gets; blind_side|]. intros err.
    destruct err; [agree_auto|].
    eapply agree_bind; [apply agree_gets; blind_side|]. intros sr.
    eapply agree_bind; [apply agree_gets; blind_side|]. intros hz'.
    eapply agree_bind; [apply agree_gets; blind_side|]. intros hm'.
    cbn [Z.eqb Pos.eqb negb].
    eapply agree_bind; [apply agree_ptarray, Hwf|]. after_ptarray.
Qed.

(** Updates of the fields that [blind_rel] watches, by the same function
    on both sides, keep two states alike. *)
Lemma alike_update (l1 l2 : list byte) (f : wkb_parse_state -> wkb_parse_state)
  (s1 s2 : wkb_parse_state) :
  (forall s, wkb (f s) = wkb s /\ wkb_size (f s) = wkb_size s /\
             pos (f s) = pos s /\ error (f s) = error s) ->
  (blind_rel s1 s2 -> blind_rel (f s1) (f s2)) ->
  alike l1 l2 s1 s2 -> alike l1 l2 (f s1) (f s2).
Proof.
  intros Hf Hb (B & He & V1 & V2 & Hl).
  destruct (Hf s1) as (W1 & Z1 & P1 & E1).
  destruct (Hf s2) as (W2 & Z2 & P2 & E2).
  unfold alike, view in *. rewrite W1, Z1, P1, E1, W2, Z2, P2.
  auto.
Qed.

Lemma failing_update (f : wkb_parse_state -> wkb_parse_state)
  (s1 s2 : wkb_parse_state) :
  (forall s, wkb_size (f s) = wkb_size s /\ pos (f s) = pos s /\
             error (f s) = error s) ->
  (blind_rel s1 s2 -> blind_rel (f s1) (f s2)) ->
  failing s1 s2 -> failing (f s1) (f s2).
Proof.
  intros Hf Hb (B & He & Hr).
  destruct (Hf s1) as (Z1 & P1 & E1).
  destruct (Hf s2) as (Z2 & P2 & E2).
  unfold failing. rewrite Z1, P1, E1, Z2, P2. auto.
Qed.

(** Two states that came out of a geometry, after such an update. *)
Lemma after_update (l1 l2 : list byte) (f : wkb_parse_state -> wkb_parse_state)
  (s1 s2 : wkb_parse_state) :
  (forall s, wkb (f s) = wkb s /\ wkb_size (f s) = wkb_size s /\
             pos (f s) = pos s /\ error (f s) = error s) ->
  (blind_rel s1 s2 -> blind_rel (f s1) (f s2)) ->
  alike l1 l2 s1 s2 \/ failing s1 s2 ->
  alike l1 l2 (f s1) (f s2) \/ failing (f s1) (f s2).
Proof.
  intros Hf Hb [H|H].
  - left. apply alike_update; assumption.
  - right. apply failing_update; try assumption.
    intros s. destruct (Hf s) as (_ & ? & ? & ?). auto.
Qed.

Lemma after_set_stack (l1 l2 : list byte) (f : call_stack -> call_stack)
  (s1 s2 : wkb_parse_state) :
  alike l1 l2 s1 s2 \/ failing s1 s2 ->
  alike l1 l2 (set_stack (f (stack s1)) s1) (set_stack (f (stack s2)) s2) \/
  failing (set_stack (f (stack s1)) s1) (set_stack (f (stack s2)) s2).
Proof.
  apply (@after_update l1 l2 (fun s => set_stack (f (stack s)) s)).
  - intros s. repeat split.
  - intros []. constructor; simpl; congruence.
Qed.

Lemma after_set_depth (l1 l2 : list byte) (f : Z -> Z)
  (s1 s2 : wkb_parse_state) :
  alike l1 l2 s1 s2 \/ failing s1 s2 ->
  alike l1 l2 (set_depth (f (depth s1)) s1) (set_depth (f (depth s2)) s2) \/
  failing (set_depth (f (depth s1)) s1) (set_depth (f (depth s2)) s2).
Proof.
  apply (@after_update l1 l2 (fun s => set_depth (f (depth s)) s)).
  - intros s. repeat split.
  - intros []. constructor; simpl; congruence.
Qed.

Lemma alike_set_stack (l1 l2 : list byte) (f : call_stack -> call_stack)
  (s1 s2 : wkb_parse_state) :
  alike l1 l2 s1 s2 ->
  alike l1 l2 (set_stack (f (stack s1)) s1) (set_stack (f (stack s2)) s2).
Proof.
  apply (@alike_update l1 l2 (fun s => set_stack (f (stack s)) s)).
  - intros s. repeat split.
  - intros []. constructor; simpl; congruence.
Qed.

Lemma alike_set_depth (l1 l2 : list byte) (f : Z -> Z)
  (s1 s2 : wkb_parse_state) :
  alike l1 l2 s1 s2 ->
  alike l1 l2 (set_depth (f (depth s1)) s1) (set_depth (f (depth s2)) s2).
Proof.
  apply (@alike_update l1 l2 (fun s => set_depth (f (depth s)) s)).
  - intros s. repeat split.
  - intros []. constructor; simpl; congruence.
Qed.

Lemma alike_set_check (l1 l2 : list byte) (f : Z -> Z)
  (s1 s2 : wkb_parse_state) :
  alike l1 l2 s1 s2 ->
  alike l1 l2 (set_check (f (check s1)) s1) (set_check (f (check s2)) s2).
Proof.
  apply (@alike_update l1 l2 (fun s => set_check (f (check s)) s)).
  - intros s. repeat split.
  - intros []. constructor; simpl; congruence.
Qed.

(** *** With the error flag up *)

Lemma agree_failing_check (n : Z) :
  agree failing (wkb_parse_state_check n) (fun _ => failing).
Proof.
  intros s1 s2 H. pose proof H as (B & He & Hr).
  unfold wkb_parse_state_check, bind, gets, when.
  destruct (Z.gtb_spec (pos s1 + n) (wkb_size s1)),
           (Z.gtb_spec (pos s2 + n) (wkb_size s2)); try lia.
  - unfold lwerror, modify. destruct lwerror_returns; simpl; [|reflexivity].
    split; [reflexivity|]. destruct B.
    unfold failing. simpl. repeat split; try assumption.
  - simpl. auto.
Qed.

Lemma agree_failing_flag {A} (a : A) (k : M A) :
  agree failing (err <- gets error ;; if err then ret a else k)
        (fun b s1 s2 => b = a /\ failing s1 s2).
Proof.
  intros s1 s2 H. pose proof H as (B & He & Hr).
  unfold bind, gets. rewrite <- (br_error B), He. simpl. auto.
Qed.

Lemma fails_alike_body (rec : M (option LWGEOM)) :
  fails_alike (lwgeom_from_wkb_state_body rec).
Proof.
  unfold fails_alike, lwgeom_from_wkb_state_body, byte_from_wkb_state.
  eapply agree_bind with (Mid := fun _ => failing).
  - eapply agree_bind; [apply agree_failing_check|]. intros ?.
    eapply agree_conseq; [apply agree_failing_flag|auto|].
    intros b s1 s2 [_ H]. exact H.
  - intros wle. apply agree_failing_flag.
Qed.

Lemma fails_alike_lwgeom_from_wkb_state (fuel : nat) :
  fails_alike (lwgeom_from_wkb_state fuel).
Proof.
  destruct fuel; [intros s1 s2 _; exact I|]. apply fails_alike_body.
Qed.

Section AgreeRecursion.

Variable rec : M (option LWGEOM).
Hypothesis rec_alike : decodes_alike e1 e2 rec.
Hypothesis rec_fails : fails_alike rec.

Lemma fails_alike_call (c : call_site) : fails_alike (call c rec).
Proof.
  unfold fails_alike, call.
  eapply agree_bind with (Mid := fun _ => failing).
  { apply agree_modify. intros s1 s2 H.
    apply (@failing_update (fun s => set_stack (enter c (stack s)) s));
      [intros s; repeat split| |exact H].
    intros []. constructor; simpl; congruence. }
  intros ?.
  eapply agree_bind; [apply rec_fails|]. intros res.
  eapply agree_bind with (Mid := fun _ s1 s2 => res = None /\ failing s1 s2).
  { apply agree_modify. intros s1 s2 [Hr H]. split; [exact Hr|].
    apply (@failing_update (fun s => set_stack (leave c (stack s)) s));
      [intros s; repeat split| |exact H].
    intros []. constructor; simpl; congruence. }
  intros ?. apply agree_ret. auto.
Qed.

Lemma agree_call (c : call_site) (hs : bool) (g : LWGEOM)
  (l1 l2 : list byte) :
  wf_geom g = true ->
  agree (alike (lwgeom_to_wkb e1 hs g ++ l1)
               (lwgeom_to_wkb e2 hs g ++ l2))
        (call c rec) (alike_after l1 l2).
Proof.
  intros Hwf. unfold call.
  eapply agree_bind.
  { apply agree_modify with
      (Post := fun _ => alike (lwgeom_to_wkb e1 hs g ++ l1)
                              (lwgeom_to_wkb e2 hs g ++ l2)).
    intros s1 s2 H. apply (alike_set_stack (enter c) H). }
  intros ?.
  eapply agree_bind; [apply rec_alike, Hwf|]. intros res.
  eapply agree_bind.
  { apply agree_modify with (Post := fun _ => alike_after l1 l2 res).
    intros s1 s2 H. destruct res; [|exact I].
    apply (after_set_stack (leave c) H). }
  intros ?. apply agree_ret. auto.
Qed.

(** The loops, entered with the error flag up. *)
Lemma failing_lwcurvepoly_rings (l1 l2 : list byte) (n : nat)
  (cp : LWGEOM) :
  agree failing (lwcurvepoly_rings_from_wkb_state rec n cp)
        (alike_after l1 l2).
Proof.
  destruct n as [|n]; simpl.
  - apply agree_ret. intros s1 s2 H. right. exact H.
  - eapply agree_bind; [apply fails_alike_call|]. intros geom.
    apply agree_pure. intros ->.
    replace (lwcurvepoly_add_ring cp None) with (@None LWGEOM)
      by (destruct cp; reflexivity).
    apply agree_lwerror_null.
Qed.

Lemma failing_lwcollection_geoms (l1 l2 : list byte) (n : nat)
  (col : LWGEOM) :
  agree failing (lwcollection_geoms_from_wkb_state rec n col)
        (alike_after l1 l2).
Proof.
  destruct n as [|n]; simpl.
  - apply agree_ret. intros s1 s2 H. right. exact H.
  - eapply agree_bind; [apply fails_alike_call|]. intros geom.
    apply agree_pure. intros ->.
    replace (lwcollection_add_lwgeom col None) with (@None LWGEOM)
      by (destruct col; reflexivity).
    apply agree_lwerror_null.
Qed.

Lemma agree_lwcurvepoly_rings (l1 l2 : list byte) :
  forall (rings : list LWGEOM) (cp : LWGEOM),
    all_geoms wf_geom rings = true ->
    agree (alike (concat (map (lwgeom_to_wkb e1 false) rings) ++ l1)
                 (concat (map (lwgeom_to_wkb e2 false) rings) ++ l2))
          (lwcurvepoly_rings_from_wkb_state rec (length rings) cp)
          (alike_after l1 l2).
Proof.
  induction rings as [|g rings IH]; intros cp Hwf.
  - simpl. apply agree_ret. intros s1 s2 H. left. exact H.
  - cbn [all_geoms] in Hwf. apply andb_true_iff in Hwf.
    destruct Hwf as [Hg Hwf].
    cbn [map concat length lwcurvepoly_rings_from_wkb_state].
    rewrite <- !app_assoc.
    eapply agree_bind; [apply agree_call, Hg|]. intros geom.
    destruct geom as [g'|].
    + destruct (lwcurvepoly_add_ring cp (Some g')) as [cp'|];
        [|apply agree_lwerror_null].
      apply agree_or; [apply IH, Hwf|apply failing_lwcurvepoly_rings].
    + replace (lwcurvepoly_add_ring cp None) with (@None LWGEOM)
        by (destruct cp; reflexivity).
      apply agree_lwerror_null.
Qed.

Lemma agree_lwcollection_geoms (l1 l2 : list byte) :
  forall (geoms : list LWGEOM) (col : LWGEOM),
    all_geoms wf_geom geoms = true ->
    agree (alike (concat (map (lwgeom_to_wkb e1 false) geoms) ++ l1)
                 (concat (map (lwgeom_to_wkb e2 false) geoms) ++ l2))
          (lwcollection_geoms_from_wkb_state rec (length geoms) col)
          (alike_after l1 l2).
Proof.
  induction geoms as [|g geoms IH]; intros col Hwf.
  - simpl. apply agree_ret. intros s1 s2 H. left. exact H.
  - cbn [all_geoms] in Hwf. apply andb_true_iff in Hwf.
    destruct Hwf as [Hg Hwf].
    cbn [map concat length lwcollection_geoms_from_wkb_state].
    rewrite <- !app_assoc.
    eapply agree_bind; [apply agree_call, Hg|]. intros geom.
    destruct geom as [g'|].
    + destruct (lwcollection_add_lwgeom col (Some g')) as [col'|];
        [|apply agree_lwerror_null].
      apply agree_or; [apply IH, Hwf|apply failing_lwcollection_geoms].
    + replace (lwcollection_add_lwgeom col None) with (@None LWGEOM)
        by (destruct col; reflexivity).
      apply agree_lwerror_null.
Qed.

Lemma agree_lwcurvepoly (hz hm : bool) (rings : list LWGEOM)
  (l1 l2 : list byte) :
  Z.of_nat (length rings) < 4294967296 ->
  all_geoms wf_geom rings = true ->
  agree (reading e1 e2 hz hm
           (wkb_uint32 e1 (Z.of_nat (length rings))
            ++ concat (map (lwgeom_to_wkb e1 false) rings) ++ l1)
           (wkb_uint32 e2 (Z.of_nat (length rings))
            ++ concat (map (lwgeom_to_wkb e2 false) rings) ++ l2))
        (lwcurvepoly_from_wkb_state rec) (alike_after l1 l2).
Proof.
  intros Hn Hwf. unfold lwcurvepoly_from_wkb_state.
  eapply agree_bind; [apply agree_integer; unfold is_uint32; lia|].
  intros a. apply agree_pure. intros ->.
  eapply agree_bind; [apply agree_gets; blind_side|]. intros err.
  destruct err; [agree_auto|].
  eapply agree_bind; [apply agree_gets; blind_side|]. intros sr.
  eapply agree_bind; [apply agree_gets; blind_side|]. intros hz'.
  eapply agree_bind; [apply agree_gets; blind_side|]. intros hm'.
  destruct rings as [|g rings].
  - simpl. agree_auto.
  - replace (Z.of_nat (length (g :: rings)) =? 0) with false
      by (symmetry; apply Z.eqb_neq; simpl length; lia).
    rewrite Nat2Z.id.
    eapply agree_conseq;
      [ apply agree_lwcurvepoly_rings, Hwf
      | intros s1 s2 H; apply (reading_alike H) | auto ].
Qed.

Lemma agree_lwcollection (hz hm : bool) (geoms : list LWGEOM)
  (l1 l2 : list byte) :
  Z.of_nat (length geoms) < 4294967296 ->
  all_geoms wf_geom geoms = true ->
  agree (reading e1 e2 hz hm
           (wkb_uint32 e1 (Z.of_nat (length geoms))
            ++ concat (map (lwgeom_to_wkb e1 false) geoms) ++ l1)
           (wkb_uint32 e2 (Z.of_nat (length geoms))
            ++ concat (map (lwgeom_to_wkb e2 false) geoms) ++ l2))
        (lwcollection_from_wkb_state rec) (alike_after l1 l2).
Proof.
  intros Hn Hwf. unfold lwcollection_from_wkb_state.
  eapply agree_bind; [apply agree_integer; unfold is_uint32; lia|].
  intros a. apply agree_pure. intros ->.
  eapply agree_bind; [apply agree_gets; blind_side|]. intros err.
  destruct err; [agree_auto|].
  eapply agree_bind; [apply agree_gets; blind_side|]. intros ty.
  eapply agree_bind; [apply agree_gets; blind_side|]. intros sr.
  eapply agree_bind; [apply agree_gets; blind_side|]. intros hz'.
  eapply agree_bind; [apply agree_gets; blind_side|]. intros hm'.
  destruct geoms as [|g geoms].
  - simpl. agree_auto.
  - replace (Z.of_nat (length (g :: geoms)) =? 0) with false
      by (symmetry; apply Z.eqb_neq; simpl length; lia).
    rewrite Nat2Z.id.
    set (b1 := concat (map (lwgeom_to_wkb e1 false) (g :: geoms)) ++ l1).
    set (b2 := concat (map (lwgeom_to_wkb e2 false) (g :: geoms)) ++ l2).
    eapply agree_bind with (Mid := fun _ => alike b1 b2).
    { unfold when. destruct (lwtype_eqb ty POLYHEDRALSURFACETYPE).
      - apply agree_modify. intros s1 s2 H. apply reading_alike in H.
        apply (alike_set_check
                 (fun c => Z.lor c LW_PARSER_CHECK_ZCLOSURE) H).
      - apply agree_ret. intros s1 s2 H. apply (reading_alike H). }
    intros ?.
    eapply agree_bind with (Mid := fun _ => alike b1 b2).
    { apply agree_modify. intros s1 s2 H.
      apply (alike_set_depth (fun d => uint8 (d + 1)) H). }
    intros ?.
    eapply agree_bind; [apply agree_gets|].
    { intros s1 s2 (B & _). apply (br_depth B). }
    intros d. destruct (d >=? LW_PARSER_MAX_DEPTH);
      [apply agree_lwerror_null|].
    eapply agree_bind; [apply agree_lwcollection_geoms, Hwf|].
    intros res. destruct res as [col'|]; [|apply agree_ret; auto].
    eapply agree_bind with
      (Mid := fun _ s1 s2 => alike l1 l2 s1 s2 \/ failing s1 s2).
    { apply agree_modify. intros s1 s2 H.
      apply (after_set_depth (fun d => uint8 (d - 1)) H). }
    intros ?. apply agree_ret. auto.
Qed.

Lemma reading_header_state (t : lwtype_t) (sr : Z) (hz hm hs : bool)
  (r1 r2 : list byte) (s1 s2 : wkb_parse_state) :
  t <> LWTYPE_NONE ->
  alike (wkb_header e1 t sr hz hm hs ++ r1)
        (wkb_header e2 t sr hz hm hs ++ r2) s1 s2 ->
  let sro := if hs then Some (uint32 sr) else None in
  lwgeom_from_wkb_state_body rec s1
  = lwgeom_dispatch rec (header_state e1 t sro hz hm s1) /\
  lwgeom_from_wkb_state_body rec s2
  = lwgeom_dispatch rec (header_state e2 t sro hz hm s2) /\
  reading e1 e2 hz hm r1 r2 (header_state e1 t sro hz hm s1)
          (header_state e2 t sro hz hm s2).
Proof.
  intros Ht (B & He & V1 & V2 & Hl). cbv zeta.
  assert (He2 : error s2 = false) by (rewrite <- (br_error B); exact He).
  destruct (@lwgeom_from_wkb_state_body_header _ rec s1 e1 t sr hz hm hs r1
              V1 He Ht) as [Hb1 W1].
  destruct (@lwgeom_from_wkb_state_body_header _ rec s2 e2 t sr hz hm hs r2
              V2 He2 Ht) as [Hb2 W2].
  split; [exact Hb1|]. split; [exact Hb2|].
  refine (conj (conj _ (conj _ (conj W1 (conj W2 _))))
               (conj _ (conj _ (conj _ _))));
    try reflexivity.
  - destruct B. constructor; simpl; try congruence.
    destruct hs; congruence.
  - exact He.
  - rewrite !length_app, !length_wkb_header_any in Hl. lia.
Qed.

Lemma agree_body : decodes_alike e1 e2 (lwgeom_from_wkb_state_body rec).
Proof.
  intros g hs l1 l2 Hwf s1 s2 H.
  destruct g as [sr hz hm pa|sr hz hm pa|sr hz hm pa|sr hz hm pa
                 |sr hz hm rings|sr hz hm rings|t sr hz hm geoms];
    cbn [lwgeom_to_wkb] in H; rewrite <- !app_assoc in H;
    cbn [wf_geom] in Hwf.
  - (* Point *)
    destruct (@reading_header_state POINTTYPE sr hz hm hs _ _ s1 s2
                ltac:(discriminate) H) as (-> & -> & R).
    refine (@agree_lwpoint hz hm _ l1 l2 _ _ _ _ R).
    + destruct (npoints pa =? 0) eqn:Hn.
      * rewrite repeat_length. reflexivity.
      * simpl in Hwf. apply andb_true_iff in Hwf. destruct Hwf as [H1 Hpa].
        apply Z.eqb_eq in H1. apply wf_ptarray_spec in Hpa.
        destruct Hpa as (_ & Hl & _). rewrite Hl, H1. f_equal. lia.
    + destruct (npoints pa =? 0) eqn:Hn.
      * apply Forall_forall. intros d Hd. apply repeat_spec in Hd.
        subst d. unfold is_double, wkb_nan. lia.
      * simpl in Hwf. apply andb_true_iff in Hwf. destruct Hwf as [H1 Hpa].
        apply wf_ptarray_spec in Hpa. apply Hpa.
  - (* Line *)
    destruct (@reading_header_state LINETYPE sr hz hm hs _ _ s1 s2
                ltac:(discriminate) H) as (-> & -> & R).
    apply (@agree_lwline hz hm pa l1 l2 Hwf _ _ R).
  - (* CircularString *)
    destruct (@reading_header_state CIRCSTRINGTYPE sr hz hm hs _ _ s1 s2
                ltac:(discriminate) H) as (-> & -> & R).
    apply (@agree_lwcircstring hz hm pa l1 l2 Hwf _ _ R).
  - (* Triangle *)
    destruct (@reading_header_state TRIANGLETYPE sr hz hm hs _ _ s1 s2
                ltac:(discriminate) H) as (-> & -> & R).
    apply (@agree_lwtriangle hz hm pa l1 l2 Hwf _ _ R).
  - (* Polygon *)
    apply andb_true_iff in Hwf. destruct Hwf as [Hn Hwf].
    apply Z.ltb_lt in Hn.
    destruct (@reading_header_state POLYGONTYPE sr hz hm hs _ _ s1 s2
                ltac:(discriminate) H) as (-> & -> & R).
    apply (@agree_lwpoly hz hm rings l1 l2 Hn Hwf _ _ R).
  - (* CurvePolygon *)
    apply andb_true_iff in Hwf. destruct Hwf as [Hn Hwf].
    apply Z.ltb_lt in Hn.
    destruct (@reading_header_state CURVEPOLYTYPE sr hz hm hs _ _ s1 s2
                ltac:(discriminate) H) as (-> & -> & R).
    apply (@agree_lwcurvepoly hz hm rings l1 l2 Hn Hwf _ _ R).
  - (* Collections *)
    apply andb_true_iff in Hwf. destruct Hwf as [Hk Hwf].
    apply andb_true_iff in Hk. destruct Hk as [Hk Hn].
    apply Z.ltb_lt in Hn.
    assert (Ht : t <> LWTYPE_NONE) by (intros ->; discriminate Hk).
    destruct (@reading_header_state t sr hz hm hs _ _ s1 s2 Ht H)
      as (-> & -> & R).
    pose proof (@agree_lwcollection hz hm geoms l1 l2 Hn Hwf _ _ R) as Hc.
    destruct t; try discriminate Hk; exact Hc.
Qed.

End AgreeRecursion.

Lemma agree_lwgeom_from_wkb_state (fuel : nat) :
  decodes_alike e1 e2 (lwgeom_from_wkb_state fuel).
Proof.
  induction fuel as [|fuel IH].
  - intros g hs l1 l2 _ s1 s2 _. exact I.
  - simpl. apply agree_body;
      [exact IH | apply fails_alike_lwgeom_from_wkb_state].
Qed.

End ByteOrder.


Section ByteOrderIndependence.

Context {E : liblwgeom}.

Lemma lwgeom_to_wkb_nonempty (e : endian) (hs : bool) (g : LWGEOM) :
  (1 <= length (lwgeom_to_wkb e hs g))%nat.
Proof.
  destruct g; cbn [lwgeom_to_wkb]; unfold wkb_header;
    rewrite !length_app; destruct e; simpl; lia.
Qed.

Lemma alike_initial (buf1 buf2 : list byte) (chk : Z) :
  length buf1 = length buf2 ->
  alike (buf1 ++ []) (buf2 ++ [])
        (initial_state buf1 (Z.of_nat (length buf1)) chk)
        (initial_state buf2 (Z.of_nat (length buf2)) chk).
Proof.
  intros Hl. rewrite !app_nil_r. unfold alike, view. simpl.
  split; [constructor; reflexivity|]. repeat split; try lia.
Qed.

(** C4: a logical geometry written in big-endian and in little-endian WKB
    is decoded to the same result: either both decodes return the same
    geometry (the same type, SRID, flags and coordinate bit patterns, at
    every level), or both return NULL, or both stop with the same error. *)
Theorem byte_order_independent (g : LWGEOM) (hassrid : bool) (chk : Z) :
  wf_geom g = true ->
  let be := lwgeom_to_wkb XDR hassrid g in
  let le := lwgeom_to_wkb NDR hassrid g in
  let o1 := lwgeom_from_wkb be (Z.of_nat (length be)) chk in
  let o2 := lwgeom_from_wkb le (Z.of_nat (length le)) chk in
  returned o1 = returned o2 /\
  match o1, o2 with
  | Ret a _, Ret b _ => a = b
  | Raise x _, Raise y _ => x = y
  | _, _ => False
  end.
Proof.
  intros Hwf be le. cbv zeta.
  pose proof (length_lwgeom_to_wkb XDR NDR g hassrid) as Hlen.
  fold be le in Hlen.
  pose proof (lwgeom_from_wkb_total be (Z.of_nat (length be)) chk) as T1.
  pose proof (lwgeom_from_wkb_total le (Z.of_nat (length le)) chk) as T2.
  unfold lwgeom_from_wkb, lwgeom_from_wkb_fuel in *.
  pose proof (lwgeom_to_wkb_nonempty XDR hassrid g) as L1.
  fold be in L1.
  rewrite <- Hlen in *.
  replace (Z.of_nat (length be) =? 0) with false in *
    by (symmetry; apply Z.eqb_neq; lia).
  set (fuel := S (Z.to_nat (Z.of_nat (length be)))) in *.
  pose proof (@agree_call _ XDR NDR (lwgeom_from_wkb_state fuel)
                (agree_lwgeom_from_wkb_state XDR NDR fuel)
                FromCaller hassrid g [] [] Hwf
                (initial_state be (Z.of_nat (length be)) chk)
                (initial_state le (Z.of_nat (length be)) chk)) as H.
  fold be le in H.
  assert (Hi : alike (be ++ []) (le ++ [])
                 (initial_state be (Z.of_nat (length be)) chk)
                 (initial_state le (Z.of_nat (length be)) chk)).
  { pose proof (alike_initial be le chk Hlen) as Hi.
    rewrite <- Hlen in Hi. exact Hi. }
  specialize (H Hi).
  destruct (call FromCaller (lwgeom_from_wkb_state fuel)
              (initial_state be (Z.of_nat (length be)) chk))
    as [a t1|x t1|t1|],
           (call FromCaller (lwgeom_from_wkb_state fuel)
              (initial_state le (Z.of_nat (length be)) chk))
    as [b t2|y t2|t2|];
    simpl in *; try contradiction.
  - destruct H as [<- _]. auto.
  - auto.
Qed.

End ByteOrderIndependence.

(* ================================================================== *)
(** ** The minimum distance query                                       *)
(* ================================================================== *)

Lemma FLT_MAX_not_below_itself :
  PrimFloat.ltb Measures.FLT_MAX Measures.FLT_MAX = false.
Proof. reflexivity. Qed.

Section DistanceQuery.

Variable lw_dist2d_seen :
  LWGEOM -> LWGEOM -> PrimFloat.float * (Measures.POINT2D * Measures.POINT2D).

Lemma lw_dist2d_comp_empty (g1 g2 : LWGEOM) (dl : Measures.DISTPTS) :
  lwgeom_is_empty g1 || lwgeom_is_empty g2 = true ->
  Measures.lw_dist2d_comp lw_dist2d_seen g1 g2 dl = (false, dl).
Proof. intros H. unfold Measures.lw_dist2d_comp. rewrite H. reflexivity. Qed.

Lemma lwgeom_mindistance2d_nonempty (g1 g2 : LWGEOM) :
  lwgeom_is_empty g1 || lwgeom_is_empty g2 = false ->
  Measures.lwgeom_mindistance2d lw_dist2d_seen g1 g2
  = if PrimFloat.ltb (fst (lw_dist2d_seen g1 g2)) Measures.FLT_MAX
    then fst (lw_dist2d_seen g1 g2)
    else Measures.FLT_MAX.
Proof.
  intros H. unfold Measures.lwgeom_mindistance2d, Measures.lw_dist2d_comp.
  rewrite H. destruct (lw_dist2d_seen g1 g2) as [d [q1 q2]].
  cbn [fst snd Measures.mode Measures.distance
       Measures.lw_dist2d_distpts_init].
  change (Measures.DIST_MIN =? Measures.DIST_MIN) with true. cbv iota.
  destruct (PrimFloat.ltb d Measures.FLT_MAX); reflexivity.
Qed.

(** C8, amended: for two geometries of one SRID, the minimum distance query
    gives no answer when an operand is empty (the accumulator keeps its
    sentinel [FLT_MAX], and [ST_distance] signals NULL, which is not the
    distance zero); for non-empty operands it returns the smallest distance
    that the engine sees when that is below [FLT_MAX], and gives no answer
    either when it is not. *)
Theorem ST_distance_answer (g1 g2 : LWGEOM) :
  lwgeom_srid g1 = lwgeom_srid g2 ->
  (lwgeom_is_empty g1 || lwgeom_is_empty g2 = true ->
   let dl := Measures.lw_dist2d_distpts_init Measures.DIST_MIN in
   Measures.lw_dist2d_comp lw_dist2d_seen g1 g2 dl = (false, dl) /\
   Measures.lwgeom_mindistance2d lw_dist2d_seen g1 g2 = Measures.FLT_MAX /\
   Measures.ST_distance lw_dist2d_seen g1 g2 = Measures.PG_NULL /\
   Measures.ST_distance lw_dist2d_seen g1 g2
   <> Measures.PG_value PrimFloat.zero) /\
  (lwgeom_is_empty g1 || lwgeom_is_empty g2 = false ->
   let d := fst (lw_dist2d_seen g1 g2) in
   (PrimFloat.ltb d Measures.FLT_MAX = true ->
    Measures.ST_distance lw_dist2d_seen g1 g2 = Measures.PG_value d) /\
   (PrimFloat.ltb d Measures.FLT_MAX = false ->
    Measures.ST_distance lw_dist2d_seen g1 g2 = Measures.PG_NULL)).
Proof.
  intros Hs. split.
  - intros He. cbv zeta.
    assert (Hm : Measures.lwgeom_mindistance2d lw_dist2d_seen g1 g2
                 = Measures.FLT_MAX).
    { unfold Measures.lwgeom_mindistance2d.
      rewrite (lw_dist2d_comp_empty _ _ _ He). reflexivity. }
    assert (Hq : Measures.ST_distance lw_dist2d_seen g1 g2
                 = Measures.PG_NULL).
    { unfold Measures.ST_distance. rewrite Hs, Z.eqb_refl. cbn [negb].
      cbv zeta. rewrite Hm, FLT_MAX_not_below_itself. reflexivity. }
    split; [apply lw_dist2d_comp_empty, He|].
    split; [exact Hm|]. split; [exact Hq|].
    rewrite Hq. discriminate.
  - intros Hne. cbv zeta.
    unfold Measures.ST_distance. rewrite Hs, Z.eqb_refl. cbn [negb].
    cbv zeta. rewrite (lwgeom_mindistance2d_nonempty _ _ Hne).
    split; intros Hd; rewrite Hd.
    + rewrite Hd. reflexivity.
    + rewrite FLT_MAX_not_below_itself. reflexivity.
Qed.

End DistanceQuery.

(** C8, as stated, fails.  [POINT(0 0)] and [POINT(2^129 0)] are not empty
    and lie [2^129] apart, which is more than [FLT_MAX]: the accumulator
    keeps its sentinel and [ST_distance] signals NULL, not the distance.
    And [POINT EMPTY] with SRID 4326 against [POINT(0 0)] with no SRID ends
    in the SRID error, not in NULL. *)
Lemma ST_distance_far_apart :
  let p := Measures.point 0 0 0 in
  let q := Measures.point 0 0x4800000000000000 0 in
  let e := lwpoint_construct_empty 4326 false false in
  (lwgeom_is_empty p = false /\ lwgeom_is_empty q = false /\
   fst (Measures.lw_dist2d_point_point p q)
   = Measures.double_value 0x4800000000000000 /\
   Measures.ST_distance Measures.lw_dist2d_point_point p q
   = Measures.PG_NULL) /\
  (lwgeom_is_empty e = true /\
   Measures.ST_distance Measures.lw_dist2d_point_point e p
   = Measures.SRID_mismatch).
Proof. vm_compute. repeat split; reflexivity. Qed.

(* ================================================================== *)
(** ** The theorems at concrete inputs                                  *)
(* ================================================================== *)

(** Why the theorems on truncated buffers assume that [lwerror] does not
    return.  With a handler that returns, [lwtriangle_from_wkb_state] takes
    the NULL of [ptarray_from_wkb_state] for "no points" and answers with an
    empty triangle: the 77 bytes of a triangle cut to 40 decode to
    [TRIANGLE EMPTY].  With the fatal handler the same bytes end in the
    size error. *)
Remark lwtriangle_truncated_when_lwerror_returns :
  let buf := firstn 40 (lwgeom_to_wkb NDR false triangle_unit) in
  returned (@lwgeom_from_wkb (Upstream.env false true) buf 40 0)
  = Some (lwtriangle_construct_empty 0 false false) /\
  exists s, @lwgeom_from_wkb host buf 40 0
            = Raise WKB_structure_does_not_match_expected_size s.
Proof.
  cbv zeta. split; [vm_compute; reflexivity|].
  eexists. vm_compute. reflexivity.
Qed.

(** The 25 bytes of [SRID=4326;POINT(0 0)] cut to 10 bytes. *)
Lemma lwgeom_from_wkb_truncated_witness :
  let buf := lwgeom_to_wkb NDR true point_0_0 in
  @valid_wkb host buf 0 /\
  0 <= 10 < Z.of_nat (length buf) /\
  returned (@lwgeom_from_wkb host (firstn (Z.to_nat 10) buf) 10 0) = None /\
  exists s, @lwgeom_from_wkb host (firstn (Z.to_nat 10) buf) 10 0
            = Raise WKB_structure_does_not_match_expected_size s.
Proof.
  cbv zeta.
  assert (Hv : @valid_wkb host (lwgeom_to_wkb NDR true point_0_0) 0)
    by (vm_compute; reflexivity).
  assert (Hk : 0 <= 10 < Z.of_nat (length (lwgeom_to_wkb NDR true point_0_0)))
    by (vm_compute; split; [discriminate|reflexivity]).
  split; [exact Hv|]. split; [exact Hk|].
  destruct (@lwgeom_from_wkb_truncated host
              (lwgeom_to_wkb NDR true point_0_0) 0 10 eq_refl Hv Hk)
    as (Hr & _ & _ & He).
  split; [exact Hr|]. apply He. lia.
Defined.

(** The same point followed by two stray bytes. *)
Lemma lwgeom_from_wkb_trailing_bytes_witness :
  let buf := lwgeom_to_wkb NDR true point_0_0 ++ [xff; xff] in
  @valid_wkb host (firstn (Z.to_nat 25) buf) 0 /\
  exists g s, @lwgeom_from_wkb host buf 27 0 = Ret (Some g) s /\ pos s = 25.
Proof.
  cbv zeta.
  assert (Hv : @valid_wkb host
                 (firstn (Z.to_nat 25)
                    (lwgeom_to_wkb NDR true point_0_0 ++ [xff; xff])) 0)
    by (vm_compute; reflexivity).
  split; [exact Hv|].
  destruct (@lwgeom_from_wkb_trailing_bytes host
              (lwgeom_to_wkb NDR true point_0_0 ++ [xff; xff]) 27 0 25
              eq_refl ltac:(lia)
              ltac:(vm_compute; discriminate) Hv)
    as (g & s & H & Hp & _).
  exists g, s. split; assumption.
Defined.

(** Type number 13 with the Z flag of the extended format. *)
Lemma lwtype_from_wkb_state_mapping_witness :
  @lwerror_returns host = false /\
  exists s', @lwtype_from_wkb_state host 0x8000000D
               (@initial_state host [] 0 0) = Ret tt s'
             /\ lwtype s' = CURVEPOLYTYPE.
Proof.
  split; [reflexivity|].
  destruct (@lwtype_from_wkb_state_mapping host 0x8000000D
              (@initial_state host [] 0 0) eq_refl) as (H13 & _).
  apply H13; [vm_compute; reflexivity | vm_compute; reflexivity].
Defined.

(** A two-point line read with the MINPOINTS check requested. *)
Lemma minpoints_check_witness :
  let buf := lwgeom_to_wkb NDR false line_2 in
  let s := set_lwtype LINETYPE
             (set_pos 5 (@initial_state host buf 41 1)) in
  check_requested (check s) (@LW_PARSER_CHECK_MINPOINTS host) = true /\
  exists g s', @lwline_from_wkb_state host s = Ret (Some g) s'.
Proof.
  cbv zeta. split; [reflexivity|].
  set (s := set_lwtype LINETYPE
              (set_pos 5 (@initial_state host
                            (lwgeom_to_wkb NDR false line_2) 41 1))).
  destruct (@minpoints_check host s eq_refl) as (Hline & _).
  eapply Hline.
  - vm_compute. reflexivity.
  - vm_compute. discriminate.
  - vm_compute. discriminate.
Defined.

(** The canonical empty point, written big-endian. *)
Lemma nan_point_is_empty_witness :
  is_double wkb_nan /\
  let buf := wkb_header XDR POINTTYPE 0 false false false
             ++ wkb_doubles XDR [wkb_nan; wkb_nan] in
  exists g,
    returned (@lwgeom_from_wkb host buf (Z.of_nat (length buf)) 0) = Some g /\
    lwgeom_is_empty g = true.
Proof.
  assert (Hd : is_double wkb_nan) by (unfold is_double, wkb_nan; lia).
  split; [exact Hd|]. cbv zeta.
  destruct (@nan_point_is_empty host XDR false false wkb_nan wkb_nan [] 0
              Hd Hd (Forall_nil _) eq_refl)
    as (g & Hg & _ & He & _).
  exists g. split; [exact Hg|]. rewrite He. reflexivity.
Defined.

(** Two levels of nested collections. *)
Lemma nested_collections_depth_limit_witness :
  let g := nested_collections 0 2 in
  let buf := lwgeom_to_wkb XDR false g in
  (2 <= 198)%nat /\
  returned (@lwgeom_from_wkb host buf (Z.of_nat (length buf)) 0) = Some g.
Proof.
  cbv zeta. split; [lia|].
  destruct (@nested_collections_depth_limit host XDR 2 0) as (H & _).
  apply H; [lia | reflexivity | reflexivity].
Defined.

(** The two-point line with an SRID, in both byte orders. *)
Lemma byte_order_independent_witness :
  let g := LWLINE 4326 false false
             (mkPOINTARRAY false false 2
                [0; 0; 0x3FF0000000000000; 0x4000000000000000]) in
  wf_geom g = true /\
  returned (@lwgeom_from_wkb host (lwgeom_to_wkb XDR true g)
              (Z.of_nat (length (lwgeom_to_wkb XDR true g))) 0)
  = returned (@lwgeom_from_wkb host (lwgeom_to_wkb NDR true g)
                (Z.of_nat (length (lwgeom_to_wkb NDR true g))) 0).
Proof.
  cbv zeta. split; [reflexivity|].
  destruct (@byte_order_independent host
              (LWLINE 4326 false false
                 (mkPOINTARRAY false false 2
                    [0; 0; 0x3FF0000000000000; 0x4000000000000000]))
              true 0 eq_refl) as (H & _).
  exact H.
Defined.

(** [POINT(0 0)] and [POINT(3 4)] are 5 apart, as the spec lists them;
    [POINT EMPTY] has no distance to [POINT(0 0)]. *)
Lemma ST_distance_answer_witness :
  let p := Measures.point 0 0 0 in
  let q := Measures.point 0 0x4008000000000000 0x4010000000000000 in
  let e := lwpoint_construct_empty 0 false false in
  lwgeom_srid p = lwgeom_srid q /\
  Measures.ST_distance Measures.lw_dist2d_point_point p q
  = Measures.PG_value (Measures.double_value 0x4014000000000000) /\
  Measures.ST_distance Measures.lw_dist2d_point_point e p
  = Measures.PG_NULL.
Proof.
  cbv zeta. split; [reflexivity|]. split.
  - destruct (@ST_distance_answer Measures.lw_dist2d_point_point
                (Measures.point 0 0 0)
                (Measures.point 0 0x4008000000000000 0x4010000000000000)
                eq_refl) as (_ & H).
    destruct (H eq_refl) as (Hv & _).
    rewrite Hv by (vm_compute; reflexivity). vm_compute. reflexivity.
  - destruct (@ST_distance_answer Measures.lw_dist2d_point_point
                (lwpoint_construct_empty 0 false false)
                (Measures.point 0 0 0) eq_refl) as (H & _).
    destruct (H eq_refl) as (_ & _ & Hn & _). exact Hn.
Defined.

(* ================================================================== *)
(** ** Hex strings                                                      *)
(* ================================================================== *)

Lemma upd_app_length {A} (l1 : list A) (x y : A) (l2 : list A) :
  upd (length l1) x (l1 ++ y :: l2) = l1 ++ x :: l2.
Proof. induction l1 as [|a l1 IH]; simpl; [reflexivity|]. now rewrite IH. Qed.

Lemma length_hex_of_bytes (l : list (byte * (bool * bool))) :
  length (Hex.hex_of_bytes l) = (2 * length l)%nat.
Proof.
  induction l as [|[b u] l IH]; simpl; [reflexivity|]. rewrite IH. lia.
Qed.

(** A byte written as two digits, in any mix of cases, is read back by the
    table, and both digits are plain ASCII. *)
Lemma hex2char_digits_checked (signed : bool) (b : byte) (u1 u2 : bool) :
  let c1 := Hex.hex_digit u1 (byte_to_Z b / 16) in
  let c2 := Hex.hex_digit u2 (byte_to_Z b mod 16) in
  match Hex.char_at signed [c1; c2] 0, Hex.char_at signed [c1; c2] 1,
        Hex.hex2char_at (byte_to_Z c1), Hex.hex2char_at (byte_to_Z c2) with
  | Some a1, Some a2, Some h1, Some h2 =>
      (a1 =? byte_to_Z c1) && (a2 =? byte_to_Z c2)
      && (h1 <=? 15) && (h2 <=? 15)
      && Byte.eqb
           (byte_of_Z (Z.lor (Z.shiftl (Z.land h1 0x0F) 4) (Z.land h2 0x0F)))
           b
  | _, _, _, _ => false
  end = true.
Proof.
  destruct signed, u1, u2, b; vm_compute; reflexivity.
Qed.

Lemma hex2char_digits (signed : bool) (b : byte) (u1 u2 : bool) :
  let c1 := Hex.hex_digit u1 (byte_to_Z b / 16) in
  let c2 := Hex.hex_digit u2 (byte_to_Z b mod 16) in
  exists h1 h2,
    Hex.char_at signed [c1; c2] 0 = Some (byte_to_Z c1) /\
    Hex.char_at signed [c1; c2] 1 = Some (byte_to_Z c2) /\
    Hex.hex2char_at (byte_to_Z c1) = Some h1 /\
    Hex.hex2char_at (byte_to_Z c2) = Some h2 /\
    (h1 >? 15) = false /\ (h2 >? 15) = false /\
    byte_of_Z (Z.lor (Z.shiftl (Z.land h1 0x0F) 4) (Z.land h2 0x0F)) = b.
Proof.
  intros c1 c2.
  pose proof (hex2char_digits_checked signed b u1 u2) as H.
  cbv zeta in H. fold c1 c2 in H.
  destruct (Hex.char_at signed [c1; c2] 0) as [a1|]; [|discriminate H].
  destruct (Hex.char_at signed [c1; c2] 1) as [a2|]; [|discriminate H].
  destruct (Hex.hex2char_at (byte_to_Z c1)) as [h1|]; [|discriminate H].
  destruct (Hex.hex2char_at (byte_to_Z c2)) as [h2|]; [|discriminate H].
  apply andb_true_iff in H. destruct H as [H Hb].
  apply andb_true_iff in H. destruct H as [H L2].
  apply andb_true_iff in H. destruct H as [H L1].
  apply andb_true_iff in H. destruct H as [E1 E2].
  apply Z.eqb_eq in E1, E2. apply Z.leb_le in L1, L2.
  apply Byte.byte_dec_bl in Hb.
  exists h1, h2. subst a1 a2.
  repeat split; try reflexivity; try exact Hb;
    rewrite Z.gtb_ltb; apply Z.ltb_ge; assumption.
Qed.

Lemma char_at_skip (signed : bool) (pre l : list byte) (k : Z) :
  0 <= k ->
  Hex.char_at signed (pre ++ l) (Z.of_nat (length pre) + k)
  = Hex.char_at signed l k.
Proof.
  intros Hk. unfold Hex.char_at.
  destruct (Z.ltb_spec (Z.of_nat (length pre) + k) 0); [lia|].
  destruct (Z.ltb_spec k 0); [lia|].
  replace (Z.to_nat (Z.of_nat (length pre) + k))
    with (length pre + Z.to_nat k)%nat by lia.
  rewrite nth_error_app2 by lia.
  replace (length pre + Z.to_nat k - length pre)%nat with (Z.to_nat k)
    by lia.
  reflexivity.
Qed.

Lemma char_at_front (signed : bool) (l post : list byte) (k : Z) (c : Z) :
  Hex.char_at signed l k = Some c ->
  Hex.char_at signed (l ++ post) k = Some c.
Proof.
  unfold Hex.char_at. destruct (k <? 0); [discriminate|].
  destruct (nth_error l (Z.to_nat k)) as [b|] eqn:Hn; [|discriminate].
  rewrite nth_error_app1 by (apply nth_error_Some; congruence).
  rewrite Hn. auto.
Qed.

Lemma nth_skip_front (pre l post : list byte) (k : nat) (c : byte) :
  nth_error l k = Some c ->
  nth (length pre + k) (pre ++ l ++ post) x00 = c.
Proof.
  intros Hn. rewrite app_nth2 by lia.
  replace (length pre + k - length pre)%nat with k by lia.
  rewrite app_nth1 by (apply nth_error_Some; congruence).
  apply nth_error_nth. exact Hn.
Qed.

Section HexDecoding.

Variable char_is_signed : bool.
Variable lwalloc_succeeds : Z -> bool.

#[local] Abbreviation hex_loop := (Hex.hex_loop char_is_signed).

(** The loop, part of the way through a well-formed string. *)
Lemma hex_loop_decodes (extra : list byte) :
  forall (rest done : list (byte * (bool * bool))) (fuel : nat),
    Z.of_nat (length done + length rest) < 2147483648 ->
    (length rest < fuel)%nat ->
    hex_loop fuel (Hex.hex_of_bytes (done ++ rest) ++ extra)
             (2 * Z.of_nat (length done + length rest))
             (Z.of_nat (length done))
             (map fst done ++ repeat x00 (length rest))
    = Hex.Bytes (map fst (done ++ rest)).
Proof.
  induction rest as [|[b [u1 u2]] rest IH]; intros done fuel Hn Hf.
  - destruct fuel as [|fuel]; [simpl in Hf; lia|]. cbn [Hex.hex_loop].
    replace (2 * Z.of_nat (length done + length (@nil (byte * (bool * bool))))
             / 2) with (Z.of_nat (length done))
      by (simpl length; rewrite Nat.add_0_r, Z.mul_comm, Z.div_mul; lia).
    rewrite Z.ltb_irrefl. simpl repeat. rewrite !app_nil_r. reflexivity.
  - destruct fuel as [|fuel]; [lia|]. cbn [Hex.hex_loop].
    set (n := (length done + length ((b, (u1, u2)) :: rest))%nat) in *.
    replace (2 * Z.of_nat n / 2) with (Z.of_nat n)
      by (rewrite Z.mul_comm, Z.div_mul; lia).
    assert (Hlt : Z.of_nat (length done) < Z.of_nat n)
      by (unfold n; simpl length; lia).
    destruct (Z.ltb_spec (Z.of_nat (length done)) (Z.of_nat n)); [|lia].
    unfold uint32. rewrite !Z.mod_small by lia.
    assert (Hsplit : Hex.hex_of_bytes (done ++ (b, (u1, u2)) :: rest) ++ extra
                     = Hex.hex_of_bytes done
                       ++ Hex.hex_of_byte b (u1, u2)
                       ++ (Hex.hex_of_bytes rest ++ extra)).
    { clear. induction done as [|[b0 u0] done IH]; simpl.
      - reflexivity.
      - rewrite IH. reflexivity. }
    rewrite Hsplit.
    destruct (hex2char_digits char_is_signed b u1 u2)
      as (h1 & h2 & C1 & C2 & H1 & H2 & L1 & L2 & Hb).
    cbv zeta in *.
    replace (2 * Z.of_nat (length done))
      with (Z.of_nat (length (Hex.hex_of_bytes done)) + 0)
      by (rewrite length_hex_of_bytes; lia).
    replace (Z.of_nat (length (Hex.hex_of_bytes done)) + 0 + 1)
      with (Z.of_nat (length (Hex.hex_of_bytes done)) + 1) by lia.
    rewrite !char_at_skip by lia.
    unfold Hex.hex_of_byte. cbn [fst snd].
    rewrite (@char_at_front _ _ _ _ _ C1), (@char_at_front _ _ _ _ _ C2).
    rewrite H1, H2, L1, L2, Hb.
    rewrite Nat2Z.id. cbn [repeat length].
    pose proof (upd_app_length (map fst done) b x00
                  (repeat x00 (length rest))) as Hu.
    rewrite length_map in Hu. rewrite Hu. clear Hu.
    change [Hex.hex_digit u1 (byte_to_Z b / 16);
            Hex.hex_digit u2 (byte_to_Z b mod 16)]
      with (Hex.hex_of_byte b (u1, u2)).
    rewrite <- Hsplit.
    specialize (IH (done ++ [(b, (u1, u2))]) fuel).
    rewrite <- !app_assoc in IH. cbn [app] in IH.
    rewrite length_app in IH. cbn [length] in IH.
    replace (length done + 1 + length rest)%nat with n in IH
      by (unfold n; simpl length; lia).
    replace (Z.of_nat (length done) + 1)
      with (Z.of_nat (length done + 1)) by lia.
    rewrite map_app in IH. cbn [map fst] in IH.
    rewrite <- app_assoc in IH. cbn [app] in IH.
    apply IH; [lia | simpl in Hf; lia].
Qed.

End HexDecoding.

(** What the table accepts is a digit, in one case or the other; in
    particular it is never a character that a signed [char] makes
    negative. *)
Lemma hex2char_accepts_checked (signed : bool) (bt : byte) :
  match Hex.char_at signed [bt] 0 with
  | Some c =>
      match Hex.hex2char_at c with
      | Some h =>
          (15 <? h)
          || ((0 <=? h)
              && (Byte.eqb bt (Hex.hex_digit true h)
                  || Byte.eqb bt (Hex.hex_digit false h)))
      | None => true
      end
  | None => true
  end = true.
Proof.
  destruct signed, bt; vm_compute; reflexivity.
Qed.

Lemma hex2char_accepts (signed : bool) (bt : byte) (c h : Z) :
  Hex.char_at signed [bt] 0 = Some c ->
  Hex.hex2char_at c = Some h -> (h >? 15) = false ->
  exists (u : bool) (k : nat), (k < 16)%nat /\ h = Z.of_nat k /\
                               bt = Hex.hex_digit u h.
Proof.
  intros Hc Hh Hle.
  pose proof (hex2char_accepts_checked signed bt) as H.
  rewrite Hc, Hh in H.
  rewrite Z.gtb_ltb in Hle. rewrite Hle in H. cbn [orb] in H.
  apply Z.ltb_ge in Hle.
  apply andb_true_iff in H. destruct H as [H0 H].
  apply Z.leb_le in H0.
  apply orb_true_iff in H.
  destruct H as [H|H]; apply Byte.byte_dec_bl in H;
    [exists true|exists false]; exists (Z.to_nat h);
    (split; [lia|split; [lia|exact H]]).
Qed.

(** Two values below 16 packed into a byte, high bits first. *)
Lemma hex_pack (k1 k2 : nat) :
  (k1 < 16)%nat -> (k2 < 16)%nat ->
  let b := byte_of_Z (Z.lor (Z.shiftl (Z.land (Z.of_nat k1) 0x0F) 4)
                            (Z.land (Z.of_nat k2) 0x0F)) in
  byte_to_Z b / 16 = Z.of_nat k1 /\ byte_to_Z b mod 16 = Z.of_nat k2.
Proof.
  intros H1 H2.
  do 16 (destruct k1 as [|k1];
         [ do 16 (destruct k2 as [|k2]; [vm_compute; split; reflexivity|]);
           lia | ]).
  lia.
Qed.

Lemma char_at_inv (signed : bool) (hexbuf : list byte) (k : nat) (c : Z) :
  Hex.char_at signed hexbuf (Z.of_nat k) = Some c ->
  exists bt, nth_error hexbuf k = Some bt /\
             Hex.char_at signed [bt] 0 = Some c.
Proof.
  unfold Hex.char_at. destruct (Z.ltb_spec (Z.of_nat k) 0) as [Hk|Hk]; [lia|].
  rewrite Nat2Z.id. destruct (nth_error hexbuf k) as [bt|]; [|discriminate].
  intros H. exists bt. split; [reflexivity|]. exact H.
Qed.

Lemma skipn_two {A} (l : list A) (k : nat) (a b : A) :
  nth_error l k = Some a -> nth_error l (S k) = Some b ->
  skipn k l = a :: b :: skipn (S (S k)) l.
Proof.
  revert l. induction k as [|k IH]; intros [|x l]; simpl; try discriminate.
  - destruct l as [|y l]; simpl; [discriminate|]. congruence.
  - apply IH.
Qed.

Lemma firstn_upd_succ {A} (l : list A) (k : nat) (x : A) :
  (k < length l)%nat -> firstn (S k) (upd k x l) = firstn k l ++ [x].
Proof.
  revert k. induction l as [|a l IH]; intros [|k] Hk; simpl in *;
    try lia; [reflexivity|].
  rewrite <- IH by lia. reflexivity.
Qed.

Lemma length_upd {A} (l : list A) (k : nat) (x : A) :
  length (upd k x l) = length l.
Proof.
  revert k. induction l as [|a l IH]; intros [|k]; simpl; auto.
Qed.

Section HexSoundness.

Variable char_is_signed : bool.

(** The loop returns a buffer only after reading digits all the way. *)
Lemma hex_loop_sound (hexbuf : list byte) (n : nat) :
  Z.of_nat n < 2147483648 ->
  forall (fuel j : nat) (buf0 buf : list byte),
    (j <= n)%nat -> length buf0 = n ->
    Hex.hex_loop char_is_signed fuel hexbuf (2 * Z.of_nat n) (Z.of_nat j)
                 buf0 = Hex.Bytes buf ->
    exists l,
      length l = (n - j)%nat /\
      firstn (2 * (n - j)) (skipn (2 * j) hexbuf) = Hex.hex_of_bytes l /\
      buf = firstn j buf0 ++ map fst l.
Proof.
  intros Hn. induction fuel as [|fuel IH]; intros j buf0 buf Hj Hl Hrun;
    [discriminate Hrun|].
  cbn [Hex.hex_loop] in Hrun.
  replace (2 * Z.of_nat n / 2) with (Z.of_nat n) in Hrun
    by (rewrite Z.mul_comm, Z.div_mul; lia).
  destruct (Z.ltb_spec (Z.of_nat j) (Z.of_nat n)) as [Hlt|Hge].
  - unfold uint32 in Hrun. rewrite !Z.mod_small in Hrun by lia.
    replace (2 * Z.of_nat j) with (Z.of_nat (2 * j)) in Hrun by lia.
    replace (Z.of_nat (2 * j) + 1) with (Z.of_nat (S (2 * j))) in Hrun
      by lia.
    destruct (Hex.char_at char_is_signed hexbuf (Z.of_nat (2 * j)))
      as [c1|] eqn:C1; [|discriminate Hrun].
    destruct (Hex.char_at char_is_signed hexbuf (Z.of_nat (S (2 * j))))
      as [c2|] eqn:C2; [|discriminate Hrun].
    destruct (Hex.hex2char_at c1) as [h1|] eqn:H1; [|discriminate Hrun].
    destruct (Hex.hex2char_at c2) as [h2|] eqn:H2; [|discriminate Hrun].
    destruct (h1 >? 15) eqn:L1; [discriminate Hrun|].
    destruct (h2 >? 15) eqn:L2; [discriminate Hrun|].
    apply char_at_inv in C1. destruct C1 as (bt1 & N1 & C1).
    apply char_at_inv in C2. destruct C2 as (bt2 & N2 & C2).
    destruct (@hex2char_accepts _ _ _ _ C1 H1 L1) as (u1 & k1 & K1 & E1 & B1).
    destruct (@hex2char_accepts _ _ _ _ C2 H2 L2) as (u2 & k2 & K2 & E2 & B2).
    replace (Z.of_nat j + 1) with (Z.of_nat (S j)) in Hrun by lia.
    rewrite Nat2Z.id in Hrun.
    apply IH in Hrun; [|lia|rewrite length_upd; exact Hl].
    destruct Hrun as (l & Hll & Hfl & Hbuf).
    set (b := byte_of_Z (Z.lor (Z.shiftl (Z.land h1 15) 4) (Z.land h2 15)))
      in *.
    exists ((b, (u1, u2)) :: l).
    destruct (hex_pack K1 K2) as [P1 P2]. cbv zeta in P1, P2.
    rewrite <- E1, <- E2 in P1, P2. fold b in P1, P2.
    split; [simpl length; lia|]. split.
    + rewrite (skipn_two _ _ N1 N2).
      replace (2 * (n - j))%nat with (S (S (2 * (n - S j)))) by lia.
      cbn [firstn Hex.hex_of_bytes Hex.hex_of_byte fst snd app].
      rewrite P1, P2, <- B1, <- B2.
      replace (S (S (2 * j))) with (2 * S j)%nat by lia.
      rewrite Hfl. reflexivity.
    + rewrite Hbuf, firstn_upd_succ by lia.
      rewrite <- app_assoc. reflexivity.
  - inversion Hrun; subst buf. exists []. 
    replace (n - j)%nat with 0%nat by lia.
    split; [reflexivity|]. split; [reflexivity|].
    rewrite app_nil_r. rewrite firstn_all2 by lia. reflexivity.
Qed.

End HexSoundness.

Section HexTheorems.

Variable char_is_signed : bool.
Variable lwalloc_succeeds : Z -> bool.

(** [bytes_from_hexbytes] reads hexadecimal notation: the bytes of [l],
    each written as two digits in any mix of upper and lower case, come
    back as they were, whatever follows the [hexsize] characters. *)
Theorem bytes_from_hexbytes_decodes (l : list (byte * (bool * bool)))
  (extra : list byte) :
  2 * Z.of_nat (length l) < 4294967296 ->
  lwalloc_succeeds (Z.of_nat (length l)) = true ->
  Hex.bytes_from_hexbytes char_is_signed lwalloc_succeeds
    (Hex.hex_of_bytes l ++ extra) (2 * Z.of_nat (length l))
  = Hex.Bytes (map fst l).
Proof.
  intros Hn Ha. unfold Hex.bytes_from_hexbytes.
  replace (2 * Z.of_nat (length l) mod 2) with 0
    by (rewrite Z.mul_comm, Z.mod_mul; lia).
  replace (2 * Z.of_nat (length l) / 2) with (Z.of_nat (length l))
    by (rewrite Z.mul_comm, Z.div_mul; lia).
  rewrite Ha. cbn [negb Z.eqb]. rewrite Nat2Z.id.
  apply (@hex_loop_decodes char_is_signed extra l [] (S (length l)));
    simpl length; lia.
Qed.

(** [bytes_from_hexbytes] returns a buffer only for hexadecimal notation:
    the length is even, each of the [hexsize] characters is a digit, and the
    buffer holds the bytes that the digits write, two by two. *)
Theorem bytes_from_hexbytes_sound (hexbuf buf : list byte) (hexsize : Z) :
  0 <= hexsize < 4294967296 ->
  Hex.bytes_from_hexbytes char_is_signed lwalloc_succeeds hexbuf hexsize
  = Hex.Bytes buf ->
  hexsize mod 2 = 0 /\
  exists l,
    Z.of_nat (length l) = hexsize / 2 /\
    firstn (Z.to_nat hexsize) hexbuf = Hex.hex_of_bytes l /\
    buf = map fst l.
Proof.
  intros Hs Hrun. unfold Hex.bytes_from_hexbytes in Hrun.
  destruct (Z.eqb_spec (hexsize mod 2) 0) as [He|Hne];
    [|discriminate Hrun].
  cbn [negb] in Hrun.
  destruct (lwalloc_succeeds (hexsize / 2)); [|discriminate Hrun].
  cbn [negb] in Hrun. split; [exact He|].
  set (n := Z.to_nat (hexsize / 2)) in *.
  assert (Hh : hexsize = 2 * Z.of_nat n).
  { unfold n. rewrite Z2Nat.id by (apply Z.div_pos; lia).
    rewrite (Z.div_mod hexsize 2) at 1 by lia. lia. }
  rewrite Hh in Hrun.
  apply (@hex_loop_sound char_is_signed hexbuf n ltac:(lia)
           (S n) 0%nat (repeat x00 n) buf ltac:(lia)
           (repeat_length _ _)) in Hrun.
  destruct Hrun as (l & Hl & Hf & Hb).
  exists l. rewrite Nat.sub_0_r in Hl, Hf. cbn [Nat.mul skipn] in Hf.
  split; [rewrite Hl; unfold n; rewrite Z2Nat.id;
          [reflexivity|apply Z.div_pos; lia]|].
  split; [|exact Hb].
  rewrite <- Hf. f_equal. lia.
Qed.

End HexTheorems.

Section HexErrors.

Variable char_is_signed : bool.
Variable lwalloc_succeeds : Z -> bool.

(** The loop over a well-formed front of the string: after the digits of
    [rest] it stands behind them, with their bytes in the buffer. *)
Lemma hex_loop_prefix (tail : list byte) (n : nat) :
  Z.of_nat n < 2147483648 ->
  forall (rest done : list (byte * (bool * bool))) (fuel : nat)
         (room : list byte),
    (length done + length rest <= n)%nat ->
    (length rest <= length room)%nat ->
    Hex.hex_loop char_is_signed (length rest + fuel)
      (Hex.hex_of_bytes (done ++ rest) ++ tail) (2 * Z.of_nat n)
      (Z.of_nat (length done)) (map fst done ++ room)
    = Hex.hex_loop char_is_signed fuel
        (Hex.hex_of_bytes (done ++ rest) ++ tail) (2 * Z.of_nat n)
        (Z.of_nat (length done + length rest))
        (map fst (done ++ rest) ++ skipn (length rest) room).
Proof.
  intros Hn.
  induction rest as [|[b [u1 u2]] rest IH]; intros done fuel room Hd Hr.
  - cbn [length Nat.add skipn]. rewrite Nat.add_0_r, app_nil_r.
    reflexivity.
  - cbn [length Nat.add Hex.hex_loop]. cbn [length] in Hd, Hr.
    replace (2 * Z.of_nat n / 2) with (Z.of_nat n)
      by (rewrite Z.mul_comm, Z.div_mul; lia).
    destruct (Z.ltb_spec (Z.of_nat (length done)) (Z.of_nat n)); [|lia].
    unfold uint32. rewrite !Z.mod_small by lia.
    assert (Hsplit : Hex.hex_of_bytes (done ++ (b, (u1, u2)) :: rest) ++ tail
                     = Hex.hex_of_bytes done
                       ++ Hex.hex_of_byte b (u1, u2)
                       ++ (Hex.hex_of_bytes rest ++ tail)).
    { clear. induction done as [|[b0 u0] done IH]; simpl.
      - reflexivity.
      - rewrite IH. reflexivity. }
    destruct (hex2char_digits char_is_signed b u1 u2)
      as (h1 & h2 & C1 & C2 & H1 & H2 & L1 & L2 & Hb).
    cbv zeta in *.
    assert (A1 : Hex.char_at char_is_signed
                   (Hex.hex_of_bytes (done ++ (b, (u1, u2)) :: rest) ++ tail)
                   (2 * Z.of_nat (length done))
                 = Some (byte_to_Z (Hex.hex_digit u1 (byte_to_Z b / 16)))).
    { rewrite Hsplit.
      replace (2 * Z.of_nat (length done))
        with (Z.of_nat (length (Hex.hex_of_bytes done)) + 0)
        by (rewrite length_hex_of_bytes; lia).
      rewrite char_at_skip by lia.
      exact (@char_at_front _ _ _ _ _ C1). }
    assert (A2 : Hex.char_at char_is_signed
                   (Hex.hex_of_bytes (done ++ (b, (u1, u2)) :: rest) ++ tail)
                   (2 * Z.of_nat (length done) + 1)
                 = Some (byte_to_Z (Hex.hex_digit u2 (byte_to_Z b mod 16)))).
    { rewrite Hsplit.
      replace (2 * Z.of_nat (length done) + 1)
        with (Z.of_nat (length (Hex.hex_of_bytes done)) + 1)
        by (rewrite length_hex_of_bytes; lia).
      rewrite char_at_skip by lia.
      exact (@char_at_front _ _ _ _ _ C2). }
    rewrite A1, A2.
    rewrite H1, H2, L1, L2, Hb.
    rewrite Nat2Z.id.
    destruct room as [|y room]; [simpl in Hr; lia|].
    pose proof (upd_app_length (map fst done) b y room) as Hu.
    rewrite length_map in Hu. rewrite Hu. clear Hu.
    specialize (IH (done ++ [(b, (u1, u2))]) fuel room).
    rewrite <- !app_assoc in IH. cbn [app] in IH.
    rewrite length_app in IH. cbn [length] in IH.
    rewrite map_app in IH. cbn [map fst] in IH.
    rewrite <- app_assoc in IH. cbn [app] in IH.
    replace (Z.of_nat (length done) + 1)
      with (Z.of_nat (length done + 1)) by lia.
    rewrite IH by (simpl in Hr; lia).
    cbn [skipn].
    replace (length done + 1 + length rest)%nat
      with (length done + S (length rest))%nat by lia.
    reflexivity.
Qed.

(** With a signed [char], a character of 0x80 or above is a negative index
    into [hex2char]: past a well-formed front, a pair of characters with
    such a byte in it makes [bytes_from_hexbytes] read outside the table,
    whichever of the two it is. *)
Theorem bytes_from_hexbytes_signed_char (l : list (byte * (bool * bool)))
  (c1 c2 : byte) (tail : list byte) (n : nat) :
  char_is_signed = true ->
  (length l < n)%nat -> Z.of_nat n < 2147483648 ->
  lwalloc_succeeds (Z.of_nat n) = true ->
  128 <= byte_to_Z c1 \/ 128 <= byte_to_Z c2 ->
  Hex.bytes_from_hexbytes char_is_signed lwalloc_succeeds
    (Hex.hex_of_bytes l ++ c1 :: c2 :: tail) (2 * Z.of_nat n)
  = Hex.OutOfBounds.
Proof.
  intros Hs Hl Hn Ha Hc. unfold Hex.bytes_from_hexbytes.
  replace (2 * Z.of_nat n mod 2) with 0
    by (rewrite Z.mul_comm, Z.mod_mul; lia).
  replace (2 * Z.of_nat n / 2) with (Z.of_nat n)
    by (rewrite Z.mul_comm, Z.div_mul; lia).
  rewrite Ha. cbn [negb Z.eqb]. rewrite Nat2Z.id.
  pose proof (@hex_loop_prefix (c1 :: c2 :: tail) n Hn l []
                (S (n - length l)) (repeat x00 n)) as Hp.
  cbn [app length Nat.add map] in Hp.
  replace (length l + S (n - length l))%nat with (S n) in Hp by lia.
  change (Z.of_nat 0) with 0 in Hp.
  rewrite Hp by (rewrite ?repeat_length; lia). clear Hp.
  cbn [Hex.hex_loop].
  replace (2 * Z.of_nat n / 2) with (Z.of_nat n)
    by (rewrite Z.mul_comm, Z.div_mul; lia).
  destruct (Z.ltb_spec (Z.of_nat (length l)) (Z.of_nat n)); [|lia].
  unfold uint32. rewrite !Z.mod_small by lia.
  replace (2 * Z.of_nat (length l))
    with (Z.of_nat (length (Hex.hex_of_bytes l)) + 0)
    by (rewrite length_hex_of_bytes; lia).
  replace (Z.of_nat (length (Hex.hex_of_bytes l)) + 0 + 1)
    with (Z.of_nat (length (Hex.hex_of_bytes l)) + 1) by lia.
  rewrite !char_at_skip by lia.
  assert (Hneg : forall c, c < 0 -> Hex.hex2char_at c = None).
  { intros c Hlt. unfold Hex.hex2char_at.
    destruct (Z.leb_spec 0 c); [lia|]. reflexivity. }
  assert (E1 : Hex.char_at char_is_signed (c1 :: c2 :: tail) 0
               = Some (if 128 <=? byte_to_Z c1
                       then byte_to_Z c1 - 256 else byte_to_Z c1))
    by (rewrite Hs; reflexivity).
  assert (E2 : Hex.char_at char_is_signed (c1 :: c2 :: tail) 1
               = Some (if 128 <=? byte_to_Z c2
                       then byte_to_Z c2 - 256 else byte_to_Z c2))
    by (rewrite Hs; reflexivity).
  rewrite E1, E2.
  pose proof (byte_to_Z_range c1). pose proof (byte_to_Z_range c2).
  destruct (Z.leb_spec 128 (byte_to_Z c1)) as [G1|G1].
  - rewrite (Hneg (byte_to_Z c1 - 256)) by lia. reflexivity.
  - destruct (Z.leb_spec 128 (byte_to_Z c2)) as [G2|G2]; [|lia].
    rewrite (Hneg (byte_to_Z c2 - 256)) by lia.
    destruct (Hex.hex2char_at (byte_to_Z c1)); reflexivity.
Qed.

End HexErrors.

Lemma hex_digit_accepted (u : bool) (k : nat) :
  (k < 16)%nat ->
  byte_to_Z (Hex.hex_digit u (Z.of_nat k)) < 128 /\
  Hex.hex2char_at (byte_to_Z (Hex.hex_digit u (Z.of_nat k)))
  = Some (Z.of_nat k).
Proof.
  intros Hk.
  do 16 (destruct k as [|k];
         [destruct u; vm_compute; split; reflexivity|]).
  lia.
Qed.

Lemma nth_error_firstn_In {A} (l : list A) (i k : nat) (x : A) :
  nth_error l i = Some x -> (i < k)%nat -> In x (firstn k l).
Proof.
  revert i k. induction l as [|a l IH]; intros [|i] [|k] Hx Hik;
    try discriminate Hx; try lia; simpl in *.
  - left. congruence.
  - right. apply (IH i k Hx). lia.
Qed.

Section HexSafety.

Variable char_is_signed : bool.
Variable lwalloc_succeeds : Z -> bool.

(** When no character can be a negative index and the string is all there,
    the loop ends, reads inside the string and the table, and complains
    only of a character of the string that is not a digit. *)
Lemma hex_loop_safe (hexbuf : list byte) (n : nat) :
  Z.of_nat n < 2147483648 ->
  (2 * n <= length hexbuf)%nat ->
  (char_is_signed = true ->
   Forall (fun c => byte_to_Z c < 128) (firstn (2 * n) hexbuf)) ->
  forall (fuel j : nat) (buf0 : list byte),
    (j <= n)%nat -> (n - j < fuel)%nat -> length buf0 = n ->
    match Hex.hex_loop char_is_signed fuel hexbuf (2 * Z.of_nat n)
                       (Z.of_nat j) buf0 with
    | Hex.Bytes buf => length buf = n
    | Hex.Error (Hex.Invalid_hex_character c) =>
        In c (firstn (2 * n) hexbuf) /\
        forall (u : bool) (k : nat), (k < 16)%nat ->
                                     c <> Hex.hex_digit u (Z.of_nat k)
    | _ => False
    end.
Proof.
  intros Hn Hlen Hascii.
  assert (Hread : forall i : nat, (i < 2 * n)%nat ->
            exists bt, nth_error hexbuf i = Some bt /\
                       In bt (firstn (2 * n) hexbuf) /\
                       nth i hexbuf x00 = bt /\
                       Hex.char_at char_is_signed hexbuf (Z.of_nat i)
                       = Some (byte_to_Z bt)).
  { intros i Hi.
    destruct (nth_error hexbuf i) as [bt|] eqn:E;
      [|apply nth_error_None in E; lia].
    exists bt. pose proof (nth_error_firstn_In _ E Hi) as Hin.
    split; [reflexivity|]. split; [exact Hin|].
    split; [apply nth_error_nth; exact E|].
    unfold Hex.char_at.
    destruct (Z.ltb_spec (Z.of_nat i) 0); [lia|].
    rewrite Nat2Z.id, E. cbv zeta.
    destruct char_is_signed; [|reflexivity].
    pose proof (proj1 (Forall_forall _ _) (Hascii eq_refl) bt Hin) as Hb.
    cbv beta in Hb. cbn [andb].
    destruct (Z.leb_spec 128 (byte_to_Z bt)); [lia|reflexivity]. }
  assert (Htable : forall bt : byte,
            exists h, Hex.hex2char_at (byte_to_Z bt) = Some h).
  { intros bt. pose proof (byte_to_Z_range bt) as Hr.
    unfold Hex.hex2char_at.
    destruct (Z.leb_spec 0 (byte_to_Z bt)); [|lia].
    destruct (Z.ltb_spec (byte_to_Z bt) 256); [|lia]. cbn [andb].
    destruct (nth_error Hex.hex2char (Z.to_nat (byte_to_Z bt)))
      as [h|] eqn:E; [exists h; reflexivity|].
    apply nth_error_None in E.
    change (length Hex.hex2char) with 256%nat in E. lia. }
  assert (Hbad : forall (bt : byte) (h : Z),
            Hex.hex2char_at (byte_to_Z bt) = Some h -> (h >? 15) = true ->
            forall (u : bool) (k : nat), (k < 16)%nat ->
                                         bt <> Hex.hex_digit u (Z.of_nat k)).
  { intros bt h Hh Hgt u k Hk ->.
    destruct (hex_digit_accepted u Hk) as [_ Hd].
    rewrite Hd in Hh. inversion Hh; subst h.
    apply Z.gtb_lt in Hgt. lia. }
  induction fuel as [|fuel IH]; intros j buf0 Hj Hf Hb; [lia|].
  cbn [Hex.hex_loop].
  replace (2 * Z.of_nat n / 2) with (Z.of_nat n)
    by (rewrite Z.mul_comm, Z.div_mul; lia).
  destruct (Z.ltb_spec (Z.of_nat j) (Z.of_nat n)) as [Hlt|Hge];
    [|exact Hb].
  unfold uint32. rewrite !Z.mod_small by lia.
  replace (2 * Z.of_nat j) with (Z.of_nat (2 * j)) by lia.
  replace (Z.of_nat (2 * j) + 1) with (Z.of_nat (S (2 * j))) by lia.
  destruct (Hread (2 * j)%nat ltac:(lia)) as (bt1 & _ & I1 & N1 & C1).
  destruct (Hread (S (2 * j)) ltac:(lia)) as (bt2 & _ & I2 & N2 & C2).
  rewrite C1, C2.
  destruct (Htable bt1) as [h1 H1]. destruct (Htable bt2) as [h2 H2].
  rewrite H1, H2. rewrite !Nat2Z.id, N1, N2.
  destruct (h1 >? 15) eqn:L1; [split; [exact I1|exact (Hbad _ _ H1 L1)]|].
  destruct (h2 >? 15) eqn:L2; [split; [exact I2|exact (Hbad _ _ H2 L2)]|].
  replace (Z.of_nat j + 1) with (Z.of_nat (S j)) by lia.
  apply IH; [lia|lia|rewrite length_upd; exact Hb].
Qed.

(** [bytes_from_hexbytes] on a string that is all there, where no character
    can be a negative table index (the platform's [char] is unsigned, or the
    characters are ASCII): the call ends, reads neither outside the string
    nor outside [hex2char], and fails for one of three reasons only: an odd
    length, a refused allocation, or a character of the string that is not
    a hexadecimal digit. *)
Theorem bytes_from_hexbytes_safe (hexbuf : list byte) (hexsize : Z) :
  0 <= hexsize < 4294967296 ->
  hexsize <= Z.of_nat (length hexbuf) ->
  (char_is_signed = true ->
   Forall (fun c => byte_to_Z c < 128) (firstn (Z.to_nat hexsize) hexbuf)) ->
  match Hex.bytes_from_hexbytes char_is_signed lwalloc_succeeds
                                hexbuf hexsize with
  | Hex.Bytes buf => Z.of_nat (length buf) = hexsize / 2
  | Hex.Error (Hex.Invalid_hex_string_length k) =>
      k = hexsize /\ hexsize mod 2 = 1
  | Hex.Error Hex.Unable_to_allocate_memory_buffer =>
      hexsize mod 2 = 0 /\ lwalloc_succeeds (hexsize / 2) = false
  | Hex.Error (Hex.Invalid_hex_character c) =>
      In c (firstn (Z.to_nat hexsize) hexbuf) /\
      forall (u : bool) (k : nat), (k < 16)%nat ->
                                   c <> Hex.hex_digit u (Z.of_nat k)
  | Hex.OutOfBounds | Hex.Diverges => False
  end.
Proof.
  intros Hs Hlen Hascii. unfold Hex.bytes_from_hexbytes.
  pose proof (Z.mod_pos_bound hexsize 2 ltac:(lia)) as Hm.
  destruct (Z.eqb_spec (hexsize mod 2) 0) as [He|Hne]; cbn [negb];
    [|split; [reflexivity|lia]].
  destruct (lwalloc_succeeds (hexsize / 2)) eqn:Ha; cbn [negb];
    [|split; [exact He|reflexivity]].
  set (n := Z.to_nat (hexsize / 2)).
  assert (Hh : hexsize = 2 * Z.of_nat n).
  { unfold n. rewrite Z2Nat.id by (apply Z.div_pos; lia).
    rewrite (Z.div_mod hexsize 2) at 1 by lia. lia. }
  assert (Hk : Z.to_nat hexsize = (2 * n)%nat) by lia.
  rewrite Hk in *.
  pose proof (@hex_loop_safe hexbuf n ltac:(lia) ltac:(lia) Hascii
                (S n) 0%nat (repeat x00 n) ltac:(lia) ltac:(lia)
                (repeat_length _ _)) as H.
  change (Z.of_nat 0) with 0 in H. rewrite <- Hh in H.
  destruct (Hex.hex_loop char_is_signed (S n) hexbuf hexsize 0
              (repeat x00 n)) as [buf|[k| |c]| |];
    try contradiction.
  - rewrite H. unfold n. rewrite Z2Nat.id by (apply Z.div_pos; lia).
    reflexivity.
  - exact H.
Qed.

End HexSafety.

(** *** The hex theorems at concrete strings *)

Lemma bytes_from_hexbytes_decodes_witness :
  Hex.bytes_from_hexbytes true (fun _ => true)
    (Hex.hex_of_bytes [(x0a, (false, false)); (xff, (true, false))] ++ [x20])
    (2 * Z.of_nat 2)
  = Hex.Bytes [x0a; xff].
Proof.
  apply (@bytes_from_hexbytes_decodes true (fun _ => true)
           [(x0a, (false, false)); (xff, (true, false))] [x20]).
  - vm_compute. reflexivity.
  - reflexivity.
Defined.

Lemma bytes_from_hexbytes_sound_witness :
  4 mod 2 = 0 /\
  exists l,
    Z.of_nat (length l) = 4 / 2 /\
    firstn (Z.to_nat 4) [x30; x61; x46; x66; x7a] = Hex.hex_of_bytes l /\
    [x0a; xff] = map fst l.
Proof.
  apply (@bytes_from_hexbytes_sound false (fun _ => true)
           [x30; x61; x46; x66; x7a] [x0a; xff] 4).
  - lia.
  - vm_compute. reflexivity.
Defined.

Lemma bytes_from_hexbytes_signed_char_witness :
  Hex.bytes_from_hexbytes true (fun _ => true)
    (Hex.hex_of_bytes [(x0a, (false, false))] ++ [x34; xe9; x30])
    (2 * Z.of_nat 2)
  = Hex.OutOfBounds.
Proof.
  apply (@bytes_from_hexbytes_signed_char true (fun _ => true)
           [(x0a, (false, false))] x34 xe9 [x30] 2).
  - reflexivity.
  - simpl. lia.
  - lia.
  - reflexivity.
  - right. vm_compute. discriminate.
Defined.

Lemma bytes_from_hexbytes_safe_witness :
  match Hex.bytes_from_hexbytes true (fun _ => true) [x30; x67] 2 with
  | Hex.Bytes buf => Z.of_nat (length buf) = 2 / 2
  | Hex.Error (Hex.Invalid_hex_string_length k) => k = 2 /\ 2 mod 2 = 1
  | Hex.Error Hex.Unable_to_allocate_memory_buffer =>
      2 mod 2 = 0 /\ (fun _ : Z => true) (2 / 2) = false
  | Hex.Error (Hex.Invalid_hex_character c) =>
      In c (firstn (Z.to_nat 2) [x30; x67]) /\
      forall (u : bool) (k : nat), (k < 16)%nat ->
                                   c <> Hex.hex_digit u (Z.of_nat k)
  | Hex.OutOfBounds | Hex.Diverges => False
  end.
Proof.
  apply (@bytes_from_hexbytes_safe true (fun _ => true) [x30; x67] 2).
  - lia.
  - simpl. lia.
  - intros _. simpl. repeat constructor.
Defined.

(* ================================================================== *)
(** ** No read outside the buffer                                       *)
(* ================================================================== *)

Section MemorySafety.

Context {E : liblwgeom}.

Lemma guarded_ret {A} (Pre : _ -> Prop) (Post : A -> _ -> Prop) (a : A) :
  (forall s, Pre s -> Post a s) -> guarded Pre (ret a) Post.
Proof. intros H s Hp. simpl. auto. Qed.

Lemma guarded_bind {A B} Pre (Mid : A -> _ -> Prop) (Post : B -> _ -> Prop)
  (m : M A) (f : A -> M B) :
  guarded Pre m Mid -> (forall a, guarded (Mid a) (f a) Post) ->
  guarded Pre (bind m f) Post.
Proof.
  intros Hm Hf s Hp. specialize (Hm s Hp). unfold bind.
  destruct (m s) as [a s'| | |]; try exact Hm. apply Hf. exact Hm.
Qed.

Lemma guarded_conseq {A} (Pre Pre' : _ -> Prop) (Post Post' : A -> _ -> Prop)
  (m : M A) :
  guarded Pre' m Post' ->
  (forall s, Pre s -> Pre' s) ->
  (forall a s, Post' a s -> Post a s) ->
  guarded Pre m Post.
Proof.
  intros H Hpre Hpost s Hp. specialize (H s (Hpre _ Hp)).
  destruct (m s); auto.
Qed.

Lemma guarded_gets {A} (Pre : _ -> Prop) (f : wkb_parse_state -> A) :
  guarded Pre (gets f) (fun a s => Pre s /\ a = f s).
Proof. intros s Hp. simpl. auto. Qed.

Lemma guarded_modify (Pre : _ -> Prop) (Post : unit -> _ -> Prop)
  (f : wkb_parse_state -> wkb_parse_state) :
  (forall s, Pre s -> Post tt (f s)) -> guarded Pre (modify f) Post.
Proof. intros H s Hp. simpl. auto. Qed.

Lemma guarded_pure {A} (Pre : _ -> Prop) (P : Prop) (m : M A) Post :
  (P -> guarded Pre m Post) -> guarded (fun s => Pre s /\ P) m Post.
Proof. intros H s [Hp HP]. apply H; assumption. Qed.

Lemma bounded_ret {A} (a : A) : bounded (ret a).
Proof. apply guarded_ret. auto. Qed.

Lemma bounded_bind {A B} (m : M A) (f : A -> M B) :
  bounded m -> (forall a, bounded (f a)) -> bounded (bind m f).
Proof. intros Hm Hf. eapply guarded_bind; [exact Hm|exact Hf]. Qed.

Lemma bounded_gets {A} (f : wkb_parse_state -> A) : bounded (gets f).
Proof. intros s Hp. simpl. exact Hp. Qed.

Lemma bounded_modify (f : wkb_parse_state -> wkb_parse_state) :
  (forall s, in_bounds s -> in_bounds (f s)) -> bounded (modify f).
Proof. intros H. apply guarded_modify. exact H. Qed.

Lemma bounded_when (c : bool) (m : M unit) :
  bounded m -> bounded (when c m).
Proof. intros H. destruct c; simpl; [exact H|apply bounded_ret]. Qed.

Lemma bounded_lwerror (e : lwerror_msg) : bounded (lwerror e).
Proof.
  intros s Hp. unfold lwerror.
  destruct lwerror_returns eqn:Hr; simpl; auto.
Qed.

(** After the bounds check, either the error flag is up or the bytes asked
    for are inside the declared size. *)
Lemma guarded_check (n : Z) :
  guarded in_bounds (wkb_parse_state_check n)
          (fun _ s => in_bounds s /\
                      (error s = true \/ pos s + n <= wkb_size s)).
Proof.
  intros s Hs.
  unfold wkb_parse_state_check, bind, gets, when, lwerror, modify, ret.
  destruct (Z.gtb_spec (pos s + n) (wkb_size s)) as [Hgt|Hle].
  - destruct lwerror_returns eqn:Hr; simpl; [|reflexivity].
    split; [exact Hs|left; reflexivity].
  - simpl. split; [exact Hs|right; exact Hle].
Qed.

Lemma bounded_check (n : Z) : bounded (wkb_parse_state_check n).
Proof.
  eapply guarded_conseq; [apply guarded_check|auto|].
  intros ? ? [H _]. exact H.
Qed.

(** [k] more bytes are inside the declared size. *)
#[local] Abbreviation has_room k :=
  (fun s : wkb_parse_state => in_bounds s /\ pos s + k <= wkb_size s).

(** Reading [n] bytes that the check has seen, and stepping over them. *)
Lemma guarded_peek (n k : Z) :
  n <= k -> guarded (has_room k) (peek n) (fun _ => has_room k).
Proof.
  intros Hn s (Hs & Hk). unfold peek. destruct Hs as [Hp Hl].
  destruct (Z.leb_spec 0 (pos s)); [|lia].
  destruct (Z.leb_spec (pos s + n) (Z.of_nat (length (wkb s)))); [|lia].
  simpl. unfold in_bounds. auto.
Qed.

Lemma guarded_advance (n k : Z) :
  0 <= n <= k ->
  guarded (has_room k) (advance n) (fun _ => has_room (k - n)).
Proof.
  intros Hn. unfold advance. apply guarded_modify.
  intros s ((Hp & Hl) & Hk). unfold in_bounds. simpl.
  repeat split; lia.
Qed.

Lemma has_room_checked (n : Z) (s : wkb_parse_state) :
  (in_bounds s /\ (error s = true \/ pos s + n <= wkb_size s)) /\
  false = error s ->
  has_room n s.
Proof.
  intros [[H [He|Hr]] Herr]; [congruence|]. split; assumption.
Qed.

Lemma bounded_byte : bounded byte_from_wkb_state.
Proof.
  unfold byte_from_wkb_state.
  eapply guarded_bind; [apply guarded_check|intros ?].
  eapply guarded_bind; [apply guarded_gets|intros err].
  destruct err.
  - apply guarded_ret. intros s [[H _] _]. exact H.
  - eapply guarded_conseq with (Post' := fun _ : Z => in_bounds);
      [|apply has_room_checked|auto].
    eapply guarded_bind; [apply guarded_peek; lia|intros mem].
    eapply guarded_bind;
      [apply guarded_advance; unfold WKB_BYTE_SIZE; lia|intros ?].
    apply guarded_ret. intros s [H _]. exact H.
Qed.

Lemma guarded_integer :
  guarded in_bounds integer_from_wkb_state
          (fun v s => in_bounds s /\ 0 <= v).
Proof.
  unfold integer_from_wkb_state.
  eapply guarded_bind; [apply guarded_check|intros ?].
  eapply guarded_bind; [apply guarded_gets|intros err].
  destruct err.
  - apply guarded_ret. intros s [[H _] _]. split; [exact H|lia].
  - eapply guarded_conseq with (Post' := fun v s => in_bounds s /\ 0 <= v);
      [|apply has_room_checked|auto].
    eapply guarded_bind; [apply guarded_peek; lia|intros mem].
    eapply guarded_bind; [apply guarded_gets|intros swap].
    eapply guarded_bind;
      [eapply guarded_conseq;
       [apply (@guarded_advance WKB_INT_SIZE WKB_INT_SIZE);
        unfold WKB_INT_SIZE; lia
       |intros s [H _]; exact H|intros ? ? H; exact H]
      |intros ?].
    apply guarded_ret. intros s [H _].
    split; [exact H|apply host_value_nonneg].
Qed.

Lemma bounded_integer : bounded integer_from_wkb_state.
Proof.
  eapply guarded_conseq; [apply guarded_integer|auto|].
  intros ? ? [H _]. exact H.
Qed.

(** [double_from_wkb_state] has no check of its own: it is safe where its
    caller has checked for the eight bytes. *)
Lemma guarded_double (k : Z) :
  WKB_DOUBLE_SIZE <= k ->
  guarded (has_room k) double_from_wkb_state
          (fun _ => has_room (k - WKB_DOUBLE_SIZE)).
Proof.
  intros Hk. unfold double_from_wkb_state.
  eapply guarded_bind; [apply guarded_peek; exact Hk|intros mem].
  eapply guarded_bind; [apply guarded_gets|intros swap].
  eapply guarded_bind;
    [eapply guarded_conseq;
     [apply (@guarded_advance WKB_DOUBLE_SIZE k);
      unfold WKB_DOUBLE_SIZE in *; lia
     |intros s [H _]; exact H|intros ? ? H; exact H]
    |intros ?].
  apply guarded_ret. auto.
Qed.

Lemma guarded_doubles (count : nat) :
  forall k,
    WKB_DOUBLE_SIZE * Z.of_nat count <= k ->
    guarded (has_room k) (doubles_from_wkb_state count) (fun _ => in_bounds).
Proof.
  induction count as [|count IH]; intros k Hk; simpl doubles_from_wkb_state.
  - apply guarded_ret. intros s [H _]. exact H.
  - unfold WKB_DOUBLE_SIZE in *.
    eapply guarded_bind; [apply (@guarded_double k); unfold WKB_DOUBLE_SIZE; lia|].
    intros d. eapply guarded_bind; [|intros rest; apply bounded_ret].
    apply IH. unfold WKB_DOUBLE_SIZE. lia.
Qed.

Lemma bounded_set_error (b : bool) : bounded (modify (set_error b)).
Proof. apply bounded_modify. intros s H. exact H. Qed.

Lemma bounded_ptarray : bounded ptarray_from_wkb_state.
Proof.
  unfold ptarray_from_wkb_state.
  eapply guarded_bind; [apply guarded_integer|intros n].
  eapply guarded_bind; [apply guarded_gets|intros err].
  destruct err; [apply guarded_ret; intros s [[H _] _]; exact H|].
  destruct (Z.gtb_spec n maxpoints) as [Hgt|Hle].
  { eapply guarded_bind; [|intros ?; apply bounded_ret].
    apply guarded_modify. intros s [[H _] _]. exact H. }
  eapply guarded_bind; [apply guarded_gets|intros hz].
  eapply guarded_bind; [apply guarded_gets|intros hm]. cbv zeta.
  destruct (n =? 0);
    [apply guarded_ret; intros s [[[[H _] _] _] _]; exact H|].
  apply guarded_conseq with
    (Pre' := fun s => in_bounds s /\ 0 <= n)
    (Post' := fun _ : option POINTARRAY => in_bounds);
    [|intros s [[[[H Hn] _] _] _]; split; assumption|auto].
  apply guarded_pure. intros Hn.
  destruct (@pa_size_exact n hz hm ltac:(lia)) as [E1 E2].
  rewrite E2, E1.
  pose proof (count_ndims_range hz hm) as Hd.
  eapply guarded_bind; [apply guarded_check|intros ?].
  eapply guarded_bind; [apply guarded_gets|intros err].
  destruct err; [apply guarded_ret; intros s [[H _] _]; exact H|].
  eapply guarded_conseq with
    (Post' := fun _ : option POINTARRAY => in_bounds);
    [|apply has_room_checked|auto].
  eapply guarded_bind; [apply guarded_gets|intros swap].
  destruct swap; cbn [negb].
  - eapply guarded_bind; [|intros dlist; apply bounded_ret].
    eapply guarded_conseq;
      [apply (@guarded_doubles (Z.to_nat (n * count_ndims hz hm))
                (WKB_DOUBLE_SIZE * (n * count_ndims hz hm)));
       unfold WKB_DOUBLE_SIZE; nia
      |intros s [H _]; exact H|auto].
  - eapply guarded_bind;
      [eapply guarded_conseq;
       [apply (@guarded_peek (WKB_DOUBLE_SIZE * (n * count_ndims hz hm))
                 (WKB_DOUBLE_SIZE * (n * count_ndims hz hm))); lia
       |intros s [H _]; exact H|intros ? ? H; exact H]
      |intros ptlist].
    eapply guarded_bind;
      [apply guarded_advance; unfold WKB_DOUBLE_SIZE; nia|intros ?].
    apply guarded_ret. intros s [H _]. exact H.
Qed.

Lemma bounded_lwpoint : bounded lwpoint_from_wkb_state.
Proof.
  unfold lwpoint_from_wkb_state. cbv zeta.
  eapply guarded_bind; [apply bounded_gets|intros hz].
  eapply guarded_bind; [apply bounded_gets|intros hm].
  pose proof (count_ndims_range hz hm) as Hd.
  eapply guarded_bind; [apply guarded_check|intros ?].
  eapply guarded_bind; [apply guarded_gets|intros err].
  destruct err; [apply guarded_ret; intros s [[H _] _]; exact H|].
  eapply guarded_conseq with (Post' := fun _ : option LWGEOM => in_bounds);
    [|apply has_room_checked|auto].
  eapply guarded_bind; [apply guarded_gets|intros swap].
  eapply guarded_bind with (Mid := fun _ : POINTARRAY => in_bounds).
  - destruct swap; cbn [negb].
    + eapply guarded_bind; [|intros dlist; apply bounded_ret].
      eapply guarded_conseq;
        [apply (@guarded_doubles (Z.to_nat (count_ndims hz hm))
                  (count_ndims hz hm * WKB_DOUBLE_SIZE));
         unfold WKB_DOUBLE_SIZE; lia
        |intros s [H _]; exact H|auto].
    + eapply guarded_bind;
        [eapply guarded_conseq;
         [apply (@guarded_peek (count_ndims hz hm * WKB_DOUBLE_SIZE)
                   (count_ndims hz hm * WKB_DOUBLE_SIZE)); lia
         |intros s [H _]; exact H|intros ? ? H; exact H]
        |intros ptlist].
      eapply guarded_bind;
        [apply guarded_advance; unfold WKB_DOUBLE_SIZE; lia|intros ?].
      apply guarded_ret. intros s [H _]. exact H.
  - intros pa.
    eapply guarded_bind; [apply bounded_gets|intros sr].
    destruct (isnan (getPoint2d_x pa) && isnan (getPoint2d_y pa));
      apply bounded_ret.
Qed.

Create HintDb bounded.

Ltac bounded_leaf :=
  solve [ assumption
        | apply bounded_ret
        | apply bounded_gets
        | apply bounded_modify; intros ? ?; assumption
        | apply bounded_lwerror
        | apply bounded_when; bounded_leaf
        | auto with bounded ].

Ltac bounded_auto :=
  repeat first
    [ bounded_leaf
    | apply bounded_bind; [ | intros ? ]
    | match goal with
      | |- bounded (if ?c then _ else _) => destruct c
      | |- bounded (match ?x with _ => _ end) => destruct x
      | |- bounded (when ?c _) => destruct c; simpl
      end ].

#[local] Hint Resolve bounded_check bounded_byte bounded_integer
  bounded_ptarray bounded_lwpoint : bounded.

Lemma bounded_lwline : bounded lwline_from_wkb_state.
Proof. unfold lwline_from_wkb_state. bounded_auto. Qed.

Lemma bounded_lwcircstring : bounded lwcircstring_from_wkb_state.
Proof. unfold lwcircstring_from_wkb_state. bounded_auto. Qed.

Lemma bounded_lwpoly_rings (k : nat) (poly : LWGEOM) :
  bounded (lwpoly_rings_from_wkb_state k poly).
Proof.
  revert poly. induction k as [|k IH]; intros poly; simpl; bounded_auto.
Qed.

#[local] Hint Resolve bounded_lwpoly_rings : bounded.

Lemma bounded_lwpoly : bounded lwpoly_from_wkb_state.
Proof. unfold lwpoly_from_wkb_state. bounded_auto. Qed.

Lemma bounded_lwtriangle : bounded lwtriangle_from_wkb_state.
Proof. unfold lwtriangle_from_wkb_state. bounded_auto. Qed.

Lemma bounded_lwtype (t : Z) : bounded (lwtype_from_wkb_state t).
Proof.
  unfold lwtype_from_wkb_state, extended_flags. bounded_auto.
Qed.

#[local] Hint Resolve bounded_lwline bounded_lwcircstring bounded_lwpoly
  bounded_lwtriangle bounded_lwtype : bounded.

Lemma bounded_call {A} (c : call_site) (m : M A) :
  bounded m -> bounded (call c m).
Proof. intros H. unfold call. bounded_auto. Qed.

Section BoundedRecursion.

Variable rec : M (option LWGEOM).
Hypothesis bounded_rec : bounded rec.

Lemma bounded_lwcurvepoly_rings (k : nat) (cp : LWGEOM) :
  bounded (lwcurvepoly_rings_from_wkb_state rec k cp).
Proof.
  pose proof (bounded_call FromRing bounded_rec).
  revert cp. induction k as [|k IH]; intros cp; simpl; bounded_auto.
Qed.

Lemma bounded_lwcollection_geoms (k : nat) (col : LWGEOM) :
  bounded (lwcollection_geoms_from_wkb_state rec k col).
Proof.
  pose proof (bounded_call FromCollection bounded_rec).
  revert col. induction k as [|k IH]; intros col; simpl; bounded_auto.
Qed.

Lemma bounded_lwcurvepoly : bounded (lwcurvepoly_from_wkb_state rec).
Proof.
  pose proof bounded_lwcurvepoly_rings.
  unfold lwcurvepoly_from_wkb_state. bounded_auto.
Qed.

Lemma bounded_lwcollection : bounded (lwcollection_from_wkb_state rec).
Proof.
  pose proof bounded_lwcollection_geoms.
  unfold lwcollection_from_wkb_state. bounded_auto.
Qed.

Lemma bounded_body : bounded (lwgeom_from_wkb_state_body rec).
Proof.
  pose proof bounded_lwcurvepoly. pose proof bounded_lwcollection.
  unfold lwgeom_from_wkb_state_body, lwgeom_dispatch. bounded_auto.
Qed.

End BoundedRecursion.

Lemma bounded_lwgeom_from_wkb_state (fuel : nat) :
  bounded (lwgeom_from_wkb_state fuel).
Proof.
  induction fuel as [|fuel IH]; simpl.
  - intros s _. exact I.
  - apply bounded_body. exact IH.
Qed.

End MemorySafety.

(** [lwgeom_from_wkb] is safe on every input.  Whatever the bytes of the
    buffer, the check flags, the byte order of the host and the error
    handler: told a size that the buffer has, the decoder reads no byte
    outside the buffer, ends, and ends with the position inside the declared
    size; and it leaves through [lwerror] only when the installed handler
    does not return. *)
Theorem lwgeom_from_wkb_memory_safe {E : liblwgeom} (buf : list byte)
  (size chk : Z) :
  0 <= size <= Z.of_nat (length buf) ->
  match lwgeom_from_wkb buf size chk with
  | Ret _ s => 0 <= pos s <= size
  | Raise _ _ => lwerror_returns = false
  | Fault _ => False
  | Fuel => False
  end.
Proof.
  intros Hs.
  pose proof (lwgeom_from_wkb_total buf size chk) as Ht.
  unfold lwgeom_from_wkb, lwgeom_from_wkb_fuel in *.
  destruct (size =? 0) eqn:Hz; [simpl; lia|].
  assert (Hi : in_bounds (initial_state buf size chk)).
  { unfold in_bounds. simpl. lia. }
  pose proof (bounded_call FromCaller
                (bounded_lwgeom_from_wkb_state (S (Z.to_nat size)))
                Hi) as Hb.
  destruct (call FromCaller (lwgeom_from_wkb_state (S (Z.to_nat size)))
              (initial_state buf size chk)) as [a s| | |];
    try exact Hb; try exact Ht.
  destruct Hb as [Hp _]. rewrite Ht in Hp. exact Hp.
Qed.

Lemma lwgeom_from_wkb_memory_safe_witness :
  match @lwgeom_from_wkb host [x01; x02; x00; x00; xff; x07] 5 0 with
  | Ret _ s => 0 <= pos s <= 5
  | Raise _ _ => @lwerror_returns host = false
  | Fault _ => False
  | Fuel => False
  end.
Proof.
  apply (@lwgeom_from_wkb_memory_safe host [x01; x02; x00; x00; xff; x07] 5 0).
  simpl. lia.
Defined.

(* ================================================================== *)
(** ** Point counts above [maxpoints]                                   *)
(* ================================================================== *)

Section Oversized.

Context {E : liblwgeom}.

(** The SRID that the header leaves in the parse state. *)
#[local] Abbreviation header_srid hs sr :=
  (if hs : bool then clamp_srid (int32_of_uint32 (uint32 sr))
   else SRID_UNKNOWN).

(** A LineString or CircularString that declares more than [maxpoints]
    points, and a Polygon whose first ring does: [lwgeom_from_wkb] returns
    NULL with the error flag of the parse state up and without a call of
    [lwerror], so without a message, whatever the handler; the bytes behind
    the count are not looked at. *)
Theorem point_count_over_maxpoints (e : endian) (sr : Z) (hz hm hs : bool)
  (n nrings : Z) (rest : list byte) (chk : Z) :
  is_uint32 n -> maxpoints < n -> is_uint32 nrings -> 0 < nrings ->
  let line t := wkb_header e t sr hz hm hs ++ wkb_uint32 e n ++ rest in
  let poly := wkb_header e POLYGONTYPE sr hz hm hs
              ++ wkb_uint32 e nrings ++ wkb_uint32 e n ++ rest in
  let refused buf :=
    exists s, lwgeom_from_wkb buf (Z.of_nat (length buf)) chk = Ret None s
              /\ error s = true in
  refused (line LINETYPE) /\ refused (line CIRCSTRINGTYPE) /\ refused poly.
Proof.
  intros Hn Hmax Hr Hr0 line poly refused.
  assert (Hline : forall t,
            t = LINETYPE \/ t = CIRCSTRINGTYPE -> refused (line t)).
  { intros t Ht.
    assert (Hnone : t <> LWTYPE_NONE) by (destruct Ht; subst t; discriminate).
    destruct (@lwgeom_from_wkb_header _ e t sr hz hm hs
                (wkb_uint32 e n ++ rest) chk Hnone) as [Hrun Hv].
    unfold refused, line. rewrite Hrun. clear Hrun.
    match type of Hv with view ?s0 _ => set (s := s0) in * end.
    pose proof (@ptarray_from_wkb_state_refused _ s e n rest Hv eq_refl
                  eq_refl Hn Hmax) as Hpa.
    unfold bind at 1, lwgeom_dispatch, bind at 1, gets at 1.
    change (lwtype s) with t.
    destruct Ht; subst t; cbv iota;
      [unfold lwline_from_wkb_state|unfold lwcircstring_from_wkb_state];
      unfold bind at 1; rewrite Hpa; unfold bind, gets, modify, ret;
      cbn [error set_error]; eexists; split; reflexivity. }
  split; [apply Hline; left; reflexivity|].
  split; [apply Hline; right; reflexivity|].
  assert (Hnone : POLYGONTYPE <> LWTYPE_NONE) by discriminate.
  destruct (@lwgeom_from_wkb_header _ e POLYGONTYPE sr hz hm hs
              (wkb_uint32 e nrings ++ wkb_uint32 e n ++ rest) chk Hnone)
    as [Hrun Hv].
  unfold refused, poly. rewrite Hrun. clear Hrun.
  match type of Hv with view ?s0 _ => set (s := s0) in * end.
  pose proof (@integer_from_wkb_state_view _ s e nrings _ Hv eq_refl
                eq_refl Hr) as Hint.
  pose proof (@view_advance s (wkb_uint32 e nrings) _ Hv) as Hv1.
  unfold wkb_uint32 at 1 in Hv1. rewrite length_wkb_field in Hv1.
  change (Z.of_nat 4) with 4 in Hv1.
  pose proof (@ptarray_from_wkb_state_refused _ _ e n rest Hv1 eq_refl
                eq_refl Hn Hmax) as Hpa.
  unfold bind at 1, lwgeom_dispatch, bind at 1, gets at 1.
  change (lwtype s) with POLYGONTYPE. cbv iota.
  unfold lwpoly_from_wkb_state. unfold bind at 1. rewrite Hint.
  unfold bind at 1, gets at 1. cbn [error set_pos].
  change (error s) with false. cbv iota.
  unfold bind at 1, gets at 1. unfold bind at 1, gets at 1.
  unfold bind at 1, gets at 1.
  destruct (Z.eqb_spec nrings 0) as [?|_]; [lia|].
  destruct (Z.to_nat nrings) as [|k] eqn:Hk; [lia|].
  cbn [lwpoly_rings_from_wkb_state]. unfold bind at 1. rewrite Hpa.
  unfold bind, gets, modify, ret. cbn [error set_error].
  eexists; split; reflexivity.
Qed.

(** A Triangle whose ring declares more than [maxpoints] points is not
    refused: [lwgeom_from_wkb] returns TRIANGLE EMPTY, a geometry and not
    NULL, with the error flag of the parse state up, and again without a
    call of [lwerror]. *)
Theorem triangle_ring_over_maxpoints (e : endian) (sr : Z) (hz hm hs : bool)
  (n : Z) (rest : list byte) (chk : Z) :
  is_uint32 n -> maxpoints < n ->
  let buf := wkb_header e TRIANGLETYPE sr hz hm hs
             ++ wkb_uint32 e 1 ++ wkb_uint32 e n ++ rest in
  exists s,
    lwgeom_from_wkb buf (Z.of_nat (length buf)) chk
    = Ret (Some (lwtriangle_construct_empty (header_srid hs sr) hz hm)) s
    /\ error s = true.
Proof.
  intros Hn Hmax buf.
  assert (Hnone : TRIANGLETYPE <> LWTYPE_NONE) by discriminate.
  destruct (@lwgeom_from_wkb_header _ e TRIANGLETYPE sr hz hm hs
              (wkb_uint32 e 1 ++ wkb_uint32 e n ++ rest) chk Hnone)
    as [Hrun Hv].
  fold buf in Hrun, Hv. rewrite Hrun. clear Hrun.
  match type of Hv with view ?s0 _ => set (s := s0) in * end.
  assert (H1 : is_uint32 1) by (unfold is_uint32; lia).
  pose proof (@integer_from_wkb_state_view _ s e 1 _ Hv eq_refl
                eq_refl H1) as Hint.
  pose proof (@view_advance s (wkb_uint32 e 1) _ Hv) as Hv1.
  unfold wkb_uint32 at 1 in Hv1. rewrite length_wkb_field in Hv1.
  change (Z.of_nat 4) with 4 in Hv1.
  pose proof (@ptarray_from_wkb_state_refused _ _ e n rest Hv1 eq_refl
                eq_refl Hn Hmax) as Hpa.
  unfold bind at 1, lwgeom_dispatch, bind at 1, gets at 1.
  change (lwtype s) with TRIANGLETYPE. cbv iota.
  unfold lwtriangle_from_wkb_state. unfold bind at 1. rewrite Hint.
  unfold bind at 1, gets at 1. cbn [error set_pos].
  change (error s) with false. cbv iota.
  unfold bind at 1, gets at 1. unfold bind at 1, gets at 1.
  unfold bind at 1, gets at 1.
  change (1 =? 0) with false. change (negb (1 =? 1)) with false. cbv iota.
  unfold bind at 1. rewrite Hpa.
  unfold bind, gets, modify, ret. cbn [error set_error].
  assert (Hsr : header_srid hs sr = srid s) by (destruct hs; reflexivity).
  rewrite Hsr. eexists. split; reflexivity.
Qed.

End Oversized.

Lemma point_count_over_maxpoints_witness :
  let line t := wkb_header NDR t 4326 false false true
                ++ wkb_uint32 NDR 134217728 ++ [] in
  let poly := wkb_header NDR POLYGONTYPE 4326 false false true
              ++ wkb_uint32 NDR 1 ++ wkb_uint32 NDR 134217728 ++ [] in
  let refused buf :=
    exists s, @lwgeom_from_wkb host buf (Z.of_nat (length buf)) 0
              = Ret None s /\ error s = true in
  refused (line LINETYPE) /\ refused (line CIRCSTRINGTYPE) /\ refused poly.
Proof.
  apply (@point_count_over_maxpoints host NDR 4326 false false true
           134217728 1 [] 0).
  - unfold is_uint32. lia.
  - vm_compute. reflexivity.
  - unfold is_uint32. lia.
  - lia.
Defined.

Lemma triangle_ring_over_maxpoints_witness :
  let buf := wkb_header XDR TRIANGLETYPE 0 true false false
             ++ wkb_uint32 XDR 1 ++ wkb_uint32 XDR 4294967295 ++ [x00] in
  exists s,
    @lwgeom_from_wkb host buf (Z.of_nat (length buf)) 15
    = Ret (Some (lwtriangle_construct_empty (@SRID_UNKNOWN host) true false))
          s
    /\ error s = true.
Proof.
  apply (@triangle_ring_over_maxpoints host XDR 0 true false false
           4294967295 [x00] 15).
  - unfold is_uint32. lia.
  - vm_compute. reflexivity.
Defined.

(* ================================================================== *)
(** ** The byte-order byte                                              *)
(* ================================================================== *)

(** A buffer whose first byte is neither 0 nor 1 is refused at that byte,
    whatever follows it: [lwgeom_from_wkb] reports "Invalid endian flag
    value encountered." and, if the handler returns, hands back NULL with
    one byte consumed and the error flag of the parse state still down. *)
Theorem invalid_endian_flag {E : liblwgeom} (b : byte) (rest : list byte)
  (size chk : Z) :
  0 < size <= Z.of_nat (length (b :: rest)) ->
  byte_to_Z b <> 0 -> byte_to_Z b <> 1 ->
  match lwgeom_from_wkb (b :: rest) size chk with
  | Ret r s => lwerror_returns = true /\ r = None /\ pos s = 1 /\
               error s = false
  | Raise e _ => lwerror_returns = false /\ e = Invalid_endian_flag_value
  | Fault _ | Fuel => False
  end.
Proof.
  intros Hs H0 H1.
  unfold lwgeom_from_wkb, lwgeom_from_wkb_fuel.
  destruct (Z.eqb_spec size 0) as [?|_]; [lia|].
  unfold call. unfold bind at 1, modify at 1.
  cbn [lwgeom_from_wkb_state]. unfold bind at 1.
  unfold lwgeom_from_wkb_state_body. unfold bind at 1.
  set (s := set_stack _ _).
  assert (Hb : byte_from_wkb_state s
               = Ret (byte_to_Z b) (set_pos 1 s)).
  { assert (Hc : wkb_parse_state_check WKB_BYTE_SIZE s = Ret tt s).
    { unfold wkb_parse_state_check, bind, gets, when.
      change (pos s) with 0. change (wkb_size s) with size.
      unfold WKB_BYTE_SIZE.
      destruct (Z.gtb_spec (0 + 1) size) as [?|_]; [lia|reflexivity]. }
    assert (Hp : peek WKB_BYTE_SIZE s = Ret [b] s).
    { unfold peek. change (pos s) with 0.
      change (wkb s) with (b :: rest). unfold WKB_BYTE_SIZE.
      destruct (Z.leb_spec (0 + 1) (Z.of_nat (length (b :: rest))));
        [reflexivity|cbn [length] in *; lia]. }
    unfold byte_from_wkb_state, bind. rewrite Hc. unfold gets.
    change (error s) with false. cbv beta iota. rewrite Hp.
    unfold advance, modify, ret. cbn [le_value].
    replace (byte_to_Z b + 256 * 0) with (byte_to_Z b) by lia.
    reflexivity. }
  rewrite Hb. unfold bind at 1, gets at 1.
  change (error (set_pos 1 s)) with false. cbv iota.
  destruct (Z.eqb_spec (byte_to_Z b) 1) as [?|_]; [contradiction|].
  destruct (Z.eqb_spec (byte_to_Z b) 0) as [?|_]; [contradiction|].
  cbn [negb andb]. unfold bind, lwerror, modify, ret.
  destruct lwerror_returns; repeat split; reflexivity.
Qed.

Lemma invalid_endian_flag_witness :
  match @lwgeom_from_wkb host [x02; x01; x00; x00; x00] 5 0 with
  | Ret r s => @lwerror_returns host = true /\ r = None /\ pos s = 1 /\
               error s = false
  | Raise e _ => @lwerror_returns host = false /\
                 e = Invalid_endian_flag_value
  | Fault _ | Fuel => False
  end.
Proof.
  apply (@invalid_endian_flag host x02 [x01; x00; x00; x00] 5 0).
  - simpl. lia.
  - vm_compute. discriminate.
  - vm_compute. discriminate.
Defined.

(* ================================================================== *)
(** ** [lwgeom_set_srid] and [lwgeom_dimension]                         *)
(* ================================================================== *)

(** Induction over a geometry tree, with the property at hand for every
    ring of a curve polygon and every child of a collection. *)
Lemma LWGEOM_tree_ind (P : LWGEOM -> Prop) :
  (forall sr hz hm pa, P (LWPOINT sr hz hm pa)) ->
  (forall sr hz hm pa, P (LWLINE sr hz hm pa)) ->
  (forall sr hz hm pa, P (LWCIRCSTRING sr hz hm pa)) ->
  (forall sr hz hm pa, P (LWTRIANGLE sr hz hm pa)) ->
  (forall sr hz hm rings, P (LWPOLY sr hz hm rings)) ->
  (forall sr hz hm rings, Forall P rings -> P (LWCURVEPOLY sr hz hm rings)) ->
  (forall t sr hz hm geoms,
      Forall P geoms -> P (LWCOLLECTION t sr hz hm geoms)) ->
  forall g, P g.
Proof.
  intros Hpt Hl Hc Ht Hp Hcp Hco. fix IH 1. intros g.
  destruct g as [sr hz hm pa|sr hz hm pa|sr hz hm pa|sr hz hm pa
                 |sr hz hm rings|sr hz hm rings|t sr hz hm geoms].
  - apply Hpt.
  - apply Hl.
  - apply Hc.
  - apply Ht.
  - apply Hp.
  - apply Hcp. induction rings as [|r rings IHr]; constructor;
      [apply IH|exact IHr].
  - apply Hco. induction geoms as [|r geoms IHr]; constructor;
      [apply IH|exact IHr].
Qed.

Lemma all_geoms_Forall (f : LWGEOM -> bool) (l : list LWGEOM) :
  all_geoms f l = true <-> Forall (fun g => f g = true) l.
Proof.
  induction l as [|g l IH]; simpl.
  - split; [constructor|reflexivity].
  - rewrite andb_true_iff, IH. split.
    + intros [H1 H2]. constructor; assumption.
    + intros H. inversion H; subst. split; assumption.
Qed.

Lemma all_geoms_map (f : LWGEOM -> bool) (h : LWGEOM -> LWGEOM)
  (l : list LWGEOM) :
  all_geoms f (map h l) = all_geoms (fun g => f (h g)) l.
Proof.
  induction l as [|g l IH]; simpl; [reflexivity|]. rewrite IH. reflexivity.
Qed.

Lemma all_geoms_ext (f1 f2 : LWGEOM -> bool) (l : list LWGEOM) :
  Forall (fun g => f1 g = f2 g) l -> all_geoms f1 l = all_geoms f2 l.
Proof.
  induction 1 as [|g l Hg _ IH]; simpl; [reflexivity|].
  rewrite Hg, IH. reflexivity.
Qed.

Lemma sum_geoms_map (f : LWGEOM -> Z) (h : LWGEOM -> LWGEOM)
  (l : list LWGEOM) :
  sum_geoms f (map h l) = sum_geoms (fun g => f (h g)) l.
Proof.
  induction l as [|g l IH]; simpl; [reflexivity|]. rewrite IH. reflexivity.
Qed.

Lemma sum_geoms_ext (f1 f2 : LWGEOM -> Z) (l : list LWGEOM) :
  Forall (fun g => f1 g = f2 g) l -> sum_geoms f1 l = sum_geoms f2 l.
Proof.
  induction 1 as [|g l Hg _ IH]; simpl; [reflexivity|].
  rewrite Hg, IH. reflexivity.
Qed.

Lemma lwgeom_srid_set_srid (g : LWGEOM) (srid : Z) :
  lwgeom_srid (lwgeom_set_srid g srid) = srid.
Proof. destruct g; reflexivity. Qed.

Lemma lwgeom_type_set_srid (g : LWGEOM) (srid : Z) :
  lwgeom_type (lwgeom_set_srid g srid) = lwgeom_type g.
Proof. destruct g; reflexivity. Qed.

(** [lwgeom_set_srid] reaches every geometry of the tree: afterwards the
    geometry, each member of each collection under it and each ring of each
    curve polygon under it carry the new SRID, however deep the nesting. *)
Theorem lwgeom_set_srid_throughout (g : LWGEOM) (srid : Z) :
  collections_tagged g = true ->
  srid_throughout srid (lwgeom_set_srid g srid) = true.
Proof.
  induction g as [sr hz hm pa|sr hz hm pa|sr hz hm pa|sr hz hm pa
                  |sr hz hm rings|sr hz hm rings IH|t sr hz hm geoms IH]
    using LWGEOM_tree_ind; intros Ht;
    cbn [lwgeom_set_srid srid_throughout lwgeom_srid];
    rewrite Z.eqb_refl; cbn [andb]; try reflexivity.
  - cbn [collections_tagged] in Ht. apply all_geoms_Forall in Ht.
    rewrite all_geoms_map. apply all_geoms_Forall.
    rewrite Forall_forall in *. intros r Hr. apply IH; auto.
  - cbn [collections_tagged] in Ht. apply andb_true_iff in Ht.
    destruct Ht as [Hc Ht]. rewrite Hc.
    apply all_geoms_Forall in Ht.
    rewrite all_geoms_map. apply all_geoms_Forall.
    rewrite Forall_forall in *. intros r Hr. apply IH; auto.
Qed.

Lemma lwgeom_is_empty_set_srid (g : LWGEOM) (srid : Z) :
  lwgeom_is_empty (lwgeom_set_srid g srid) = lwgeom_is_empty g.
Proof.
  induction g as [sr hz hm pa|sr hz hm pa|sr hz hm pa|sr hz hm pa
                  |sr hz hm rings|sr hz hm rings IH|t sr hz hm geoms IH]
    using LWGEOM_tree_ind;
    cbn [lwgeom_set_srid lwgeom_is_empty]; try reflexivity.
  - rewrite all_geoms_map. apply all_geoms_ext. exact IH.
  - destruct (lwtype_is_collection t); [|reflexivity].
    rewrite all_geoms_map. apply all_geoms_ext. exact IH.
Qed.

Lemma lwgeom_count_vertices_set_srid (g : LWGEOM) (srid : Z) :
  lwgeom_count_vertices (lwgeom_set_srid g srid) = lwgeom_count_vertices g.
Proof.
  induction g as [sr hz hm pa|sr hz hm pa|sr hz hm pa|sr hz hm pa
                  |sr hz hm rings|sr hz hm rings IH|t sr hz hm geoms IH]
    using LWGEOM_tree_ind; try reflexivity.
  - pose proof (lwgeom_is_empty_set_srid (LWCURVEPOLY sr hz hm rings) srid)
      as He.
    cbn [lwgeom_set_srid] in *. cbn [lwgeom_count_vertices]. 
    cbn [lwgeom_is_empty] in He |- *. rewrite He.
    rewrite sum_geoms_map. rewrite (sum_geoms_ext _ _ IH). reflexivity.
  - pose proof (lwgeom_is_empty_set_srid (LWCOLLECTION t sr hz hm geoms) srid)
      as He.
    cbn [lwgeom_set_srid] in *. cbn [lwgeom_count_vertices]. 
    cbn [lwgeom_is_empty] in He |- *. rewrite He.
    destruct (lwtype_is_collection t); [|reflexivity].
    rewrite sum_geoms_map. rewrite (sum_geoms_ext _ _ IH). reflexivity.
Qed.

(** [lwgeom_set_srid] touches nothing but SRIDs: the kind, the emptiness,
    the number of vertices and the need of a bounding box are what they
    were, and of two calls in a row the second one decides. *)
Theorem lwgeom_set_srid_only_srid (g : LWGEOM) (a b : Z) :
  lwgeom_type (lwgeom_set_srid g a) = lwgeom_type g /\
  lwgeom_is_empty (lwgeom_set_srid g a) = lwgeom_is_empty g /\
  lwgeom_count_vertices (lwgeom_set_srid g a) = lwgeom_count_vertices g /\
  lwgeom_needs_bbox (lwgeom_set_srid g a) = lwgeom_needs_bbox g /\
  lwgeom_set_srid (lwgeom_set_srid g a) b = lwgeom_set_srid g b.
Proof.
  split; [apply lwgeom_type_set_srid|].
  split; [apply lwgeom_is_empty_set_srid|].
  split; [apply lwgeom_count_vertices_set_srid|].
  split.
  - unfold lwgeom_needs_bbox.
    rewrite lwgeom_type_set_srid, lwgeom_count_vertices_set_srid.
    reflexivity.
  - induction g as [sr hz hm pa|sr hz hm pa|sr hz hm pa|sr hz hm pa
                    |sr hz hm rings|sr hz hm rings IH|t sr hz hm geoms IH]
      using LWGEOM_tree_ind; cbn [lwgeom_set_srid]; try reflexivity.
    + f_equal. rewrite map_map. apply map_ext_Forall. exact IH.
    + f_equal. destruct (lwtype_is_collection t); [|reflexivity].
      rewrite map_map. apply map_ext_Forall. exact IH.
Qed.

Lemma lwgeom_set_srid_throughout_witness :
  srid_throughout 4326
    (lwgeom_set_srid
       (LWCOLLECTION COLLECTIONTYPE 0 false false
          [LWCURVEPOLY 3857 false false [line_2];
           LWCOLLECTION MULTIPOINTTYPE 0 false false [point_0_0]])
       4326)
  = true.
Proof.
  apply (@lwgeom_set_srid_throughout
           (LWCOLLECTION COLLECTIONTYPE 0 false false
              [LWCURVEPOLY 3857 false false [line_2];
               LWCOLLECTION MULTIPOINTTYPE 0 false false [point_0_0]])
           4326).
  reflexivity.
Defined.

Section DimensionTheorems.

Variable lwpsurface_is_closed : LWGEOM -> bool.

#[local] Abbreviation dimension := (lwgeom_dimension lwpsurface_is_closed).

Lemma max_dimension_spec (f : LWGEOM -> Z) (l : list LWGEOM) :
  forall m,
    m <= max_dimension f l m /\
    (forall g, In g l -> f g <= max_dimension f l m) /\
    (max_dimension f l m = m \/ exists g, In g l /\ max_dimension f l m = f g).
Proof.
  induction l as [|g l IH]; intros m; cbn [max_dimension].
  - split; [lia|]. split; [intros g []|left; reflexivity].
  - cbv zeta.
    destruct (IH (if f g >? m then f g else m)) as (H1 & H2 & H3).
    destruct (Z.gtb_spec (f g) m) as [Hgt|Hle].
    + split; [lia|]. split.
      * intros g' [<-|Hin]; [exact H1|apply H2; exact Hin].
      * right. destruct H3 as [H3|(g' & Hin & H3)].
        -- exists g. split; [left; reflexivity|exact H3].
        -- exists g'. split; [right; exact Hin|exact H3].
    + split; [exact H1|]. split.
      * intros g' [<-|Hin]; [lia|apply H2; exact Hin].
      * destruct H3 as [H3|(g' & Hin & H3)]; [left; exact H3|].
        right. exists g'. split; [right; exact Hin|exact H3].
Qed.

(** The dimension that [lwgeom_dimension] reports lies between -1 and 3,
    and is -1 for a geometry of unknown kind only.  For a
    GEOMETRYCOLLECTION it is the largest dimension of its members: at least
    the dimension of each member, and the dimension of one of them unless it
    is 0; so a collection that is empty, or holds members of unknown kind
    only, reports 0. *)
Theorem lwgeom_dimension_range (g : LWGEOM) :
  -1 <= dimension g <= 3 /\
  (dimension g = -1 <-> lwgeom_type g = LWTYPE_NONE) /\
  forall sr hz hm geoms,
    g = LWCOLLECTION COLLECTIONTYPE sr hz hm geoms ->
    0 <= dimension g /\
    (forall m, In m geoms -> dimension m <= dimension g) /\
    (dimension g = 0 \/ exists m, In m geoms /\ dimension g = dimension m).
Proof.
  assert (Hcol : forall sr hz hm geoms,
            dimension (LWCOLLECTION COLLECTIONTYPE sr hz hm geoms)
            = max_dimension dimension geoms 0) by reflexivity.
  assert (Hrange : forall g, -1 <= dimension g <= 3 /\
                             (dimension g = -1 <->
                              lwgeom_type g = LWTYPE_NONE)).
  { clear g. intros g.
    induction g as [sr hz hm pa|sr hz hm pa|sr hz hm pa|sr hz hm pa
                    |sr hz hm rings|sr hz hm rings IH|t sr hz hm geoms IH]
      using LWGEOM_tree_ind;
      try (cbn; split; [lia|split; [lia|discriminate]]).
    destruct t;
      try (cbn; split; [lia|split; [lia|discriminate]]).
    - cbn. split; [lia|]. split; reflexivity.
    - rewrite Hcol.
      destruct (max_dimension_spec dimension geoms 0) as (H1 & _ & H3).
      split; [|split; [lia|discriminate]].
      destruct H3 as [->|(m & Hin & ->)]; [lia|].
      rewrite Forall_forall in IH. destruct (IH m Hin) as [Hr _].
      split; [|lia]. lia.
    - cbn. destruct (lwpsurface_is_closed _);
        (split; [lia|split; [lia|discriminate]]). }
  destruct (Hrange g) as [Hr Hn]. split; [exact Hr|]. split; [exact Hn|].
  intros sr hz hm geoms ->. rewrite Hcol.
  destruct (max_dimension_spec dimension geoms 0) as (H1 & H2 & H3).
  split; [exact H1|]. split; [exact H2|exact H3].
Qed.

End DimensionTheorems.

(* ================================================================== *)
(** ** What the decoder builds                                          *)
(* ================================================================== *)

Lemma triple_and {A} U (Pre : _ -> Prop) (m : M A)
  (Post1 Post2 : A -> _ -> Prop) (Exc1 Exc2 : _ -> Prop) :
  triple U Pre m Post1 Exc1 -> triple U Pre m Post2 Exc2 ->
  triple U Pre m (fun a s => Post1 a s /\ Post2 a s)
         (fun s => Exc1 s /\ Exc2 s).
Proof.
  intros H1 H2 s Hp. specialize (H1 s Hp). specialize (H2 s Hp).
  destruct (m s); auto.
Qed.

Lemma le_value_bound (mem : list byte) :
  0 <= le_value mem < 256 ^ Z.of_nat (length mem).
Proof.
  induction mem as [|b mem IH]; cbn [le_value length].
  - simpl. lia.
  - pose proof (byte_to_Z_range b).
    rewrite Nat2Z.inj_succ, Z.pow_succ_r by lia. lia.
Qed.

Lemma length_swap_loop (iters j size : nat) (p : list byte) :
  length (swap_loop iters j size p) = length p.
Proof.
  revert j p. induction iters as [|k IH]; intros j p; cbn [swap_loop].
  - reflexivity.
  - cbv zeta. rewrite IH, !length_upd. reflexivity.
Qed.

Section HostValues.

Context {E : liblwgeom}.

Lemma host_value_bound (mem : list byte) (n : nat) :
  (length mem <= n)%nat -> 0 <= host_value mem < 256 ^ Z.of_nat n.
Proof.
  intros Hl. unfold host_value.
  assert (Hp : forall l : list byte,
            (length l <= n)%nat -> 0 <= le_value l < 256 ^ Z.of_nat n).
  { intros l Hn. pose proof (le_value_bound l) as Hb.
    assert (256 ^ Z.of_nat (length l) <= 256 ^ Z.of_nat n)
      by (apply Z.pow_le_mono_r; lia).
    lia. }
  destruct IS_BIG_ENDIAN; apply Hp; rewrite ?length_rev; exact Hl.
Qed.

Lemma host_value_swapped_bound (swap : bool) (mem : list byte) (n : nat) :
  (length mem <= n)%nat ->
  0 <= host_value (if swap then swap_in_place n mem else mem)
    < 256 ^ Z.of_nat n.
Proof.
  intros Hl. apply host_value_bound.
  destruct swap; [|exact Hl].
  unfold swap_in_place. rewrite length_swap_loop. exact Hl.
Qed.

Lemma host_doubles_spec (count : nat) :
  forall mem,
    length (host_doubles count mem) = count /\
    Forall is_double (host_doubles count mem).
Proof.
  induction count as [|count IH]; intros mem; cbn [host_doubles].
  - split; [reflexivity|constructor].
  - destruct (IH (skipn 8 mem)) as [Hl Hd].
    split; [cbn [length]; rewrite Hl; reflexivity|].
    constructor; [|exact Hd].
    apply (@host_value_bound (firstn 8 mem) 8). apply firstn_le_length.
Qed.

End HostValues.

Lemma forallb_is_doubleb (l : list double) :
  Forall is_double l -> forallb is_doubleb l = true.
Proof.
  intros H. apply forallb_forall. intros d Hin.
  rewrite Forall_forall in H. specialize (H d Hin).
  unfold is_double in H. unfold is_doubleb.
  apply andb_true_iff. split; [apply Z.leb_le|apply Z.ltb_lt]; lia.
Qed.

Lemma wf_ptarray_intro (hz hm : bool) (n : Z) (l : list double) :
  is_uint32 n -> length l = Z.to_nat (n * count_ndims hz hm) ->
  Forall is_double l ->
  wf_ptarray hz hm (mkPOINTARRAY hz hm n l) = true.
Proof.
  intros [H0 H1] Hl Hd. unfold wf_ptarray. cbn [npoints serialized_pointlist].
  rewrite (forallb_is_doubleb Hd), Hl, Nat.eqb_refl.
  destruct (Z.leb_spec 0 n); [|lia].
  destruct (Z.ltb_spec n 4294967296); [|lia]. reflexivity.
Qed.

Section Built.

Context {E : liblwgeom}.

(** Nothing is asked of the budget, of errors or of faults. *)
#[local] Abbreviation yields Pre m Post :=
  (triple True Pre m Post (fun _ : wkb_parse_state => True)).

Lemma yields_framed {A} (s0 : wkb_parse_state) (m : M A) :
  keeps True (frame s0) (frame s0) m ->
  yields (frame s0) m (fun _ => frame s0).
Proof.
  intros H. eapply triple_conseq; [exact H|auto|auto|auto].
Qed.

(** A value read leaves a frame and has a property of its own. *)
Lemma yields_value {A} (s0 : wkb_parse_state) (m : M A) (Q : A -> Prop) :
  keeps True (frame s0) (frame s0) m ->
  yields (fun _ => True) m (fun a _ => Q a) ->
  yields (frame s0) m (fun a s => frame s0 s /\ Q a).
Proof.
  intros Hf Hq s Hs. specialize (Hf s Hs). specialize (Hq s I).
  destruct (m s); auto.
Qed.

Lemma integer_is_uint32 :
  yields (fun _ => True) integer_from_wkb_state (fun v _ => is_uint32 v).
Proof.
  intros s _.
  unfold integer_from_wkb_state, wkb_parse_state_check, bind, gets, when,
    lwerror, modify, ret, peek, advance.
  assert (Hz : is_uint32 0) by (unfold is_uint32; lia).
  assert (Hv : forall (swap : bool) (mem : list byte),
            (length mem <= 4)%nat ->
            is_uint32 (host_value (if swap then swap_in_place 4 mem
                                   else mem))).
  { intros swap mem Hl. apply (@host_value_swapped_bound _ swap mem 4 Hl). }
  assert (Hl : forall l : list byte,
            (length (firstn (Z.to_nat WKB_INT_SIZE) l) <= 4)%nat)
    by (intros l; apply firstn_le_length).
  destruct (pos s + WKB_INT_SIZE >? wkb_size s);
    [destruct lwerror_returns|]; cbn [error set_error]; try exact I;
    try exact Hz;
    (destruct (error s); [exact Hz|]);
    cbn [pos wkb];
    (destruct ((0 <=? pos s)
               && (pos s + WKB_INT_SIZE <=? Z.of_nat (length (wkb s))));
     [|exact I]);
    apply Hv; apply Hl.
Qed.

Lemma yields_integer (s0 : wkb_parse_state) :
  yields (frame s0) integer_from_wkb_state
         (fun v s => frame s0 s /\ is_uint32 v).
Proof.
  apply yields_value; [apply framed_integer|apply integer_is_uint32].
Qed.

Lemma double_is_double :
  yields (fun _ => True) double_from_wkb_state (fun d _ => is_double d).
Proof.
  intros s _.
  unfold double_from_wkb_state, bind, gets, modify, ret, peek, advance.
  destruct ((0 <=? pos s)
            && (pos s + WKB_DOUBLE_SIZE <=? Z.of_nat (length (wkb s))));
    [|exact I].
  apply (@host_value_swapped_bound _ (swap_bytes s) _ 8).
  apply firstn_le_length.
Qed.

Lemma doubles_are_doubles (count : nat) :
  yields (fun _ => True) (doubles_from_wkb_state count)
         (fun l _ => length l = count /\ Forall is_double l).
Proof.
  induction count as [|count IH]; cbn [doubles_from_wkb_state].
  - apply triple_ret. intros s _. split; [reflexivity|constructor].
  - intros s _. unfold bind.
    pose proof (@double_is_double s I) as Hd.
    destruct (double_from_wkb_state s) as [d s1| | |]; try exact I.
    pose proof (IH s1 I) as Hr.
    destruct (doubles_from_wkb_state count s1) as [l s2| | |]; try exact I.
    destruct Hr as [Hl Hf]. cbn [ret]. split.
    + cbn [length]. rewrite Hl. reflexivity.
    + constructor; assumption.
Qed.

Lemma frame_set_error (s0 s : wkb_parse_state) (b : bool) :
  frame s0 s -> frame s0 (set_error b s).
Proof. unfold frame. simpl. auto. Qed.

Lemma frame_set_pos (s0 s : wkb_parse_state) (k : Z) :
  frame s0 s -> frame s0 (set_pos k s).
Proof. unfold frame. simpl. auto. Qed.

Lemma built_ptarray_intro (s0 s : wkb_parse_state) (n : Z)
  (l : list double) :
  frame s0 s -> is_uint32 n ->
  length l = Z.to_nat (n * count_ndims (has_z s) (has_m s)) ->
  Forall is_double l ->
  built_ptarray s0 (mkPOINTARRAY (has_z s) (has_m s) n l).
Proof.
  intros Hf Hn Hl Hd.
  destruct (frame_fields Hf) as (_ & _ & _ & _ & _ & _ & Hz & Hm & _).
  unfold built_ptarray. cbn [pa_has_z pa_has_m]. rewrite <- Hz, <- Hm.
  repeat split. apply wf_ptarray_intro; assumption.
Qed.

Lemma yields_ptarray (s0 : wkb_parse_state) :
  yields (frame s0) ptarray_from_wkb_state
         (fun r s => frame s0 s /\
                     forall pa, r = Some pa -> built_ptarray s0 pa).
Proof.
  intros s Hs. unfold ptarray_from_wkb_state. unfold bind at 1.
  pose proof (@yields_integer s0 s Hs) as Hi.
  destruct (integer_from_wkb_state s) as [n s1| | |]; try exact I.
  destruct Hi as [Hf1 Hn].
  unfold bind at 1, gets at 1.
  destruct (error s1);
    [cbn [ret]; split; [exact Hf1|intros pa H; discriminate H]|].
  destruct (Z.gtb_spec n maxpoints) as [Hgt|Hle].
  { unfold bind, modify, ret.
    split; [apply frame_set_error; exact Hf1|intros pa H; discriminate H]. }
  unfold bind at 1, gets at 1. unfold bind at 1, gets at 1. cbv zeta.
  destruct (Z.eqb_spec n 0) as [Hn0|Hn0].
  { cbn [ret]. split; [exact Hf1|]. intros pa H. injection H as <-.
    unfold ptarray_construct. apply (built_ptarray_intro (s := s1));
      try assumption; [subst n; reflexivity|constructor]. }
  destruct (@pa_size_exact n (has_z s1) (has_m s1)
              ltac:(unfold is_uint32 in Hn; lia)) as [E1 E2].
  rewrite E1.
  unfold bind at 1.
  pose proof (@framed_check _ s0
                (uint32 (n * count_ndims (has_z s1) (has_m s1)
                         * WKB_DOUBLE_SIZE)) s1 Hf1) as Hc.
  destruct (wkb_parse_state_check _ s1) as [[] s2| | |]; try exact I.
  unfold bind at 1, gets at 1.
  destruct (error s2);
    [cbn [ret]; split; [exact Hc|intros pa H; discriminate H]|].
  unfold bind at 1, gets at 1.
  destruct (swap_bytes s2); cbn [negb].
  - unfold bind at 1.
    pose proof (@framed_doubles _ s0
                  (Z.to_nat (n * count_ndims (has_z s1) (has_m s1)))
                  s2 Hc) as Hfd.
    pose proof (@doubles_are_doubles
                  (Z.to_nat (n * count_ndims (has_z s1) (has_m s1)))
                  s2 I) as Hd.
    destruct (doubles_from_wkb_state _ s2) as [dlist s3| | |]; try exact I.
    cbn [ret]. split; [exact Hfd|]. intros pa H. injection H as <-.
    destruct Hd as [Hl Hd].
    unfold ptarray_construct.
    apply (built_ptarray_intro (s := s1)); assumption.
  - unfold bind at 1, peek.
    destruct ((0 <=? pos s2)
              && (pos s2 + _ <=? Z.of_nat (length (wkb s2))));
      [|exact I].
    unfold bind, advance, modify, ret.
    split; [apply frame_set_pos; exact Hc|].
    intros pa H. injection H as <-.
    unfold ptarray_construct_copy_data.
    destruct (host_doubles_spec
                (Z.to_nat (n * count_ndims (has_z s1) (has_m s1)))
                (firstn
                   (Z.to_nat
                      (uint32 (n * count_ndims (has_z s1) (has_m s1)
                               * WKB_DOUBLE_SIZE)))
                   (skipn (Z.to_nat (pos s2)) (wkb s2)))) as [Hl Hd].
    apply (built_ptarray_intro (s := s1)); assumption.
Qed.

(** [lwpoint_from_wkb_state] *)
Lemma yields_lwpoint (s0 : wkb_parse_state) :
  yields (frame s0) lwpoint_from_wkb_state
         (fun r _ => forall g, r = Some g -> built s0 POINTTYPE g).
Proof.
  intros s Hs. unfold lwpoint_from_wkb_state. cbv zeta.
  destruct (frame_fields Hs) as (_ & Hsr & _ & _ & _ & _ & Hz & Hm & _).
  unfold bind at 1, gets at 1. unfold bind at 1, gets at 1.
  pose proof (count_ndims_range (has_z s) (has_m s)) as Hd.
  unfold bind at 1.
  pose proof (@framed_check _ s0
                (count_ndims (has_z s) (has_m s) * WKB_DOUBLE_SIZE) s Hs)
    as Hc.
  destruct (wkb_parse_state_check _ s) as [[] s2| | |]; try exact I.
  destruct (frame_fields Hc) as (_ & Hsr2 & _).
  unfold bind at 1, gets at 1.
  destruct (error s2); [cbn [ret]; intros g H; discriminate H|].
  unfold bind at 1, gets at 1.
  assert (Hpt : forall (l : list double) (s3 : wkb_parse_state),
            frame s0 s3 ->
            length l = Z.to_nat (count_ndims (has_z s) (has_m s)) ->
            Forall is_double l ->
            match
              (sr <- gets srid;;
               (if isnan (getPoint2d_x (mkPOINTARRAY (has_z s) (has_m s) 1 l))
                   && isnan (getPoint2d_y
                               (mkPOINTARRAY (has_z s) (has_m s) 1 l))
                then ret (Some (lwpoint_construct_empty sr (has_z s)
                                                        (has_m s)))
                else ret (Some (lwpoint_construct sr
                                  (mkPOINTARRAY (has_z s) (has_m s) 1 l)))))
                s3
            with
            | Ret r _ => forall g, r = Some g -> built s0 POINTTYPE g
            | _ => True
            end).
  { intros l s3 Hf3 Hl Hdl.
    destruct (frame_fields Hf3) as (_ & Hsr3 & _).
    unfold bind, gets.
    destruct (isnan _ && isnan _); cbn [ret]; intros g H;
      injection H as <-; unfold built, built_as;
      cbn [lwpoint_construct_empty lwpoint_construct lwgeom_type
           lwgeom_srid lwgeom_has_z lwgeom_has_m pa_has_z pa_has_m
           wf_geom ptarray_construct npoints];
      rewrite Hsr3, Hz, Hm; repeat split.
    cbn [Z.eqb orb andb].
    rewrite <- Hz, <- Hm. apply wf_ptarray_intro;
      [unfold is_uint32; lia| |exact Hdl].
    rewrite Hl. f_equal. lia. }
  destruct (swap_bytes s2); cbn [negb].
  - unfold bind at 1. unfold bind at 1.
    pose proof (@framed_doubles _ s0
                  (Z.to_nat (count_ndims (has_z s) (has_m s))) s2 Hc) as Hfd.
    pose proof (@doubles_are_doubles
                  (Z.to_nat (count_ndims (has_z s) (has_m s))) s2 I) as Hdd.
    destruct (doubles_from_wkb_state _ s2) as [dlist s3| | |]; try exact I.
    destruct Hdd as [Hl Hdl]. cbn [ret].
    apply Hpt; assumption.
  - unfold bind at 1. unfold bind at 1, peek.
    destruct ((0 <=? pos s2)
              && (pos s2 + _ <=? Z.of_nat (length (wkb s2))));
      [|exact I].
    unfold bind at 1, advance, modify. cbn [ret].
    unfold ptarray_construct_copy_data.
    destruct (host_doubles_spec
                (Z.to_nat (1 * count_ndims (has_z s) (has_m s)))
                (firstn
                   (Z.to_nat (count_ndims (has_z s) (has_m s)
                              * WKB_DOUBLE_SIZE))
                   (skipn (Z.to_nat (pos s2)) (wkb s2)))) as [Hl Hdl].
    apply Hpt; [apply frame_set_pos; exact Hc| |exact Hdl].
    rewrite Hl. f_equal. lia.
Qed.

Lemma built_empty (s0 s : wkb_parse_state) (t : lwtype_t)
  (C : Z -> bool -> bool -> POINTARRAY -> LWGEOM) :
  (C = LWLINE /\ t = LINETYPE) \/ (C = LWCIRCSTRING /\ t = CIRCSTRINGTYPE)
  \/ (C = LWTRIANGLE /\ t = TRIANGLETYPE) ->
  frame s0 s ->
  built s0 t (C (srid s) (has_z s) (has_m s)
                (ptarray_construct (has_z s) (has_m s) 0 [])).
Proof.
  intros HC Hf.
  destruct (frame_fields Hf) as (_ & Hsr & _ & _ & _ & _ & Hz & Hm & _).
  rewrite Hsr, Hz, Hm.
  assert (Hw : wf_ptarray (has_z s0) (has_m s0)
                 (ptarray_construct (has_z s0) (has_m s0) 0 []) = true).
  { apply wf_ptarray_intro; [unfold is_uint32; lia|reflexivity|constructor]. }
  destruct HC as [[-> ->]|[[-> ->]|[-> ->]]]; unfold built, built_as;
    cbn [lwgeom_type lwgeom_srid lwgeom_has_z lwgeom_has_m wf_geom];
    repeat split; exact Hw.
Qed.

Lemma built_simple (s0 s : wkb_parse_state) (t : lwtype_t)
  (C : Z -> bool -> bool -> POINTARRAY -> LWGEOM) (pa : POINTARRAY) :
  (C = LWLINE /\ t = LINETYPE) \/ (C = LWCIRCSTRING /\ t = CIRCSTRINGTYPE)
  \/ (C = LWTRIANGLE /\ t = TRIANGLETYPE) ->
  frame s0 s -> built_ptarray s0 pa ->
  built s0 t (C (srid s) (pa_has_z pa) (pa_has_m pa) pa).
Proof.
  intros HC Hf (Hz & Hm & Hw).
  destruct (frame_fields Hf) as (_ & Hsr & _).
  rewrite Hsr, Hz, Hm.
  destruct HC as [[-> ->]|[[-> ->]|[-> ->]]]; unfold built, built_as;
    cbn [lwgeom_type lwgeom_srid lwgeom_has_z lwgeom_has_m wf_geom];
    repeat split; exact Hw.
Qed.

Ltac no_geometry := cbn [ret]; intros ? H; discriminate H.

Lemma lwerror_no_geometry (e : lwerror_msg) (s : wkb_parse_state)
  (Q : LWGEOM -> Prop) :
  match (lwerror e ;; ret None) s with
  | Ret r _ => forall g : LWGEOM, r = Some g -> Q g
  | _ => True
  end.
Proof.
  unfold bind, lwerror, ret. destruct lwerror_returns; [|exact I].
  intros g H. discriminate H.
Qed.

Lemma yields_lwline (s0 : wkb_parse_state) :
  yields (frame s0) lwline_from_wkb_state
         (fun r _ => forall g, r = Some g -> built s0 LINETYPE g).
Proof.
  intros s Hs. unfold lwline_from_wkb_state. unfold bind at 1.
  pose proof (@yields_ptarray s0 s Hs) as Hp.
  destruct (ptarray_from_wkb_state s) as [pa s1| | |]; try exact I.
  destruct Hp as [Hf Hpa].
  unfold bind at 1, gets at 1. destruct (error s1); [no_geometry|].
  unfold bind at 1, gets at 1. unfold bind at 1, gets at 1.
  unfold bind at 1, gets at 1. unfold bind at 1, gets at 1.
  assert (He : built s0 LINETYPE
                 (lwline_construct_empty (srid s1) (has_z s1) (has_m s1))).
  { apply (built_empty (C := LWLINE)); [tauto|exact Hf]. }
  destruct pa as [pa|]; [|cbn [ret]; intros g H; injection H as <-; exact He].
  destruct (npoints pa =? 0);
    [cbn [ret]; intros g H; injection H as <-; exact He|].
  destruct (check_requested _ _ && _); [apply lwerror_no_geometry|].
  cbn [ret]. intros g H. injection H as <-.
  apply (built_simple (C := LWLINE)); [tauto|exact Hf|].
  apply Hpa. reflexivity.
Qed.

Lemma yields_lwcircstring (s0 : wkb_parse_state) :
  yields (frame s0) lwcircstring_from_wkb_state
         (fun r _ => forall g, r = Some g -> built s0 CIRCSTRINGTYPE g).
Proof.
  intros s Hs. unfold lwcircstring_from_wkb_state. unfold bind at 1.
  pose proof (@yields_ptarray s0 s Hs) as Hp.
  destruct (ptarray_from_wkb_state s) as [pa s1| | |]; try exact I.
  destruct Hp as [Hf Hpa].
  unfold bind at 1, gets at 1. destruct (error s1); [no_geometry|].
  unfold bind at 1, gets at 1. unfold bind at 1, gets at 1.
  unfold bind at 1, gets at 1. unfold bind at 1, gets at 1.
  assert (He : built s0 CIRCSTRINGTYPE
                 (lwcircstring_construct_empty (srid s1) (has_z s1)
                                               (has_m s1))).
  { apply (built_empty (C := LWCIRCSTRING)); [tauto|exact Hf]. }
  destruct pa as [pa|]; [|cbn [ret]; intros g H; injection H as <-; exact He].
  destruct (npoints pa =? 0);
    [cbn [ret]; intros g H; injection H as <-; exact He|].
  destruct (check_requested _ _ && _); [no_geometry|].
  destruct (check_requested _ _ && _); [no_geometry|].
  cbn [ret]. intros g H. injection H as <-.
  apply (built_simple (C := LWCIRCSTRING)); [tauto|exact Hf|].
  apply Hpa. reflexivity.
Qed.

Lemma yields_lwtriangle (s0 : wkb_parse_state) :
  yields (frame s0) lwtriangle_from_wkb_state
         (fun r _ => forall g, r = Some g -> built s0 TRIANGLETYPE g).
Proof.
  intros s Hs. unfold lwtriangle_from_wkb_state. unfold bind at 1.
  pose proof (@yields_integer s0 s Hs) as Hi.
  destruct (integer_from_wkb_state s) as [nrings s1| | |]; try exact I.
  destruct Hi as [Hf1 _].
  unfold bind at 1, gets at 1. destruct (error s1); [no_geometry|].
  unfold bind at 1, gets at 1. unfold bind at 1, gets at 1.
  unfold bind at 1, gets at 1.
  destruct (nrings =? 0).
  { cbn [ret]. intros g H. injection H as <-.
    apply (built_empty (C := LWTRIANGLE)); [tauto|exact Hf1]. }
  destruct (negb (nrings =? 1)); [apply lwerror_no_geometry|].
  unfold bind at 1.
  pose proof (@yields_ptarray s0 s1 Hf1) as Hp.
  destruct (ptarray_from_wkb_state s1) as [pa s2| | |]; try exact I.
  destruct Hp as [Hf Hpa].
  unfold bind at 1, gets at 1. unfold bind at 1, gets at 1.
  unfold bind at 1, gets at 1. unfold bind at 1, gets at 1.
  destruct pa as [pa|].
  - destruct (check_requested _ _ && _); [apply lwerror_no_geometry|].
    destruct (check_requested _ _ && _); [apply lwerror_no_geometry|].
    cbn [ret]. intros g H. injection H as <-.
    apply (built_simple (C := LWTRIANGLE)); [tauto|exact Hf|].
    apply Hpa. reflexivity.
  - cbn [ret]. intros g H. injection H as <-.
    apply (built_empty (C := LWTRIANGLE)); [tauto|exact Hf].
Qed.

Lemma yields_lwpoly_rings (s0 : wkb_parse_state) (k : nat) :
  forall rings : list POINTARRAY,
    forallb (wf_ptarray (has_z s0) (has_m s0)) rings = true ->
    Z.of_nat (length rings) + Z.of_nat k < 4294967296 ->
    yields (frame s0)
           (lwpoly_rings_from_wkb_state k
              (LWPOLY (srid s0) (has_z s0) (has_m s0) rings))
           (fun r _ => forall g, r = Some g -> built s0 POLYGONTYPE g).
Proof.
  induction k as [|k IH]; intros rings Hw Hk s Hs;
    cbn [lwpoly_rings_from_wkb_state].
  - cbn [ret]. intros g H. injection H as <-.
    unfold built, built_as.
    cbn [lwgeom_type lwgeom_srid lwgeom_has_z lwgeom_has_m wf_geom].
    repeat split. rewrite Hw.
    destruct (Z.ltb_spec (Z.of_nat (length rings)) 4294967296); [|lia].
    reflexivity.
  - unfold bind at 1.
    pose proof (@yields_ptarray s0 s Hs) as Hp.
    destruct (ptarray_from_wkb_state s) as [pa s1| | |]; try exact I.
    destruct Hp as [Hf Hpa].
    destruct pa as [pa|]; [|no_geometry].
    unfold bind at 1, gets at 1.
    destruct (check_requested _ _ && _); [apply lwerror_no_geometry|].
    destruct (check_requested _ _ && _); [apply lwerror_no_geometry|].
    cbn [lwpoly_add_ring].
    apply IH; [|rewrite length_app; cbn [length]; lia|exact Hf].
    rewrite forallb_app, Hw. cbn [forallb andb].
    destruct (Hpa pa eq_refl) as (_ & _ & Hwp). rewrite Hwp. reflexivity.
Qed.

Lemma yields_lwpoly (s0 : wkb_parse_state) :
  yields (frame s0) lwpoly_from_wkb_state
         (fun r _ => forall g, r = Some g -> built s0 POLYGONTYPE g).
Proof.
  intros s Hs. unfold lwpoly_from_wkb_state. unfold bind at 1.
  pose proof (@yields_integer s0 s Hs) as Hi.
  destruct (integer_from_wkb_state s) as [nrings s1| | |]; try exact I.
  destruct Hi as [Hf1 Hn].
  destruct (frame_fields Hf1) as (_ & Hsr & _ & _ & _ & _ & Hz & Hm & _).
  unfold bind at 1, gets at 1. destruct (error s1); [no_geometry|].
  unfold bind at 1, gets at 1. unfold bind at 1, gets at 1.
  unfold bind at 1, gets at 1. cbv zeta.
  unfold lwpoly_construct_empty. rewrite Hsr, Hz, Hm.
  destruct (nrings =? 0).
  - apply (@yields_lwpoly_rings s0 0 [] eq_refl ltac:(simpl; lia) s1 Hf1).
  - apply (@yields_lwpoly_rings s0 (Z.to_nat nrings) [] eq_refl
             ltac:(unfold is_uint32 in Hn; simpl; lia) s1 Hf1).
Qed.

Section BuiltRecursion.

Variable rec : M (option LWGEOM).

(** What an activation returns is a well-formed geometry. *)
Hypothesis rec_wf :
  yields (fun _ => True) rec
         (fun r _ => forall g, r = Some g -> wf_geom g = true).

Lemma call_wf (c : call_site) (s : wkb_parse_state) :
  match call c rec s with
  | Ret r _ => forall g, r = Some g -> wf_geom g = true
  | _ => True
  end.
Proof.
  unfold call. unfold bind at 1, modify at 1. unfold bind at 1.
  pose proof (rec_wf (s := set_stack (enter c (stack s)) s) I) as Hr.
  destruct (rec _) as [r s1| | |]; try exact I.
  unfold bind, modify, ret. exact Hr.
Qed.

Lemma yields_lwcurvepoly_rings (sr : Z) (hz hm : bool) (k : nat) :
  forall rings : list LWGEOM,
    all_geoms wf_geom rings = true ->
    Z.of_nat (length rings) + Z.of_nat k < 4294967296 ->
    yields (fun _ => True)
           (lwcurvepoly_rings_from_wkb_state rec k
              (LWCURVEPOLY sr hz hm rings))
           (fun r _ => forall g,
                r = Some g -> built_as CURVEPOLYTYPE sr hz hm g).
Proof.
  induction k as [|k IH]; intros rings Hw Hk s _;
    cbn [lwcurvepoly_rings_from_wkb_state].
  - cbn [ret]. intros g H. injection H as <-. unfold built_as.
    cbn [lwgeom_type lwgeom_srid lwgeom_has_z lwgeom_has_m wf_geom].
    repeat split. rewrite Hw.
    destruct (Z.ltb_spec (Z.of_nat (length rings)) 4294967296); [|lia].
    reflexivity.
  - unfold bind at 1. pose proof (call_wf FromRing s) as Hc.
    destruct (call FromRing rec s) as [geom s1| | |]; try exact I.
    destruct geom as [r|]; cbn [lwcurvepoly_add_ring];
      [|apply lwerror_no_geometry].
    destruct (lwcurvepoly_allows_ring (lwgeom_type r));
      [|apply lwerror_no_geometry].
    apply IH; [|rewrite length_app; cbn [length]; lia|exact I].
    apply all_geoms_Forall. apply Forall_app. split.
    + apply all_geoms_Forall. exact Hw.
    + constructor; [apply Hc; reflexivity|constructor].
Qed.

Lemma yields_lwcollection_geoms (t : lwtype_t) (sr : Z) (hz hm : bool)
  (k : nat) :
  is_collection_kind t = true ->
  forall geoms : list LWGEOM,
    all_geoms wf_geom geoms = true ->
    Z.of_nat (length geoms) + Z.of_nat k < 4294967296 ->
    yields (fun _ => True)
           (lwcollection_geoms_from_wkb_state rec k
              (LWCOLLECTION t sr hz hm geoms))
           (fun r _ => forall g, r = Some g -> built_as t sr hz hm g).
Proof.
  intros Ht.
  induction k as [|k IH]; intros geoms Hw Hk s _;
    cbn [lwcollection_geoms_from_wkb_state].
  - cbn [ret]. intros g H. injection H as <-. unfold built_as.
    cbn [lwgeom_type lwgeom_srid lwgeom_has_z lwgeom_has_m wf_geom].
    repeat split. rewrite Hw, Ht.
    destruct (Z.ltb_spec (Z.of_nat (length geoms)) 4294967296); [|lia].
    reflexivity.
  - unfold bind at 1. pose proof (call_wf FromCollection s) as Hc.
    destruct (call FromCollection rec s) as [geom s1| | |]; try exact I.
    destruct geom as [r|]; cbn [lwcollection_add_lwgeom];
      [|apply lwerror_no_geometry].
    destruct (lwcollection_allows_subtype t (lwgeom_type r));
      [|apply lwerror_no_geometry].
    apply IH; [|rewrite length_app; cbn [length]; lia|exact I].
    apply all_geoms_Forall. apply Forall_app. split.
    + apply all_geoms_Forall. exact Hw.
    + constructor; [apply Hc; reflexivity|constructor].
Qed.

Lemma yields_lwcurvepoly (s0 : wkb_parse_state) :
  yields (frame s0) (lwcurvepoly_from_wkb_state rec)
         (fun r _ => forall g, r = Some g -> built s0 CURVEPOLYTYPE g).
Proof.
  intros s Hs. unfold lwcurvepoly_from_wkb_state. unfold bind at 1.
  pose proof (@yields_integer s0 s Hs) as Hi.
  destruct (integer_from_wkb_state s) as [n s1| | |]; try exact I.
  destruct Hi as [Hf1 Hn].
  destruct (frame_fields Hf1) as (_ & Hsr & _ & _ & _ & _ & Hz & Hm & _).
  unfold bind at 1, gets at 1. destruct (error s1); [no_geometry|].
  unfold bind at 1, gets at 1. unfold bind at 1, gets at 1.
  unfold bind at 1, gets at 1. cbv zeta.
  unfold lwcurvepoly_construct_empty. rewrite Hsr, Hz, Hm.
  destruct (n =? 0).
  - apply (@yields_lwcurvepoly_rings (srid s0) (has_z s0) (has_m s0) 0 []
             eq_refl ltac:(simpl; lia) s1 I).
  - apply (@yields_lwcurvepoly_rings (srid s0) (has_z s0) (has_m s0)
             (Z.to_nat n) [] eq_refl
             ltac:(unfold is_uint32 in Hn; simpl; lia) s1 I).
Qed.

Lemma yields_lwcollection (s0 : wkb_parse_state) :
  is_collection_kind (lwtype s0) = true ->
  yields (frame s0) (lwcollection_from_wkb_state rec)
         (fun r _ => forall g, r = Some g -> built s0 (lwtype s0) g).
Proof.
  intros Ht s Hs. unfold lwcollection_from_wkb_state. unfold bind at 1.
  pose proof (@yields_integer s0 s Hs) as Hi.
  destruct (integer_from_wkb_state s) as [n s1| | |]; try exact I.
  destruct Hi as [Hf1 Hn].
  destruct (frame_fields Hf1)
    as (_ & Hsr & _ & _ & _ & Hty & Hz & Hm & _).
  unfold bind at 1, gets at 1. destruct (error s1); [no_geometry|].
  unfold bind at 1, gets at 1. unfold bind at 1, gets at 1.
  unfold bind at 1, gets at 1. unfold bind at 1, gets at 1. cbv zeta.
  unfold lwcollection_construct_empty. rewrite Hty, Hsr, Hz, Hm.
  destruct (n =? 0).
  { apply (@yields_lwcollection_geoms (lwtype s0) (srid s0) (has_z s0)
             (has_m s0) 0 Ht [] eq_refl ltac:(simpl; lia) s1 I). }
  unfold bind at 1.
  destruct (when _ _ s1) as [[] s2| | |] eqn:Hw; try exact I.
  unfold bind at 1, modify at 1. unfold bind at 1, gets at 1.
  destruct (_ >=? LW_PARSER_MAX_DEPTH); [apply lwerror_no_geometry|].
  unfold bind at 1.
  match goal with
  | |- context [lwcollection_geoms_from_wkb_state rec ?k ?c ?st] =>
      pose proof (@yields_lwcollection_geoms (lwtype s0) (srid s0)
                    (has_z s0) (has_m s0) k Ht [] eq_refl
                    ltac:(unfold is_uint32 in Hn; simpl; lia) st I) as Hl;
      destruct (lwcollection_geoms_from_wkb_state rec k c st)
        as [r s3| | |]; try exact I
  end.
  destruct r as [col|]; [|no_geometry].
  unfold bind, modify, ret. intros g H. injection H as <-.
  apply Hl. reflexivity.
Qed.

Lemma dispatch_built (s0 : wkb_parse_state) :
  match lwgeom_dispatch rec s0 with
  | Ret r _ => forall g, r = Some g -> built s0 (lwtype s0) g
  | _ => True
  end.
Proof.
  unfold lwgeom_dispatch. unfold bind at 1, gets at 1.
  pose proof (frame_refl s0) as Hf.
  pose proof (fun H => @yields_lwcollection s0 H s0 Hf) as Hcol.
  revert Hcol.
  destruct (lwtype s0); intros Hcol;
    first
      [ apply lwerror_no_geometry
      | apply (@yields_lwpoint s0 s0 Hf)
      | apply (@yields_lwline s0 s0 Hf)
      | apply (@yields_lwpoly s0 s0 Hf)
      | apply (@yields_lwcircstring s0 s0 Hf)
      | apply (@yields_lwtriangle s0 s0 Hf)
      | apply (@yields_lwcurvepoly s0 s0 Hf)
      | apply Hcol; reflexivity ].
Qed.

Lemma body_wf :
  yields (fun _ => True) (lwgeom_from_wkb_state_body rec)
         (fun r _ => forall g, r = Some g -> wf_geom g = true).
Proof.
  assert (Hd : forall s,
            match lwgeom_dispatch rec s with
            | Ret r _ => forall g, r = Some g -> wf_geom g = true
            | _ => True
            end).
  { intros s. pose proof (dispatch_built s) as H.
    destruct (lwgeom_dispatch rec s) as [r s1| | |]; try exact I.
    intros g Hg. destruct (H g Hg) as (_ & _ & _ & _ & Hw). exact Hw. }
  intros s _. unfold lwgeom_from_wkb_state_body. unfold bind at 1.
  destruct (byte_from_wkb_state s) as [b s1| | |]; try exact I.
  unfold bind at 1, gets at 1. destruct (error s1); [no_geometry|].
  destruct (negb (b =? 1) && negb (b =? 0)); [apply lwerror_no_geometry|].
  unfold bind at 1, modify at 1. unfold bind at 1.
  match goal with
  | |- context [match ?m ?st with _ => _ end] =>
      destruct (m st) as [[] s2| | |]; try exact I
  end.
  unfold bind at 1.
  destruct (integer_from_wkb_state s2) as [ty s3| | |]; try exact I.
  unfold bind at 1, gets at 1. destruct (error s3); [no_geometry|].
  unfold bind at 1.
  destruct (lwtype_from_wkb_state ty s3) as [[] s4| | |]; try exact I.
  unfold bind at 1, gets at 1.
  destruct (has_srid s4); [|apply Hd].
  unfold bind at 1.
  destruct (integer_from_wkb_state s4) as [v s5| | |]; try exact I.
  unfold bind at 1, modify at 1. unfold bind at 1, gets at 1.
  destruct (error _); [no_geometry|apply Hd].
Qed.

End BuiltRecursion.

Lemma lwgeom_from_wkb_state_wf (fuel : nat) :
  yields (fun _ => True) (lwgeom_from_wkb_state fuel)
         (fun r _ => forall g, r = Some g -> wf_geom g = true).
Proof.
  induction fuel as [|fuel IH]; cbn [lwgeom_from_wkb_state].
  - intros s _. exact I.
  - apply body_wf. exact IH.
Qed.

(** Whatever the bytes, a geometry that [lwgeom_from_wkb] returns is well
    formed, and so is every geometry under it: each point array holds as
    many coordinates as its count and the dimension flags of its geometry
    call for, a point has one point or none, the point, ring and member
    counts fit [uint32_t], and every collection struct carries the type of
    a collection. *)
Theorem lwgeom_from_wkb_well_formed (buf : list byte) (size chk : Z)
  (g : LWGEOM) :
  returned (lwgeom_from_wkb buf size chk) = Some g -> wf_geom g = true.
Proof.
  unfold lwgeom_from_wkb, lwgeom_from_wkb_fuel.
  destruct (size =? 0); [intros H; discriminate H|].
  unfold call. unfold bind at 1, modify at 1. unfold bind at 1.
  match goal with
  | |- context [lwgeom_from_wkb_state ?f ?st] =>
      pose proof (@lwgeom_from_wkb_state_wf f st I) as Hw;
      destruct (lwgeom_from_wkb_state f st) as [r s1| | |];
      try (intros H; discriminate H)
  end.
  unfold bind, modify, ret. cbn [returned]. apply Hw.
Qed.

(** A geometry decoded from a buffer that starts with a header is the
    geometry that the header announces, whatever bytes follow: it has the
    kind of the type number, the Z and M flags of the type code, and the
    SRID of the header passed through [clamp_srid], or [SRID_UNKNOWN] when
    the header has none. *)
Theorem decoded_geometry_matches_header (e : endian) (t : lwtype_t) (sr : Z)
  (hz hm hs : bool) (rest : list byte) (chk : Z) (g : LWGEOM) :
  t <> LWTYPE_NONE ->
  let buf := wkb_header e t sr hz hm hs ++ rest in
  returned (lwgeom_from_wkb buf (Z.of_nat (length buf)) chk) = Some g ->
  lwgeom_type g = t /\
  lwgeom_has_z g = hz /\ lwgeom_has_m g = hm /\
  lwgeom_get_srid (Some g)
  = (if hs then clamp_srid (int32_of_uint32 (uint32 sr)) else SRID_UNKNOWN)
  /\ lwgeom_has_srid g
     = negb ((if hs then clamp_srid (int32_of_uint32 (uint32 sr))
              else SRID_UNKNOWN) =? SRID_UNKNOWN).
Proof.
  intros Ht buf.
  destruct (@lwgeom_from_wkb_header _ e t sr hz hm hs rest chk Ht)
    as [Hrun _].
  fold buf in Hrun. rewrite Hrun. clear Hrun.
  match goal with
  | |- context [lwgeom_dispatch ?rec] =>
      match goal with
      | |- context [bind _ _ ?st] =>
          pose proof (@dispatch_built rec
                        (@lwgeom_from_wkb_state_wf _) st) as Hb
      end
  end.
  unfold bind at 1.
  match type of Hb with
  | match ?m with _ => _ end => destruct m as [r s1| | |]
  end; try (intros H; discriminate H).
  unfold bind, modify, ret. cbn [returned]. intros Hg.
  destruct (Hb g Hg) as (H1 & H2 & H3 & H4 & _).
  unfold lwgeom_has_srid, lwgeom_get_srid. rewrite H2.
  split; [exact H1|]. split; [exact H3|]. split; [exact H4|].
  destruct hs; split; reflexivity.
Qed.

End Built.

Lemma lwgeom_from_wkb_well_formed_witness : wf_geom line_2 = true.
Proof.
  apply (@lwgeom_from_wkb_well_formed host (lwgeom_to_wkb NDR false line_2)
           41 1 line_2).
  vm_compute. reflexivity.
Defined.

Lemma decoded_geometry_matches_header_witness :
  let g := LWLINE 4326 false false
             (mkPOINTARRAY false false 2
                [0; 0; 0x3FF0000000000000; 0x4000000000000000]) in
  lwgeom_type g = LINETYPE /\
  lwgeom_has_z g = false /\ lwgeom_has_m g = false /\
  @lwgeom_get_srid host (Some g)
  = @clamp_srid host (int32_of_uint32 (uint32 4326)) /\
  @lwgeom_has_srid host g
  = negb (@clamp_srid host (int32_of_uint32 (uint32 4326))
          =? @SRID_UNKNOWN host).
Proof.
  apply (@decoded_geometry_matches_header host NDR LINETYPE 4326
           false false true
           (wkb_uint32 NDR 2
            ++ wkb_doubles NDR
                 [0; 0; 0x3FF0000000000000; 0x4000000000000000])
           0).
  - discriminate.
  - vm_compute. reflexivity.
Defined.

(* ================================================================== *)
(** ** Reading back what was written                                    *)
(* ================================================================== *)

Lemma canonical_ptarray_spec (hz hm : bool) (pa : POINTARRAY) :
  canonical_ptarray hz hm pa = true ->
  pa = mkPOINTARRAY hz hm (npoints pa) (serialized_pointlist pa) /\
  0 <= npoints pa <= maxpoints /\
  length (serialized_pointlist pa)
  = Z.to_nat (npoints pa * count_ndims hz hm) /\
  Forall is_double (serialized_pointlist pa).
Proof.
  unfold canonical_ptarray. intros H.
  apply andb_true_iff in H. destruct H as [H Hw].
  apply andb_true_iff in H. destruct H as [H Hmax].
  apply andb_true_iff in H. destruct H as [Hz Hm].
  apply Bool.eqb_prop in Hz, Hm. apply Z.leb_le in Hmax.
  destruct (@wf_ptarray_spec hz hm pa Hw) as ([H0 _] & Hl & Hd).
  split; [destruct pa; simpl in *; subst; reflexivity|].
  split; [lia|]. split; assumption.
Qed.

Section ReadBack.

Context {E : liblwgeom}.

Variable e : endian.

Lemma ptarray_read_back (s : wkb_parse_state) (pa : POINTARRAY)
  (rest : list byte) :
  view s (wkb_ptarray e pa ++ rest) ->
  error s = false -> swap_bytes s = swap_for e ->
  canonical_ptarray (has_z s) (has_m s) pa = true ->
  ptarray_from_wkb_state s
  = Ret (Some pa)
        (set_pos (pos s + Z.of_nat (length (wkb_ptarray e pa))) s).
Proof.
  intros Hv He Hsw Hc.
  destruct (@canonical_ptarray_spec _ _ pa Hc) as (Hpa & Hn & Hl & Hd).
  unfold wkb_ptarray in Hv. rewrite <- app_assoc in Hv.
  rewrite (@ptarray_from_wkb_state_view _ s e _ _ rest Hv He Hsw Hn Hl Hd).
  rewrite <- Hpa. do 2 f_equal.
  unfold wkb_ptarray, wkb_uint32.
  rewrite length_app, length_wkb_field, length_wkb_doubles. lia.
Qed.

(** None of the checks of lines, circular strings and rings is requested
    in [s]. *)
#[local] Abbreviation calm s :=
  (check_requested (check s) LW_PARSER_CHECK_MINPOINTS = false /\
   check_requested (check s) LW_PARSER_CHECK_ODD = false /\
   check_requested (check s) LW_PARSER_CHECK_CLOSURE = false).

(** The state behind [body]. *)
#[local] Abbreviation behind body s :=
  (set_pos (pos s + Z.of_nat (length (body : list byte))) s).

Lemma canonical_ptarray_empty (hz hm : bool) (pa : POINTARRAY) :
  canonical_ptarray hz hm pa = true -> npoints pa = 0 ->
  pa = ptarray_construct hz hm 0 [].
Proof.
  intros Hc H0. destruct (@canonical_ptarray_spec _ _ pa Hc) as (Hpa & _ & Hl & _).
  rewrite H0 in Hl. rewrite Z.mul_0_l in Hl. cbn in Hl.
  rewrite Hpa, H0. destruct (serialized_pointlist pa); [reflexivity|].
  discriminate Hl.
Qed.

Lemma lwline_read_back (s : wkb_parse_state) (pa : POINTARRAY)
  (rest : list byte) :
  view s (wkb_ptarray e pa ++ rest) ->
  error s = false -> swap_bytes s = swap_for e -> calm s ->
  canonical_ptarray (has_z s) (has_m s) pa = true ->
  lwline_from_wkb_state s
  = Ret (Some (LWLINE (srid s) (has_z s) (has_m s) pa))
        (behind (wkb_ptarray e pa) s).
Proof.
  intros Hv He Hsw (Hmin & _ & _) Hc.
  unfold lwline_from_wkb_state. unfold bind at 1.
  rewrite (@ptarray_read_back s pa rest Hv He Hsw Hc).
  unfold bind at 1, gets at 1. cbn [error set_pos]. rewrite He.
  do 4 (unfold bind at 1, gets at 1). cbn [srid has_z has_m check set_pos].
  destruct (Z.eqb_spec (npoints pa) 0) as [H0|H0].
  - unfold ret, lwline_construct_empty.
    rewrite <- (@canonical_ptarray_empty _ _ pa Hc H0). reflexivity.
  - rewrite Hmin. cbn [andb]. unfold ret, lwline_construct.
    destruct (@canonical_ptarray_spec _ _ pa Hc) as (Hpa & _).
    rewrite Hpa at 1 2. reflexivity.
Qed.

Lemma lwcircstring_read_back (s : wkb_parse_state) (pa : POINTARRAY)
  (rest : list byte) :
  view s (wkb_ptarray e pa ++ rest) ->
  error s = false -> swap_bytes s = swap_for e -> calm s ->
  canonical_ptarray (has_z s) (has_m s) pa = true ->
  lwcircstring_from_wkb_state s
  = Ret (Some (LWCIRCSTRING (srid s) (has_z s) (has_m s) pa))
        (behind (wkb_ptarray e pa) s).
Proof.
  intros Hv He Hsw (Hmin & Hodd & _) Hc.
  unfold lwcircstring_from_wkb_state. unfold bind at 1.
  rewrite (@ptarray_read_back s pa rest Hv He Hsw Hc).
  unfold bind at 1, gets at 1. cbn [error set_pos]. rewrite He.
  do 4 (unfold bind at 1, gets at 1). cbn [srid has_z has_m check set_pos].
  destruct (Z.eqb_spec (npoints pa) 0) as [H0|H0].
  - unfold ret, lwcircstring_construct_empty.
    rewrite <- (@canonical_ptarray_empty _ _ pa Hc H0). reflexivity.
  - rewrite Hmin, Hodd. cbn [andb]. unfold ret, lwcircstring_construct.
    destruct (@canonical_ptarray_spec _ _ pa Hc) as (Hpa & _).
    rewrite Hpa at 1 2. reflexivity.
Qed.

Lemma behind_app (b1 b2 : list byte) (s : wkb_parse_state) :
  behind b2 (behind b1 s) = behind (b1 ++ b2) s.
Proof.
  rewrite length_app, Nat2Z.inj_add. destruct s; unfold set_pos; simpl.
  f_equal. lia.
Qed.

Lemma behind_nil (s : wkb_parse_state) : behind [] s = s.
Proof. destruct s; unfold set_pos; simpl. f_equal. lia. Qed.

Lemma view_behind (s : wkb_parse_state) (bs rest : list byte) :
  view s (bs ++ rest) -> view (behind bs s) rest.
Proof. apply view_advance. Qed.

Lemma uint32_view (s : wkb_parse_state) (v : Z) (rest : list byte) :
  view s (wkb_uint32 e v ++ rest) -> error s = false ->
  swap_bytes s = swap_for e -> is_uint32 v ->
  integer_from_wkb_state s = Ret v (behind (wkb_uint32 e v) s).
Proof.
  intros Hv He Hsw Hu.
  rewrite (@integer_from_wkb_state_view _ s e v rest Hv He Hsw Hu).
  unfold wkb_uint32. rewrite length_wkb_field. reflexivity.
Qed.

Lemma lwtriangle_read_back (s : wkb_parse_state) (pa : POINTARRAY)
  (rest : list byte) :
  let body := if npoints pa =? 0 then wkb_uint32 e 0
              else wkb_uint32 e 1 ++ wkb_ptarray e pa in
  view s (body ++ rest) ->
  error s = false -> swap_bytes s = swap_for e -> calm s ->
  canonical_ptarray (has_z s) (has_m s) pa = true ->
  (npoints pa =? 0) || ptarray_is_closed_z pa = true ->
  lwtriangle_from_wkb_state s
  = Ret (Some (LWTRIANGLE (srid s) (has_z s) (has_m s) pa)) (behind body s).
Proof.
  intros body Hv He Hsw (Hmin & _ & _) Hc Hcl. subst body.
  unfold lwtriangle_from_wkb_state. unfold bind at 1.
  destruct (Z.eqb_spec (npoints pa) 0) as [H0|H0].
  - rewrite (@uint32_view s 0 rest Hv He Hsw ltac:(unfold is_uint32; lia)).
    unfold bind at 1, gets at 1. cbn [error set_pos]. rewrite He.
    do 3 (unfold bind at 1, gets at 1). cbn [srid has_z has_m set_pos].
    change (0 =? 0) with true. cbv iota.
    unfold ret, lwtriangle_construct_empty.
    rewrite <- (@canonical_ptarray_empty _ _ pa Hc H0). reflexivity.
  - rewrite <- app_assoc in Hv.
    rewrite (@uint32_view s 1 _ Hv He Hsw ltac:(unfold is_uint32; lia)).
    unfold bind at 1, gets at 1. cbn [error set_pos]. rewrite He.
    do 3 (unfold bind at 1, gets at 1).
    change (1 =? 0) with false. change (negb (1 =? 1)) with false.
    cbv iota.
    pose proof (@view_behind s _ _ Hv) as Hv1.
    unfold bind at 1.
    rewrite (@ptarray_read_back _ pa rest Hv1 He Hsw Hc).
    rewrite behind_app.
    do 4 (unfold bind at 1, gets at 1).
    cbn [srid has_z has_m check set_pos].
    rewrite Hmin. cbn [andb orb] in *. rewrite Hcl. cbn [negb andb].
    rewrite Bool.andb_false_r.
    unfold ret, lwtriangle_construct.
    destruct (@canonical_ptarray_spec _ _ pa Hc) as (Hpa & _).
    rewrite Hpa at 1 2. reflexivity.
Qed.

Lemma behind_doubles (ds : list double) (s : wkb_parse_state) :
  behind (wkb_doubles e ds) s
  = set_pos (pos s + 8 * Z.of_nat (length ds)) s.
Proof. rewrite length_wkb_doubles, Nat2Z.inj_mul. reflexivity. Qed.

Lemma lwpoint_read_back (s : wkb_parse_state) (sr : Z) (pa : POINTARRAY)
  (rest : list byte) :
  let body := wkb_doubles e
                (if npoints pa =? 0
                 then repeat wkb_nan
                        (Z.to_nat (count_ndims (has_z s) (has_m s)))
                 else serialized_pointlist pa) in
  view s (body ++ rest) ->
  error s = false -> swap_bytes s = swap_for e ->
  canonical (LWPOINT sr (has_z s) (has_m s) pa) = true ->
  lwpoint_from_wkb_state s
  = Ret (Some (LWPOINT (srid s) (has_z s) (has_m s) pa)) (behind body s).
Proof.
  intros body Hv He Hsw Hc. subst body. cbn [canonical] in Hc.
  apply andb_true_iff in Hc. destruct Hc as [Hc Hp].
  destruct (@canonical_ptarray_spec _ _ pa Hc) as (Hpa & Hn & Hl & Hd).
  pose proof (count_ndims_range (has_z s) (has_m s)) as Hnd.
  destruct (Z.eqb_spec (npoints pa) 0) as [H0|H0].
  - rewrite (@lwpoint_from_wkb_state_view _ s e _ rest Hv He Hsw).
    + rewrite behind_doubles.
      assert (Hnan : isnan (nth 0 (repeat wkb_nan
                      (Z.to_nat (count_ndims (has_z s) (has_m s)))) 0)
                     && isnan (nth 1 (repeat wkb_nan
                      (Z.to_nat (count_ndims (has_z s) (has_m s)))) 0)
                     = true).
      { destruct (Z.to_nat (count_ndims (has_z s) (has_m s)))
          as [|[|k]] eqn:Hk; [lia|lia|reflexivity]. }
      rewrite Hnan. unfold lwpoint_construct_empty.
      rewrite <- (@canonical_ptarray_empty _ _ pa Hc H0). reflexivity.
    + apply repeat_length.
    + apply Forall_forall. intros d Hin. apply repeat_spec in Hin.
      subst d. unfold is_double, wkb_nan. lia.
  - cbn [orb] in Hp. apply andb_true_iff in Hp. destruct Hp as [H1 Hnan].
    apply Z.eqb_eq in H1. apply negb_true_iff in Hnan.
    rewrite H1, Z.mul_1_l in Hl.
    rewrite (@lwpoint_from_wkb_state_view _ s e _ rest Hv He Hsw Hl Hd).
    rewrite behind_doubles.
    unfold getPoint2d_x, getPoint2d_y in Hnan. rewrite Hnan.
    unfold lwpoint_construct. cbn [pa_has_z pa_has_m].
    rewrite <- H1. rewrite <- Hpa. reflexivity.
Qed.

Lemma lwpoly_rings_read_back (sr : Z) (hz hm : bool) :
  forall (rings done : list POINTARRAY) (s : wkb_parse_state)
         (rest : list byte),
    view s (concat (map (wkb_ptarray e) rings) ++ rest) ->
    error s = false -> swap_bytes s = swap_for e -> calm s ->
    forallb (canonical_ptarray (has_z s) (has_m s)) rings = true ->
    lwpoly_rings_from_wkb_state (length rings) (LWPOLY sr hz hm done) s
    = Ret (Some (LWPOLY sr hz hm (done ++ rings)))
          (behind (concat (map (wkb_ptarray e) rings)) s).
Proof.
  induction rings as [|r rings IH]; intros done s rest Hv He Hsw Hcalm Hc.
  - cbn [length lwpoly_rings_from_wkb_state map concat].
    rewrite behind_nil, app_nil_r. reflexivity.
  - cbn [length lwpoly_rings_from_wkb_state map concat] in *.
    cbn [forallb] in Hc. apply andb_true_iff in Hc. destruct Hc as [Hr Hc].
    rewrite <- app_assoc in Hv.
    unfold bind at 1.
    rewrite (@ptarray_read_back s r _ Hv He Hsw Hr).
    unfold bind at 1, gets at 1. cbn [check set_pos].
    destruct Hcalm as (Hmin & Hodd & Hclo).
    rewrite Hmin, Hclo. cbn [andb lwpoly_add_ring].
    pose proof (@view_behind s _ _ Hv) as Hv1.
    rewrite (IH (done ++ [r]) _ rest Hv1 He Hsw
               (conj Hmin (conj Hodd Hclo)) Hc).
    rewrite behind_app, <- app_assoc. reflexivity.
Qed.

Lemma lwpoly_read_back (s : wkb_parse_state) (rings : list POINTARRAY)
  (rest : list byte) :
  let body := wkb_uint32 e (Z.of_nat (length rings))
              ++ concat (map (wkb_ptarray e) rings) in
  view s (body ++ rest) ->
  error s = false -> swap_bytes s = swap_for e -> calm s ->
  Z.of_nat (length rings) < 4294967296 ->
  forallb (canonical_ptarray (has_z s) (has_m s)) rings = true ->
  lwpoly_from_wkb_state s
  = Ret (Some (LWPOLY (srid s) (has_z s) (has_m s) rings)) (behind body s).
Proof.
  intros body Hv He Hsw Hcalm Hlen Hc. subst body.
  rewrite <- app_assoc in Hv.
  unfold lwpoly_from_wkb_state. unfold bind at 1.
  rewrite (@uint32_view s _ _ Hv He Hsw ltac:(unfold is_uint32; lia)).
  unfold bind at 1, gets at 1. cbn [error set_pos]. rewrite He.
  do 3 (unfold bind at 1, gets at 1). cbn [srid has_z has_m set_pos].
  cbv zeta. unfold lwpoly_construct_empty.
  pose proof (@view_behind s _ _ Hv) as Hv1.
  destruct (Z.eqb_spec (Z.of_nat (length rings)) 0) as [H0|H0].
  - destruct rings; [|cbn [length] in H0; lia].
    cbn [map concat]. rewrite app_nil_r. reflexivity.
  - rewrite Nat2Z.id.
    rewrite (@lwpoly_rings_read_back _ _ _ rings [] _ rest Hv1 He Hsw
               Hcalm Hc).
    rewrite behind_app. reflexivity.
Qed.

Lemma is_collection_kind_tagged (t : lwtype_t) :
  is_collection_kind t = true ->
  lwtype_is_collection t = true /\ t <> LWTYPE_NONE.
Proof.
  destruct t; simpl; intros H; first [discriminate H|split; [reflexivity|discriminate]].
Qed.

Lemma activations_member (l : list LWGEOM) (g : LWGEOM) :
  In g l ->
  (activations g
   <= fold_right (fun c acc => Nat.max (activations c) acc) 0 l)%nat.
Proof.
  induction l as [|c l IH]; intros Hin; [destruct Hin|].
  cbn [fold_right]. destruct Hin as [->|Hin]; [lia|].
  specialize (IH Hin). lia.
Qed.

Variable chk : Z.
Hypothesis chk_quiet : quiet chk.

(** The check flags are those of the caller, with the [ZCLOSURE] bit of a
    polyhedral surface or without it. *)
#[local] Abbreviation kept s :=
  (check s = chk \/ check s = Z.lor chk LW_PARSER_CHECK_ZCLOSURE).

Lemma kept_calm (s : wkb_parse_state) : kept s -> calm s.
Proof.
  intros H. apply chk_quiet. destruct H as [->| ->]; [left|right]; reflexivity.
Qed.

Lemma kept_zclosure (s : wkb_parse_state) :
  kept s -> kept (set_check (Z.lor (check s) LW_PARSER_CHECK_ZCLOSURE) s).
Proof.
  intros [H|H]; right; cbn [check set_check]; rewrite H;
    [reflexivity|].
  rewrite <- Z.lor_assoc, Z.lor_diag. reflexivity.
Qed.

(** What is known of the state between two geometries: the bytes in front
    of the position, no error, the check flags, the depth and the SRID. *)
#[local] Abbreviation at_ s rest d sr :=
  (view s rest /\ error s = false /\ kept s /\ depth s = d /\ srid s = sr).

(** The geometry [g], written without a SRID, is read back from any state
    with enough budget, as [g] with the SRID of the state. *)
#[local] Abbreviation reads_back g :=
  (canonical g = true -> accepted g = true ->
   forall (hs : bool) (fuel : nat) (s : wkb_parse_state) (rest : list byte)
          (d : Z),
     Nat.le (activations g) fuel -> fits_depth d g = true -> 1 <= d ->
     at_ s (lwgeom_to_wkb e hs g ++ rest) d (srid s) ->
     let sr' := if hs then clamp_srid
                             (int32_of_uint32 (uint32 (lwgeom_srid g)))
                else srid s in
     exists s',
       lwgeom_from_wkb_state fuel s
       = Ret (Some (lwgeom_set_srid g sr')) s' /\
       at_ s' rest d sr').

(** The state in which the [switch] is reached, after the header. *)
Lemma after_header (rec : M (option LWGEOM)) (s : wkb_parse_state)
  (t : lwtype_t) (sr : Z) (hz hm hs : bool) (body rest : list byte)
  (d : Z) :
  t <> LWTYPE_NONE ->
  at_ s ((wkb_header e t sr hz hm hs ++ body) ++ rest) d (srid s) ->
  let sr' := if hs then clamp_srid (int32_of_uint32 (uint32 sr))
             else srid s in
  exists sh,
    lwgeom_from_wkb_state_body rec s = lwgeom_dispatch rec sh /\
    at_ sh (body ++ rest) d sr' /\
    swap_bytes sh = swap_for e /\ lwtype sh = t /\
    has_z sh = hz /\ has_m sh = hm.
Proof.
  intros Ht (Hv & He & Hk & Hd & _) sr'.
  rewrite <- app_assoc in Hv.
  destruct (@lwgeom_from_wkb_state_body_header _ rec s e t sr hz hm hs
              (body ++ rest) Hv He Ht) as [Hb Hv'].
  cbv zeta in Hb, Hv'.
  eexists. split; [exact Hb|].
  split; [|repeat split].
  split; [exact Hv'|]. split; [exact He|]. split; [exact Hk|].
  split; [exact Hd|]. subst sr'. destruct hs; reflexivity.
Qed.

Lemma at_behind (s : wkb_parse_state) (body rest : list byte) (d sr : Z) :
  at_ s (body ++ rest) d sr -> at_ (behind body s) rest d sr.
Proof.
  intros (Hv & He & Hk & Hd & Hs).
  split; [apply view_behind; exact Hv|]. repeat split; assumption.
Qed.

Ltac at_split :=
  refine (conj _ (conj _ (conj _ (conj _ _))));
  first [assumption|reflexivity].

Lemma call_read_back (c : call_site) (fuel : nat) (g : LWGEOM)
  (s : wkb_parse_state) (rest : list byte) (d : Z) :
  reads_back g ->
  canonical g = true -> accepted g = true ->
  Nat.le (activations g) fuel -> fits_depth d g = true -> 1 <= d ->
  at_ s (lwgeom_to_wkb e false g ++ rest) d (srid s) ->
  exists s',
    call c (lwgeom_from_wkb_state fuel) s
    = Ret (Some (lwgeom_set_srid g (srid s))) s' /\
    at_ s' rest d (srid s).
Proof.
  intros Hg Hc Ha Hf Hd H1 Hat.
  unfold call. unfold bind at 1, modify at 1. unfold bind at 1.
  destruct (Hg Hc Ha false fuel (set_stack (enter c (stack s)) s) rest d
              Hf Hd H1 Hat) as (s1 & Hrun & Hv & He & Hk & Hd1 & Hs).
  cbv zeta in Hrun. cbn [srid set_stack] in Hrun, Hs. rewrite Hrun.
  unfold bind, modify, ret. eexists. split; [reflexivity|].
  at_split.
Qed.

Lemma lwcollection_geoms_read_back (fuel : nat) (t : lwtype_t) (sr : Z)
  (hz hm : bool) (d : Z) :
  1 <= d ->
  forall geoms : list LWGEOM,
    Forall (fun g => reads_back g) geoms ->
    forall (done : list LWGEOM) (s : wkb_parse_state) (rest : list byte),
      all_geoms canonical geoms = true ->
      all_geoms (fun c => lwcollection_allows_subtype t (lwgeom_type c)
                          && accepted c) geoms = true ->
      all_geoms (fits_depth d) geoms = true ->
      Forall (fun g => Nat.le (activations g) fuel) geoms ->
      at_ s (concat (map (lwgeom_to_wkb e false) geoms) ++ rest) d sr ->
      exists s',
        lwcollection_geoms_from_wkb_state (lwgeom_from_wkb_state fuel)
          (length geoms) (LWCOLLECTION t sr hz hm done) s
        = Ret (Some (LWCOLLECTION t sr hz hm
                       (done ++ map (fun g => lwgeom_set_srid g sr) geoms)))
              s' /\
        at_ s' rest d sr.
Proof.
  intros H1.
  induction 1 as [|g geoms Hg _ IH];
    intros done s rest Hc Ha Hd Hf Hat;
    cbn [length lwcollection_geoms_from_wkb_state map concat].
  - rewrite app_nil_r. eexists. split; [reflexivity|exact Hat].
  - cbn [all_geoms] in Hc, Ha, Hd. cbn [map concat] in Hat.
    apply andb_true_iff in Hc. destruct Hc as [Hcg Hc].
    apply andb_true_iff in Ha. destruct Ha as [Hag Ha].
    apply andb_true_iff in Hag. destruct Hag as [Hallow Hag].
    apply andb_true_iff in Hd. destruct Hd as [Hdg Hd].
    inversion Hf as [|? ? Hfg Hf']; subst.
    destruct Hat as (Hv & He & Hk & Hds & Hsr).
    rewrite <- app_assoc in Hv.
    assert (Hat1 : at_ s (lwgeom_to_wkb e false g
                          ++ concat (map (lwgeom_to_wkb e false) geoms)
                          ++ rest) d (srid s))
      by at_split.
    destruct (@call_read_back FromCollection fuel g s _ d Hg Hcg Hag Hfg
                Hdg H1 Hat1) as (s1 & Hrun & Hat2).
    unfold bind at 1. rewrite Hrun. rewrite Hsr in *.
    cbn [lwcollection_add_lwgeom].
    rewrite lwgeom_type_set_srid, Hallow.
    destruct (IH (done ++ [lwgeom_set_srid g sr]) s1 rest Hc Ha Hd Hf' Hat2)
      as (s2 & Hrun2 & Hat3).
    rewrite Hrun2. rewrite <- app_assoc. eexists. split; [reflexivity|].
    exact Hat3.
Qed.

Lemma lwcurvepoly_rings_read_back (fuel : nat) (sr : Z) (hz hm : bool)
  (d : Z) :
  1 <= d ->
  forall rings : list LWGEOM,
    Forall (fun g => reads_back g) rings ->
    forall (done : list LWGEOM) (s : wkb_parse_state) (rest : list byte),
      all_geoms canonical rings = true ->
      all_geoms (fun r => lwcurvepoly_allows_ring (lwgeom_type r)
                          && accepted r) rings = true ->
      all_geoms (fits_depth d) rings = true ->
      Forall (fun g => Nat.le (activations g) fuel) rings ->
      at_ s (concat (map (lwgeom_to_wkb e false) rings) ++ rest) d sr ->
      exists s',
        lwcurvepoly_rings_from_wkb_state (lwgeom_from_wkb_state fuel)
          (length rings) (LWCURVEPOLY sr hz hm done) s
        = Ret (Some (LWCURVEPOLY sr hz hm
                       (done ++ map (fun g => lwgeom_set_srid g sr) rings)))
              s' /\
        at_ s' rest d sr.
Proof.
  intros H1.
  induction 1 as [|g rings Hg _ IH];
    intros done s rest Hc Ha Hd Hf Hat;
    cbn [length lwcurvepoly_rings_from_wkb_state map concat].
  - rewrite app_nil_r. eexists. split; [reflexivity|exact Hat].
  - cbn [all_geoms] in Hc, Ha, Hd. cbn [map concat] in Hat.
    apply andb_true_iff in Hc. destruct Hc as [Hcg Hc].
    apply andb_true_iff in Ha. destruct Ha as [Hag Ha].
    apply andb_true_iff in Hag. destruct Hag as [Hallow Hag].
    apply andb_true_iff in Hd. destruct Hd as [Hdg Hd].
    inversion Hf as [|? ? Hfg Hf']; subst.
    destruct Hat as (Hv & He & Hk & Hds & Hsr).
    rewrite <- app_assoc in Hv.
    assert (Hat1 : at_ s (lwgeom_to_wkb e false g
                          ++ concat (map (lwgeom_to_wkb e false) rings)
                          ++ rest) d (srid s))
      by at_split.
    destruct (@call_read_back FromRing fuel g s _ d Hg Hcg Hag Hfg
                Hdg H1 Hat1) as (s1 & Hrun & Hat2).
    unfold bind at 1. rewrite Hrun. rewrite Hsr in *.
    cbn [lwcurvepoly_add_ring].
    rewrite lwgeom_type_set_srid, Hallow.
    destruct (IH (done ++ [lwgeom_set_srid g sr]) s1 rest Hc Ha Hd Hf' Hat2)
      as (s2 & Hrun2 & Hat3).
    rewrite Hrun2. rewrite <- app_assoc. eexists. split; [reflexivity|].
    exact Hat3.
Qed.

Lemma Forall_activations (l : list LWGEOM) (fuel : nat) :
  Nat.le (S (fold_right (fun c acc => Nat.max (activations c) acc) 0%nat l))
         (S fuel) ->
  Forall (fun g => Nat.le (activations g) fuel) l.
Proof.
  intros H. apply Forall_forall. intros g Hin.
  pose proof (activations_member l g Hin). unfold Nat.le in *. lia.
Qed.

Lemma lwcollection_read_back (fuel : nat) (t : lwtype_t) (sr0 sr : Z)
  (hz hm : bool) (geoms : list LWGEOM) (sh : wkb_parse_state)
  (rest : list byte) (d : Z) :
  Forall (fun g => reads_back g) geoms ->
  canonical (LWCOLLECTION t sr0 hz hm geoms) = true ->
  accepted (LWCOLLECTION t sr0 hz hm geoms) = true ->
  fits_depth d (LWCOLLECTION t sr0 hz hm geoms) = true -> 1 <= d ->
  Forall (fun g => Nat.le (activations g) fuel) geoms ->
  at_ sh ((wkb_uint32 e (Z.of_nat (length geoms))
           ++ concat (map (lwgeom_to_wkb e false) geoms)) ++ rest) d sr ->
  swap_bytes sh = swap_for e -> lwtype sh = t ->
  has_z sh = hz -> has_m sh = hm ->
  exists s',
    lwcollection_from_wkb_state (lwgeom_from_wkb_state fuel) sh
    = Ret (Some (LWCOLLECTION t sr hz hm
                   (map (fun g => lwgeom_set_srid g sr) geoms))) s' /\
    at_ s' rest d sr.
Proof.
  intros Hall Hc Ha Hd H1 Hf (Hv & He & Hk & Hds & Hsr) Hsw Hty Hz Hm.
  cbn [canonical] in Hc.
  apply andb_true_iff in Hc. destruct Hc as [Hc Hcg].
  apply andb_true_iff in Hc. destruct Hc as [Hkind Hlen].
  apply Z.ltb_lt in Hlen. cbn [accepted] in Ha.
  rewrite <- app_assoc in Hv.
  unfold lwcollection_from_wkb_state. unfold bind at 1.
  rewrite (@uint32_view sh _ _ Hv He Hsw ltac:(unfold is_uint32; lia)).
  pose proof (@view_behind sh _ _ Hv) as Hv1.
  set (s1 := behind (wkb_uint32 e (Z.of_nat (length geoms))) sh) in *.
  unfold bind at 1, gets at 1. change (error s1) with (error sh).
  rewrite He.
  do 4 (unfold bind at 1, gets at 1).
  change (lwtype s1) with (lwtype sh). change (srid s1) with (srid sh).
  change (has_z s1) with (has_z sh). change (has_m s1) with (has_m sh).
  rewrite Hty, Hsr, Hz, Hm. cbv zeta.
  unfold lwcollection_construct_empty.
  destruct geoms as [|g0 geoms0] eqn:Hgeoms.
  { cbn [length Z.of_nat Z.eqb map concat app] in *.
    eexists. split; [reflexivity|]. at_split. }
  rewrite <- Hgeoms in *.
  assert (Hnz : (Z.of_nat (length geoms) =? 0) = false).
  { apply Z.eqb_neq. rewrite Hgeoms. cbn [length]. lia. }
  rewrite Hnz.
  assert (Hdd : d + 1 < LW_PARSER_MAX_DEPTH /\
                all_geoms (fits_depth (d + 1)) geoms = true).
  { rewrite Hgeoms in Hd |- *. cbn [fits_depth] in Hd.
    apply andb_true_iff in Hd. destruct Hd as [Hd1 Hd2].
    apply Z.ltb_lt in Hd1. split; assumption. }
  destruct Hdd as [Hd1 Hd2]. unfold LW_PARSER_MAX_DEPTH in Hd1.
  unfold bind at 1.
  set (s2 := if lwtype_eqb t POLYHEDRALSURFACETYPE
             then set_check (Z.lor (check s1) LW_PARSER_CHECK_ZCLOSURE) s1
             else s1).
  assert (Hwhen : when (lwtype_eqb t POLYHEDRALSURFACETYPE)
                    (modify (fun s =>
                       set_check (Z.lor (check s) LW_PARSER_CHECK_ZCLOSURE)
                                 s)) s1
                  = Ret tt s2).
  { subst s2. destruct (lwtype_eqb t POLYHEDRALSURFACETYPE); reflexivity. }
  rewrite Hwhen.
  assert (Hk2 : kept s2).
  { subst s2. destruct (lwtype_eqb t POLYHEDRALSURFACETYPE);
      [apply kept_zclosure|]; exact Hk. }
  assert (Hs2 : view s2 (concat (map (lwgeom_to_wkb e false) geoms) ++ rest)
                /\ error s2 = false /\ depth s2 = d /\ srid s2 = sr).
  { subst s2. destruct (lwtype_eqb t POLYHEDRALSURFACETYPE);
      (split; [exact Hv1|]); repeat split; assumption. }
  destruct Hs2 as (Hv2 & He2 & Hd2' & Hsr2).
  unfold bind at 1, modify at 1. unfold bind at 1, gets at 1.
  cbn [depth set_depth]. rewrite Hd2'.
  assert (Hu : uint8 (d + 1) = d + 1)
    by (unfold uint8; apply Z.mod_small; lia).
  rewrite Hu.
  destruct (Z.geb_spec (d + 1) LW_PARSER_MAX_DEPTH) as [Hge|_];
    [unfold LW_PARSER_MAX_DEPTH in Hge; lia|].
  set (s3 := set_depth (d + 1) s2).
  assert (Hat3 : at_ s3 (concat (map (lwgeom_to_wkb e false) geoms) ++ rest)
                     (d + 1) sr) by at_split.
  rewrite Nat2Z.id.
  destruct (@lwcollection_geoms_read_back fuel t sr hz hm (d + 1)
              ltac:(lia) geoms Hall [] s3 rest Hcg Ha Hd2 Hf Hat3)
    as (s4 & Hrun & (Hv4 & He4 & Hk4 & Hd4 & Hsr4)).
  unfold bind at 1. rewrite Hrun. cbn [app].
  unfold bind, modify, ret. eexists. split; [reflexivity|].
  refine (conj _ (conj _ (conj _ (conj _ _)))); try assumption.
  cbn [depth set_depth]. rewrite Hd4. unfold uint8.
  rewrite Z.mod_small by lia. lia.
Qed.

Lemma lwcurvepoly_read_back (fuel : nat) (sr0 sr : Z)
  (hz hm : bool) (rings : list LWGEOM) (sh : wkb_parse_state)
  (rest : list byte) (d : Z) :
  Forall (fun g => reads_back g) rings ->
  canonical (LWCURVEPOLY sr0 hz hm rings) = true ->
  accepted (LWCURVEPOLY sr0 hz hm rings) = true ->
  fits_depth d (LWCURVEPOLY sr0 hz hm rings) = true -> 1 <= d ->
  Forall (fun g => Nat.le (activations g) fuel) rings ->
  at_ sh ((wkb_uint32 e (Z.of_nat (length rings))
           ++ concat (map (lwgeom_to_wkb e false) rings)) ++ rest) d sr ->
  swap_bytes sh = swap_for e ->
  has_z sh = hz -> has_m sh = hm ->
  exists s',
    lwcurvepoly_from_wkb_state (lwgeom_from_wkb_state fuel) sh
    = Ret (Some (LWCURVEPOLY sr hz hm
                   (map (fun g => lwgeom_set_srid g sr) rings))) s' /\
    at_ s' rest d sr.
Proof.
  intros Hall Hc Ha Hd H1 Hf (Hv & He & Hk & Hds & Hsr) Hsw Hz Hm.
  cbn [canonical] in Hc.
  apply andb_true_iff in Hc. destruct Hc as [Hlen Hcg].
  apply Z.ltb_lt in Hlen. cbn [accepted] in Ha. cbn [fits_depth] in Hd.
  rewrite <- app_assoc in Hv.
  unfold lwcurvepoly_from_wkb_state. unfold bind at 1.
  rewrite (@uint32_view sh _ _ Hv He Hsw ltac:(unfold is_uint32; lia)).
  pose proof (@view_behind sh _ _ Hv) as Hv1.
  set (s1 := behind (wkb_uint32 e (Z.of_nat (length rings))) sh) in *.
  unfold bind at 1, gets at 1. change (error s1) with (error sh).
  rewrite He.
  do 3 (unfold bind at 1, gets at 1).
  change (srid s1) with (srid sh).
  change (has_z s1) with (has_z sh). change (has_m s1) with (has_m sh).
  rewrite Hsr, Hz, Hm. cbv zeta.
  unfold lwcurvepoly_construct_empty.
  assert (Hat1 : at_ s1 (concat (map (lwgeom_to_wkb e false) rings) ++ rest)
                     d sr) by at_split.
  destruct (Z.eqb_spec (Z.of_nat (length rings)) 0) as [H0|H0].
  { destruct rings; [|cbn [length] in H0; lia].
    cbn [map concat app] in *. eexists. split; [reflexivity|exact Hat1]. }
  rewrite Nat2Z.id.
  destruct (@lwcurvepoly_rings_read_back fuel sr hz hm d H1 rings Hall []
              s1 rest Hcg Ha Hd Hf Hat1) as (s4 & Hrun & Hat4).
  rewrite Hrun. cbn [app]. eexists. split; [reflexivity|exact Hat4].
Qed.

Lemma lwgeom_from_wkb_state_reads_back (g : LWGEOM) : reads_back g.
Proof.
  induction g as [sr0 hz hm pa|sr0 hz hm pa|sr0 hz hm pa|sr0 hz hm pa
                  |sr0 hz hm rings|sr0 hz hm rings IH|t sr0 hz hm geoms IH]
    using LWGEOM_tree_ind;
    intros Hc Ha hs fuel s rest d Hf Hd H1 Hat sr';
    (destruct fuel as [|fuel]; [cbn in Hf; unfold Nat.le in Hf; lia|]);
    cbn [lwgeom_from_wkb_state]; cbn [lwgeom_to_wkb] in Hat;
    cbn [lwgeom_srid] in sr'; cbn [lwgeom_set_srid].
  - (* Point *)
    destruct (@after_header (lwgeom_from_wkb_state fuel) s POINTTYPE sr0
                hz hm hs _ rest d ltac:(discriminate) Hat)
      as (sh & Hb & Hat' & Hsw & Hty & Hz & Hm).
    rewrite Hb. unfold lwgeom_dispatch, bind at 1, gets at 1.
    rewrite Hty. cbv iota.
    destruct Hat' as (Hv & He & Hk & Hds & Hsr).
    rewrite <- Hz, <- Hm in Hv, Hc.
    rewrite (@lwpoint_read_back sh sr0 pa rest Hv He Hsw Hc).
    rewrite Hsr, Hz, Hm. eexists. split; [reflexivity|].
    apply at_behind. rewrite <- Hz, <- Hm. at_split.
  - (* LineString *)
    destruct (@after_header (lwgeom_from_wkb_state fuel) s LINETYPE sr0
                hz hm hs _ rest d ltac:(discriminate) Hat)
      as (sh & Hb & Hat' & Hsw & Hty & Hz & Hm).
    rewrite Hb. unfold lwgeom_dispatch, bind at 1, gets at 1.
    rewrite Hty. cbv iota.
    destruct Hat' as (Hv & He & Hk & Hds & Hsr).
    cbn [canonical] in Hc. rewrite <- Hz, <- Hm in Hc.
    rewrite (@lwline_read_back sh pa rest Hv He Hsw (@kept_calm sh Hk) Hc).
    rewrite Hsr, Hz, Hm. eexists. split; [reflexivity|].
    apply at_behind. at_split.
  - (* CircularString *)
    destruct (@after_header (lwgeom_from_wkb_state fuel) s CIRCSTRINGTYPE
                sr0 hz hm hs _ rest d ltac:(discriminate) Hat)
      as (sh & Hb & Hat' & Hsw & Hty & Hz & Hm).
    rewrite Hb. unfold lwgeom_dispatch, bind at 1, gets at 1.
    rewrite Hty. cbv iota.
    destruct Hat' as (Hv & He & Hk & Hds & Hsr).
    cbn [canonical] in Hc. rewrite <- Hz, <- Hm in Hc.
    rewrite (@lwcircstring_read_back sh pa rest Hv He Hsw (@kept_calm sh Hk) Hc).
    rewrite Hsr, Hz, Hm. eexists. split; [reflexivity|].
    apply at_behind. at_split.
  - (* Triangle *)
    destruct (@after_header (lwgeom_from_wkb_state fuel) s TRIANGLETYPE
                sr0 hz hm hs _ rest d ltac:(discriminate) Hat)
      as (sh & Hb & Hat' & Hsw & Hty & Hz & Hm).
    rewrite Hb. unfold lwgeom_dispatch, bind at 1, gets at 1.
    rewrite Hty. cbv iota.
    destruct Hat' as (Hv & He & Hk & Hds & Hsr).
    cbn [canonical] in Hc. apply andb_true_iff in Hc.
    destruct Hc as [Hc Hcl]. rewrite <- Hz, <- Hm in Hc.
    rewrite (@lwtriangle_read_back sh pa rest Hv He Hsw (@kept_calm sh Hk) Hc
               Hcl).
    rewrite Hsr, Hz, Hm. eexists. split; [reflexivity|].
    apply at_behind. at_split.
  - (* Polygon *)
    destruct (@after_header (lwgeom_from_wkb_state fuel) s POLYGONTYPE
                sr0 hz hm hs _ rest d ltac:(discriminate) Hat)
      as (sh & Hb & Hat' & Hsw & Hty & Hz & Hm).
    rewrite Hb. unfold lwgeom_dispatch, bind at 1, gets at 1.
    rewrite Hty. cbv iota.
    destruct Hat' as (Hv & He & Hk & Hds & Hsr).
    cbn [canonical] in Hc. apply andb_true_iff in Hc.
    destruct Hc as [Hlen Hc]. apply Z.ltb_lt in Hlen.
    rewrite <- Hz, <- Hm in Hc.
    rewrite (@lwpoly_read_back sh rings rest Hv He Hsw (@kept_calm sh Hk) Hlen
               Hc).
    rewrite Hsr, Hz, Hm. eexists. split; [reflexivity|].
    apply at_behind. at_split.
  - (* CurvePolygon *)
    destruct (@after_header (lwgeom_from_wkb_state fuel) s CURVEPOLYTYPE
                sr0 hz hm hs _ rest d ltac:(discriminate) Hat)
      as (sh & Hb & Hat' & Hsw & Hty & Hz & Hm).
    rewrite Hb. unfold lwgeom_dispatch, bind at 1, gets at 1.
    rewrite Hty. cbv iota.
    cbn [activations] in Hf.
    apply (@lwcurvepoly_read_back fuel sr0 sr' hz hm rings sh rest d IH
             Hc Ha Hd H1 (@Forall_activations rings fuel Hf) Hat' Hsw Hz Hm).
  - (* the collections *)
    pose proof Hc as Hkind. cbn [canonical] in Hkind.
    apply andb_true_iff in Hkind. destruct Hkind as [Hkind _].
    apply andb_true_iff in Hkind. destruct Hkind as [Hkind _].
    destruct (@is_collection_kind_tagged t Hkind) as [Htag Hnone].
    destruct (@after_header (lwgeom_from_wkb_state fuel) s t
                sr0 hz hm hs _ rest d Hnone Hat)
      as (sh & Hb & Hat' & Hsw & Hty & Hz & Hm).
    rewrite Hb. unfold lwgeom_dispatch, bind at 1, gets at 1.
    rewrite Hty, Htag.
    cbn [activations] in Hf.
    pose proof (@lwcollection_read_back fuel t sr0 sr' hz hm geoms sh rest d
                  IH Hc Ha Hd H1 (@Forall_activations geoms fuel Hf) Hat' Hsw Hty
                  Hz Hm) as Hrun.
    destruct t; try discriminate Hkind; exact Hrun.
Qed.

End ReadBack.

(** [lwgeom_from_wkb] reads back what was written.  Take a geometry that
    the decoder can build and whose containers accept their children, with
    collections nested less than [LW_PARSER_MAX_DEPTH] deep, and write it in
    WKB or EWKB, in either byte order, with the SRID in the header of the
    outermost geometry or without it.  With none of the MINPOINTS, ODD and
    CLOSURE checks requested, the decoder consumes the whole buffer without
    an error and returns the same geometry, with one SRID set throughout as
    by [lwgeom_set_srid]: the SRID of the header passed through
    [clamp_srid], or [SRID_UNKNOWN] when the header has none. *)
Theorem lwgeom_from_wkb_reads_back {E : liblwgeom} (e : endian)
  (hs : bool) (g : LWGEOM) (chk : Z) :
  quiet chk ->
  canonical g = true -> accepted g = true -> fits_depth 1 g = true ->
  let buf := lwgeom_to_wkb e hs g in
  let sr := if hs then clamp_srid (int32_of_uint32 (uint32 (lwgeom_srid g)))
            else SRID_UNKNOWN in
  exists s,
    lwgeom_from_wkb buf (Z.of_nat (length buf)) chk
    = Ret (Some (lwgeom_set_srid g sr)) s /\
    pos s = Z.of_nat (length buf) /\ error s = false.
Proof.
  intros Hq Hc Ha Hd buf sr.
  pose proof (lwgeom_to_wkb_nonempty e hs g) as Hne. fold buf in Hne.
  pose proof (lwgeom_from_wkb_total buf (Z.of_nat (length buf)) chk) as Ht.
  set (fuel := Nat.max (S (Z.to_nat (Z.of_nat (length buf))))
                       (activations g)).
  rewrite <- (@lwgeom_from_wkb_fuel_more _ fuel buf (Z.of_nat (length buf))
                chk ltac:(subst fuel; lia)) in Ht |- *.
  unfold lwgeom_from_wkb_fuel in *.
  destruct (Z.eqb_spec (Z.of_nat (length buf)) 0) as [?|_]; [lia|].
  unfold call in *. unfold bind at 1, modify at 1 in Ht.
  unfold bind at 1, modify at 1. unfold bind at 1 in Ht. unfold bind at 1.
  set (s0 := set_stack _ _) in *.
  assert (Hat : view s0 (lwgeom_to_wkb e hs g ++ []) /\ error s0 = false /\
                (check s0 = chk \/
                 check s0 = Z.lor chk LW_PARSER_CHECK_ZCLOSURE) /\
                depth s0 = 1 /\ srid s0 = srid s0).
  { split; [rewrite app_nil_r; apply view_initial|].
    split; [reflexivity|]. split; [left; reflexivity|].
    split; reflexivity. }
  destruct (@lwgeom_from_wkb_state_reads_back _ e chk Hq g Hc Ha hs fuel s0
              [] 1 ltac:(subst fuel; unfold Nat.le; lia) Hd ltac:(lia) Hat)
    as (s1 & Hrun & Hv & He & _).
  cbv zeta in Hrun. change (srid s0) with SRID_UNKNOWN in Hrun.
  fold sr in Hrun. rewrite Hrun in Ht |- *.
  unfold bind, modify, ret in Ht |- *. cbn [wkb_size set_stack] in Ht.
  eexists. split; [reflexivity|].
  cbn [pos error set_stack]. split; [|exact He].
  destruct Hv as ([Hlo Hhi] & Hsk & Hsz).
  assert (Hl : length (skipn (Z.to_nat (pos s1)) (wkb s1)) = 0%nat)
    by (rewrite Hsk; reflexivity).
  rewrite length_skipn in Hl. lia.
Qed.

Lemma lwgeom_from_wkb_reads_back_witness :
  let g := LWCOLLECTION COLLECTIONTYPE 4326 false false
             [point_0_0; line_2;
              LWCOLLECTION MULTIPOINTTYPE 0 false false [point_0_0]] in
  let buf := lwgeom_to_wkb XDR true g in
  let sr := @clamp_srid host (int32_of_uint32 (uint32 (lwgeom_srid g))) in
  exists s,
    @lwgeom_from_wkb host buf (Z.of_nat (length buf)) 0
    = Ret (Some (lwgeom_set_srid g sr)) s /\
    pos s = Z.of_nat (length buf) /\ error s = false.
Proof.
  apply (@lwgeom_from_wkb_reads_back host XDR true
           (LWCOLLECTION COLLECTIONTYPE 4326 false false
              [point_0_0; line_2;
               LWCOLLECTION MULTIPOINTTYPE 0 false false [point_0_0]]) 0).
  - intros c [->| ->]; vm_compute; repeat split; reflexivity.
  - vm_compute. reflexivity.
  - vm_compute. reflexivity.
  - vm_compute. reflexivity.
Defined.

(* ================================================================== *)
(** ** Dimension flags of a type number                                 *)
(* ================================================================== *)

Lemma high_bit_clear (w bit : Z) :
  Z.land 0xF0000000 bit = bit -> Z.land w 0xF0000000 = 0 ->
  Z.land w bit = 0.
Proof.
  intros Hb Hw. rewrite <- Hb, Z.land_assoc, Hw. apply Z.land_0_l.
Qed.

(** [lwtype_from_wkb_state] takes the dimensions from both notations: a
    type number has Z with the EWKB bit 0x80000000 or in the ISO ranges
    1000 and 3000, M with the bit 0x40000000 or in the ISO ranges 2000 and
    3000, and a SRID with the bit 0x20000000; the kind is that of the
    number modulo 1000.  Kind and flags are all that changes in the parse
    state. *)
Theorem lwtype_from_wkb_state_dimensions {E : liblwgeom} (wkb_type : Z)
  (s : wkb_parse_state) (t : lwtype_t) :
  let masked := Z.land wkb_type 0x0FFFFFFF in
  masked < 4000 ->
  lwtype_of_simple_type (masked mod 1000) = Some t ->
  lwtype_from_wkb_state wkb_type s
  = Ret tt
      (mkState (wkb s) (srid s) (wkb_size s) (swap_bytes s) (check s) t
         (negb (Z.land wkb_type WKBZOFFSET =? 0)
          || (1000 <=? masked) && (masked <? 2000) || (3000 <=? masked))
         (negb (Z.land wkb_type WKBMOFFSET =? 0) || (2000 <=? masked))
         (negb (Z.land wkb_type WKBSRIDFLAG =? 0))
         (error s) (depth s) (pos s) (stack s)).
Proof.
  intros masked Hlt Ht. unfold lwtype_from_wkb_state, extended_flags.
  fold masked. cbv zeta. rewrite Ht.
  destruct (Z.geb_spec masked 4000) as [?|_]; [lia|].
  assert (Hhigh : Z.land wkb_type 0xF0000000 = 0 ->
                  Z.land wkb_type WKBZOFFSET = 0 /\
                  Z.land wkb_type WKBMOFFSET = 0 /\
                  Z.land wkb_type WKBSRIDFLAG = 0).
  { intros H. repeat split; apply high_bit_clear; try exact H; reflexivity. }
  unfold bind, modify, when, ret.
  destruct (Z.eqb_spec (Z.land wkb_type 0xF0000000) 0) as [H0|H0];
    cbn [negb].
  - destruct (Hhigh H0) as (Hz & Hm & Hs). rewrite Hz, Hm, Hs.
    cbn [Z.eqb negb orb].
    destruct (Z.geb_spec masked 3000), (Z.geb_spec masked 2000),
      (Z.geb_spec masked 1000), (Z.ltb_spec masked 4000),
      (Z.ltb_spec masked 3000), (Z.ltb_spec masked 2000),
      (Z.leb_spec 1000 masked), (Z.leb_spec 2000 masked),
      (Z.leb_spec 3000 masked); try lia; reflexivity.
  - destruct (Z.land wkb_type WKBZOFFSET =? 0),
      (Z.land wkb_type WKBMOFFSET =? 0),
      (Z.land wkb_type WKBSRIDFLAG =? 0); cbn [negb orb];
    destruct (Z.geb_spec masked 3000), (Z.geb_spec masked 2000),
      (Z.geb_spec masked 1000), (Z.ltb_spec masked 4000),
      (Z.ltb_spec masked 3000), (Z.ltb_spec masked 2000),
      (Z.leb_spec 1000 masked), (Z.leb_spec 2000 masked),
      (Z.leb_spec 3000 masked); try lia; reflexivity.
Qed.

Lemma lwtype_from_wkb_state_dimensions_witness :
  @lwtype_from_wkb_state host 0x20000BBA (@initial_state host [] 0 0)
  = Ret tt
      (mkState [] (@SRID_UNKNOWN host) 0 false 0 LINETYPE
         true true true false 1 0 (mkCallStack 0 0 0 0)).
Proof.
  apply (@lwtype_from_wkb_state_dimensions host 0x20000BBA
           (@initial_state host [] 0 0) LINETYPE).
  - vm_compute. reflexivity.
  - vm_compute. reflexivity.
Defined.

(* ================================================================== *)
(** ** The collection that holds a kind                                 *)
(* ================================================================== *)

(** Whatever kind [lwtype_get_collectiontype] is asked about, its answer
    is the kind of a collection: [lwtype_is_collection] holds of it, it is
    never a curve polygon or a compound curve (the two kinds with children
    that are no MULTI kinds), and asked about its own answer the function
    says GEOMETRYCOLLECTION. *)
Theorem lwtype_get_collectiontype_is_collection (t : lwtype_t) :
  lwtype_is_collection (lwtype_get_collectiontype t) = true /\
  lwtype_get_collectiontype t <> CURVEPOLYTYPE /\
  lwtype_get_collectiontype t <> COMPOUNDTYPE /\
  lwtype_get_collectiontype (lwtype_get_collectiontype t) = COLLECTIONTYPE.
Proof.
  destruct t; cbn; repeat split; discriminate.
Qed.
